(* ===== verification/_CoqProject ===== *)
-Q . S2P
Prelude.v
Types.v
GoStrings.v
Prog.v
OrderedMap.v
Mvcc.v
MvccSpec.v
Memory.v
MemoryProofs.v
MemoryTheorems.v
MemoryWatch.v
Backend.v
Server.v
ServerProofs.v
ServerTheorems.v
Watch.v
WatchProofs.v
Sql.v
SqlLog.v
SqlProofs.v
LogStructured.v
LogProofs.v
LogTheorems.v
SqlTheorems.v
LogWatch.v
SqlPoll.v
Ttl.v
TtlProofs.v
Broadcaster.v
Transaction.v
T4.v
NatsCodec.v
ExpireHeap.v
ExpireWatch.v
NatsKv.v
NatsBackend.v
NatsIndex.v
NatsProofs.v
NatsBucket.v
NatsList.v
NatsWait.v
NatsTheorems.v
NatsWatch.v
NatsRuns.v
NatsReady.v
Stack.v
StackSql.v
StackList.v
SqlCompactor.v
Reflector.v
StackNats.v
Client.v
Objects.v
Selectors.v
SqlMeta.v
SqlMetaProofs.v
SqlTables.v
SelectList.v
SqlSetup.v
SqlSetupProofs.v
SqlVariants.v
SqlVariantsProofs.v
StreamCheck.v
Streams.v
StreamProofs.v
StreamConfig.v
Config.v
Services.v
Dialer.v
Until.v
NatsNew.v
NatsLogger.v
Endpoint.v
SqlConfig.v
SqlOpen.v
App.v
Process.v
Drivers.v
Query.v
