(* ===== verification/Prelude.v ===== *)
(** * HariKube: a verification library (root file)

    HariKube is a shim that speaks the etcd v3 API and stores its data in a
    database chosen by the user.  This library models the Go code under
    [src/pkg] that decides what a client reads, what a write does and what a
    watcher sees, and proves it against one abstract store; and the code around
    it that opens the databases and starts the server.

    ** The program and the files that model it

    A request enters through the front end, goes to a storage backend, and a
    write comes back to watchers through a log of events.

<<
    client (client.go) --etcd API--> front end (server/*.go)
                                        |  server.Backend
         +---------------+--------------+---------------+
         |               |              |               |
      memory.go   logstructured.go   t4/backend.go   nats/backend.go
                         |  Log                         |
                      sqllog/sql.go                  nats/kv.go (a JetStream bucket)
                         |  server.Dialect      (poll -> broadcaster.go -> watchers,
                         |                              streams/drivers/register.go)
                    generic.go, tx.go, helpers.go, sqlite.go, mysql.go, pgsql.go
                    (the tables kine, kine_labels, kine_fields, kine_owners)
      ttl/ttl.go: expiry goroutines in front of any backend
      transaction/transaction.go: a wrapper in front of any backend
      streams/kafka.go: messages of a topic become calls of the backend
      util/selector.go: what is read from Kubernetes objects

    app.go --settings--> endpoint.go --scheme--> drivers/registry.go --> a driver's New
>>

    The abstract store and the shared ground:
    - [Prelude] (this file): 64-bit arithmetic, errors, the state monad, traces,
      string order, list lemmas, the hint database [kine], [simp], [b2p].
    - [Types]: [KeyValue], [Event], [InRange] (server/types.go).
    - [GoStrings]: Go's string functions and decimal conversions.
    - [Prog]: handlers as trees of calls of a shared store; [run] is a call
      alone, [exec] a call with other clients' calls in between.
    - [OrderedMap]: the interface of the third-party ordered map with its
      laws, and the scan over it.
    - [Mvcc]: the abstract store as a list of writes: [view] (the value of a
      key at a revision), listing, trimming (compaction) and their laws.
    - [MvccSpec]: the contract of a storage backend as a transition system on
      a history, a current and a compact revision.

    The front end:
    - [Backend]: the interface [server.Backend] as the calls [bop], the class
      [BackendLaws] of what a backend promises, the in-memory driver as an
      instance of it.
    - [Server], [ServerProofs], [ServerTheorems]: server/kv.go, limited.go,
      create.go, delete.go, update.go, compact.go, put.go, get.go, list.go and
      parts of maintenance.go, lease.go and cluster.go; proved against
      [BackendLaws].  [Services]: every registered method of the gRPC services.
    - [Watch], [WatchProofs]: server/watch.go.
    - [Stack]: the front end over a backend that itself makes several calls of a
      store shared with other processes ([inline]), against the laws
      [SharedBackendLaws]; [StackSql] and [StackNats] are its two instances,
      [StackList] lists through the whole stack, [Reflector] is the client that
      lists and then watches.

    Storage backends:
    - [Memory], [MemoryProofs], [MemoryTheorems], [MemoryWatch]:
      drivers/memory/memory.go, its simulation by [MvccSpec], its guarantees,
      its watch goroutine.
    - [Sql], [SqlLog], [SqlProofs], [SqlTheorems]: drivers/generic/generic.go
      with the compaction statement of drivers/sqlite/sqlite.go, and
      logstructured/sqllog/sql.go.  [SqlPoll]: its poller, [SqlCompactor]: its
      compactor goroutine.
    - [LogStructured], [LogProofs], [LogTheorems], [LogWatch]:
      logstructured/logstructured.go.
    - [Objects]: util/selector.go.  [Selectors]: the clauses of selectors
      (drivers/generic/helpers.go) and the filter of events
      (logstructured/sqllog/helpers.go).
    - [SqlMeta], [SqlMetaProofs], [SqlTables], [SelectList]: the complete
      [Insert] of generic.go with the metadata transaction of tx.go, the
      invariant of the four tables, and lists with label selectors.
    - [SqlSetup], [SqlSetupProofs], [SqlVariants], [SqlVariantsProofs]: the
      schemas and set-up of the SQL drivers, and what mysql.go and pgsql.go do
      differently.  [SqlConfig]: data source names.  [SqlOpen]:
      the connection and its attempts.  [Query]: query/query.go and the text
      of the statements.
    - [NatsCodec]: drivers/nats/codec.go.
    - [NatsKv]: drivers/nats/kv.go over the calls of a JetStream bucket, with
      the index of operations; [NatsBackend]: drivers/nats/backend.go;
      [ExpireHeap], [ExpireWatch]: drivers/nats/expire_watcher.go; [NatsWait],
      [NatsReady]: the wait for the index and its start.  [NatsIndex],
      [NatsProofs], [NatsList], [NatsTheorems], [NatsWatch]: their theorems;
      [NatsBucket], [NatsRuns]: a bucket in memory and the theorems at concrete
      inputs.  [NatsNew]: nats/new.go and nats/server; [NatsLogger]:
      nats/logger.go.
    - [T4]: drivers/t4.
    - [Ttl], [TtlProofs]: ttl/ttl.go.  [Broadcaster]: broadcaster/broadcaster.go.
      [Transaction]: drivers/transaction/transaction.go.

    Around them:
    - [Client]: client/client.go.
    - [StreamCheck]: streams/helper.go.  [Streams],
      [StreamProofs], [StreamConfig]: streams/kafka.go and
      streams/drivers/register.go.
    - [Config]: drivers/registry.go, factory.go, t4/t4.go, nats/config.go, and
      parts of endpoint.go.  [Endpoint]: [Listen].  [App]: app/app.go.
      [Process]: signals, metrics.  [Drivers]: the constructors of the SQL
      drivers and the schemes that are linked in.  [Dialer]: dialer/dialer.go.
      [Until]: util/wait.go and the interval of progress reports.

    ** How the code is read

    An [int64] is a [Z]; where the code could overflow, [wrap64] is written
    out, and the theorems carry the bound they need.  A pointer is an [option],
    an [error] a [gerr].  A panic is a result of its own ([Prog.Panic]).  A
    method that holds a lock for its whole body is one atomic function; a
    method that makes several calls of a store is a [prog], and between two
    calls anything the environment relation of the theorem allows may happen;
    a goroutine is a step relation; a procedure that only acts on the process
    around it is a trace of its actions.  The end of a context is an event where
    the code waits for it, and is left out elsewhere, as are logging and most
    metrics.  Third-party code is a parameter (a class or a section variable),
    its documented behaviour a named hypothesis; what a library, a server or the
    network answers at one call is a parameter of that call.

    ** What the theorems show

    - The whole stack: create, update and delete transactions of the front end,
      over the SQL log and over NATS (a bucket with one replica), take effect at
      one moment however the calls of other processes are placed between those
      of the table or the stream ([stack_update], [stack_create],
      [stack_delete]); what becomes of a value that cannot be stored is stated
      with them; a list is a snapshot ([stack_list_snapshot]); a client that lists and then watches
      holds the values of the store at every revision its watch has passed, as
      long as the poller skips no revision ([list_watch_reflects]).
    - Storage: the in-memory driver is simulated by the contract
      ([memory_refines]); listings and counts are the live keys of a snapshot;
      a compare-and-swap succeeds once; reads are repeatable until compacted.
      The SQL table, read as a history, behaves the same: lists
      ([sqllog_list_correct]), one compaction transaction and the loop of them
      ([sql_compact_transaction], [compact_iter_correct], [compact_iter_total]),
      and the compactor that runs it leaves the revisions of its last interval
      alone ([compactor_keeps_interval]).
    - Writes under concurrency: the methods of the log-structured backend take
      effect at one moment against other writers of the table, thanks to the
      unique index ([ls_create_linearizable] and its like; a value that does not
      decode is refused, by an update as if its comparison had failed), and so do the front
      end's transactions over any backend that keeps [BackendLaws]
      ([txn_create_linearizable] and its like).
    - Watches: nothing is lost, repeated or reordered by the in-memory
      goroutine, the poller of the SQL log ([sqllog_poll_run], the rows of
      revisions skipped after their second excepted), the broadcaster, the log-structured watch and the front end's streams, each
      under the conditions its theorem states; a caller that waits for the
      poller is released ([sqllog_sync_ends]).
    - Lease expiry: only expired versions are deleted, the seed covers every
      leased key, and no queued key is forgotten; the heap of the NATS driver
      stays a heap, its goroutine misses no wake-up, every entry that is not
      removed is handed out and none before its time ([expire_gets_called],
      [expire_calls_exact]).
    - The NATS driver: its writes take effect at one moment among other clients
      ([nats_update_linearizable] and its like), and what they read is current
      on a bucket with one replica, where a listing at an indexed revision is the
      snapshot ([nats_list_snapshot]); a watch is delivered the keys of its
      directory and no others ([nats_watch_delivers]); the index answers like
      the whole stream as far as it reaches back ([nats_index_lookup]), and is
      ready only after it has replayed the stream ([nats_ready_replayed]).
      Opening it ends and does its steps in order ([nats_open_ends],
      [nats_open_outcome]); the log adapter changes nothing
      ([logger_transparent]).
    - Objects and their metadata in SQL: the complete [Insert] is that of [Sql]
      and adds the object's labels, fields and owners
      ([insert_metadata_refines]), is all or nothing whatever is collected with
      it ([insert_all_or_nothing]) and keeps the tables well formed, as filling
      and compaction do ([sql_tables_typed]); a list with a label selector shows the rows whose
      object matches, as the filter of events does ([selected_list_exact],
      [list_watch_agree]); every statement gets as many arguments as it has
      parameters ([selector_params_bound], [listing_query_params]).
    - The SQL drivers: each set-up leaves the tables and indexes of its schema,
      and those of SQLite and PostgreSQL can be repeated; the statements of MySQL and PostgreSQL select
      and delete what those of SQLite do up to the gaps exhibited below; an insertion of PostgreSQL that finds
      its revision filled is tried again if it has no metadata ([pgsql_insert_outcome]); a driver's
      [New] goes through configuration, database, connection, schema and
      migration in this order ([pgsql_start]); a data source name is translated
      parameter by parameter ([translate_exact]).
    - Kafka: without a pool of workers a committed offset covers no message
      that was not dealt with ([kafka_commit_covers]); every event goes to
      every producer in order ([egress_in_order]); connections are encrypted as
      asked ([dialer_protects]).
    - The process: settings are within their limits ([nats_config_bounds],
      [t4_config_safe]) and come from the flags ([default_config_fits],
      [one_flag]); [Listen] does its steps in order, serves exactly when none
      of them failed, and when one fails nothing is served and the backend's context is cancelled ([listen_outcome]); the t4 node is started again until it runs or a minute
      has passed ([t4_start_ends]); the dialer tries the addresses of a
      name in order, from a resolution of at most fifteen seconds ago
      ([dialer_outcome]); a span of time sees no more periodic calls than
      intervals, and one ([until_rate]); a second signal ends the process ([signals_counted]).
    - Where the code differs from what it means to do, a theorem exhibits it
      on the model: [compact_scan_redelivers], [put_silently_ignored],
      [compact_lost_update], [txn_delete_zero_unconditional],
      [update_revert_keeps_refused], [ttl_race_loses_key], [broadcast_gap],
      [create_accepted_after_compaction], [compact_start_deletes_all],
      [filter_one_ignores_selectors], [transaction_commit_inverted],
      [translateRange_not_exact], [nats_key_meta_collision], [Put_missing],
      [nats_half_deleted_stuck], [nats_list_watch_gap],
      [nats_compact_ignores_retain], [nats_wait_lost_wakeup],
      [label_select_wrong], [cluster_role_metadata_lost],
      [foreground_delete_locks], [kafka_pool_loses],
      [kafka_refused_update_committed], [close_panics], [check_ignores_key],
      [check_custom_delete_refused], [nats_large_number_ignored],
      [stack_empty_list_stale], [stack_page_header_ahead],
      [mysql_migration_not_repeatable], [mysql_keeps_old_schema],
      [mysql_second_start_skips_index], [pgsql_retry_in_transaction],
      [pgsql_owned_scan], [start_key_gap], [jitter_hundred_panics],
      [skip_loses_row], [gone3_not_sent], [undecodable_value],
      [stale_cache_future_rev], [nats_never_ready], [nats_empty_restart_panics],
      [nats_reconnect_duplicates], [socket_errors], [legacy_scheme_refused],
      [embedded_port_random], [progress_interval_panics], [skip_verify_alone],
      [linked_schemes].

    ** Bounds and fuel

    [SqlLog.compactIter] runs with [compactIter_fuel], one unit for each
    revision between the recorded compact revision and the target; [compact_iter_total]
    proves that it is enough.  [Ttl.seed] takes a fuel, one unit a page;
    [seed_complete] proves that one unit for every 999 listed keys (a page of
    1000 starts at the last key of the one before) is enough.  [GoStrings.Split]
    uses the length of its argument, [fmt_digits] the number of decimal digits
    of a 64-bit integer.  In [ExpireHeap] sifting takes the size of the heap
    and a pass one unit an entry; [expire_heap_invariant] and
    [expire_pass_exact] prove that they are enough.  The wait for an embedded
    NATS server ends within 601 turns of its clock and the loops after it with
    the first final answer of the server ([nats_open_ends]); the attempts of
    t4 end within 122 ([t4_start_ends]).  The other loops with attempts take
    their number from the code.

    ** Assumptions about the environment

    The concurrent steps of [LogTheorems] and [StackSql] are writers that append
    rows on top of the last row of their key, as this code does
    ([SqlProofs.grows]); filling of revision gaps and compaction run alone there
    (in [SqlPoll] they take turns with the poller, and in [SqlTables] with
    insertions).  What an object makes of its row is [Sql.storing]; the theorems
    on the log leave out objects by which others are collected, whose further
    rows are in [SqlMeta].  A run of the poller has a parameter [late], which
    says whether a gap may outlive its second unfilled, so that it is skipped.  A database transaction is
    atomic (the source opens it with serializable isolation).  Text is compared
    byte by byte in the database.  The concurrent steps of the NATS theorems add
    well-formed messages to the stream.  The buckets allow direct reads, which
    on more than one replica ([js_replicas]; one is the default) may be answered
    by a server that lags behind: only with one are they the current ones.  JSON
    replaces what is not UTF-8 in a key ([json_string]).

    The metadata transaction is that of SQLite: one writer, and a transaction
    left open keeps the lock until the context it was opened with ends.  A [dbms] says what a server makes of the
    statements of a set-up that SQL leaves open.  A reader of a topic hands out
    its messages in order from the committed offset, and only errors once it is
    closed.  The library for command lines gives every flag one value.

    ** Not modelled

    - Third-party code: databases, JetStream and its embedded server, the t4
      node, the brokers, the API server, gRPC, the command line library, parsers
      and decoders.  Health and reflection services are gRPC's own.
    - Interceptors, log lines, the registered metrics and the printing of a
      query with its arguments: nothing a client sees depends on them.
    - The fields of JSON values in SQL and field selectors in lists, which are a
      function of the database; the value compression of the NATS codec, a
      library that is a parameter.
    - The transactions of MySQL and PostgreSQL with their metadata beyond the
      insertion of [SqlVariants]: they run the code of [SqlMeta], but what their
      servers do with a transaction left open is not written out.
    - The walk over the data directory of t4 and the reading and writing of the
      registry file of custom resources: the file system.
    - Version strings, the test server, scripts; the remote driver, which has no
      backend of its own. *)
From stdpp Require Export base tactics numbers option list strings gmap sorting.
From Stdlib Require Export ZArith Lia.

Open Scope Z_scope.

(** ** Machine integers

    Go's [int64]: every addition and subtraction of the source that can leave
    the range is followed by [wrap64]. *)
Definition two63 : Z := 2 ^ 63.
Definition minInt64 : Z := - two63.
Definition maxInt64 : Z := two63 - 1.
Definition wrap64 (z : Z) : Z := (z + two63) mod (2 * two63) - two63.
Definition int64_ok (z : Z) : Prop := minInt64 <= z <= maxInt64.

Lemma wrap64_id z : int64_ok z -> wrap64 z = z.
Proof.
  unfold int64_ok, wrap64, minInt64, maxInt64, two63; intros.
  rewrite Z.mod_small; lia.
Qed.

Lemma wrap64_ok z : int64_ok (wrap64 z).
Proof.
  unfold int64_ok, wrap64, minInt64, maxInt64, two63.
  pose proof (Z.mod_pos_bound (z + 2 ^ 63) (2 * 2 ^ 63)). lia.
Qed.

(** ** Go errors

    A Go [error] is [None] (nil) or [Some e].  The sentinels of the source are
    constructors, so that [err == ErrKeyExists] is a decidable test; [ErrJoin]
    is [errors.Join], and [ErrOther] carries any other error by its text. *)
Inductive err : Type :=
  | ErrNotSupported
  | ErrInvalidWatch
  | ErrKeyExists
  | ErrCompacted
  | ErrFutureRev
  | ErrNoLeader
  | ErrGRPCUnhealthy
  | ErrUnsupported (field : string)
  | ErrOther (msg : string)
  | ErrJoin (errs : list err).

Abbreviation gerr := (option err).

(** [errors.Is] against one sentinel: joined errors match when a part does. *)
Definition is_sentinel (e : err) (want : err) : bool :=
  match e, want with
  | ErrNotSupported, ErrNotSupported | ErrInvalidWatch, ErrInvalidWatch
  | ErrKeyExists, ErrKeyExists | ErrCompacted, ErrCompacted
  | ErrFutureRev, ErrFutureRev | ErrNoLeader, ErrNoLeader
  | ErrGRPCUnhealthy, ErrGRPCUnhealthy => true
  | _, _ => false
  end.

Fixpoint errors_Is (e : err) (want : err) : bool :=
  is_sentinel e want ||
  match e with
  | ErrJoin es => existsb (fun e' => errors_Is e' want) es
  | _ => false
  end.

(** [err == ErrX] for a sentinel [ErrX]. *)
Definition err_eq (e : gerr) (want : err) : bool :=
  match e with Some e' => is_sentinel e' want | None => false end.

Definition is_err (e : gerr) : bool := match e with Some _ => true | None => false end.

(** ** A state monad for code that threads a store through several calls *)
Definition ST (S A : Type) : Type := S -> A * S.
Definition st_ret {S A} (a : A) : ST S A := fun s => (a, s).
Definition st_bind {S A B} (m : ST S A) (k : A -> ST S B) : ST S B :=
  fun s => let (a, s') := m s in k a s'.
Definition st_get {S} : ST S S := fun s => (s, s).
Definition st_put {S} (s : S) : ST S unit := fun _ => (tt, s).

Declare Scope go_scope.
Delimit Scope go_scope with go.
Notation "x <- m ;; k" := (st_bind m (fun x => k))
  (at level 20, m at level 99, k at level 200) : go_scope.
Notation "' p <- m ;; k" := (st_bind m (fun x => match x with p => k end))
  (at level 20, p pattern, m at level 99, k at level 200) : go_scope.
Open Scope go_scope.

Lemma st_bind_eq {S A B} (m : ST S A) (k : A -> ST S B) s a s' :
  m s = (a, s') -> st_bind m k s = k a s'.
Proof. unfold st_bind. by intros ->. Qed.

Lemma st_bind_assoc {S A B C} (m : ST S A) (f : A -> ST S B) (g : B -> ST S C) s :
  st_bind (st_bind m f) g s = st_bind m (fun a => st_bind (f a) g) s.
Proof. unfold st_bind. by destruct (m s). Qed.

(** What code does to the world outside the model, as the trace of its effects. *)
Definition emit {A} (a : A) : ST (list A) unit := fun tr => (tt, tr ++ [a]).

(** [fmt.Errorf] with [%w]. *)
Definition wrapped (what : string) (e : err) : err := ErrJoin [ErrOther what; e].

(** ** Byte strings and their order

    A Go [string] or [[]byte] is a [string] of 8-bit characters; the operators
    [<], [>=] on strings are byte-wise lexicographic, which is [String.ltb]. *)
Definition str_lt (s t : string) : Prop := String.ltb s t = true.

Lemma str_compare_refl s : String.compare s s = Eq.
Proof. induction s; simpl; [done|]. unfold Ascii.compare. by rewrite N.compare_refl. Qed.

Lemma str_compare_lt_trans s t u :
  String.compare s t = Lt -> String.compare t u = Lt -> String.compare s u = Lt.
Proof.
  revert t u. induction s as [|a s IH]; intros [|b t] [|c u]; simpl; try done.
  unfold Ascii.compare.
  destruct (N.compare_spec (Ascii.N_of_ascii a) (Ascii.N_of_ascii b)),
    (N.compare_spec (Ascii.N_of_ascii b) (Ascii.N_of_ascii c)),
    (N.compare_spec (Ascii.N_of_ascii a) (Ascii.N_of_ascii c)); intros; try done; try lia; eauto.
Qed.

Lemma ltb_irrefl s : String.ltb s s = false.
Proof. unfold String.ltb. by rewrite str_compare_refl. Qed.

Lemma ltb_asym s t : String.ltb s t = true -> String.ltb t s = false.
Proof.
  unfold String.ltb. rewrite (String.compare_antisym t s).
  by destruct (String.compare s t) eqn:E.
Qed.

Lemma ltb_total s t : String.ltb s t = false -> String.ltb t s = false -> s = t.
Proof.
  unfold String.ltb. rewrite (String.compare_antisym t s).
  destruct (String.compare s t) eqn:E; simpl; try done.
  intros. by apply String.compare_eq_iff.
Qed.

#[export] Instance str_lt_irrefl : Irreflexive str_lt.
Proof. intros s. unfold complement, str_lt. by rewrite ltb_irrefl. Qed.

#[export] Instance str_lt_trans : Transitive str_lt.
Proof.
  intros s t u. unfold str_lt, String.ltb. intros H1 H2.
  assert (String.compare s u = Lt) as ->; [|done].
  destruct (String.compare s t) eqn:E1, (String.compare t u) eqn:E2; try done.
  by eapply str_compare_lt_trans.
Qed.

#[export] Instance str_lt_dec : RelDecision str_lt.
Proof. intros s t. unfold str_lt. apply _. Defined.

Lemma str_ltb_spec s t : String.ltb s t = true <-> str_lt s t.
Proof. done. Qed.

(** ** Lists *)
Definition keys_sorted {V} (l : list (string * V)) : Prop := StronglySorted str_lt (l.*1).

Section lists.
Context {A : Type}.
Implicit Types l : list A.

Lemma StronglySorted_filter (R : relation A) (P : A -> Prop) `{!forall x, Decision (P x)} l :
  StronglySorted R l -> StronglySorted R (filter P l).
Proof.
  induction 1 as [|x l Hl IH Hx]; [constructor|].
  rewrite filter_cons. case_decide; [|done].
  constructor; [done|]. rewrite Forall_forall in Hx |- *.
  intros y [_ ?]%list_elem_of_filter. eauto.
Qed.

Lemma filter_none (P : A -> Prop) `{!forall x, Decision (P x)} l :
  (forall x, x ∈ l -> ~ P x) -> filter P l = [].
Proof.
  induction l as [|x l IH]; intros Hn; [done|]. rewrite filter_cons, decide_False.
  - apply IH. intros y Hy. apply Hn. set_solver.
  - apply Hn. set_solver.
Qed.

Lemma filter_all (P : A -> Prop) `{!forall x, Decision (P x)} l :
  (forall x, x ∈ l -> P x) -> filter P l = l.
Proof.
  induction l as [|x l IH]; intros Hn; [done|]. rewrite filter_cons, decide_True.
  - f_equal. apply IH. intros y Hy. apply Hn. set_solver.
  - apply Hn. set_solver.
Qed.

Lemma filter_agree (P Q : A -> Prop) `{!forall x, Decision (P x), !forall x, Decision (Q x)} l :
  (forall x, x ∈ l -> P x <-> Q x) -> filter P l = filter Q l.
Proof.
  induction l as [|x l IH]; intros HPQ; [done|]. rewrite !filter_cons, IH by (intros; apply HPQ; set_solver).
  specialize (HPQ x ltac:(set_solver)). case_decide; case_decide; tauto || done.
Qed.

Lemma Sorted_app_l (R : relation A) l1 l2 : Sorted R (l1 ++ l2) -> Sorted R l1.
Proof.
  induction l1 as [|x l1 IH]; simpl; intros Hs; [constructor|]. inversion Hs as [|?? Hs' Hh]; subst.
  constructor; [auto|]. destruct l1; simpl in *; [constructor|]. inversion Hh; subst. by constructor.
Qed.

Lemma Sorted_app_r (R : relation A) l1 l2 : Sorted R (l1 ++ l2) -> Sorted R l2.
Proof. induction l1; simpl; intros Hs; [done|]. inversion Hs; subst. auto. Qed.

Lemma omap_cons_list {B} (f : A -> option B) x l :
  omap f (x :: l) = option_list (f x) ++ omap f l.
Proof. simpl. by destruct (f x). Qed.

Lemma last_app_one l x : last (l ++ [x]) = Some x.
Proof. apply last_snoc. Qed.

Lemma last_is_Some l : is_Some (last l) <-> l <> [].
Proof.
  split; [by intros [? H] ->|]. destruct l as [|x l _] using rev_ind; [done|].
  rewrite last_snoc. eauto.
Qed.

Lemma last_None l : last l = None <-> l = [].
Proof.
  split; [|by intros ->]. destruct l as [|x l _] using rev_ind; [done|]. by rewrite last_snoc.
Qed.
End lists.

(** ** Automation *)
Create HintDb kine.
Create Rewrite HintDb kine.
#[export] Hint Resolve wrap64_ok : kine.
#[export] Hint Rewrite @last_snoc @length_app : kine.

(** Split conjunctions in the context, use the equations. *)
Ltac simp := repeat match goal with
  | H : _ /\ _ |- _ => destruct H
  | H : exists _, _ |- _ => destruct H
  | H : Some _ = Some _ |- _ => injection H as H
  | H : (_, _) = (_, _) |- _ => injection H as H
  | H : _ && _ = true |- _ => apply andb_true_iff in H
  end; simplify_eq.

(** Turn the boolean tests of the code into propositions. *)
Ltac b2p := repeat match goal with
  | H : Z.eqb _ _ = true |- _ => apply Z.eqb_eq in H
  | H : Z.eqb _ _ = false |- _ => apply Z.eqb_neq in H
  | H : Z.leb _ _ = true |- _ => apply Z.leb_le in H
  | H : Z.leb _ _ = false |- _ => apply Z.leb_gt in H
  | H : Z.ltb _ _ = true |- _ => apply Z.ltb_lt in H
  | H : Z.ltb _ _ = false |- _ => apply Z.ltb_ge in H
  | H : Z.gtb _ _ = true |- _ => rewrite Z.gtb_ltb in H
  | H : Z.gtb _ _ = false |- _ => rewrite Z.gtb_ltb in H
  | H : Z.geb _ _ = true |- _ => rewrite Z.geb_leb in H
  | H : Z.geb _ _ = false |- _ => rewrite Z.geb_leb in H
  | H : String.eqb _ _ = true |- _ => apply String.eqb_eq in H
  | H : String.eqb _ _ = false |- _ => apply String.eqb_neq in H
  | H : negb _ = true |- _ => apply negb_true_iff in H
  | H : negb _ = false |- _ => apply negb_false_iff in H
  | H : _ && _ = true |- _ => apply andb_true_iff in H; destruct H
  | H : _ && _ = false |- _ => apply andb_false_iff in H
  | H : _ || _ = false |- _ => apply orb_false_iff in H; destruct H
  | H : _ || _ = true |- _ => apply orb_true_iff in H
  end.

(** Case on the scrutinee of the match or test in the goal. *)
Ltac cases := repeat (case_match; simplify_eq; b2p).
