(* ===== verification/Types.v ===== *)
(** * Package server: the data shared by every component (types.go)

    [KeyValue] and [Event], the range test of watchers, and the health key.  A
    pointer is an [option]. *)
From S2P Require Import Prelude.

Record KeyValue := MkKeyValue {
  kvKey : string;
  kvValue : string;
  kvVersion : Z;
  kvCreateRevision : Z;
  kvModRevision : Z;
  kvLease : Z
}.

(** The zero value [&KeyValue{}]. *)
Definition zeroKV : KeyValue := MkKeyValue "" "" 0 0 0 0.

Record Event := MkEvent {
  evDelete : bool;
  evCreate : bool;
  evKV : option KeyValue;
  evPrevKV : option KeyValue
}.

#[export] Instance KeyValue_eq_dec : EqDecision KeyValue.
Proof. solve_decision. Defined.
#[export] Instance Event_eq_dec : EqDecision Event.
Proof. solve_decision. Defined.

(** The range test every watcher uses: the empty key matches everything, a
    range is half open, otherwise the key must be equal. *)
Definition key_in_range (k key e : string) : bool :=
  String.eqb key "" ||
  (negb (String.eqb e "") && negb (String.ltb k key) && String.ltb k e) ||
  String.eqb k key.

Definition InRange (e : option Event) (key end_ : string) : bool :=
  match e with
  | Some ev =>
      match evKV ev with
      | Some kv => key_in_range (kvKey kv) key end_
      | None => false
      end
  | None => false
  end.

Definition HealthKey : string := "/registry/health".

(** The double quote, and the JSON text of the health value. *)
Definition dquote : string := String (Ascii.ascii_of_nat 34) "".
Definition HealthVal : string :=
  "{" +:+ dquote +:+ "health" +:+ dquote +:+ ":" +:+ dquote +:+ "true" +:+ dquote +:+ "}".
