(* ===== verification/GoStrings.v ===== *)
(** * The functions of Go's strings, bytes and strconv the program uses

    Go's standard library on byte strings: prefixes, [Cut], [Split], [Join],
    [Contains], [ReplaceAll], the decimal conversions with their behaviour
    on syntax errors and on 64-bit overflow, and what JSON makes of a string. *)
From S2P Require Import Prelude.
From Stdlib Require Import Ascii.

Definition HasPrefix (s p : string) : bool := String.prefix p s.

Fixpoint drop_str (n : nat) (s : string) : string :=
  match n, s with
  | S n, String _ s => drop_str n s
  | _, _ => s
  end.

Fixpoint take_str (n : nat) (s : string) : string :=
  match n, s with
  | S n, String c s => String c (take_str n s)
  | _, _ => ""
  end.

Definition HasSuffix (s p : string) : bool :=
  Nat.leb (String.length p) (String.length s) &&
  String.eqb (drop_str (String.length s - String.length p) s) p.

Definition TrimPrefix (s p : string) : string :=
  if HasPrefix s p then drop_str (String.length p) s else s.
Definition TrimSuffix (s p : string) : string :=
  if HasSuffix s p then take_str (String.length s - String.length p) s else s.

(** [strings.Index]: the first occurrence of [sep]. *)
Fixpoint Index (s sep : string) : option nat :=
  if HasPrefix s sep then Some O
  else match s with
       | "" => None
       | String _ s' => S <$> Index s' sep
       end.

Definition Contains (s sub : string) : bool := bool_decide (is_Some (Index s sub)).

Definition Cut (s sep : string) : option (string * string) :=
  match Index s sep with
  | Some i => Some (take_str i s, drop_str (i + String.length sep) s)
  | None => None
  end.

(** [strings.Split] on a non-empty separator; the fuel is the length, since
    every separator found shortens the rest. *)
Fixpoint SplitFuel (fuel : nat) (s sep : string) : list string :=
  match fuel with
  | O => [s]
  | S fuel => match Cut s sep with
              | Some (a, b) => a :: SplitFuel fuel b sep
              | None => [s]
              end
  end.
Definition Split (s sep : string) : list string := SplitFuel (String.length s) s sep.

Fixpoint Join (l : list string) (sep : string) : string :=
  match l with
  | [] => ""
  | [x] => x
  | x :: l => x +:+ sep +:+ Join l sep
  end.

Definition ReplaceAll (s old new : string) : string := Join (Split s old) new.

(** ** Decimal conversions *)
Definition digit_char (d : Z) : ascii := ascii_of_N (Z.to_N (48 + d)).
Definition char_digit (c : ascii) : option Z :=
  let n := Z.of_N (N_of_ascii c) in
  if (48 <=? n) && (n <=? 57) then Some (n - 48) else None.

(** Twenty digits hold every 64-bit integer. *)
Fixpoint fmt_digits (fuel : nat) (n : Z) (acc : string) : string :=
  match fuel with
  | O => acc
  | S fuel =>
      let acc := String (digit_char (n mod 10)) acc in
      if n <? 10 then acc else fmt_digits fuel (n / 10) acc
  end.
Definition FormatUint (n : Z) : string := fmt_digits 20 n "".
Definition FormatInt (n : Z) : string :=
  if n <? 0 then "-" +:+ FormatUint (- n) else FormatUint n.

Inductive parsed : Type := ParseOk (n : Z) | ParseSyntax | ParseRange.

Definition maxUint64 : Z := 2 ^ 64 - 1.

(** [strconv.ParseUint(s, 10, 64)]: overflow is reported at the digit that
    causes it. *)
Fixpoint parse_digits (s : string) (n : Z) : parsed :=
  match s with
  | "" => ParseOk n
  | String c s =>
      match char_digit c with
      | None => ParseSyntax
      | Some d => if n * 10 + d >? maxUint64 then ParseRange else parse_digits s (n * 10 + d)
      end
  end.
Definition ParseUint (s : string) : parsed :=
  if String.eqb s "" then ParseSyntax else parse_digits s 0.

(** [strconv.ParseInt(s, 10, 64)]: the value and whether there was an error;
    out of range, the value is the bound of that side. *)
Definition ParseInt (s : string) : Z * bool :=
  let '(neg, digits) :=
    match s with
    | String c s' => if Ascii.eqb c "+" then (false, s')
                     else if Ascii.eqb c "-" then (true, s') else (false, s)
    | "" => (false, s)
    end in
  match ParseUint digits with
  | ParseSyntax => (0, true)
  | ParseRange => if neg then (minInt64, true) else (maxInt64, true)
  | ParseOk un =>
      if neg then (if un >? two63 then (minInt64, true) else (- un, false))
      else if un >=? two63 then (maxInt64, true) else (un, false)
  end.

(** ** Strings through [encoding/json] *)
Definition within (lo hi : N) (c : ascii) : bool := (N.leb lo (N_of_ascii c) && N.leb (N_of_ascii c) hi)%bool.
Definition utf8_tail (c : ascii) : bool := within 128 191 c.

(** The sequences [unicode/utf8] decodes, by their first byte. *)
Definition rune2 (a b : ascii) : bool := within 194 223 a && utf8_tail b.
Definition rune3 (a b c : ascii) : bool :=
  (within 224 224 a && within 160 191 b || within 225 236 a && utf8_tail b || within 237 237 a && within 128 159 b
   || within 238 239 a && utf8_tail b) && utf8_tail c.
Definition rune4 (a b c d : ascii) : bool :=
  (within 240 240 a && within 144 191 b || within 241 243 a && utf8_tail b || within 244 244 a && within 128 143 b)
  && utf8_tail c && utf8_tail d.

(** U+FFFD. *)
Definition RuneError (s : string) : string :=
  String (ascii_of_N 239) (String (ascii_of_N 191) (String (ascii_of_N 189) s)).

(** A string that was encoded and decoded again: every byte that begins no
    valid sequence has become U+FFFD, and a string of valid UTF-8 is itself. *)
Fixpoint json_string (s : string) : string :=
  match s with
  | "" => ""
  | String a s1 =>
      if within 0 127 a then String a (json_string s1)
      else
        match s1 with
        | String b s2 =>
            if rune2 a b then String a (String b (json_string s2))
            else
              match s2 with
              | String c s3 =>
                  if rune3 a b c then String a (String b (String c (json_string s3)))
                  else
                    match s3 with
                    | String d s4 =>
                        if rune4 a b c d then String a (String b (String c (String d (json_string s4))))
                        else RuneError (json_string s1)
                    | "" => RuneError (json_string s1)
                    end
              | "" => RuneError (json_string s1)
              end
        | "" => RuneError (json_string s1)
        end
  end.

(** A slash and a byte of no sequence; a slash and a euro sign. *)
Example json_invalid : json_string (String "/" (String (ascii_of_N 255) "")) = String "/" (RuneError "").
Proof. reflexivity. Qed.
Example json_valid : json_string "/€" = "/€".
Proof. reflexivity. Qed.

(** ** Facts *)
#[local] Arguments String.append !_ _ / .

Lemma string_app_nil_r s : s +:+ "" = s.
Proof. induction s; simpl; congruence. Qed.

Lemma string_app_assoc s t u : (s +:+ t) +:+ u = s +:+ (t +:+ u).
Proof. induction s; simpl; congruence. Qed.

Lemma drop_str_app s t : drop_str (String.length s) (s +:+ t) = t.
Proof. induction s; simpl; [by destruct t|done]. Qed.

Lemma take_str_app s t : take_str (String.length s) (s +:+ t) = s.
Proof. induction s; simpl; [by destruct t|congruence]. Qed.

Lemma drop_str_all s n : (String.length s <= n)%nat -> drop_str n s = "".
Proof. revert n. induction s; intros [|n]; simpl; intros; try done; try lia. apply IHs. lia. Qed.

Lemma HasPrefix_app s t : HasPrefix (s +:+ t) s = true.
Proof.
  unfold HasPrefix. induction s as [|c s IH]; simpl; [by destruct t|].
  by destruct (ascii_dec c c).
Qed.

Lemma HasPrefix_inv s p : HasPrefix s p = true -> s = p +:+ drop_str (String.length p) s.
Proof.
  unfold HasPrefix. revert s. induction p as [|c p IH]; intros s; simpl; [by destruct s|].
  destruct s as [|c' s]; [done|]. simpl. destruct (ascii_dec c c') as [->|]; [|done].
  intros Hp. f_equal. by apply IH.
Qed.

(** A character that does not occur. *)
Fixpoint no_char (c : ascii) (s : string) : bool :=
  match s with
  | "" => true
  | String c' s => negb (Ascii.eqb c c') && no_char c s
  end.

Lemma no_char_app c s t : no_char c (s +:+ t) = no_char c s && no_char c t.
Proof. induction s; simpl; [done|]. by rewrite IHs, andb_assoc. Qed.

Lemma HasPrefix_char a s c : HasPrefix (String a s) (String c "") = Ascii.eqb c a.
Proof.
  unfold HasPrefix. simpl. destruct (ascii_dec c a) as [->|Hn].
  - rewrite Ascii.eqb_refl. by destruct s.
  - symmetry. by apply Ascii.eqb_neq.
Qed.

Lemma Index_cons a s sep : Index (String a s) sep
  = if HasPrefix (String a s) sep then Some O else S <$> Index s sep.
Proof. done. Qed.

Lemma Index_char s c t : no_char c s = true ->
  Index (s +:+ String c t) (String c "") = Some (String.length s).
Proof.
  induction s as [|a s IH]; intros Hn.
  - change ("" +:+ String c t) with (String c t).
    by rewrite Index_cons, HasPrefix_char, Ascii.eqb_refl.
  - simpl in Hn. apply andb_true_iff in Hn as [Ha%negb_true_iff Hn].
    change (String a s +:+ String c t) with (String a (s +:+ String c t)).
    by rewrite Index_cons, HasPrefix_char, Ha, IH.
Qed.

Lemma Index_char_none s c : no_char c s = true -> Index s (String c "") = None.
Proof.
  induction s as [|a s IH]; intros Hn; [done|].
  simpl in Hn. apply andb_true_iff in Hn as [Ha%negb_true_iff Hn].
  by rewrite Index_cons, HasPrefix_char, Ha, IH.
Qed.

Lemma Cut_char s c t : no_char c s = true -> Cut (s +:+ String c t) (String c "") = Some (s, t).
Proof.
  intros Hn. unfold Cut. rewrite Index_char by done. rewrite take_str_app. do 2 f_equal.
  change (String c t) with (String c "" +:+ t). rewrite <- string_app_assoc.
  replace (String.length s + String.length (String c ""))%nat with (String.length (s +:+ String c "")).
  - apply drop_str_app.
  - induction s; simpl in *; [done|]. apply andb_true_iff in Hn as [_ Hn]. by rewrite IHs.
Qed.

Lemma Cut_char_none s c : no_char c s = true -> Cut s (String c "") = None.
Proof. intros Hn. unfold Cut. by rewrite Index_char_none. Qed.

Lemma length_app_str s t : String.length (s +:+ t) = (String.length s + String.length t)%nat.
Proof. induction s; simpl; congruence. Qed.

(** [Split] inverts [Join] on parts that do not hold the separator. *)
Lemma SplitFuel_Join fuel l c : l <> [] -> Forall (fun s => no_char c s = true) l ->
  (length l <= S fuel)%nat -> SplitFuel fuel (Join l (String c "")) (String c "") = l.
Proof.
  revert fuel. induction l as [|x l IH]; intros fuel Hne Hl Hf; [done|].
  inversion Hl as [|?? Hx Hl']; subst. destruct l as [|y l].
  - simpl. destruct fuel; simpl; [done|]. by rewrite Cut_char_none.
  - destruct fuel as [|fuel]; [simpl in Hf; lia|].
    change (Join (x :: y :: l) (String c "")) with (x +:+ String c (Join (y :: l) (String c ""))).
    cbn [SplitFuel]. rewrite Cut_char by done. f_equal. apply IH; [done|done|simpl in *; lia].
Qed.

Lemma length_Join l c : (length l <= S (String.length (Join l (String c ""))))%nat.
Proof.
  induction l as [|x l IH]; [simpl; lia|]. destruct l as [|y l]; [simpl; lia|].
  change (Join (x :: y :: l) (String c "")) with (x +:+ String c (Join (y :: l) (String c ""))).
  rewrite length_app_str. simpl in *. lia.
Qed.

Lemma Split_Join l c : l <> [] -> Forall (fun s => no_char c s = true) l ->
  Split (Join l (String c "")) (String c "") = l.
Proof. intros. apply SplitFuel_Join; [done|done|apply length_Join]. Qed.

(** ** Decimal round trip *)
Lemma char_digit_digit d : 0 <= d < 10 -> char_digit (digit_char d) = Some d.
Proof.
  intros Hd. assert (d = 0 \/ d = 1 \/ d = 2 \/ d = 3 \/ d = 4 \/ d = 5 \/ d = 6 \/ d = 7 \/ d = 8 \/ d = 9)
    as Hc by lia.
  repeat destruct Hc as [->|Hc]; try reflexivity. by subst.
Qed.

(** Parsing digits already read, then [s]. *)
Fixpoint digits_val (s : string) (n : Z) : Z :=
  match s with
  | "" => n
  | String c s => digits_val s (n * 10 + default 0 (char_digit c))
  end.

Fixpoint all_digits (s : string) : bool :=
  match s with
  | "" => true
  | String c s => bool_decide (is_Some (char_digit c)) && all_digits s
  end.

Lemma char_digit_range c d : char_digit c = Some d -> 0 <= d < 10.
Proof.
  unfold char_digit. destruct ((48 <=? _) && (_ <=? 57)) eqn:E; [|done].
  apply andb_true_iff in E as [?%Z.leb_le ?%Z.leb_le]. intros [= <-]. lia.
Qed.

Lemma digits_val_ge s n : all_digits s = true -> 0 <= n -> n <= digits_val s n.
Proof.
  revert n. induction s as [|c s IH]; intros n; simpl; [lia|].
  intros [[d Hd]%bool_decide_eq_true Hs]%andb_true_iff Hn. rewrite Hd. simpl.
  pose proof (char_digit_range _ _ Hd). specialize (IH (n * 10 + d) Hs ltac:(lia)). lia.
Qed.

Lemma parse_digits_val s n : all_digits s = true -> 0 <= n -> digits_val s n <= maxUint64 ->
  parse_digits s n = ParseOk (digits_val s n).
Proof.
  revert n. induction s as [|c s IH]; intros n; simpl; [done|].
  intros [[d Hd]%bool_decide_eq_true Hs]%andb_true_iff Hn. rewrite Hd. simpl. intros Hmax.
  pose proof (char_digit_range _ _ Hd).
  pose proof (digits_val_ge s (n * 10 + d) Hs ltac:(lia)).
  destruct (Z.gtb_spec (n * 10 + d) maxUint64); [lia|]. apply IH; [done|lia|done].
Qed.

Lemma fmt_digits_spec fuel n acc : 0 <= n -> n < 10 ^ Z.of_nat fuel -> all_digits acc = true ->
  (0 < fuel)%nat ->
  all_digits (fmt_digits fuel n acc) = true /\ fmt_digits fuel n acc <> "" /\
  forall m, digits_val (fmt_digits fuel n acc) m
    = digits_val acc (digits_val (fmt_digits fuel n "") m).
Proof.
  revert n acc. induction fuel as [|fuel IH]; intros n acc Hn Hlt Hacc Hf; [lia|].
  assert (Hd : 0 <= n mod 10 < 10) by (apply Z.mod_pos_bound; lia).
  pose proof (char_digit_digit _ Hd) as Hc.
  assert (Hacc' : all_digits (String (digit_char (n mod 10)) acc) = true).
  { simpl. rewrite Hc. by rewrite bool_decide_true by eauto. }
  assert (Hone : all_digits (String (digit_char (n mod 10)) "") = true).
  { simpl. rewrite Hc. by rewrite bool_decide_true by eauto. }
  cbn [fmt_digits]. destruct (Z.ltb_spec n 10).
  - split_and!; [done|done|]. intros m. done.
  - destruct fuel as [|fuel]; [simpl in Hlt; lia|].
    assert (Hdiv : 0 <= n / 10 /\ n / 10 < 10 ^ Z.of_nat (S fuel)).
    { split; [apply Z.div_pos; lia|]. apply Z.div_lt_upper_bound; [lia|].
      rewrite Nat2Z.inj_succ, Z.pow_succ_r in Hlt by lia. lia. }
    destruct Hdiv as [Hd0 Hd1].
    destruct (IH (n / 10) _ Hd0 Hd1 Hacc' ltac:(lia)) as (H1 & H2 & H3).
    destruct (IH (n / 10) _ Hd0 Hd1 Hone ltac:(lia)) as (_ & _ & H4).
    split_and!; [done|done|]. intros m. rewrite H3, H4. done.
Qed.

Lemma fmt_digits_val fuel n : 0 <= n -> n < 10 ^ Z.of_nat fuel -> (0 < fuel)%nat ->
  digits_val (fmt_digits fuel n "") 0 = n.
Proof.
  revert n. induction fuel as [|fuel IH]; intros n Hn Hlt Hf; [lia|].
  assert (Hd : 0 <= n mod 10 < 10) by (apply Z.mod_pos_bound; lia).
  pose proof (char_digit_digit _ Hd) as Hc.
  cbn [fmt_digits]. destruct (Z.ltb_spec n 10).
  - simpl. rewrite Hc. simpl. rewrite Z.mod_small; lia.
  - destruct fuel as [|fuel]; [simpl in Hlt; lia|].
    assert (Hdiv : 0 <= n / 10 /\ n / 10 < 10 ^ Z.of_nat (S fuel)).
    { split; [apply Z.div_pos; lia|]. apply Z.div_lt_upper_bound; [lia|].
      rewrite Nat2Z.inj_succ, Z.pow_succ_r in Hlt by lia. lia. }
    destruct Hdiv as [Hd0 Hd1].
    assert (Hone : all_digits (String (digit_char (n mod 10)) "") = true).
    { simpl. rewrite Hc. by rewrite bool_decide_true by eauto. }
    destruct (fmt_digits_spec (S fuel) (n / 10) _ Hd0 Hd1 Hone ltac:(lia)) as (_ & _ & H3).
    rewrite H3, IH by (done || lia). simpl. rewrite Hc. simpl.
    pose proof (Z.div_mod n 10 ltac:(lia)). lia.
Qed.

Lemma ParseUint_FormatUint n : 0 <= n <= maxUint64 -> ParseUint (FormatUint n) = ParseOk n.
Proof.
  unfold maxUint64, FormatUint. intros Hn.
  assert (Hlt : n < 10 ^ Z.of_nat 20) by (simpl; lia).
  destruct (fmt_digits_spec 20 n "" ltac:(lia) Hlt eq_refl ltac:(lia)) as (Hd & Hne & _).
  pose proof (fmt_digits_val 20 n ltac:(lia) Hlt ltac:(lia)) as Hv.
  unfold ParseUint. apply String.eqb_neq in Hne. rewrite Hne.
  rewrite parse_digits_val by (try done; unfold maxUint64; lia). by rewrite Hv.
Qed.

Lemma all_digits_head c s : all_digits (String c s) = true -> c <> "+"%char /\ c <> "-"%char.
Proof.
  simpl. intros [[d Hd]%bool_decide_eq_true _]%andb_true_iff.
  split; intros ->; vm_compute in Hd; done.
Qed.

Lemma FormatUint_digits n : 0 <= n <= maxUint64 ->
  all_digits (FormatUint n) = true /\ FormatUint n <> "".
Proof.
  unfold maxUint64. intros Hn. destruct (fmt_digits_spec 20 n "") as (Hd & Hne & _);
    [lia|simpl; lia|done|lia|done].
Qed.

Lemma all_digits_no_char c s : char_digit c = None -> all_digits s = true -> no_char c s = true.
Proof.
  intros Hc. induction s as [|a s IH]; simpl; [done|].
  intros [[d Hd]%bool_decide_eq_true Hs]%andb_true_iff. rewrite IH by done.
  destruct (Ascii.eqb_spec c a) as [->|]; [congruence|done].
Qed.

Lemma ParseInt_FormatInt n : int64_ok n -> ParseInt (FormatInt n) = (n, false).
Proof.
  unfold int64_ok, minInt64, maxInt64, two63. intros Hn. unfold FormatInt.
  destruct (Z.ltb_spec n 0).
  - assert (Hu : 0 <= - n <= maxUint64) by (unfold maxUint64; lia).
    unfold ParseInt. simpl. rewrite ParseUint_FormatUint by done.
    unfold two63. destruct (Z.gtb_spec (- n) (2 ^ 63)); [lia|]. f_equal. lia.
  - assert (Hu : 0 <= n <= maxUint64) by (unfold maxUint64; lia).
    destruct (FormatUint_digits n Hu) as [Hd Hne].
    pose proof (ParseUint_FormatUint n Hu) as Hp. unfold ParseInt.
    destruct (FormatUint n) as [|c s]; [done|]. apply all_digits_head in Hd as [Hp1 Hp2].
    apply Ascii.eqb_neq in Hp1, Hp2. rewrite Hp1, Hp2, Hp. unfold two63.
    rewrite Z.geb_leb. destruct (Z.leb_spec (2 ^ 63) n); [lia|done].
Qed.

Lemma FormatInt_no_char c n : int64_ok n -> char_digit c = None -> c <> "-"%char ->
  no_char c (FormatInt n) = true.
Proof.
  unfold int64_ok, minInt64, maxInt64, two63. intros Hn Hc Hm. unfold FormatInt.
  destruct (Z.ltb_spec n 0).
  - simpl. apply andb_true_iff. split.
    + by apply negb_true_iff, Ascii.eqb_neq.
    + apply all_digits_no_char; [done|]. apply FormatUint_digits. unfold maxUint64; lia.
  - apply all_digits_no_char; [done|]. apply FormatUint_digits. unfold maxUint64; lia.
Qed.

(** ** Strings as parts *)
Lemma split_parts s c : exists l, l <> [] /\ Forall (fun x => no_char c x = true) l /\ s = Join l (String c "").
Proof.
  induction s as [|a s (l & Hne & Hl & ->)]; [by exists [""]; repeat constructor|].
  destruct l as [|x l]; [done|]. inversion Hl; subst. destruct (Ascii.eqb_spec c a) as [->|Hn].
  - exists ("" :: x :: l). split; [done|]. split; [by repeat constructor|done].
  - exists (String a x :: l). split; [done|]. split.
    + constructor; [|done]. simpl. apply andb_true_iff. split; [|done]. by apply negb_true_iff, Ascii.eqb_neq.
    + by destruct l.
Qed.

Lemma Join_Split s c : Join (Split s (String c "")) (String c "") = s /\
  Forall (fun x => no_char c x = true) (Split s (String c "")) /\ Split s (String c "") <> [].
Proof. destruct (split_parts s c) as (l & Hne & Hl & ->). by rewrite !Split_Join. Qed.

Lemma TrimSuffix_char a c : TrimSuffix (a +:+ String c "") (String c "") = a.
Proof.
  unfold TrimSuffix, HasSuffix. rewrite length_app_str.
  change (String.length (String c "")) with 1%nat.
  replace (String.length a + 1 - 1)%nat with (String.length a) by lia.
  rewrite drop_str_app, take_str_app, String.eqb_refl, andb_true_r.
  destruct (Nat.leb_spec 1 (String.length a + 1)); [done|lia].
Qed.
