(* ===== verification/Prog.v ===== *)
(** * Handlers as trees of calls

    Code that makes several calls of a store shared with other goroutines or
    processes is a [prog E]: return, panic, or an operation of the family [E]
    and what to do with its result.  [run] executes it alone; [exec] lets the
    other clients make any calls the environment relation allows between two
    of its calls. *)
From S2P Require Import Prelude.

Inductive prog (E : Type -> Type) (A : Type) : Type :=
  | Ret (a : A)
  | Panic
  | Call {R : Type} (o : E R) (k : R -> prog E A).
Arguments Ret {E A} a.
Arguments Panic {E A}.
Arguments Call {E A R} o k.

Fixpoint pbind {E A B} (p : prog E A) (f : A -> prog E B) : prog E B :=
  match p with
  | Ret a => f a
  | Panic => Panic
  | Call o k => Call o (fun r => pbind (k r) f)
  end.

Definition call {E : Type -> Type} {R} (o : E R) : prog E R := Call o Ret.

Notation "x <-! p ;; k" := (pbind p (fun x => k))
  (at level 20, p at level 99, k at level 200) : go_scope.
Notation "' x <-! p ;; k" := (pbind p (fun y => match y with x => k end))
  (at level 20, x pattern, p at level 99, k at level 200) : go_scope.

(** What the operations do to a store; [h_room] says that its counters are not
    about to overflow. *)
Class Handler (E : Type -> Type) (S : Type) := {
  h_do : forall {R}, E R -> ST S R;
  h_room : S -> Prop
}.

Section exec.
Context {E : Type -> Type} {S : Type} `{Handler E S}.

Fixpoint run {A} (p : prog E A) (s : S) : option A * S :=
  match p with
  | Ret a => (Some a, s)
  | Panic => (None, s)
  | Call o k => let (r, s') := h_do o s in run (k r) s'
  end.

(** Execution with interference [env]; [None] is a panic. *)
Inductive exec_in (env : S -> S -> Prop) {A} : prog E A -> S -> option A -> S -> Prop :=
  | exec_ret a s : exec_in env (Ret a) s (Some a) s
  | exec_panic s : exec_in env Panic s None s
  | exec_call R (o : E R) k s s1 a s' :
      rtc env s s1 -> h_room s1 ->
      exec_in env (k (h_do o s1).1) (h_do o s1).2 a s' -> exec_in env (Call o k) s a s'.

(** Any call of another client. *)
Inductive env_step (s : S) : S -> Prop :=
  | env_call R (o : E R) : h_room s -> env_step s (h_do o s).2.

Lemma run_bind {A B} (p : prog E A) (f : A -> prog E B) s :
  run (pbind p f) s
  = match (run p s).1 with Some a => run (f a) (run p s).2 | None => (None, (run p s).2) end.
Proof. revert s. induction p as [| |R o k IH]; intros s; simpl; [done|done|]. by destruct (h_do o s). Qed.

Lemma run_bind_ext {A B} (p : prog E A) (f g : A -> prog E B) s :
  (forall a s', run (f a) s' = run (g a) s') -> run (pbind p f) s = run (pbind p g) s.
Proof. intros Hfg. rewrite !run_bind. by destruct (run p s) as [[a|] s']; simpl. Qed.

(** Inversion of an execution. *)
Lemma exec_inv {A} env (p : prog E A) s a s' : exec_in env p s a s' ->
  match p with
  | Ret x => a = Some x /\ s' = s
  | Panic => a = None /\ s' = s
  | Call o k => exists s1, rtc env s s1 /\ h_room s1 /\
      exec_in env (k (h_do o s1).1) (h_do o s1).2 a s'
  end.
Proof. destruct 1; eauto. Qed.

Lemma exec_Ret_inv {A} env (x : A) s y s' :
  exec_in env (Ret x) s y s' -> y = Some x /\ s' = s.
Proof. apply (exec_inv env (Ret x)). Qed.

(** Executions of a sequence. *)
Lemma exec_bind_inv {A B} env (p : prog E A) (f : A -> prog E B) s x s' :
  exec_in env (pbind p f) s x s' ->
  (exists a s1, exec_in env p s (Some a) s1 /\ exec_in env (f a) s1 x s') \/
  (exec_in env p s None s' /\ x = None).
Proof.
  revert s. induction p as [a| |R o k IH]; intros s Hex.
  - left. exists a, s. split; [constructor|done].
  - apply exec_inv in Hex as [-> ->]. right. split; [constructor|done].
  - apply exec_inv in Hex as (s1 & Henv & Hroom & Hex).
    apply IH in Hex as [(a & s2 & Hp & Hf)|[Hp ->]].
    + left. exists a, s2. split; [|done]. by econstructor.
    + right. split; [|done]. by econstructor.
Qed.

(** A run alone is an execution, where a test of the room holds at each call. *)
Fixpoint run_ok {A} (room : S -> bool) (p : prog E A) (s : S) : bool :=
  match p with
  | Ret _ | Panic => true
  | Call o k => room s && run_ok room (k (h_do o s).1) (h_do o s).2
  end.

Lemma run_exec {A} env room (p : prog E A) s :
  (forall s, room s = true -> h_room s) -> run_ok room p s = true ->
  exec_in env p s (run p s).1 (run p s).2.
Proof.
  intros Hroom. revert s. induction p as [| |R o k IH]; intros s; simpl; [constructor|constructor|].
  intros [Hr Hok]%andb_true_iff. econstructor; [apply rtc_refl|by apply Hroom|].
  specialize (IH _ _ Hok). by destruct (h_do o s).
Qed.

(** A run with given steps of the others, one before each call. *)
Fixpoint run_with {A} (acts : list (S -> S)) (p : prog E A) (s : S) : option A * S :=
  match p with
  | Ret a => (Some a, s)
  | Panic => (None, s)
  | Call o k =>
      let s := match acts with act :: _ => act s | [] => s end in
      run_with (tail acts) (k (h_do o s).1) (h_do o s).2
  end.

Lemma run_with_exec {A} env acts (p : prog E A) s :
  (forall s, h_room s) -> Forall (fun act => forall s, rtc env s (act s)) acts ->
  exec_in env p s (run_with acts p s).1 (run_with acts p s).2.
Proof.
  intros Hroom. revert acts s. induction p as [a| |R o k IH]; intros acts s Ha; [constructor|constructor|].
  simpl. destruct Ha as [|act acts Hact Ha]; (econstructor; [|apply Hroom|apply IH; by try constructor]); [done|apply Hact].
Qed.

Lemma pbind_Ret {A B} (a : A) (f : A -> prog E B) : pbind (Ret a) f = f a.
Proof. done. Qed.
End exec.

Abbreviation exec := (exec_in env_step).
