(* ===== verification/OrderedMap.v ===== *)
(** * The ordered map the drivers index their keys with

    [github.com/tidwall/btree] is a dependency: its operations are a class,
    its documented behaviour (get, set and delete by key; [Scan] and the
    iterator visit the items in ascending key order) the laws.  A sorted
    association list is an instance of both.  The loop the drivers scan an
    index with is at the end. *)
From S2P Require Import Prelude.

Class OrderedMap (M : Type -> Type) := {
  om_empty : forall {V}, M V;
  om_Get : forall {V}, M V -> string -> option V;
  om_Set : forall {V}, string -> V -> M V -> M V;
  om_Delete : forall {V}, string -> M V -> M V;
  om_Items : forall {V}, M V -> list (string * V)
}.

Class OrderedMapLaws (M : Type -> Type) `{OrderedMap M} : Prop := {
  om_Get_empty : forall V k, om_Get (V:=V) om_empty k = None;
  om_Get_Set : forall V (m : M V) k v k',
    om_Get (om_Set k v m) k' = if decide (k = k') then Some v else om_Get m k';
  om_Get_Delete : forall V (m : M V) k k',
    om_Get (om_Delete k m) k' = if decide (k = k') then None else om_Get m k';
  om_Items_sorted : forall V (m : M V), keys_sorted (om_Items m);
  om_Items_Get : forall V (m : M V) k v, (k, v) ∈ om_Items m <-> om_Get m k = Some v
}.

(** [iter.Seek(key)] moves to the first item whose key is [>= key]; what the
    iterator then visits with [Next] is the rest of the items. *)
Definition om_Seek {M} `{OrderedMap M} {V} (m : M V) (key : string) : list (string * V) :=
  filter (fun p => String.ltb p.1 key = false) (om_Items m).

Lemma keys_sorted_filter {V} (P : string * V -> Prop) `{!forall p, Decision (P p)} l :
  keys_sorted l -> keys_sorted (filter P l).
Proof.
  unfold keys_sorted. induction l as [|p l IH]; intros Hs; [done|].
  rewrite filter_cons. inversion Hs as [|?? Hs' Hall]; subst.
  case_decide; [|by apply IH]. constructor; [by apply IH|].
  apply Forall_forall. intros x (p' & -> & [_ Hin]%list_elem_of_filter)%list_elem_of_fmap.
  rewrite Forall_forall in Hall. apply Hall, list_elem_of_fmap. by exists p'.
Qed.

Lemma om_Seek_sorted {M V} `{OrderedMapLaws M} (m : M V) key : keys_sorted (om_Seek m key).
Proof. apply keys_sorted_filter, om_Items_sorted. Qed.

Lemma om_Seek_ge {M V} `{OrderedMap M} (m : M V) key : Forall (fun p => String.ltb p.1 key = false) (om_Seek m key).
Proof. apply Forall_forall. by intros p [? _]%list_elem_of_filter. Qed.

(** ** The instance: association lists sorted by key *)
Abbreviation amap V := (list (string * V)).

Fixpoint amap_get {V} (m : amap V) (k : string) : option V :=
  match m with
  | [] => None
  | (k', v) :: m' => if String.eqb k k' then Some v else amap_get m' k
  end.

Fixpoint amap_set {V} (k : string) (v : V) (m : amap V) : amap V :=
  match m with
  | [] => [(k, v)]
  | (k', v') :: m' =>
      if String.eqb k k' then (k, v) :: m'
      else if String.ltb k k' then (k, v) :: (k', v') :: m'
      else (k', v') :: amap_set k v m'
  end.

Definition amap_delete {V} (k : string) (m : amap V) : amap V :=
  filter (fun p => p.1 <> k) m.

Definition samap (V : Type) : Type := { m : amap V | bool_decide (keys_sorted m) = true }.

Lemma amap_set_fst {V} k (v : V) m x :
  x ∈ (amap_set k v m).*1 -> x = k \/ x ∈ m.*1.
Proof.
  induction m as [|[k' v'] m IH]; simpl.
  - rewrite list_elem_of_singleton. auto.
  - case_match; b2p; subst; simpl; [set_solver|].
    case_match; simpl; set_solver.
Qed.

Lemma amap_set_sorted {V} k (v : V) m : keys_sorted m -> keys_sorted (amap_set k v m).
Proof.
  unfold keys_sorted. induction m as [|[k' v'] m IH]; simpl; intros Hs.
  { repeat constructor. }
  inversion Hs as [|?? Hs' Hall]; subst.
  destruct (String.eqb k k') eqn:E; b2p; simpl; [by subst|].
  destruct (String.ltb k k') eqn:E'; simpl.
  - constructor; [done|]. constructor; [done|].
    eapply Forall_impl; [done|]. intros x Hx. by trans k'.
  - constructor; [auto|]. apply Forall_forall. intros x [->|Hx]%amap_set_fst.
    + destruct (decide (str_lt k' k)) as [|Hn]; [done|].
      exfalso. apply E, ltb_total; [done|]. apply not_true_is_false, Hn.
    + rewrite Forall_forall in Hall. auto.
Qed.

Lemma amap_delete_sorted {V} k (m : amap V) : keys_sorted m -> keys_sorted (amap_delete k m).
Proof.
  unfold keys_sorted, amap_delete. induction m as [|[k' v'] m IH]; intros Hs; [done|].
  inversion Hs as [|?? Hs' Hall]; subst. rewrite filter_cons. case_decide; [|auto].
  simpl. constructor; [auto|]. apply Forall_forall.
  intros x [[y w] [-> [_ Hy]%list_elem_of_filter]]%list_elem_of_fmap.
  rewrite Forall_forall in Hall. apply Hall, list_elem_of_fmap. by exists (y, w).
Qed.

Lemma amap_get_set {V} (m : amap V) k v k' :
  amap_get (amap_set k v m) k' = if decide (k = k') then Some v else amap_get m k'.
Proof.
  induction m as [|[k0 v0] m IH]; simpl.
  - repeat case_match; b2p; congruence.
  - destruct (String.eqb k k0) eqn:E; b2p; simpl; [subst|destruct (String.ltb k k0); simpl; rewrite ?IH];
      repeat case_match; b2p; congruence.
Qed.

Lemma amap_get_delete {V} (m : amap V) k k' :
  amap_get (amap_delete k m) k' = if decide (k = k') then None else amap_get m k'.
Proof.
  unfold amap_delete. induction m as [|[k0 v0] m IH]; [by case_decide|].
  rewrite filter_cons; simpl. destruct (decide (k0 = k)) as [->|Hk].
  - rewrite decide_False by (intros Hn; by apply Hn). rewrite IH.
    case_decide; [done|]. destruct (String.eqb k' k) eqn:E; b2p; congruence.
  - rewrite decide_True by done. simpl. rewrite IH.
    destruct (String.eqb k' k0) eqn:E; b2p; [subst|done]. by rewrite decide_False.
Qed.

Lemma amap_items_get {V} (m : amap V) k v :
  keys_sorted m -> (k, v) ∈ m <-> amap_get m k = Some v.
Proof.
  unfold keys_sorted. induction m as [|[k0 v0] m IH]; simpl; intros Hs.
  { split; [by intros ?%not_elem_of_nil|done]. }
  inversion Hs as [|?? Hs' Hall]; subst.
  rewrite elem_of_cons, IH by done. case_match; b2p; subst.
  - split; [|intros; simplify_eq; auto]. intros [?|Hg]; [congruence|].
    apply IH in Hg; [|done]. rewrite Forall_forall in Hall.
    exfalso. apply (irreflexivity str_lt k0), Hall, list_elem_of_fmap. by exists (k0, v).
  - split; [intros [?|?]; congruence|auto].
Qed.

Definition samap_mk {V} (m : amap V) (H : keys_sorted m) : samap V :=
  m ↾ bool_decide_eq_true_2 _ H.

#[export] Instance samap_om : OrderedMap samap := {
  om_empty V := [] ↾ eq_refl;
  om_Get V m k := amap_get (proj1_sig m) k;
  om_Set V k v m := samap_mk (amap_set k v (proj1_sig m))
    (amap_set_sorted _ _ _ (bool_decide_eq_true_1 _ (proj2_sig m)));
  om_Delete V k m := samap_mk (amap_delete k (proj1_sig m))
    (amap_delete_sorted _ _ (bool_decide_eq_true_1 _ (proj2_sig m)));
  om_Items V m := proj1_sig m
}.

#[export] Instance samap_laws : OrderedMapLaws samap.
Proof.
  split; simpl; intros.
  - done.
  - apply amap_get_set.
  - apply amap_get_delete.
  - apply (bool_decide_eq_true_1 _ (proj2_sig m)).
  - apply amap_items_get, (bool_decide_eq_true_1 _ (proj2_sig m)).
Qed.

(** ** Scanning an ordered index

    The loop both drivers with an index list with: visit the items from the
    first key on, stop at the end of the range or when enough were found. *)

Definition in_list_range (k key e : string) : Prop :=
  if decide (e = "") then k = key else str_lt k e /\ ~ str_lt k key.

#[export] Instance in_list_range_dec k key e : Decision (in_list_range k key e).
Proof. unfold in_list_range. case_decide; apply _. Defined.

Definition limited {A} (limit : Z) (l : list A) : list A :=
  if limit >? 0 then take (Z.to_nat limit) l else l.

Definition stop (key e k : string) : bool :=
  (String.eqb e "" && negb (String.eqb k key)) || (negb (String.eqb e "") && negb (String.ltb k e)).

Lemma stop_spec key e k : String.ltb k key = false -> stop key e k = false <-> in_list_range k key e.
Proof.
  intros Hk. unfold stop, in_list_range, str_lt. rewrite Hk.
  destruct (String.eqb e "") eqn:E; b2p; simpl.
  - rewrite decide_True by done. rewrite orb_false_r, negb_false_iff, String.eqb_eq. done.
  - rewrite decide_False by done. rewrite negb_false_iff. split; [by intros|tauto].
Qed.

(** Once the scan stops, no later key is in the range. *)
Lemma stop_mono key e k k' :
  String.ltb k key = false -> str_lt k k' -> stop key e k = true -> stop key e k' = true.
Proof.
  intros Hk Hlt. unfold stop. destruct (String.eqb e "") eqn:E; b2p; simpl.
  - rewrite !orb_false_r, !negb_true_iff, !String.eqb_neq. intros Hn ->.
    unfold str_lt in Hlt. congruence.
  - rewrite !negb_true_iff. intros Hn. apply not_true_is_false. intros Hlt'.
    assert (str_lt k e) as Hc by (by trans k'). unfold str_lt in Hc. congruence.
Qed.

Lemma in_list_range_ge k key e : in_list_range k key e -> String.ltb k key = false.
Proof.
  unfold in_list_range. case_decide; [intros ->; apply ltb_irrefl|].
  intros [_ Hn]. by apply not_true_is_false.
Qed.

Lemma limited_short {A} limit (l : list A) : (limit > 0 -> Z.of_nat (length l) <= limit) -> limited limit l = l.
Proof. intros Hl. unfold limited. destruct (Z.gtb_spec limit 0); [|done]. apply take_ge. lia. Qed.

Section scan.
Context {V B : Type} (f : string -> V -> option B) (key e : string) (limit : Z).

Fixpoint scan_loop (items : list (string * V)) (acc : list B) : list B :=
  match items with
  | [] => acc
  | (k, v) :: items =>
      if stop key e k then acc
      else
        let acc := match f k v with Some b => acc ++ [b] | None => acc end in
        if (limit >? 0) && (Z.of_nat (length acc) >=? limit) then acc else scan_loop items acc
  end.

Definition scanned (items : list (string * V)) : list B :=
  omap (fun p => f p.1 p.2) (filter (fun p => in_list_range p.1 key e) items).

Lemma scanned_none items : Forall (fun p => ~ in_list_range p.1 key e) items -> scanned items = [].
Proof. intros Hn. unfold scanned. rewrite filter_none; [done|]. rewrite Forall_forall in Hn. auto. Qed.

Lemma scan_spec items acc : keys_sorted items -> Forall (fun p => String.ltb p.1 key = false) items ->
  (limit > 0 -> Z.of_nat (length acc) < limit) -> scan_loop items acc = limited limit (acc ++ scanned items).
Proof.
  revert acc. induction items as [|[k v] items IH]; intros acc Hs Hf Hlim.
  { unfold scanned. simpl. rewrite app_nil_r, limited_short; [done|lia]. }
  cbn [scan_loop]. unfold keys_sorted in Hs. rewrite fmap_cons in Hs.
  inversion Hs as [|?? Hs' Hall]; subst. inversion Hf as [|?? Hk Hf']; subst. cbn [fst] in *.
  destruct (stop key e k) eqn:Hst.
  - rewrite scanned_none; [rewrite app_nil_r, limited_short; [done|lia]|].
    constructor; [simpl; intros Hr; apply stop_spec in Hr; [congruence|done]|].
    apply Forall_forall. intros [k' v'] Hin Hr. simpl in Hr. pose proof (in_list_range_ge _ _ _ Hr) as Hge.
    apply stop_spec in Hr; [|done]. rewrite Forall_forall in Hall.
    assert (Hlt : str_lt k k') by (apply Hall, list_elem_of_fmap; by exists (k', v')).
    rewrite (stop_mono key e k k' Hk Hlt Hst) in Hr. done.
  - assert (Hsc : scanned ((k, v) :: items) = option_list (f k v) ++ scanned items).
    { unfold scanned. rewrite filter_cons, decide_True by by apply stop_spec. simpl. by destruct (f k v). }
    rewrite Hsc, app_assoc. set (acc' := match f k v with Some b => acc ++ [b] | None => acc end).
    assert (Hacc : acc' = acc ++ option_list (f k v)) by (subst acc'; destruct (f k v); simpl; by rewrite ?app_nil_r).
    rewrite <- Hacc. destruct ((limit >? 0) && (Z.of_nat (length acc') >=? limit)) eqn:E; b2p.
    + unfold limited. rewrite (proj2 (Z.gtb_lt _ _)) by lia.
      assert (length acc' = Z.to_nat limit) as <-; [|by rewrite take_app_length].
      assert (length acc' <= S (length acc))%nat; [|lia]. rewrite Hacc, length_app. destruct (f k v); simpl; lia.
    + apply IH; [done|done|]. destruct E as [E|E]; b2p; lia.
Qed.
End scan.

(** What the items of a range contribute keeps their order. *)
Lemma omap_keys_sorted {B} (f : string -> option B) (g : B -> string) (ks : list string) :
  (forall k b, f k = Some b -> g b = k) -> StronglySorted str_lt ks -> StronglySorted str_lt (g <$> omap f ks).
Proof.
  intros Hkey. induction 1 as [|k ks Hs IH Hall]; [constructor|].
  rewrite omap_cons_list. destruct (f k) as [b|] eqn:E; simpl; [|done].
  constructor; [done|]. rewrite (Hkey _ _ E). apply Forall_forall.
  intros x [b' [-> [k' [Hk' Hi]]%list_elem_of_omap]]%list_elem_of_fmap.
  rewrite (Hkey _ _ Hi). rewrite Forall_forall in Hall. auto.
Qed.

Lemma limited_fmap {A B} (f : A -> B) limit l : limited limit (f <$> l) = f <$> limited limit l.
Proof. unfold limited. destruct (limit >? 0); [by rewrite firstn_map|done]. Qed.

Lemma Forall_limited {A} (P : A -> Prop) limit l : Forall P l -> Forall P (limited limit l).
Proof. intros Hl. unfold limited. destruct (limit >? 0); [by apply Forall_take|done]. Qed.
