(* ===== verification/Mvcc.v ===== *)
(** * The abstract store: a multi-version history

    The specification the storage drivers are proved against.  A history is
    the list of every write in revision order; the value of a key at a
    revision is decided by the last write to it at or below that revision, and
    is absent when that write is a deletion.  Compaction may forget writes,
    but never one that a read at or above the compact revision needs. *)
From S2P Require Import Prelude Types.

Record write := MkWrite {
  wRev : Z;
  wKey : string;
  wValue : string;
  wCreate : Z;
  wVersion : Z;
  wPrev : Z;
  wLease : Z;
  wCreated : bool;
  wDeleted : bool
}.

#[export] Instance write_eq_dec : EqDecision write.
Proof. solve_decision. Defined.

Definition wKV (w : write) : KeyValue :=
  MkKeyValue (wKey w) (wValue w) (wVersion w) (wCreate w) (wRev w) (wLease w).

Definition rev_lt (v w : write) : Prop := wRev v < wRev w.
Definition sorted (h : list write) : Prop := StronglySorted rev_lt h.

Definition hist_of (k : string) (h : list write) : list write := filter (fun w => wKey w = k) h.
Definition upto (r : Z) (h : list write) : list write := filter (fun w => wRev w <= r) h.
Definition above (r : Z) (h : list write) : list write := filter (fun w => r < wRev w) h.

(** The value a deciding write stands for. *)
Definition live (o : option write) : option KeyValue :=
  match o with
  | Some w => if wDeleted w then None else Some (wKV w)
  | None => None
  end.

(** The value of [k] at revision [r]. *)
Definition view (h : list write) (r : Z) (k : string) : option KeyValue :=
  live (last (upto r (hist_of k h))).

(** The current value of [k]. *)
Definition current (h : list write) (k : string) : option KeyValue :=
  live (last (hist_of k h)).

(** What compaction at [c] keeps of one key's history: the last write at or
    below [c] unless it is a deletion, and every later write. *)
Definition trim (c : Z) (l : list write) : list write :=
  match last (upto c l) with
  | None => l
  | Some f => if wDeleted f then above c l else f :: above c l
  end.

(** Properties of a well-formed history at current revision [n]. *)
Record wf_history (h : list write) (n : Z) : Prop := {
  wf_sorted : sorted h;
  wf_bounds : Forall (fun w => 0 < wRev w <= n) h
}.

Section history.
Implicit Types h l : list write.

Lemma hist_of_app k h1 h2 : hist_of k (h1 ++ h2) = hist_of k h1 ++ hist_of k h2.
Proof. apply filter_app. Qed.

Lemma upto_app r h1 h2 : upto r (h1 ++ h2) = upto r h1 ++ upto r h2.
Proof. apply filter_app. Qed.

Lemma hist_of_one k w : hist_of k [w] = if decide (wKey w = k) then [w] else [].
Proof. unfold hist_of. rewrite filter_cons, filter_nil. done. Qed.

Lemma upto_one r w : upto r [w] = if decide (wRev w <= r) then [w] else [].
Proof. unfold upto. rewrite filter_cons, filter_nil. done. Qed.

Lemma sorted_hist_of k h : sorted h -> sorted (hist_of k h).
Proof. apply StronglySorted_filter. Qed.

Lemma elem_of_hist_of k h w : w ∈ hist_of k h <-> wKey w = k /\ w ∈ h.
Proof. unfold hist_of. by rewrite list_elem_of_filter. Qed.

Lemma elem_of_upto r h w : w ∈ upto r h <-> wRev w <= r /\ w ∈ h.
Proof. unfold upto. by rewrite list_elem_of_filter. Qed.

Lemma elem_of_above r h w : w ∈ above r h <-> r < wRev w /\ w ∈ h.
Proof. unfold above. by rewrite list_elem_of_filter. Qed.

Lemma sorted_snoc h w :
  sorted h -> Forall (fun v => wRev v < wRev w) h -> sorted (h ++ [w]).
Proof.
  unfold sorted. induction 1 as [|v h Hs IH Hv]; simpl; intros Hall.
  - repeat constructor.
  - inversion Hall; subst. constructor; [auto|].
    apply Forall_app; split; [done|]. repeat constructor; done.
Qed.

Lemma upto_all r h : Forall (fun w => wRev w <= r) h -> upto r h = h.
Proof.
  unfold upto. induction 1 as [|w h Hw Hh IH]; [done|].
  rewrite filter_cons, IH. by case_decide.
Qed.

Lemma upto_none r h : Forall (fun w => r < wRev w) h -> upto r h = [].
Proof.
  unfold upto. induction 1 as [|w h Hw Hh IH]; [done|].
  rewrite filter_cons, IH. case_decide; [lia|done].
Qed.

Lemma above_none r h : Forall (fun w => wRev w <= r) h -> above r h = [].
Proof.
  unfold above. induction 1 as [|w h Hw Hh IH]; [done|].
  rewrite filter_cons, IH. case_decide; [lia|done].
Qed.

Lemma above_all r h : Forall (fun w => r < wRev w) h -> above r h = h.
Proof.
  unfold above. induction 1 as [|w h Hw Hh IH]; [done|].
  rewrite filter_cons, IH. by case_decide.
Qed.

Lemma Forall_above r h : Forall (fun w => r < wRev w) (above r h).
Proof. apply Forall_forall. by intros w [? _]%list_elem_of_filter. Qed.

Lemma Forall_upto r h : Forall (fun w => wRev w <= r) (upto r h).
Proof. apply Forall_forall. by intros w [? _]%list_elem_of_filter. Qed.

(** A sorted history splits at every revision. *)
Lemma split_at c h : sorted h -> h = upto c h ++ above c h.
Proof.
  unfold sorted. induction 1 as [|w h Hs IH Hw]; [done|].
  unfold upto, above. rewrite !filter_cons. fold (upto c h). fold (above c h).
  destruct (decide (wRev w <= c)), (decide (c < wRev w)); try lia.
  - simpl. by rewrite <- IH.
  - rewrite upto_none, above_all; [done| |];
      (eapply Forall_impl; [exact Hw|]; unfold rev_lt; simpl; lia).
Qed.

Lemma upto_upto c r h : c <= r -> upto c (upto r h) = upto c h.
Proof.
  intros. unfold upto. rewrite list_filter_filter. apply list_filter_iff. intros; lia.
Qed.

Lemma last_app_or {A} (l1 l2 : list A) :
  last (l1 ++ l2) = match last l2 with Some x => Some x | None => last l1 end.
Proof. by rewrite last_app. Qed.

(** Reads at or above the compact revision do not see the trimming. *)
Lemma trim_live c r l :
  sorted l -> c <= r -> live (last (upto r (trim c l))) = live (last (upto r l)).
Proof.
  intros Hs Hc. unfold trim. destruct (last (upto c l)) as [f|] eqn:Hf; [|done].
  rewrite (split_at c l Hs) at 3. rewrite upto_app.
  rewrite (upto_all r (upto c l))
    by (eapply Forall_impl; [apply Forall_upto|]; simpl; lia).
  rewrite last_app_or, Hf. destruct (wDeleted f) eqn:Hd.
  - destruct (last (upto r (above c l))); [done|]. simpl. by rewrite Hd.
  - assert (wRev f <= c).
    { apply last_Some_elem_of in Hf. by apply elem_of_upto in Hf as [? _]. }
    change (f :: above c l) with ([f] ++ above c l).
    rewrite upto_app, upto_one, decide_True by lia.
    rewrite last_app_or. by destruct (last (upto r (above c l))).
Qed.

(** Trimming twice is trimming at the later revision. *)
Lemma above_above c c' h : c <= c' -> above c' (above c h) = above c' h.
Proof.
  intros. unfold above. rewrite list_filter_filter. apply list_filter_iff. intros; lia.
Qed.

Lemma upto_above_nil c h : last (upto c (above c h)) = None.
Proof. rewrite upto_none; [done|apply Forall_above]. Qed.

Lemma trim_trim c c' l : sorted l -> c <= c' -> trim c' (trim c l) = trim c' l.
Proof.
  intros Hs Hc. unfold trim at 2. destruct (last (upto c l)) as [f|] eqn:Hf; [|done].
  assert (Hrf : wRev f <= c).
  { apply last_Some_elem_of in Hf. by apply elem_of_upto in Hf as [? _]. }
  assert (Hl : last (upto c' l)
    = match last (upto c' (above c l)) with Some x => Some x | None => Some f end).
  { rewrite (split_at c l Hs) at 1. rewrite upto_app, last_app_or.
    rewrite (upto_all c' (upto c l)), Hf; [done|].
    eapply Forall_impl; [apply Forall_upto|]; simpl; lia. }
  unfold trim. rewrite Hl. destruct (wDeleted f) eqn:Hd.
  - destruct (last (upto c' (above c l))) as [g|] eqn:Hg.
    + by rewrite above_above.
    + rewrite Hd. rewrite <- (above_above c c') by done.
      symmetry. apply above_all, Forall_forall. intros w Hw.
      apply Z.lt_nge. intros Hle. apply last_None in Hg.
      apply (not_elem_of_nil w). rewrite <- Hg. by apply list_elem_of_filter.
  - change (f :: above c l) with ([f] ++ above c l).
    rewrite upto_app, upto_one, decide_True by lia. rewrite last_app_or.
    assert (above c' ([f] ++ above c l) = above c' l) as ->.
    { unfold above at 1. rewrite filter_app, filter_cons, filter_nil, decide_False by lia.
      apply above_above. lia. }
    by destruct (last (upto c' (above c l))).
Qed.

(** A trimmed history is still sorted. *)
Lemma sorted_trim c l : sorted l -> sorted (trim c l).
Proof.
  intros Hs. unfold trim. destruct (last (upto c l)) as [f|] eqn:Hf; [|done].
  assert (wRev f <= c).
  { apply last_Some_elem_of in Hf. by apply elem_of_upto in Hf as [? _]. }
  assert (sorted (above c l)) by by apply StronglySorted_filter.
  destruct (wDeleted f); [done|]. constructor; [done|].
  eapply Forall_impl; [apply Forall_above|]. unfold rev_lt; simpl; lia.
Qed.

Lemma trim_subset c l w : w ∈ trim c l -> w ∈ l.
Proof.
  unfold trim. destruct (last (upto c l)) as [f|] eqn:Hf; [|done].
  apply last_Some_elem_of, elem_of_upto in Hf as [_ Hf].
  destruct (wDeleted f); rewrite ?elem_of_cons, elem_of_above; naive_solver.
Qed.

(** Appending to a history commutes with trimming it below the new write. *)
Lemma trim_snoc c l w : c < wRev w -> trim c (l ++ [w]) = trim c l ++ [w].
Proof.
  intros Hc. unfold trim. rewrite upto_app, upto_one, decide_False by lia. rewrite app_nil_r.
  unfold above. rewrite filter_app, filter_cons, filter_nil, decide_True by lia.
  destruct (last (upto c l)) as [f|]; [|done]. by destruct (wDeleted f).
Qed.

(** Later writes do not change what a past revision shows. *)
Lemma view_snoc_past h w r k : r < wRev w -> view (h ++ [w]) r k = view h r k.
Proof.
  intros. unfold view. rewrite hist_of_app, hist_of_one.
  case_decide; [|by rewrite app_nil_r].
  rewrite upto_app, upto_one, decide_False by lia. by rewrite app_nil_r.
Qed.

Lemma current_snoc h w k :
  current (h ++ [w]) k = if decide (wKey w = k) then live (Some w) else current h k.
Proof.
  unfold current. rewrite hist_of_app, hist_of_one.
  case_decide; [by rewrite last_snoc|by rewrite app_nil_r].
Qed.

(** The current value is the value at the current revision. *)
Lemma view_current h n k : wf_history h n -> view h n k = current h k.
Proof.
  intros [_ Hb]. unfold view, current. rewrite upto_all; [done|].
  apply Forall_forall. intros w [_ Hw]%elem_of_hist_of.
  rewrite Forall_forall in Hb. specialize (Hb w Hw). simpl in Hb. lia.
Qed.
End history.
