(* ===== verification/MvccSpec.v ===== *)
(** * The contract of a storage driver, as a transition system

    A state is the history of accepted writes, the current revision and the
    compact revision; a step performs one operation of the [server.Backend]
    interface and fixes its result.  The drivers are proved to be simulated by
    this system; the guarantees of optimistic concurrency are proved on it. *)
From S2P Require Import Prelude Types Mvcc.

Record astate := MkAState { a_hist : list write; a_rev : Z; a_compact : Z }.

Inductive op : Type :=
  | OCreate (k v : string) (lease : Z)
  | OUpdate (k v : string) (rev lease : Z)
  | ODelete (k : string) (rev : Z)
  | OCompact (rev : Z).

(** [(int64, error)] and [(int64, *KeyValue, bool, error)]. *)
Inductive res : Type :=
  | RRev (rev : Z) (e : gerr)
  | RKV (rev : Z) (kv : option KeyValue) (ok : bool) (e : gerr).

Definition accepted (o : op) (r : res) : bool :=
  match r with RRev _ None => true | RRev _ (Some _) => false | RKV _ _ ok _ => ok end.

Definition add_write (w : write) (a : astate) : astate :=
  MkAState (a_hist a ++ [w]) (wRev w) (a_compact a).

Inductive mvcc_step (a : astate) : op -> res -> astate -> Prop :=
  | create_ok k v l n' prev :
      current (a_hist a) k = None -> a_rev a < n' ->
      mvcc_step a (OCreate k v l) (RRev n' None)
        (add_write (MkWrite n' k v n' 1 prev l true false) a)
  | create_exists k v l kv :
      current (a_hist a) k = Some kv ->
      mvcc_step a (OCreate k v l) (RRev (a_rev a) (Some ErrKeyExists)) a
  | update_ok k v rev l kv n' :
      current (a_hist a) k = Some kv -> kvModRevision kv = rev -> a_rev a < n' ->
      let w := MkWrite n' k v (kvCreateRevision kv) (wrap64 (kvVersion kv + 1)) rev l false false in
      mvcc_step a (OUpdate k v rev l) (RKV n' (Some (wKV w)) true None) (add_write w a)
  | update_stale k v rev l kv :
      current (a_hist a) k = Some kv -> kvModRevision kv <> rev ->
      mvcc_step a (OUpdate k v rev l) (RKV (a_rev a) (Some kv) false None) a
  | update_missing k v rev l :
      current (a_hist a) k = None ->
      mvcc_step a (OUpdate k v rev l) (RKV (a_rev a) None false None) a
  | delete_ok k rev kv n' :
      current (a_hist a) k = Some kv -> (rev = 0 \/ kvModRevision kv = rev) -> a_rev a < n' ->
      mvcc_step a (ODelete k rev) (RKV n' (Some kv) true None)
        (add_write (MkWrite n' k (kvValue kv) (kvCreateRevision kv) (kvVersion kv)
                      (kvModRevision kv) (kvLease kv) false true) a)
  | delete_stale k rev kv :
      current (a_hist a) k = Some kv -> rev <> 0 -> kvModRevision kv <> rev ->
      mvcc_step a (ODelete k rev) (RKV (a_rev a) (Some kv) false None) a
  | delete_missing k rev :
      current (a_hist a) k = None ->
      mvcc_step a (ODelete k rev) (RKV (a_rev a) None false None) a
  | compact_ok r :
      a_compact a < r <= a_rev a ->
      mvcc_step a (OCompact r) (RRev (a_rev a) None) (MkAState (a_hist a) (a_rev a) r)
  | compact_future r :
      a_rev a < r -> mvcc_step a (OCompact r) (RRev 0 (Some ErrFutureRev)) a
  | compact_compacted r :
      r <= a_compact a -> mvcc_step a (OCompact r) (RRev 0 (Some ErrCompacted)) a.

(** Runs, with the operations and results in order. *)
Inductive mvcc_run : astate -> list (op * res) -> astate -> Prop :=
  | run_nil a : mvcc_run a [] a
  | run_cons a o r a' l a'' :
      mvcc_step a o r a' -> mvcc_run a' l a'' -> mvcc_run a ((o, r) :: l) a''.

Definition a_init : astate := MkAState [] 0 0.

Record a_wf (a : astate) : Prop := {
  awf_hist : wf_history (a_hist a) (a_rev a);
  awf_compact : 0 <= a_compact a <= a_rev a
}.

Section spec.
Implicit Types a : astate.

Lemma add_write_wf a w : a_wf a -> a_rev a < wRev w -> a_wf (add_write w a).
Proof.
  intros [[Hs Hb] Hc] Hw. split; [split|]; simpl; [| |lia].
  - apply sorted_snoc; [done|]. eapply Forall_impl; [exact Hb|]. simpl; lia.
  - apply Forall_app; split; [|repeat constructor; lia].
    eapply Forall_impl; [exact Hb|]. simpl; lia.
Qed.

Lemma a_init_wf : a_wf a_init.
Proof. split; [split|]; simpl; [constructor|constructor|lia]. Qed.

Lemma mvcc_step_wf a o r a' : mvcc_step a o r a' -> a_wf a -> a_wf a'.
Proof.
  destruct 1; intros Hwf; try done; try by apply add_write_wf.
  destruct Hwf as [Hh Hc]. split; [done|]. simpl in *. lia.
Qed.

Lemma mvcc_run_wf a l a' : mvcc_run a l a' -> a_wf a -> a_wf a'.
Proof. induction 1; eauto using mvcc_step_wf. Qed.

(** The revision never decreases, and histories only grow. *)
Lemma mvcc_step_mono a o r a' :
  mvcc_step a o r a' -> a_rev a <= a_rev a' /\ a_hist a `prefix_of` a_hist a'.
Proof.
  destruct 1; simpl; (split; [try lia|try done]); try by eexists.
Qed.

Lemma mvcc_run_mono a l a' :
  mvcc_run a l a' -> a_rev a <= a_rev a' /\ a_hist a `prefix_of` a_hist a'.
Proof.
  induction 1 as [|a o r a' l a'' Hs _ [IH1 IH2]]; [done|].
  destruct (mvcc_step_mono _ _ _ _ Hs). split; [lia|]. by etrans.
Qed.

(** What a past revision shows never changes. *)
Lemma mvcc_run_view a l a' r k :
  mvcc_run a l a' -> a_wf a -> r <= a_rev a -> view (a_hist a') r k = view (a_hist a) r k.
Proof.
  induction 1 as [|a o x a' l a'' Hs _ IH]; intros Hwf Hr; [done|].
  rewrite IH; [|by eapply mvcc_step_wf|].
  - destruct Hs; simpl; try done; apply view_snoc_past; simpl; lia.
  - destruct (mvcc_step_mono _ _ _ _ Hs). lia.
Qed.

Lemma current_mod h k kv : current h k = Some kv ->
  exists w, w ∈ h /\ wKey w = k /\ kv = wKV w /\ last (hist_of k h) = Some w.
Proof.
  unfold current. destruct (last (hist_of k h)) as [w|] eqn:E; simpl; [|done].
  destruct (wDeleted w); [done|]. intros [= <-]. exists w.
  pose proof E as E'. apply last_Some_elem_of, elem_of_hist_of in E' as [? ?]. done.
Qed.

(** Once a key has been written at [r], its current value is never again
    older than [r]. *)
Lemma current_after h n k w kv :
  wf_history h n -> w ∈ h -> wKey w = k -> current h k = Some kv -> wRev w <= kvModRevision kv.
Proof.
  intros [Hs _] Hw Hk (v & Hv & Hkv & -> & Hlast)%current_mod. simpl.
  apply (sorted_hist_of k) in Hs. assert (Hin : w ∈ hist_of k h) by by apply elem_of_hist_of.
  clear Hw. induction (hist_of k h) as [|x l IH] using rev_ind; [set_solver|].
  rewrite last_snoc in Hlast. simplify_eq. apply elem_of_app in Hin as [Hin|Hin].
  - unfold sorted in Hs. apply StronglySorted_app in Hs as (Hlt & _ & _).
    specialize (Hlt w v Hin). unfold rev_lt in Hlt. set_solver by lia.
  - apply list_elem_of_singleton in Hin as ->. done.
Qed.

Lemma accepted_write a o r a' k rev :
  mvcc_step a o r a' -> accepted o r = true ->
  (exists v l, o = OUpdate k v rev l) \/ o = ODelete k rev ->
  (rev <> 0 -> exists kv, current (a_hist a) k = Some kv /\ kvModRevision kv = rev) /\
  exists w, w ∈ a_hist a' /\ wKey w = k /\ a_rev a < wRev w.
Proof.
  intros Hs Hacc Ho. destruct Hs; simpl in Hacc; try done.
  all: destruct Ho as [(? & ? & Ho)|Ho]; try done; injection Ho as; subst.
  all: split; [intros; destruct_or?; try done; eauto|].
  all: eexists; split; [apply elem_of_app; right; apply list_elem_of_singleton; done|done].
Qed.

(** A compare-and-swap at [rev] can only be accepted before [k] is written
    again. *)
Lemma cas_rejected a l a' o r a'' k rev w :
  a_wf a -> w ∈ a_hist a -> wKey w = k -> rev < wRev w -> rev <> 0 ->
  mvcc_run a l a' -> mvcc_step a' o r a'' ->
  (exists v le, o = OUpdate k v rev le) \/ o = ODelete k rev -> accepted o r = false.
Proof.
  intros Hwf Hw Hk Hlt Hne Hrun Hs Ho. destruct (accepted o r) eqn:E; [|done]. exfalso.
  destruct (accepted_write _ _ _ _ _ _ Hs E Ho) as [Hcur _].
  destruct (Hcur Hne) as (kv & Hc & Hm).
  destruct (mvcc_run_mono _ _ _ Hrun) as [_ [suf Hpre]].
  pose proof (mvcc_run_wf _ _ _ Hrun Hwf) as Hwf'.
  pose proof (current_after _ _ k w kv (awf_hist _ Hwf')) as Ha.
  rewrite Hpre in Ha. specialize (Ha ltac:(set_solver) Hk).
  rewrite <- Hpre in Ha. specialize (Ha Hc). lia.
Qed.

(** A live key stays live, with its create revision, until it is deleted. *)
Lemma live_kept a o r a' k kv :
  mvcc_step a o r a' -> current (a_hist a) k = Some kv ->
  ((exists rev, o = ODelete k rev) -> accepted o r = false) ->
  exists kv', current (a_hist a') k = Some kv' /\ kvCreateRevision kv' = kvCreateRevision kv.
Proof.
  intros Hs Hc Hdel. destruct Hs; eauto.
  all: cbn [add_write a_hist wKey]; rewrite current_snoc; cbn [wKey].
  all: try subst w; cbn [wKey]; case_decide; subst; eauto; try congruence.
  - simplify_eq. eexists; split; [done|]. done.
  - exfalso. discriminate Hdel. by eexists.
Qed.

Lemma live_kept_run a l a' k kv :
  mvcc_run a l a' -> current (a_hist a) k = Some kv ->
  (forall rev r, (ODelete k rev, r) ∈ l -> accepted (ODelete k rev) r = false) ->
  exists kv', current (a_hist a') k = Some kv' /\ kvCreateRevision kv' = kvCreateRevision kv.
Proof.
  intros Hrun. revert kv. induction Hrun as [|a o r a' l a'' Hs Hr IH]; intros kv Hc Hd; [eauto|].
  destruct (live_kept _ _ _ _ k kv Hs Hc) as (kv' & Hc' & He).
  { intros [rev ->]. apply (Hd rev). set_solver. }
  destruct (IH kv' Hc') as (kv'' & ? & ?); [intros; apply (Hd rev); set_solver|].
  exists kv''. split; [done|congruence].
Qed.
End spec.
