(* ===== verification/Memory.v ===== *)
(** * The in-memory driver (pkg/drivers/memory/memory.go)

    The whole driver: entries live in a heap and are shared by the log and by
    the per-key histories, because [Compact] clears the [prev] pointer of an
    entry the log may still hold.  [Lock] and [Unlock] delimit the atomic
    operations, which is what each definition is; the watch goroutine takes
    the lock once per pass and is a step relation below. *)
From S2P Require Import Prelude Types OrderedMap Mvcc.

Abbreviation ptr := nat.

Record entry := MkEntry {
  e_revision : Z;
  e_key : string;
  e_value : string;
  e_createRevision : Z;
  e_version : Z;
  e_prevRevision : Z;
  e_lease : Z;
  e_created : bool;
  e_deleted : bool;
  e_prev : option ptr
}.

Definition toKeyValue (e : entry) : KeyValue :=
  MkKeyValue (e_key e) (e_value e) (e_version e) (e_createRevision e) (e_revision e) (e_lease e).

Definition set_prev (p : option ptr) (e : entry) : entry :=
  MkEntry (e_revision e) (e_key e) (e_value e) (e_createRevision e) (e_version e)
    (e_prevRevision e) (e_lease e) (e_created e) (e_deleted e) p.

Definition nil_entry : entry := MkEntry 0 "" "" 0 0 0 0 false false None.

Section Memory.
Context {M : Type -> Type} `{OrderedMap M}.

(** [notifyCh] is the identity of the current notification channel: [broadcast]
    closes it and installs the next one, so channel [c] is closed exactly when
    [c < notifyCh]. *)
Record Memory := MkMemory {
  currentRevision : Z;
  compactRevision : Z;
  log : list ptr;
  keys : M (list ptr);
  notifyCh : nat;
  heap : list entry
}.

Definition New : Memory := MkMemory 0 0 [] om_empty 0 [].

(** Dereferencing and allocating entries. *)
Definition deref (m : Memory) (p : ptr) : entry := default nil_entry (heap m !! p).

Definition alloc (e : entry) (m : Memory) : ptr * Memory :=
  (length (heap m),
   MkMemory (currentRevision m) (compactRevision m) (log m) (keys m) (notifyCh m)
     (heap m ++ [e])).

Definition store (p : ptr) (e : entry) (m : Memory) : Memory :=
  MkMemory (currentRevision m) (compactRevision m) (log m) (keys m) (notifyCh m)
    (<[p := e]> (heap m)).

Definition set_keys (ks : M (list ptr)) (m : Memory) : Memory :=
  MkMemory (currentRevision m) (compactRevision m) (log m) ks (notifyCh m) (heap m).

Definition set_log (l : list ptr) (m : Memory) : Memory :=
  MkMemory (currentRevision m) (compactRevision m) l (keys m) (notifyCh m) (heap m).

Definition CurrentRevision (m : Memory) : Z * gerr := (currentRevision m, None).

Definition DbSize (m : Memory) : Z * gerr :=
  (fold_left (fun size p =>
     let e := deref m p in
     wrap64 (size + Z.of_nat (String.length (e_key e) + String.length (e_value e) + 64)))
     (log m) 0, None).

Definition nextRevision (m : Memory) : Z * Memory :=
  let rev := wrap64 (currentRevision m + 1) in
  (rev, MkMemory rev (compactRevision m) (log m) (keys m) (notifyCh m) (heap m)).

Definition broadcast (m : Memory) : Memory :=
  MkMemory (currentRevision m) (compactRevision m) (log m) (keys m) (S (notifyCh m)) (heap m).

Definition getNotifyCh (m : Memory) : nat := notifyCh m.
Definition chClosed (ch : nat) (m : Memory) : bool := Nat.ltb ch (notifyCh m).

Definition appendEntry (p : ptr) (m : Memory) : Memory :=
  let e := deref m p in
  let m := set_log (log m ++ [p]) m in
  let hist := default [] (om_Get (keys m) (e_key e)) in
  let m := match last hist with
           | Some q => store p (set_prev (Some q) e) m
           | None => m
           end in
  let m := set_keys (om_Set (e_key e) (hist ++ [p]) (keys m)) m in
  broadcast m.

Definition latest (m : Memory) (key : string) : option entry :=
  match om_Get (keys m) key with
  | None => None
  | Some hist => deref m <$> last hist
  end.

(** The scan of a history for the last entry at or below [revision], stopping
    at the first entry above it. *)
Fixpoint atRevision_loop (m : Memory) (revision : Z) (hist : list ptr) (result : option entry)
  : option entry :=
  match hist with
  | [] => result
  | p :: hist' =>
      let e := deref m p in
      if e_revision e <=? revision then atRevision_loop m revision hist' (Some e) else result
  end.

Definition atRevision (m : Memory) (key : string) (revision : Z) : option entry :=
  match om_Get (keys m) key with
  | None => None
  | Some hist => atRevision_loop m revision hist None
  end.

Definition logIndexAfter (m : Memory) (rev : Z) : Z :=
  let i := wrap64 (rev - compactRevision m) in
  let i := if i <? 0 then 0 else i in
  if i >? Z.of_nat (length (log m)) then Z.of_nat (length (log m)) else i.

Fixpoint List_loop (m : Memory) (key end_ : string) (limit revision : Z) (keysOnly : bool)
  (items : list (string * list ptr)) (kvs : list KeyValue) : list KeyValue :=
  match items with
  | [] => kvs
  | (k, _) :: items' =>
      if (String.eqb end_ "" && negb (String.eqb k key)) ||
         (negb (String.eqb end_ "") && negb (String.ltb k end_))
      then kvs
      else
        let e := if revision >? 0 then atRevision m k revision else latest m k in
        let kvs :=
          match e with
          | Some e =>
              if negb (e_deleted e) then
                let kv := toKeyValue e in
                kvs ++ [if keysOnly
                        then MkKeyValue (kvKey kv) "" (kvVersion kv) (kvCreateRevision kv)
                               (kvModRevision kv) (kvLease kv)
                        else kv]
              else kvs
          | None => kvs
          end in
        if (limit >? 0) && (Z.of_nat (length kvs) >=? limit) then kvs
        else List_loop m key end_ limit revision keysOnly items' kvs
  end.

Definition List (m : Memory) (key end_ : string) (limit revision : Z) (keysOnly : bool)
  : Z * list KeyValue * gerr :=
  let rev := currentRevision m in
  if (revision >? 0) && (revision >? rev) then (rev, [], Some ErrFutureRev)
  else if (revision >? 0) && (revision <? compactRevision m) then (rev, [], Some ErrCompacted)
  else
    let rev := if revision >? 0 then revision else rev in
    (rev, List_loop m key end_ limit revision keysOnly (om_Seek (keys m) key) [], None).

Definition Get (m : Memory) (key : string) (revision : Z) (keysOnly : bool)
  : Z * option KeyValue * gerr :=
  let '(rev, kvs, e) := List m key "" 1 revision keysOnly in
  match e with
  | Some _ => (rev, None, e)
  | None => match kvs with
            | [] => (rev, None, None)
            | kv :: _ => (rev, Some kv, None)
            end
  end.

Definition Count (m : Memory) (key end_ : string) (revision : Z) : Z * Z * gerr :=
  let '(rev, kvs, e) := List m key end_ 0 revision true in
  match e with
  | Some _ => (rev, 0, e)
  | None => (rev, Z.of_nat (length kvs), None)
  end.

Definition Create (key value : string) (lease : Z) : ST Memory (Z * gerr) := fun m =>
  let latest := latest m key in
  if match latest with Some l => negb (e_deleted l) | None => false end
  then ((currentRevision m, Some ErrKeyExists), m)
  else
    let (rev, m) := nextRevision m in
    let prevRev := match latest with Some l => e_revision l | None => 0 end in
    let (p, m) := alloc (MkEntry rev key value rev 1 prevRev lease true false None) m in
    ((rev, None), appendEntry p m).

Definition Update (key value : string) (revision lease : Z)
  : ST Memory (Z * option KeyValue * bool * gerr) := fun m =>
  match latest m key with
  | None => ((currentRevision m, None, false, None), m)
  | Some latest =>
      if e_deleted latest then ((currentRevision m, None, false, None), m)
      else if negb (e_revision latest =? revision)
      then ((currentRevision m, Some (toKeyValue latest), false, None), m)
      else
        let (rev, m) := nextRevision m in
        let e := MkEntry rev key value (e_createRevision latest) (wrap64 (e_version latest + 1))
                   (e_revision latest) lease false false None in
        let (p, m) := alloc e m in
        let m := appendEntry p m in
        ((rev, Some (toKeyValue (deref m p)), true, None), m)
  end.

Definition Delete (key : string) (revision : Z)
  : ST Memory (Z * option KeyValue * bool * gerr) := fun m =>
  match latest m key with
  | None => ((currentRevision m, None, false, None), m)
  | Some latest =>
      if e_deleted latest then ((currentRevision m, None, false, None), m)
      else if negb (revision =? 0) && negb (e_revision latest =? revision)
      then ((currentRevision m, Some (toKeyValue latest), false, None), m)
      else
        let (rev, m) := nextRevision m in
        let (p, m) := alloc (MkEntry rev key (e_value latest) (e_createRevision latest)
                        (e_version latest) (e_revision latest) (e_lease latest) false true None) m in
        ((rev, Some (toKeyValue latest), true, None), appendEntry p m)
  end.

(** [Start] up to the [go ttl.Run] statement: the errors are only logged. *)
Definition Start (m : Memory) : Memory :=
  let (_, m) := Create HealthKey HealthVal 0 m in
  let (_, m) := Update HealthKey HealthVal 1 0 m in
  m.

(** [Compact]: index of the floor of a history, or [-1]. *)
Fixpoint floorIdx_loop (m : Memory) (revision : Z) (hist : list ptr) (i floorIdx : Z) : Z :=
  match hist with
  | [] => floorIdx
  | p :: hist' =>
      if e_revision (deref m p) <=? revision
      then floorIdx_loop m revision hist' (i + 1) i
      else floorIdx
  end.

Definition Compact_newHist (m : Memory) (revision : Z) (hist : list ptr) : list ptr :=
  let floorIdx := floorIdx_loop m revision hist 0 (-1) in
  if floorIdx <? 0 then hist
  else if e_deleted (deref m (default O (hist !! Z.to_nat floorIdx)))
  then drop (Z.to_nat (floorIdx + 1)) hist
  else drop (Z.to_nat floorIdx) hist.

(** The function [keys.Scan] applies to every item, threading [toRemove]. *)
Definition Compact_scan (revision : Z) (st : list string * Memory) (item : string * list ptr)
  : list string * Memory :=
  let (toRemove, m) := st in
  let (key, hist) := item in
  let newHist := Compact_newHist m revision hist in
  match newHist with
  | [] => (toRemove ++ [key], m)
  | p :: _ =>
      if negb (Nat.eqb (length newHist) (length hist)) then
        let m := store p (set_prev None (deref m p)) m in
        (toRemove, set_keys (om_Set key newHist (keys m)) m)
      else (toRemove, m)
  end.

Definition Compact (revision : Z) : ST Memory (Z * gerr) := fun m =>
  let rev := currentRevision m in
  if revision >? rev then ((0, Some ErrFutureRev), m)
  else if revision <=? compactRevision m then ((0, Some ErrCompacted), m)
  else
    let (toRemove, m) := fold_left (Compact_scan revision) (om_Items (keys m)) ([], m) in
    let m := set_keys (fold_left (fun ks k => om_Delete k ks) toRemove (keys m)) m in
    let cut := wrap64 (wrap64 (revision - compactRevision m) - 1) in
    let m := if cut >? 0 then set_log (drop (Z.to_nat cut) (log m)) m else m in
    ((rev, None),
     MkMemory (currentRevision m) revision (log m) (keys m) (notifyCh m) (heap m)).

(** One pass of the watch goroutine over the log, under the read lock: the
    batch of events and the new [lastSeen]. *)
Definition watch_event (m : Memory) (e : entry) : Event :=
  MkEvent (e_deleted e) (e_created e) (Some (toKeyValue e))
    (Some match e_prev e with
          | Some q => toKeyValue (deref m q)
          | None => MkKeyValue "" "" 0 0 (e_prevRevision e) 0
          end).

Fixpoint watch_loop (m : Memory) (key end_ : string) (l : list ptr) (batch : list Event)
  (lastSeen : Z) : list Event * Z :=
  match l with
  | [] => (batch, lastSeen)
  | p :: l' =>
      let e := deref m p in
      let batch := if key_in_range (e_key e) key end_ then batch ++ [watch_event m e] else batch in
      watch_loop m key end_ l' batch (e_revision e)
  end.

Definition watch_pass (m : Memory) (key end_ : string) (lastSeen : Z) : list Event * Z :=
  watch_loop m key end_ (drop (Z.to_nat (logIndexAfter m lastSeen)) (log m)) [] lastSeen.

(** [Watch] itself: current and compact revision of the result, and the
    [lastSeen] its goroutine starts from, if one is started. *)
Definition Watch (m : Memory) (startRevision : Z) : Z * Z * option Z :=
  let compactRev := compactRevision m in
  let rev := currentRevision m in
  if (startRevision >? 0) && (startRevision <=? compactRev) then (rev, compactRev, None)
  else
    let lastSeen := wrap64 (startRevision - 1) in
    let lastSeen := if lastSeen <? 0 then rev else lastSeen in
    let watchRev := if startRevision <=? 0 then rev else startRevision in
    (watchRev, 0, Some lastSeen).

End Memory.
Arguments Memory : clear implicits.
