(* ===== verification/MemoryProofs.v ===== *)
(** * The in-memory driver refines the multi-version store (proofs)

    [rep h m] relates a driver state to the history of every write it has
    accepted.  Every operation is proved to act on that history as the
    abstract store does, on every branch; the corollaries are the read
    guarantees clients rely on. *)
From S2P Require Import Prelude Types OrderedMap Mvcc Memory.

Definition toWrite (e : entry) : write :=
  MkWrite (e_revision e) (e_key e) (e_value e) (e_createRevision e) (e_version e)
    (e_prevRevision e) (e_lease e) (e_created e) (e_deleted e).

Lemma toWrite_set_prev q e : toWrite (set_prev q e) = toWrite e.
Proof. done. Qed.

Lemma wKV_toWrite e : wKV (toWrite e) = toKeyValue e.
Proof. done. Qed.

Section proofs.
Context {M : Type -> Type} `{OrderedMapLaws M}.
Implicit Types m : Memory M.
Implicit Types h : list write.

Definition hist m (k : string) : list ptr := default [] (om_Get (keys m) k).
Definition writes m (l : list ptr) : list write := (fun p => toWrite (deref m p)) <$> l.

Record rep (h : list write) m : Prop := {
  rep_rev : currentRevision m = Z.of_nat (length h);
  rep_dense : forall i w, h !! i = Some w -> wRev w = Z.of_nat i + 1;
  rep_compact : 0 <= compactRevision m <= currentRevision m;
  rep_int : currentRevision m <= maxInt64;
  rep_log : exists base : nat, Z.of_nat base <= compactRevision m /\ writes m (log m) = drop base h;
  rep_keys : forall k, writes m (hist m k) = trim (compactRevision m) (hist_of k h);
  rep_log_valid : Forall (fun p => (p < length (heap m))%nat) (log m);
  rep_keys_valid : forall k, Forall (fun p => (p < length (heap m))%nat) (hist m k);
  rep_prev : forall p q, (p < length (heap m))%nat -> e_prev (deref m p) = Some q ->
    (q < length (heap m))%nat /\ e_revision (deref m q) = e_prevRevision (deref m p) /\
    toWrite (deref m q) ∈ h
}.

(** ** Dereferencing *)
Lemma deref_store m p e x :
  (p < length (heap m))%nat -> deref (store p e m) x = if decide (x = p) then e else deref m x.
Proof.
  intros Hp. unfold deref, store; simpl. case_decide; subst.
  - by rewrite list_lookup_insert_eq.
  - by rewrite list_lookup_insert_ne.
Qed.

Lemma toWrite_deref_store m p q x :
  toWrite (deref (store p (set_prev q (deref m p)) m) x) = toWrite (deref m x).
Proof.
  destruct (decide (p < length (heap m))%nat).
  - rewrite deref_store by done. case_decide; by subst.
  - unfold deref, store; simpl. by rewrite list_insert_ge by lia.
Qed.

Lemma deref_alloc_old m e x :
  (x < length (heap m))%nat -> deref (alloc e m).2 x = deref m x.
Proof. intros. unfold deref, alloc; simpl. by rewrite lookup_app_l. Qed.

Lemma deref_alloc_new m e : deref (alloc e m).2 (length (heap m)) = e.
Proof.
  unfold deref, alloc; simpl. rewrite lookup_app_r, Nat.sub_diag by done. done.
Qed.

Lemma writes_ext m1 m2 l :
  Forall (fun p => toWrite (deref m1 p) = toWrite (deref m2 p)) l -> writes m1 l = writes m2 l.
Proof. unfold writes. induction 1; simpl; by f_equal. Qed.

(** ** Histories of a represented state *)
Lemma rep_wf h m : rep h m -> wf_history h (currentRevision m).
Proof.
  intros R. split.
  - unfold sorted. assert (Hd : forall i w, h !! i = Some w -> wRev w = Z.of_nat i + 1) by apply R.
    clear R. induction h as [|w h IH] using rev_ind; [constructor|].
    apply sorted_snoc.
    + apply IH. intros i v Hv. apply Hd. by apply lookup_app_l_Some.
    + apply Forall_forall. intros v [i Hv]%list_elem_of_lookup.
      rewrite (Hd i v) by by apply lookup_app_l_Some. rewrite (Hd (length h) w).
      * apply lookup_lt_Some in Hv. lia.
      * by rewrite lookup_app_r, Nat.sub_diag.
  - apply Forall_forall. intros w [i Hi]%list_elem_of_lookup.
    rewrite (rep_dense _ _ R _ _ Hi), (rep_rev _ _ R). apply lookup_lt_Some in Hi. lia.
Qed.

Lemma rep_hist_sorted h m k : rep h m -> sorted (hist_of k h).
Proof. intros R. apply sorted_hist_of, (rep_wf _ _ R). Qed.

Lemma latest_writes h m k : rep h m -> toWrite <$> latest m k = last (trim (compactRevision m) (hist_of k h)).
Proof.
  intros R. rewrite <- (rep_keys _ _ R). unfold latest, writes, hist.
  destruct (om_Get (keys m) k) as [l|]; simpl; [|done].
  rewrite fmap_last. by destruct (last l).
Qed.

Lemma rep_hist_in h m k p : rep h m -> p ∈ hist m k -> toWrite (deref m p) ∈ h.
Proof.
  intros R Hp. assert (Hw : toWrite (deref m p) ∈ writes m (hist m k)).
  { apply list_elem_of_fmap. eauto. }
  rewrite (rep_keys _ _ R) in Hw. apply trim_subset in Hw. by apply elem_of_hist_of in Hw as [_ ?].
Qed.

(** Both look-ups of [List] are the abstract ones. *)
Lemma live_latest h m k : rep h m ->
  live (toWrite <$> latest m k) = current h k.
Proof.
  intros R. rewrite (latest_writes h) by done.
  set (n := currentRevision m).
  assert (Hup : forall l, (forall w, w ∈ l -> w ∈ h) -> upto n l = l).
  { intros l Hl. apply upto_all, Forall_forall. intros w Hw.
    pose proof (wf_bounds _ _ (rep_wf _ _ R)) as Hb. rewrite Forall_forall in Hb.
    specialize (Hb w (Hl w Hw)). simpl in Hb. unfold n. lia. }
  unfold current.
  transitivity (live (last (upto n (trim (compactRevision m) (hist_of k h))))).
  { rewrite Hup; [done|]. intros w Hw. apply trim_subset in Hw. by apply elem_of_hist_of in Hw as [_ ?]. }
  transitivity (live (last (upto n (hist_of k h)))).
  { apply trim_live; [by eapply rep_hist_sorted|apply R]. }
  rewrite Hup; [done|]. intros w Hw. by apply elem_of_hist_of in Hw as [_ ?].
Qed.

Lemma atRevision_loop_last m r l acc :
  sorted (writes m l) ->
  toWrite <$> atRevision_loop m r l acc
  = match last (upto r (writes m l)) with Some w => Some w | None => toWrite <$> acc end.
Proof.
  revert acc. induction l as [|p l IH]; intros acc Hs; [done|].
  inversion Hs as [|?? Hs' Hall]; subst. simpl.
  unfold upto. rewrite filter_cons. fold (upto r (writes m l)).
  destruct (e_revision (deref m p) <=? r) eqn:E; b2p.
  - rewrite IH by done. rewrite decide_True by done.
    rewrite last_cons. by destruct (last _).
  - rewrite decide_False by (simpl; lia). fold (writes m l). fold (upto r (writes m l)).
    rewrite upto_none; [done|]. eapply Forall_impl; [exact Hall|].
    unfold rev_lt; simpl; lia.
Qed.

Lemma live_atRevision h m k r : rep h m -> compactRevision m <= r ->
  live (toWrite <$> atRevision m k r) = view h r k.
Proof.
  intros R Hr. unfold view.
  rewrite <- (trim_live (compactRevision m) r) by (done || by eapply rep_hist_sorted).
  rewrite <- (rep_keys _ _ R). unfold atRevision, hist.
  destruct (om_Get (keys m) k) as [l|] eqn:E; simpl; [|done].
  rewrite atRevision_loop_last; [by destruct (last _)|].
  pose proof (rep_keys _ _ R k) as Hk. unfold hist in Hk. rewrite E in Hk. simpl in Hk.
  rewrite Hk. by eapply sorted_trim, rep_hist_sorted.
Qed.

(** ** Appending a write *)
Definition put (e : entry) m : Memory M :=
  appendEntry (length (heap m)) (alloc e (nextRevision m).2).2.

Lemma put_eq m e : e_prev e = None ->
  put e m = MkMemory (wrap64 (currentRevision m + 1)) (compactRevision m)
    (log m ++ [length (heap m)])
    (om_Set (e_key e) (hist m (e_key e) ++ [length (heap m)]) (keys m))
    (S (notifyCh m)) (heap m ++ [set_prev (last (hist m (e_key e))) e]).
Proof.
  intros Hp. unfold put, appendEntry. pose proof (deref_alloc_new (nextRevision m).2 e) as Hd.
  change (length (heap (nextRevision m).2)) with (length (heap m)) in Hd. rewrite Hd.
  cbn [alloc nextRevision snd set_log keys log]. fold (hist m (e_key e)).
  destruct (last (hist m (e_key e))) as [q|] eqn:Hl; unfold broadcast, set_keys, store; simpl; f_equal.
  - by rewrite insert_app_r_alt, Nat.sub_diag by done.
  - destruct e; simpl in *; by subst.
Qed.

Lemma deref_app m1 m2 e x :
  heap m2 = heap m1 ++ [e] -> (x < length (heap m1))%nat -> deref m2 x = deref m1 x.
Proof. intros He Hx. unfold deref. by rewrite He, lookup_app_l. Qed.

Lemma writes_app m1 m2 e l :
  heap m2 = heap m1 ++ [e] -> Forall (fun p => (p < length (heap m1))%nat) l ->
  writes m2 l = writes m1 l.
Proof.
  intros He Hl. apply writes_ext. eapply Forall_impl; [exact Hl|]. intros x Hx; simpl.
  by rewrite (deref_app m1 m2 e).
Qed.

Lemma writes_snoc m l p : writes m (l ++ [p]) = writes m l ++ [toWrite (deref m p)].
Proof. unfold writes. by rewrite fmap_app. Qed.

Lemma latest_valid h m k l : rep h m -> latest m k = Some l ->
  exists q, last (hist m k) = Some q /\ deref m q = l /\ (q < length (heap m))%nat.
Proof.
  intros R Hl. unfold latest in Hl. pose proof (rep_keys_valid _ _ R k) as Hv.
  unfold hist in *. destruct (om_Get (keys m) k) as [l'|]; [|done]. simpl in *.
  destruct (last l') as [q|] eqn:Hq; simplify_eq/=. exists q. split_and!; try done.
  rewrite Forall_forall in Hv. by apply Hv, last_Some_elem_of.
Qed.

Lemma rep_put h m e :
  rep h m -> currentRevision m < maxInt64 ->
  e_revision e = currentRevision m + 1 -> e_prev e = None ->
  (forall l, latest m (e_key e) = Some l -> e_prevRevision e = e_revision l) ->
  rep (h ++ [toWrite e]) (put e m).
Proof.
  intros R Hmax Hrev Hp Hprev. rewrite (put_eq _ _ Hp).
  set (p := length (heap m)). set (k := e_key e).
  set (m' := MkMemory _ _ _ _ _ _).
  assert (Hheap : heap m' = heap m ++ [set_prev (last (hist m k)) e]) by done.
  assert (Hw : wrap64 (currentRevision m + 1) = currentRevision m + 1).
  { apply wrap64_id. pose proof (rep_compact _ _ R). unfold int64_ok, minInt64, maxInt64, two63 in *. lia. }
  assert (Hnew : deref m' p = set_prev (last (hist m k)) e).
  { unfold deref, m', p. simpl. by rewrite lookup_app_r, Nat.sub_diag by done. }
  assert (Hlen : length (heap m') = S p) by (rewrite Hheap, length_app; simpl; lia).
  assert (Hk : forall k', hist m' k' = if decide (k = k') then hist m k ++ [p] else hist m k').
  { intros k'. unfold hist, m'; simpl. rewrite om_Get_Set. fold k. by case_decide. }
  pose proof (rep_compact _ _ R) as Hc.
  assert (Hvalid : forall l, Forall (fun x => (x < length (heap m))%nat) l ->
    Forall (fun x => (x < length (heap m'))%nat) l).
  { intros l Hl. eapply Forall_impl; [exact Hl|]. intros x Hx. cbv beta in *. rewrite Hlen. unfold p. lia. }
  split.
  - simpl. rewrite Hw, (rep_rev _ _ R), length_app. simpl. lia.
  - intros i w [Hi|[Hi Hx]]%lookup_app_Some; [by apply (rep_dense _ _ R)|].
    assert (i - length h = 0)%nat as Hz by (apply lookup_lt_Some in Hx; simpl in Hx; lia).
    rewrite Hz in Hx. injection Hx as <-. simpl. rewrite Hrev, (rep_rev _ _ R). lia.
  - simpl. rewrite Hw. lia.
  - simpl. rewrite Hw. lia.
  - destruct (rep_log _ _ R) as (base & Hb & Hl). exists base. split; [done|].
    cbn [log m']. rewrite writes_snoc, Hnew, toWrite_set_prev.
    rewrite (writes_app m m' _ _ Hheap (rep_log_valid _ _ R)), Hl.
    pose proof (rep_rev _ _ R). rewrite drop_app_le; [done|lia].
  - intros k'. rewrite Hk, hist_of_app, hist_of_one. cbn [compactRevision m'].
    change (wKey (toWrite e)) with k. case_decide; subst.
    + rewrite writes_snoc, Hnew, toWrite_set_prev.
      rewrite (writes_app m m' _ _ Hheap (rep_keys_valid _ _ R _)), (rep_keys _ _ R).
      rewrite trim_snoc; [done|]. simpl. lia.
    + rewrite app_nil_r, (writes_app m m' _ _ Hheap (rep_keys_valid _ _ R _)). apply R.
  - cbn [log m']. apply Forall_app; split; [by apply Hvalid, R|]. constructor; [lia|constructor].
  - intros k'. rewrite Hk. case_decide; [|by apply Hvalid, R].
    apply Forall_app; split; [by apply Hvalid, R|]. constructor; [lia|constructor].
  - intros x q Hx Hq. rewrite Hlen in *. destruct (decide (x = p)) as [->|].
    + rewrite Hnew in *. simpl in Hq.
      assert (Hvq : (q < length (heap m))%nat).
      { pose proof (rep_keys_valid _ _ R k) as Hv. rewrite Forall_forall in Hv.
        by apply Hv, last_Some_elem_of. }
      split; [unfold p; lia|]. rewrite (deref_app m m' _ _ Hheap Hvq). simpl.
      split; [|apply elem_of_app; left; eapply rep_hist_in; [done|by apply last_Some_elem_of]].
      symmetry. apply Hprev. unfold latest. unfold hist in Hq.
      destruct (om_Get (keys m) (e_key e)) eqn:E; fold k in E; rewrite E in *; simpl in Hq; [|done].
      by rewrite Hq.
    + assert (Hvx : (x < length (heap m))%nat) by (unfold p in *; lia).
      rewrite (deref_app m m' _ _ Hheap Hvx) in *.
      destruct (rep_prev _ _ R _ _ Hvx Hq) as (Hvq & ? & ?).
      split; [unfold p; lia|]. rewrite (deref_app m m' _ _ Hheap Hvq). set_solver.
Qed.

Lemma deref_put m e : e_prev e = None ->
  toWrite (deref (put e m) (length (heap m))) = toWrite e.
Proof.
  intros Hp. rewrite put_eq by done. unfold deref; simpl.
  by rewrite lookup_app_r, Nat.sub_diag by done.
Qed.

(** ** The writing operations, branch by branch *)
Lemma latest_current h m k : rep h m ->
  match latest m k with
  | Some l => current h k = if e_deleted l then None else Some (toKeyValue l)
  | None => current h k = None
  end.
Proof. intros R. rewrite <- (live_latest h m k R). by destruct (latest m k). Qed.

Lemma next_rev h m : rep h m -> currentRevision m < maxInt64 ->
  wrap64 (currentRevision m + 1) = Z.of_nat (length h) + 1.
Proof.
  intros R ?. rewrite <- (rep_rev _ _ R). apply wrap64_id.
  pose proof (rep_compact _ _ R). unfold int64_ok, minInt64, maxInt64, two63 in *. lia.
Qed.

Ltac latest_eq E :=
  let Hl := fresh in intros ? Hl; simpl in Hl; rewrite E in Hl; by simplify_eq.

Lemma Create_rep h m k v l : rep h m -> currentRevision m < maxInt64 ->
  match current h k with
  | Some _ => Create k v l m = ((Z.of_nat (length h), Some ErrKeyExists), m)
  | None => exists prev m',
      let rev := Z.of_nat (length h) + 1 in
      Create k v l m = ((rev, None), m') /\
      rep (h ++ [MkWrite rev k v rev 1 prev l true false]) m'
  end.
Proof.
  intros R Hmax. pose proof (latest_current h m k R) as Hl. unfold Create.
  pose proof (next_rev h m R Hmax) as Hn.
  destruct (latest m k) as [e|] eqn:E; [destruct (e_deleted e) eqn:Hd|]; rewrite Hl; simpl.
  2: by rewrite (rep_rev _ _ R).
  all: eexists _, _; rewrite Hn; split; [reflexivity|].
  - pose (e' := MkEntry (Z.of_nat (length h) + 1) k v (Z.of_nat (length h) + 1) 1
      (e_revision e) l true false None).
    pose proof (rep_put h m e' R Hmax) as Hp. unfold put in Hp. simpl in Hp. rewrite Hn in Hp.
    apply Hp; [by rewrite (rep_rev _ _ R)|done|]. latest_eq E.
  - pose (e' := MkEntry (Z.of_nat (length h) + 1) k v (Z.of_nat (length h) + 1) 1
      0 l true false None).
    pose proof (rep_put h m e' R Hmax) as Hp. unfold put in Hp. simpl in Hp. rewrite Hn in Hp.
    apply Hp; [by rewrite (rep_rev _ _ R)|done|]. latest_eq E.
Qed.

Lemma Update_rep h m k v rev l : rep h m -> currentRevision m < maxInt64 ->
  match current h k with
  | None => Update k v rev l m = ((Z.of_nat (length h), None, false, None), m)
  | Some kv =>
      if kvModRevision kv =? rev then
        exists m', let rev' := Z.of_nat (length h) + 1 in
        let w := MkWrite rev' k v (kvCreateRevision kv) (wrap64 (kvVersion kv + 1)) rev l false false in
        Update k v rev l m = ((rev', Some (wKV w), true, None), m') /\ rep (h ++ [w]) m'
      else Update k v rev l m = ((Z.of_nat (length h), Some kv, false, None), m)
  end.
Proof.
  intros R Hmax. pose proof (latest_current h m k R) as Hl. unfold Update.
  pose proof (next_rev h m R Hmax) as Hn.
  destruct (latest m k) as [e|] eqn:E; [destruct (e_deleted e) eqn:Hd|]; rewrite Hl; simpl.
  1, 3: by rewrite (rep_rev _ _ R).
  destruct (e_revision e =? rev) eqn:Er; b2p; simpl; [|by rewrite (rep_rev _ _ R)].
  subst rev. rewrite Hn.
  pose (e' := MkEntry (Z.of_nat (length h) + 1) k v (e_createRevision e) (wrap64 (e_version e + 1))
      (e_revision e) l false false None).
  pose proof (rep_put h m e' R Hmax) as Hp.
  pose proof (deref_put m e' eq_refl) as Hd'.
  unfold put in Hp, Hd'. simpl in Hp, Hd'. rewrite Hn in Hp, Hd'.
  eexists. split; [|apply Hp; [by rewrite (rep_rev _ _ R)|done|latest_eq E]].
  apply (f_equal wKV) in Hd'. rewrite wKV_toWrite in Hd'. subst e'. by rewrite Hd'.
Qed.

Lemma Delete_rep h m k rev : rep h m -> currentRevision m < maxInt64 ->
  match current h k with
  | None => Delete k rev m = ((Z.of_nat (length h), None, false, None), m)
  | Some kv =>
      if (rev =? 0) || (kvModRevision kv =? rev) then
        exists m', let rev' := Z.of_nat (length h) + 1 in
        Delete k rev m = ((rev', Some kv, true, None), m') /\
        rep (h ++ [MkWrite rev' k (kvValue kv) (kvCreateRevision kv) (kvVersion kv)
                     (kvModRevision kv) (kvLease kv) false true]) m'
      else Delete k rev m = ((Z.of_nat (length h), Some kv, false, None), m)
  end.
Proof.
  intros R Hmax. pose proof (latest_current h m k R) as Hl. unfold Delete.
  pose proof (next_rev h m R Hmax) as Hn.
  destruct (latest m k) as [e|] eqn:E; [destruct (e_deleted e) eqn:Hd|]; rewrite Hl; simpl.
  1, 3: by rewrite (rep_rev _ _ R).
  destruct (rev =? 0), (e_revision e =? rev); simpl; try by rewrite (rep_rev _ _ R).
  all: rewrite Hn;
    pose (e' := MkEntry (Z.of_nat (length h) + 1) k (e_value e) (e_createRevision e) (e_version e)
      (e_revision e) (e_lease e) false true None);
    pose proof (rep_put h m e' R Hmax) as Hp;
    unfold put in Hp; simpl in Hp; rewrite Hn in Hp;
    eexists; (split; [done|]);
    apply Hp; [by rewrite (rep_rev _ _ R)|done|latest_eq E].
Qed.

Lemma rep_New : rep [] (New (M:=M)).
Proof.
  split; simpl; try done.
  all: try (intros k; unfold hist; simpl; by rewrite om_Get_empty).
  by exists 0%nat.
Qed.

(** ** Reads *)
Definition strip (keysOnly : bool) (kv : KeyValue) : KeyValue :=
  if keysOnly
  then MkKeyValue (kvKey kv) "" (kvVersion kv) (kvCreateRevision kv) (kvModRevision kv) (kvLease kv)
  else kv.

(** What one key contributes to a listing at [revision] ([0]: now). *)
Definition item_kv m (revision : Z) (keysOnly : bool) (k : string) : option KeyValue :=
  strip keysOnly <$> live (toWrite <$> (if revision >? 0 then atRevision m k revision else latest m k)).

Lemma List_loop_scan m key e limit revision keysOnly items acc :
  List_loop m key e limit revision keysOnly items acc
  = scan_loop (fun k _ => item_kv m revision keysOnly k) key e limit items acc.
Proof.
  revert acc. induction items as [|[k ps] items IH]; intros acc; [done|]. cbn [List_loop scan_loop].
  fold (stop key e k). destruct (stop key e k); [done|].
  replace (match item_kv m revision keysOnly k with Some b => acc ++ [b] | None => acc end) with
    (match (if revision >? 0 then atRevision m k revision else latest m k) with
     | Some en => if negb (e_deleted en)
                  then acc ++ [if keysOnly
                               then MkKeyValue (kvKey (toKeyValue en)) "" (kvVersion (toKeyValue en))
                                      (kvCreateRevision (toKeyValue en)) (kvModRevision (toKeyValue en)) (kvLease (toKeyValue en))
                               else toKeyValue en]
                  else acc
     | None => acc
     end) by (unfold item_kv; destruct (if revision >? 0 then _ else _) as [en|]; simpl; [|done];
              destruct (e_deleted en); simpl; [done|]; by destruct keysOnly).
  by rewrite IH.
Qed.

Lemma scanned_keys {V B} (g : string -> option B) key e (items : list (string * V)) :
  scanned (fun k _ => g k) key e items = omap g (filter (fun k => in_list_range k key e) (items.*1)).
Proof.
  unfold scanned. induction items as [|[k v] items IH]; [done|]. rewrite fmap_cons, !filter_cons. simpl.
  case_decide; [|done]. simpl. destruct (g k); [f_equal|]; exact IH.
Qed.

Lemma List_loop_spec m key e limit revision keysOnly items acc :
  keys_sorted items -> Forall (fun p => String.ltb p.1 key = false) items ->
  (limit > 0 -> Z.of_nat (length acc) < limit) ->
  List_loop m key e limit revision keysOnly items acc
  = limited limit (acc ++ omap (item_kv m revision keysOnly)
      (filter (fun k => in_list_range k key e) (items.*1))).
Proof. intros. by rewrite List_loop_scan, scan_spec, scanned_keys. Qed.

(** ** Listings, as the abstract store defines them *)
Record is_listing (h : list write) (r : Z) (key e : string) (keysOnly : bool)
    (kvs : list KeyValue) : Prop := {
  listing_sorted : StronglySorted str_lt (kvKey <$> kvs);
  listing_elem : forall kv, kv ∈ kvs <->
    exists kv0, view h r (kvKey kv0) = Some kv0 /\ in_list_range (kvKey kv0) key e /\
      kv = strip keysOnly kv0
}.

Lemma view_key h r k kv : view h r k = Some kv -> kvKey kv = k.
Proof.
  unfold view. destruct (last _) as [w|] eqn:E; simpl; [|done].
  destruct (wDeleted w); [done|]. intros [= <-]. simpl.
  apply last_Some_elem_of, elem_of_upto in E as [_ E]. by apply elem_of_hist_of in E as [? _].
Qed.

Definition read_rev m (revision : Z) : Z := if revision >? 0 then revision else currentRevision m.

Lemma item_kv_view h m revision keysOnly k :
  rep h m -> (revision > 0 -> compactRevision m <= revision) ->
  item_kv m revision keysOnly k = strip keysOnly <$> view h (read_rev m revision) k.
Proof.
  intros R Hr. unfold item_kv, read_rev. destruct (revision >? 0) eqn:E; b2p.
  - rewrite (live_atRevision h) by (done || lia). done.
  - rewrite (live_latest h) by done. by rewrite (view_current _ _ _ (rep_wf _ _ R)).
Qed.

Lemma strip_key b kv : kvKey (strip b kv) = kvKey kv.
Proof. by destruct b. Qed.

Lemma view_stored h m r k kv : rep h m -> compactRevision m <= r ->
  view h r k = Some kv -> exists ps, (k, ps) ∈ om_Items (keys m).
Proof.
  intros R Hr Hv. unfold view in Hv.
  rewrite <- (trim_live (compactRevision m) r) in Hv by (done || by eapply rep_hist_sorted).
  rewrite <- (rep_keys _ _ R) in Hv. unfold hist in Hv.
  destruct (om_Get (keys m) k) as [ps|] eqn:E; [|done]. exists ps. by apply om_Items_Get.
Qed.

Lemma omap_sorted m revision keysOnly (ks : list string) :
  (forall k kv, item_kv m revision keysOnly k = Some kv -> kvKey kv = k) ->
  StronglySorted str_lt ks ->
  StronglySorted str_lt (kvKey <$> omap (item_kv m revision keysOnly) ks).
Proof. apply omap_keys_sorted. Qed.

(** The keys of the range that are stored, and what they contribute. *)
Definition listing m (key e : string) (revision : Z) (keysOnly : bool) : list KeyValue :=
  omap (item_kv m revision keysOnly)
    (filter (fun k => in_list_range k key e) ((om_Seek (keys m) key).*1)).

Lemma length_listing m key e revision b b' :
  length (listing m key e revision b) = length (listing m key e revision b').
Proof.
  unfold listing. induction (filter _ _) as [|k ks IH]; [done|].
  rewrite !omap_cons_list, !length_app, IH. f_equal.
  unfold item_kv. by destruct (live _).
Qed.

Lemma List_rep h m key e limit revision keysOnly : rep h m ->
  let n := currentRevision m in
  (revision > n -> revision > 0 ->
    List m key e limit revision keysOnly = (n, [], Some ErrFutureRev)) /\
  (0 < revision <= n -> revision < compactRevision m ->
    List m key e limit revision keysOnly = (n, [], Some ErrCompacted)) /\
  ((0 < revision -> compactRevision m <= revision <= n) ->
    is_listing h (read_rev m revision) key e keysOnly (listing m key e revision keysOnly) /\
    List m key e limit revision keysOnly
      = (read_rev m revision, limited limit (listing m key e revision keysOnly), None)).
Proof.
  intros R n. unfold List. fold n. split_and!; intros Hr.
  - intros. by rewrite !(proj2 (Z.gtb_lt _ _)) by lia.
  - intros Hc. rewrite (proj2 (Z.gtb_lt revision 0)) by lia.
    rewrite (proj2 (Z.ltb_lt _ _)) by lia.
    by destruct (revision >? n) eqn:E; b2p; [lia|].
  - set (ks := filter (fun k => in_list_range k key e) ((om_Seek (keys m) key).*1)).
    unfold listing. fold ks.
    pose proof (rep_compact _ _ R) as Hc.
    assert (Hi : forall k, item_kv m revision keysOnly k
      = strip keysOnly <$> view h (read_rev m revision) k).
    { intros k. apply item_kv_view; [done|]. intros; lia. }
    assert (Hkey : forall k kv, item_kv m revision keysOnly k = Some kv -> kvKey kv = k).
    { intros k kv. rewrite Hi. intros (kv0 & Hv & ->)%fmap_Some.
      rewrite strip_key. by eapply view_key. }
    pose proof (om_Seek_sorted (keys m) key) as Hseek. unfold keys_sorted in Hseek.
    split; [split|].
    + apply omap_sorted; [done|]. by apply StronglySorted_filter.
    + intros kv. rewrite list_elem_of_omap. split.
      * intros (k & Hk & Hkv). pose proof (Hkey _ _ Hkv) as Hkk. rewrite Hi in Hkv.
        apply fmap_Some in Hkv as (kv0 & Hv & ->). exists kv0.
        rewrite (view_key _ _ _ _ Hv). apply list_elem_of_filter in Hk as [? _]. done.
      * intros (kv0 & Hv & Hrange & ->). exists (kvKey kv0). rewrite Hi, Hv. split; [|done].
        apply list_elem_of_filter. split; [done|]. apply list_elem_of_fmap.
        assert (Hge : compactRevision m <= read_rev m revision).
        { unfold read_rev. destruct (revision >? 0) eqn:E; b2p; lia. }
        destruct (view_stored h m _ _ _ R Hge Hv) as [ps Hps].
        exists (kvKey kv0, ps). split; [done|]. apply list_elem_of_filter.
        split; [|done]. by eapply in_list_range_ge.
    + assert (((revision >? 0) && (revision >? n)) = false) as ->.
      { apply andb_false_iff. destruct (revision >? 0) eqn:E; b2p; [right|by left].
        rewrite Z.gtb_ltb. apply Z.ltb_ge. lia. }
      assert (((revision >? 0) && (revision <? compactRevision m)) = false) as ->.
      { apply andb_false_iff. destruct (revision >? 0) eqn:E; b2p; [right|by left].
        apply Z.ltb_ge. lia. }
      f_equal. f_equal. rewrite List_loop_spec; [done|done| |simpl; lia].
      apply Forall_forall. intros p Hp. by apply list_elem_of_filter in Hp as [? _].
Qed.

Lemma Get_rep h m key revision keysOnly : rep h m ->
  (0 < revision -> compactRevision m <= revision <= currentRevision m) ->
  Get m key revision keysOnly
  = (read_rev m revision, strip keysOnly <$> view h (read_rev m revision) key, None).
Proof.
  intros R Hr. destruct (List_rep h m key "" 1 revision keysOnly R) as (_ & _ & Hl).
  destruct (Hl Hr) as ([Hs He] & Heq). unfold Get. rewrite Heq. unfold limited. simpl.
  set (kvs := listing _ _ _ _ _) in *. clearbody kvs.
  assert (Hin : forall kv, kv ∈ kvs -> kvKey kv = key /\
     exists kv0, view h (read_rev m revision) key = Some kv0 /\ kv = strip keysOnly kv0).
  { intros kv (kv0 & Hv & Hrange & ->)%He. unfold in_list_range in Hrange.
    rewrite decide_True in Hrange by done. rewrite strip_key. subst. eauto. }
  destruct kvs as [|kv kvs]; simpl.
  - destruct (view h (read_rev m revision) key) as [kv0|] eqn:E; simpl; [|done].
    exfalso. apply (not_elem_of_nil (strip keysOnly kv0)). apply He. exists kv0.
    by pose proof (view_key _ _ _ _ E) as ->.
  - destruct (Hin kv) as (_ & kv0 & -> & ->); [set_solver|]. done.
Qed.

(** ** Compaction *)
Lemma upto_take r l : sorted l ->
  upto r l = take (length (upto r l)) l /\ above r l = drop (length (upto r l)) l.
Proof.
  intros Hs. rewrite (split_at r l Hs) at 3 6.
  by rewrite take_app_length, drop_app_length.
Qed.

Lemma floorIdx_loop_spec m r l i f : sorted (writes m l) ->
  floorIdx_loop m r l i f
  = match length (upto r (writes m l)) with O => f | S n => i + Z.of_nat n end.
Proof.
  revert i f. induction l as [|p l IH]; intros i f Hs; [done|].
  inversion Hs as [|?? Hs' Hall]; subst. simpl. unfold upto. rewrite filter_cons.
  fold (writes m l). fold (upto r (writes m l)).
  destruct (e_revision (deref m p) <=? r) eqn:E; b2p.
  - rewrite decide_True by done. rewrite IH by done. simpl. fold (writes m l).
    destruct (length (upto r (writes m l))); lia.
  - rewrite decide_False by (simpl; lia). rewrite upto_none; [done|].
    eapply Forall_impl; [exact Hall|]. unfold rev_lt; simpl; lia.
Qed.

Lemma writes_lookup m l i : writes m l !! i = (fun p => toWrite (deref m p)) <$> l !! i.
Proof. apply list_lookup_fmap. Qed.

Lemma writes_drop m n l : writes m (drop n l) = drop n (writes m l).
Proof. unfold writes. by rewrite fmap_drop. Qed.

Lemma newHist_trim m r l : sorted (writes m l) ->
  writes m (Compact_newHist m r l) = trim r (writes m l).
Proof.
  intros Hs. unfold Compact_newHist, trim. rewrite floorIdx_loop_spec by done.
  destruct (upto_take r (writes m l) Hs) as [Ht Hd].
  destruct (length (upto r (writes m l))) as [|n] eqn:Hn.
  { apply nil_length_inv in Hn. by rewrite Hn. }
  rewrite (proj2 (Z.ltb_ge _ _)) by lia.
  replace (Z.to_nat (0 + Z.of_nat n)) with n by lia.
  replace (Z.to_nat (0 + Z.of_nat n + 1)) with (S n) by lia.
  assert (n < length (writes m l))%nat as Hlt.
  { assert (length (upto r (writes m l)) <= length (writes m l))%nat; [|lia].
    unfold upto. apply length_filter. }
  destruct (lookup_lt_is_Some_2 _ _ Hlt) as [w Hw].
  assert (last (upto r (writes m l)) = Some w) as ->.
  { rewrite last_lookup, Hn, Ht. simpl. by rewrite lookup_take_lt by lia. }
  rewrite Hd. rewrite writes_lookup in Hw. apply fmap_Some in Hw as (p & Hp & ->).
  rewrite Hp. simpl. destruct (e_deleted (deref m p)); [apply writes_drop|].
  rewrite (drop_S l p n Hp). simpl. by rewrite writes_drop.
Qed.

Lemma newHist_suffix m r l : exists n, Compact_newHist m r l = drop n l.
Proof. unfold Compact_newHist. repeat case_match; eauto. by exists 0%nat. Qed.

Lemma newHist_subset m r l p : p ∈ Compact_newHist m r l -> p ∈ l.
Proof. destruct (newHist_suffix m r l) as [n ->]. apply subseteq_drop. Qed.

(** [same m m'] : [m'] is [m] up to its key index and cleared [prev] pointers. *)
Record same m m' : Prop := {
  same_rev : currentRevision m' = currentRevision m;
  same_compact : compactRevision m' = compactRevision m;
  same_log : log m' = log m;
  same_heap : length (heap m') = length (heap m);
  same_write : forall x, toWrite (deref m' x) = toWrite (deref m x);
  same_prev : forall x q, e_prev (deref m' x) = Some q -> e_prev (deref m x) = Some q
}.

#[local] Instance same_refl : Reflexive same.
Proof. by split. Qed.

#[local] Instance same_trans : Transitive same.
Proof. intros m1 m2 m3 [] []. split; intros; try etrans; eauto. Qed.

Lemma same_writes m m' l : same m m' -> writes m' l = writes m l.
Proof. intros Hs. apply writes_ext, Forall_forall. intros. apply Hs. Qed.

Lemma newHist_same m m' r l : same m m' -> Compact_newHist m' r l = Compact_newHist m r l.
Proof.
  intros Hs.
  assert (He : forall p, e_revision (deref m' p) = e_revision (deref m p) /\
                         e_deleted (deref m' p) = e_deleted (deref m p)).
  { intros p. pose proof (same_write _ _ Hs p) as Hp. by injection Hp. }
  assert (Hf : forall i f, floorIdx_loop m' r l i f = floorIdx_loop m r l i f).
  { induction l as [|p l IH]; intros i f; simpl; [done|].
    rewrite (proj1 (He p)). case_match; [apply IH|done]. }
  unfold Compact_newHist. by rewrite Hf, (proj2 (He _)).
Qed.

(** One key of the scan. *)
Lemma Compact_scan_step m r acc k ps :
  hist m k = ps -> Forall (fun p => (p < length (heap m))%nat) ps ->
  exists m', Compact_scan r (acc, m) (k, ps)
    = (acc ++ match Compact_newHist m r ps with [] => [k] | _ => [] end, m') /\
    same m m' /\
    forall k', hist m' k' = if decide (k' = k /\ Compact_newHist m r ps <> [])
                           then Compact_newHist m r ps else hist m k'.
Proof.
  intros Hk Hv. unfold Compact_scan. destruct (newHist_suffix m r ps) as [n Hn].
  destruct (Compact_newHist m r ps) as [|p l] eqn:E.
  { exists m. split_and!; [done|done|]. intros. by rewrite decide_False by naive_solver. }
  rewrite app_nil_r. destruct (Nat.eqb_spec (length (p :: l)) (length ps)) as [Hl|Hl]; cbn [negb].
  - exists m. split_and!; [done|done|]. intros k'. case_decide as Hd; [|done].
    destruct Hd as [-> _]. rewrite Hk, Hn in *. rewrite length_drop in Hl.
    destruct n, ps; done || simpl in *; lia.
  - assert (Hp : (p < length (heap m))%nat).
    { rewrite Forall_forall in Hv. apply Hv, (newHist_subset m r). rewrite E. set_solver. }
    eexists. split_and!; [done| |].
    + split; simpl; try done; [by rewrite length_insert| |].
      * intros x. apply (toWrite_deref_store m p None).
      * intros x q. pose proof (deref_store m p (set_prev None (deref m p)) x Hp) as Hd.
        unfold deref, store in *. simpl in *. rewrite Hd. by case_decide.
    + intros k'. unfold hist. simpl. rewrite om_Get_Set.
      case_decide; [subst; by rewrite decide_True|]. by rewrite decide_False by naive_solver.
Qed.

Lemma Compact_scan_all m r items acc :
  NoDup items.*1 ->
  (forall k ps, (k, ps) ∈ items ->
     hist m k = ps /\ Forall (fun p => (p < length (heap m))%nat) ps) ->
  exists rem m', fold_left (Compact_scan r) items (acc, m) = (acc ++ rem, m') /\ same m m' /\
    (forall k, k ∈ rem -> k ∈ items.*1 /\ Compact_newHist m r (hist m k) = []) /\
    (forall k, k ∈ items.*1 -> hist m' k = Compact_newHist m r (hist m k) \/ k ∈ rem) /\
    (forall k, k ∉ items.*1 -> hist m' k = hist m k).
Proof.
  revert m acc. induction items as [|[k ps] items IH]; intros m acc Hnd Hi.
  { exists [], m. rewrite app_nil_r. split_and!; set_solver. }
  rewrite fmap_cons in Hnd |- *. cbn [fst] in *. apply NoDup_cons in Hnd as [Hni Hnd].
  destruct (Hi k ps) as [Hk Hv]; [set_solver|].
  destruct (Compact_scan_step m r acc k ps Hk Hv) as (m1 & Hstep & Hs1 & Hh1).
  assert (Hne : forall k', k' <> k -> hist m1 k' = hist m k').
  { intros k' Hk'. rewrite Hh1. by rewrite decide_False by naive_solver. }
  assert (Hin : forall k', k' ∈ items.*1 -> k' <> k) by set_solver.
  cbn [fold_left]. rewrite Hstep. set (add := match Compact_newHist m r ps with [] => _ | _ => _ end).
  destruct (IH m1 (acc ++ add) Hnd) as (rem & m2 & Hf & Hs2 & Hrem & Hh2 & Hno2).
  { intros k' ps' Hin'. destruct (Hi k' ps') as [Hk' Hv']; [set_solver|].
    rewrite (same_heap _ _ Hs1), Hne; [done|]. apply Hin, list_elem_of_fmap. by exists (k', ps'). }
  rewrite Hf. exists (add ++ rem), m2.
  rewrite app_assoc. split_and!; [done|by trans m1| | |].
  - intros k' [Ha|Hr]%elem_of_app.
    + unfold add in Ha. destruct (Compact_newHist m r ps) eqn:E; [|set_solver].
      apply list_elem_of_singleton in Ha as ->. split; [set_solver|by rewrite Hk].
    + destruct (Hrem _ Hr) as [Hi' He]. split; [set_solver|].
      by rewrite <- (newHist_same m m1), <- Hne by auto.
  - intros k' [->|Hk']%elem_of_cons.
    + rewrite Hno2, Hh1, Hk by done. unfold add.
      destruct (Compact_newHist m r ps); [right; set_solver|]. left. by rewrite decide_True.
    + destruct (Hh2 _ Hk') as [He|?]; [left|right; set_solver].
      rewrite He, (newHist_same m m1), Hne by auto. done.
  - intros k' Hk'. rewrite Hno2, Hne by set_solver. done.
Qed.

Lemma fold_om_Delete {V} (ks : list string) (km : M V) k :
  om_Get (fold_left (fun km k => om_Delete k km) ks km) k
  = if decide (k ∈ ks) then None else om_Get km k.
Proof.
  revert km. induction ks as [|k0 ks IH]; intros km; simpl; [done|].
  rewrite IH, om_Get_Delete. repeat case_decide; try done; set_solver.
Qed.

Lemma NoDup_items {V} (km : M V) : NoDup (om_Items km).*1.
Proof.
  pose proof (om_Items_sorted _ km) as Hs. unfold keys_sorted in Hs.
  induction Hs as [|k l Hs IH Hall]; constructor; [|done].
  intros Hin. rewrite Forall_forall in Hall. by apply (irreflexivity str_lt k), Hall.
Qed.

(** A state whose log and key index were cut as [Compact] cuts them. *)
Lemma rep_compacted h m m2 r n :
  rep h m -> compactRevision m < r <= currentRevision m -> Z.of_nat n <= r - compactRevision m ->
  currentRevision m2 = currentRevision m -> compactRevision m2 = r ->
  log m2 = drop n (log m) -> length (heap m2) = length (heap m) ->
  (forall k, hist m2 k = Compact_newHist m r (hist m k)) ->
  (forall x, toWrite (deref m2 x) = toWrite (deref m x)) ->
  (forall x q, e_prev (deref m2 x) = Some q -> e_prev (deref m x) = Some q) ->
  rep h m2.
Proof.
  intros R Hr Hn Hcur Hc Hlog Hheap Hkeys Hw Hprev.
  assert (Hs : forall l, writes m2 l = writes m l).
  { intros l. apply writes_ext, Forall_forall. auto. }
  split; rewrite ?Hcur, ?Hc, ?Hheap; try apply R.
  - pose proof (rep_compact _ _ R). lia.
  - destruct (rep_log _ _ R) as (base & Hb & Hl). exists (base + n)%nat. split; [lia|].
    by rewrite Hs, Hlog, writes_drop, Hl, drop_drop.
  - intros k. rewrite Hs, Hkeys, newHist_trim; rewrite (rep_keys _ _ R).
    + apply trim_trim; [by eapply rep_hist_sorted|lia].
    + by eapply sorted_trim, rep_hist_sorted.
  - rewrite Hlog. apply Forall_drop, R.
  - intros k. rewrite Hkeys. pose proof (rep_keys_valid _ _ R k) as Hv.
    rewrite Forall_forall in *. intros p Hp%newHist_subset. by apply Hv.
  - intros p q Hp Hq%Hprev. destruct (rep_prev _ _ R p q Hp Hq) as (Hq' & He & Hin).
    split; [done|]. rewrite Hw.
    pose proof (f_equal wPrev (Hw p)). pose proof (f_equal wRev (Hw q)). simpl in *.
    split; [congruence|done].
Qed.

Lemma Compact_rep h m r : rep h m ->
  (r > currentRevision m -> Compact r m = ((0, Some ErrFutureRev), m)) /\
  (r <= compactRevision m -> Compact r m = ((0, Some ErrCompacted), m)) /\
  (compactRevision m < r <= currentRevision m -> exists m',
     Compact r m = ((currentRevision m, None), m') /\ rep h m' /\ compactRevision m' = r /\
     log m' = drop (Z.to_nat (r - compactRevision m - 1)) (log m) /\
     forall x, toWrite (deref m' x) = toWrite (deref m x)).
Proof.
  intros R. pose proof (rep_compact _ _ R) as Hc. unfold Compact.
  split_and!; intros Hr.
  { by rewrite (proj2 (Z.gtb_lt _ _)) by lia. }
  { destruct (Z.gtb_spec r (currentRevision m)); [lia|].
    by rewrite (proj2 (Z.leb_le _ _)) by lia. }
  destruct (Z.gtb_spec r (currentRevision m)); [lia|].
  rewrite (proj2 (Z.leb_gt _ _)) by lia.
  destruct (Compact_scan_all m r (om_Items (keys m)) [] (NoDup_items _))
    as (rem & m1 & Hf & Hs & Hrem & Hh & Hno).
  { intros k ps Hin. apply om_Items_Get in Hin. pose proof (rep_keys_valid _ _ R k) as Hv.
    unfold hist in *. by rewrite Hin in *. }
  rewrite Hf. simpl app. cbn iota.
  set (ks := fold_left _ rem (keys m1)).
  assert (Hhist : forall k, default [] (om_Get ks k) = Compact_newHist m r (hist m k)).
  { intros k. unfold ks. rewrite fold_om_Delete.
    case_decide as Hk; [by destruct (Hrem _ Hk) as [_ ->]|].
    change (default [] (om_Get (keys m1) k)) with (hist m1 k).
    destruct (decide (k ∈ (om_Items (keys m)).*1)) as [Hin|Hn].
    - by destruct (Hh _ Hin).
    - rewrite (Hno _ Hn). assert (hist m k = []) as ->; [|done].
      unfold hist. destruct (om_Get (keys m) k) as [ps|] eqn:E; [|done].
      destruct Hn. apply list_elem_of_fmap. exists (k, ps). by rewrite om_Items_Get. }
  assert (Hint : int64_ok (r - compactRevision m) /\ int64_ok (r - compactRevision m - 1)).
  { pose proof (rep_int _ _ R). unfold int64_ok, minInt64, maxInt64, two63 in *. lia. }
  cbn [compactRevision set_keys log]. rewrite (same_compact _ _ Hs), (same_log _ _ Hs).
  rewrite (wrap64_id (r - _)), wrap64_id by apply Hint.
  set (cut := r - compactRevision m - 1).
  assert (Hlog : log (if cut >? 0 then set_log (drop (Z.to_nat cut) (log m)) (set_keys ks m1)
      else set_keys ks m1) = drop (Z.to_nat cut) (log m)).
  { destruct (Z.gtb_spec cut 0); simpl; [done|]. rewrite (same_log _ _ Hs).
    by replace (Z.to_nat cut) with 0%nat by lia. }
  eexists. split; [done|].
  set (m2 := MkMemory _ _ _ _ _ _).
  assert (Hs2 : forall l, writes m2 l = writes m l).
  { intros l. rewrite <- (same_writes m m1 l Hs). unfold m2, writes, deref. by destruct (cut >? 0). }
  assert (Hheap : heap m2 = heap m1) by (unfold m2; by destruct (cut >? 0)).
  assert (Hkeys : forall k, hist m2 k = Compact_newHist m r (hist m k)).
  { intros k. rewrite <- Hhist. unfold hist, m2. simpl. by destruct (cut >? 0). }
  assert (Hcur : currentRevision m2 = currentRevision m).
  { rewrite <- (same_rev _ _ Hs). unfold m2. simpl. by destruct (cut >? 0). }
  assert (Hd : forall x, deref m2 x = deref m1 x) by (intros; unfold deref; by rewrite Hheap).
  assert (Hprev : forall x q, e_prev (deref m2 x) = Some q -> e_prev (deref m x) = Some q).
  { intros x q. rewrite Hd. apply (same_prev _ _ Hs). }
  assert (Hw : forall x, toWrite (deref m2 x) = toWrite (deref m x)).
  { intros x. rewrite Hd. apply (same_write _ _ Hs). }
  assert (Hlog2 : log m2 = drop (Z.to_nat cut) (log m)) by done.
  assert (Hc2 : compactRevision m2 = r) by done.
  assert (Hlen : length (heap m2) = length (heap m)) by (rewrite Hheap; apply Hs).
  split; [|done]. apply (rep_compacted h m m2 r (Z.to_nat cut) R); try done; lia.
Qed.

End proofs.
