(* ===== verification/MemoryTheorems.v ===== *)
(** * The in-memory driver: what it guarantees

    The driver's writing operations as one executable step, its runs, the
    simulation by the contract of [MvccSpec], and the guarantees that follow. *)
From S2P Require Import Prelude Types OrderedMap Mvcc MvccSpec Memory MemoryProofs.

Section theorems.
Context {M : Type -> Type} `{OrderedMapLaws M}.
Implicit Types m : Memory M.

Definition apply_op (o : op) : ST (Memory M) res :=
  match o with
  | OCreate k v l => p <- Create k v l;; st_ret (RRev p.1 p.2)
  | OUpdate k v rev l => p <- Update k v rev l;; st_ret (RKV p.1.1.1 p.1.1.2 p.1.2 p.2)
  | ODelete k rev => p <- Delete k rev;; st_ret (RKV p.1.1.1 p.1.1.2 p.1.2 p.2)
  | OCompact r => p <- Compact r;; st_ret (RRev p.1 p.2)
  end.

Fixpoint run_ops (ops : list op) : ST (Memory M) (list res) :=
  match ops with
  | [] => st_ret []
  | o :: ops => r <- apply_op o;; rs <- run_ops ops;; st_ret (r :: rs)
  end.

Definition arep (a : astate) m : Prop :=
  rep (a_hist a) m /\ a_rev a = currentRevision m /\ a_compact a = compactRevision m.

Lemma arep_init : arep a_init New.
Proof. split_and!; [apply rep_New|done|done]. Qed.

Lemma rep_unfold_rev h m : rep h m -> Z.of_nat (length h) = currentRevision m.
Proof. intros R. by rewrite (rep_rev _ _ R). Qed.

(** The compact revision is changed by compaction only. *)
Lemma step_writes_compact o m : (forall r, o <> OCompact r) ->
  compactRevision (apply_op o m).2 = compactRevision m.
Proof.
  intros Ho. destruct o as [k v l|k v r l|k r|r]; [..|by destruct (Ho r)];
    unfold apply_op, st_bind, st_ret, Create, Update, Delete, nextRevision, alloc;
    repeat case_match; simplify_eq/=; try done; by destruct (last _).
Qed.

Lemma arep_add a w m m' :
  arep a m -> rep (a_hist a ++ [w]) m' -> compactRevision m' = compactRevision m ->
  wRev w = currentRevision m + 1 ->
  arep (add_write w a) m' /\ currentRevision m' <= currentRevision m + 1.
Proof.
  intros (R & Hn & Hc) R' Hk Hw. pose proof (rep_unfold_rev _ _ R).
  pose proof (rep_unfold_rev _ _ R') as Hl. rewrite length_app in Hl. simpl in Hl.
  split; [split_and!; [done|simpl; lia|simpl; lia]|lia].
Qed.

Lemma memory_step a o m :
  arep a m -> currentRevision m < maxInt64 ->
  exists a', mvcc_step a o (apply_op o m).1 a' /\ arep a' (apply_op o m).2 /\
    currentRevision (apply_op o m).2 <= currentRevision m + 1.
Proof.
  intros HR Hmax. pose proof HR as (R & Hn & Hc). pose proof (step_writes_compact o m) as Hk.
  assert (Hlen := rep_unfold_rev _ _ R).
  destruct o as [k v l|k v r l|k r|r]; unfold apply_op, st_bind in *;
    [pose proof (Create_rep _ m k v l R Hmax) as Hop
    |pose proof (Update_rep _ m k v r l R Hmax) as Hop
    |pose proof (Delete_rep _ m k r R Hmax) as Hop
    |pose proof (Compact_rep _ m r R) as (Hf & Hcc & Hop)].
  - destruct (current (a_hist a) k) eqn:Hcur.
    + rewrite Hop, Hlen, <- Hn in *. exists a. split_and!; [by econstructor|done|simpl; lia].
    + destruct Hop as (prev & m' & Hop & R'). rewrite Hop in *; cbn [st_ret fst snd] in *.
      eexists. split; [apply create_ok with (prev := prev); [done|simpl; lia]|].
      apply (arep_add _ _ m); simpl in *; try done; try lia; by apply Hk.
  - destruct (current (a_hist a) k) as [kv|] eqn:Hcur.
    + destruct (kvModRevision kv =? r) eqn:Hr; b2p.
      * destruct Hop as (m' & Hop & R'). rewrite Hop in *; cbn [st_ret fst snd] in *.
        eexists. split; [apply update_ok; [done|done|lia]|].
        apply (arep_add _ _ m); simpl in *; try done; try lia; by apply Hk.
      * rewrite Hop, Hlen, <- Hn in *. exists a. split_and!; [by econstructor|done|simpl; lia].
    + rewrite Hop, Hlen, <- Hn in *. exists a. split_and!; [by econstructor|done|simpl; lia].
  - destruct (current (a_hist a) k) as [kv|] eqn:Hcur.
    + destruct ((r =? 0) || (kvModRevision kv =? r)) eqn:Hr.
      * destruct Hop as (m' & Hop & R'). rewrite Hop in *; cbn [st_ret fst snd] in *.
        eexists. split; [apply delete_ok; [done|b2p; destruct Hr; b2p; auto|lia]|].
        apply (arep_add _ _ m); simpl in *; try done; try lia; by apply Hk.
      * b2p. rewrite Hop, Hlen, <- Hn in *. exists a.
        split_and!; [by apply delete_stale|done|simpl; lia].
    + rewrite Hop, Hlen, <- Hn in *. exists a. split_and!; [by econstructor|done|simpl; lia].
  - destruct (decide (r > currentRevision m)).
    { rewrite Hf by done. exists a. split_and!; [apply compact_future; lia|done|simpl; lia]. }
    destruct (decide (r <= compactRevision m)).
    { rewrite Hcc by done. exists a. split_and!; [apply compact_compacted; lia|done|simpl; lia]. }
    destruct Hop as (m' & Hop & R' & Hc' & _); [lia|]. rewrite Hop.
    pose proof (rep_unfold_rev _ _ R'). simpl. rewrite <- Hn.
    eexists. split_and!; [apply compact_ok; lia| |lia].
    split_and!; [done|simpl; lia|done].
Qed.

Lemma memory_run ops a m rs m' :
  arep a m -> currentRevision m + Z.of_nat (length ops) <= maxInt64 ->
  run_ops ops m = (rs, m') ->
  exists a', mvcc_run a (zip ops rs) a' /\ arep a' m' /\ length rs = length ops /\
    currentRevision m' <= currentRevision m + Z.of_nat (length ops).
Proof.
  revert a m rs. induction ops as [|o ops IH]; intros a m rs HR Hmax; simpl.
  { intros [= <- <-]. exists a. split_and!; [constructor|done|done|lia]. }
  simpl in Hmax. unfold st_bind, st_ret. destruct (memory_step a o m HR) as (a1 & Hs & HR1 & Hc1); [lia|].
  destruct (apply_op o m) as [r m1]. simpl in *.
  destruct (run_ops ops m1) as [rs' m2] eqn:E. intros [= <- <-].
  destruct (IH a1 m1 rs' HR1) as (a2 & Hr & HR2 & Hl & Hc2); [lia|done|].
  exists a2. split_and!; [by econstructor|done|simpl; lia|lia].
Qed.

(** States the driver reaches from [New] in fewer than [2^63] operations. *)
Definition reachable m : Prop :=
  exists ops rs, run_ops ops New = (rs, m) /\ Z.of_nat (length ops) < maxInt64.

Lemma reachable_arep m : reachable m ->
  exists a, arep a m /\ a_wf a /\ currentRevision m < maxInt64.
Proof.
  intros (ops & rs & Hrun & Hlen).
  destruct (memory_run ops a_init New rs m arep_init) as (a & Hr & HR & _ & Hc); simpl in *; [lia|done|].
  exists a. split_and!; [done| |lia]. eapply mvcc_run_wf; [done|apply a_init_wf].
Qed.

(** ** Observations *)
Lemma arep_Get a m k r b : arep a m -> (0 < r -> a_compact a <= r <= a_rev a) ->
  Get m k r b = (if r >? 0 then r else a_rev a,
                 strip b <$> view (a_hist a) (if r >? 0 then r else a_rev a) k, None).
Proof.
  intros (R & Hn & Hc) Hr. rewrite (Get_rep (a_hist a)) by (done || lia).
  unfold read_rev. by rewrite Hn.
Qed.

Lemma Get_error m k r b : (r <= 0 \/ compactRevision m <= r <= currentRevision m) ->
  forall rev kv e, Get m k r b = (rev, kv, Some e) -> False.
Proof.
  intros Hr rev kv e. unfold Get, List.
  destruct (Z.gtb_spec r 0), (Z.gtb_spec r (currentRevision m)), (Z.ltb_spec r (compactRevision m));
    simpl; try lia; by destruct (List_loop _ _ _ _ _ _ _ _).
Qed.

Lemma Get_error_eq m k r b : 0 < r -> 
  (currentRevision m < r -> (Get m k r b).2 = Some ErrFutureRev) /\
  (r <= currentRevision m -> r < compactRevision m -> (Get m k r b).2 = Some ErrCompacted).
Proof.
  intros Hr. unfold Get, List. rewrite (proj2 (Z.gtb_lt r 0)) by lia. split; intros.
  - by rewrite (proj2 (Z.gtb_lt r _)) by lia.
  - destruct (Z.gtb_spec r (currentRevision m)); [lia|]. by rewrite (proj2 (Z.ltb_lt r _)) by lia.
Qed.

(** C29. Refinement: every run of the driver from [New] is a run of the contract
    with the same results, and reads of the final state at any revision that is
    neither compacted nor in the future return what the history of the run
    holds at that revision; other revisions are refused with the error of
    their side. *)
Theorem memory_refines ops rs m :
  run_ops ops New = (rs, m) -> Z.of_nat (length ops) < maxInt64 ->
  exists a, mvcc_run a_init (zip ops rs) a /\ length rs = length ops /\
    CurrentRevision m = (a_rev a, None) /\
    (forall k b, Get m k 0 b = (a_rev a, strip b <$> current (a_hist a) k, None)) /\
    (forall k r b, 0 < r -> a_compact a <= r <= a_rev a ->
       Get m k r b = (r, strip b <$> view (a_hist a) r k, None)) /\
    (forall k r b, a_rev a < r -> (Get m k r b).2 = Some ErrFutureRev) /\
    (forall k r b, 0 < r < a_compact a -> (Get m k r b).2 = Some ErrCompacted).
Proof.
  intros Hrun Hlen. destruct (memory_run ops a_init New rs m arep_init) as (a & Hr & HR & Hl & Hc);
    [simpl; lia|done|]. exists a. pose proof HR as (R & Hn & Hk).
  pose proof (rep_compact _ _ R). simpl in Hc.
  split_and!; try done.
  - unfold CurrentRevision. by rewrite Hn.
  - intros. rewrite (arep_Get a) by (done || lia). simpl. rewrite (view_current _ (a_rev a)); [done|].
    rewrite Hn. by apply rep_wf.
  - intros. rewrite (arep_Get a) by done. by rewrite (proj2 (Z.gtb_lt r 0)) by lia.
  - intros. apply Get_error_eq; lia.
  - intros. apply Get_error_eq; lia.
Qed.

(** Listing: at every revision the driver accepts, [List] returns exactly the
    live keys of the range, once each and in key order, cut to [limit], and
    [Count] returns their number whatever the limit. *)
Theorem memory_list_correct m key e limit r b :
  reachable m -> (0 < r -> compactRevision m <= r <= currentRevision m) ->
  exists a kvs, arep a m /\ is_listing (a_hist a) (read_rev m r) key e b kvs /\
    List m key e limit r b = (read_rev m r, limited limit kvs, None) /\
    Count m key e r = (read_rev m r, Z.of_nat (length kvs), None).
Proof.
  intros (a & HR & _)%reachable_arep Hr. exists a, (listing m key e r b). pose proof HR as (R & _ & _).
  destruct (List_rep _ m key e limit r b R) as (_ & _ & Hl).
  destruct (List_rep _ m key e 0 r true R) as (_ & _ & Hc).
  destruct (Hl Hr) as [Hlist ->]. destruct (Hc Hr) as [_ Heq]. split_and!; [done|done|done|].
  unfold Count. rewrite Heq. unfold limited. simpl. by rewrite (length_listing _ _ _ _ true b).
Qed.

(** Optimistic concurrency: once a compare-and-swap (an [Update] or a
    [Delete] that names the revision it replaces) was accepted, no other one
    naming the same key and revision is, whatever happens in between,
    compaction included. *)
Theorem memory_cas_once m k rev o1 r1 m1 ops rs m2 o2 :
  reachable m -> currentRevision m + Z.of_nat (length ops) + 1 < maxInt64 -> rev <> 0 ->
  (exists v l, o1 = OUpdate k v rev l) \/ o1 = ODelete k rev ->
  (exists v l, o2 = OUpdate k v rev l) \/ o2 = ODelete k rev ->
  apply_op o1 m = (r1, m1) -> accepted o1 r1 = true -> run_ops ops m1 = (rs, m2) ->
  accepted o2 (apply_op o2 m2).1 = false.
Proof.
  intros (a & HR & Hwf & Hmax)%reachable_arep Hb Hne Ho1 Ho2 He1 Hacc Hrun.
  destruct (memory_step a o1 m HR Hmax) as (a1 & Hs1 & HR1 & Hc1). rewrite He1 in *. simpl in *.
  destruct (memory_run ops a1 m1 rs m2 HR1) as (a2 & Hr & HR2 & _ & Hc2); [lia|done|].
  destruct (memory_step a2 o2 m2 HR2) as (a3 & Hs3 & _); [lia|].
  destruct (accepted_write _ _ _ _ _ _ Hs1 Hacc Ho1) as (Hcur & w & Hw & Hk & Hlt).
  destruct (Hcur Hne) as (kv & Hcv & Hm).
  apply (cas_rejected a1 (zip ops rs) a2 o2 _ a3 k rev w); try done; [by eapply mvcc_step_wf|].
  destruct (current_mod _ _ _ Hcv) as (w0 & Hw0 & _ & -> & _). simpl in Hm.
  pose proof (wf_bounds _ _ (awf_hist _ Hwf)) as Hbd. rewrite Forall_forall in Hbd.
  specialize (Hbd w0 Hw0). simpl in Hbd. lia.
Qed.

(** Mutual exclusion: after an accepted [Create] of a key, another [Create]
    of it is refused with [ErrKeyExists] unless a [Delete] of it was accepted
    in between. *)
Theorem memory_create_exclusive m k v l r1 m1 ops rs m2 v' l' :
  reachable m -> currentRevision m + Z.of_nat (length ops) + 1 < maxInt64 ->
  apply_op (OCreate k v l) m = (r1, m1) -> accepted (OCreate k v l) r1 = true ->
  run_ops ops m1 = (rs, m2) ->
  (forall rev r, (ODelete k rev, r) ∈ zip ops rs -> accepted (ODelete k rev) r = false) ->
  Create k v' l' m2 = ((currentRevision m2, Some ErrKeyExists), m2).
Proof.
  intros (a & HR & Hwf & Hmax)%reachable_arep Hb He1 Hacc Hrun Hdel.
  destruct (memory_step a (OCreate k v l) m HR Hmax) as (a1 & Hs1 & HR1 & Hc1). rewrite He1 in *. simpl in *.
  destruct (memory_run ops a1 m1 rs m2 HR1) as (a2 & Hr & (R2 & Hn2 & _) & _ & Hc2); [lia|done|].
  assert (exists kv, current (a_hist a1) k = Some kv) as [kv Hkv].
  { inversion Hs1; subst; [|done]. simpl. rewrite current_snoc. simpl. rewrite decide_True by done. eauto. }
  destruct (live_kept_run _ _ _ k kv Hr Hkv Hdel) as (kv' & Hc' & _).
  pose proof (Create_rep _ m2 k v' l' R2) as Hop. rewrite Hc', (rep_unfold_rev _ _ R2) in Hop.
  apply Hop. lia.
Qed.

(** Snapshot reads: a read at a revision returns the same result after any
    operations, as long as the revision has not been compacted. *)
Theorem memory_reads_repeatable m ops rs m' k r b :
  reachable m -> currentRevision m + Z.of_nat (length ops) < maxInt64 ->
  run_ops ops m = (rs, m') -> 0 < r -> compactRevision m <= r <= currentRevision m ->
  compactRevision m' <= r -> Get m' k r b = Get m k r b.
Proof.
  intros (a & HR & Hwf & Hmax)%reachable_arep Hb Hrun Hr Hc Hc'.
  destruct (memory_run ops a m rs m' HR) as (a' & Hr' & HR' & _ & _); [lia|done|].
  pose proof HR as (R & Hn & Hk). pose proof HR' as (R' & Hn' & Hk').
  destruct (mvcc_run_mono _ _ _ Hr') as [Hmono _].
  rewrite (arep_Get a m), (arep_Get a' m') by (done || lia).
  rewrite (proj2 (Z.gtb_lt r 0)) by lia. by rewrite (mvcc_run_view _ _ _ r k Hr') by (done || lia).
Qed.

End theorems.

(** ** Witnesses: a short run on the sorted association list *)
Definition wops : list op :=
  [OCreate "a" "x" 7; OCreate "b" "y" 0; OUpdate "a" "z" 1 7; ODelete "b" 0; OCompact 3;
   OUpdate "a" "w" 1 0; OCreate "b" "v" 0].
Definition wrun : list res * Memory samap := run_ops wops New.

Example wrun_results : wrun.1 =
  [RRev 1 None; RRev 2 None; RKV 3 (Some (MkKeyValue "a" "z" 2 1 3 7)) true None;
   RKV 4 (Some (MkKeyValue "b" "y" 1 2 2 0)) true None; RRev 4 None;
   RKV 4 (Some (MkKeyValue "a" "z" 2 1 3 7)) false None; RRev 5 None].
Proof. vm_compute. reflexivity. Qed.

Lemma wrun_reachable : reachable wrun.2.
Proof. exists wops, wrun.1. split; [exact (surjective_pairing _)|reflexivity]. Qed.

Lemma New_reachable : reachable (New (M:=samap)).
Proof. exists [], []. done. Qed.

Lemma memory_refines_witness :
  length wrun.1 = length wops /\ exists a, mvcc_run a_init (zip wops wrun.1) a.
Proof.
  split; [vm_compute; reflexivity|].
  destruct (memory_refines wops wrun.1 wrun.2) as (a & Hr & _);
    [exact (surjective_pairing _)|reflexivity|]. exists a. exact Hr.
Defined.

Lemma memory_list_correct_witness : exists a kvs, is_listing (a_hist a) 4 "a" "c" true kvs /\
  List wrun.2 "a" "c" 1 4 true = (4, limited 1 kvs, None).
Proof.
  destruct (memory_list_correct wrun.2 "a" "c" 1 4 true wrun_reachable) as (a & kvs & _ & Hl & He & _).
  - intros _. split; intros Hc; vm_compute in Hc; discriminate Hc.
  - exists a, kvs. split; [exact Hl|exact He].
Defined.

Lemma memory_cas_once_witness :
  accepted (ODelete "a" 1)
    (apply_op (ODelete "a" 1)
       (run_ops [OCompact 2] (apply_op (OUpdate "a" "z" 1 0)
          (apply_op (OCreate "a" "x" 0) (New (M:=samap))).2).2).2).1 = false.
Proof.
  set (m := (apply_op (OCreate "a" "x" 0) (New (M:=samap))).2).
  apply (memory_cas_once m "a" 1 (OUpdate "a" "z" 1 0)
    (apply_op (OUpdate "a" "z" 1 0) m).1 (apply_op (OUpdate "a" "z" 1 0) m).2 [OCompact 2]
    (run_ops [OCompact 2] (apply_op (OUpdate "a" "z" 1 0) m).2).1).
  - exists [OCreate "a" "x" 0], [(apply_op (OCreate "a" "x" 0) (New (M:=samap))).1].
    split; [reflexivity|reflexivity].
  - reflexivity.
  - discriminate.
  - left. exists "z"%string, 0. reflexivity.
  - right. reflexivity.
  - exact (surjective_pairing _).
  - vm_compute. reflexivity.
  - exact (surjective_pairing _).
Defined.

Lemma memory_create_exclusive_witness :
  let m1 := (apply_op (OCreate "lock" "me" 0) (New (M:=samap))).2 in
  let m2 := (run_ops [OUpdate "lock" "me2" 1 0] m1).2 in
  Create "lock" "you" 0 m2 = ((currentRevision m2, Some ErrKeyExists), m2).
Proof.
  set (m1 := (apply_op (OCreate "lock" "me" 0) (New (M:=samap))).2).
  apply (memory_create_exclusive New "lock" "me" 0
    (apply_op (OCreate "lock" "me" 0) (New (M:=samap))).1 m1 [OUpdate "lock" "me2" 1 0]
    (run_ops [OUpdate "lock" "me2" 1 0] m1).1).
  - apply New_reachable.
  - reflexivity.
  - exact (surjective_pairing _).
  - vm_compute. reflexivity.
  - exact (surjective_pairing _).
  - intros rev r Hin. apply list_elem_of_singleton in Hin. discriminate Hin.
Defined.

Lemma memory_reads_repeatable_witness :
  let m := wrun.2 in
  let m' := (run_ops [ODelete "a" 0; OCompact 4] m).2 in
  Get m' "a" 4 false = Get m "a" 4 false.
Proof.
  apply (memory_reads_repeatable wrun.2 [ODelete "a" 0; OCompact 4]
    (run_ops [ODelete "a" 0; OCompact 4] wrun.2).1).
  - apply wrun_reachable.
  - reflexivity.
  - exact (surjective_pairing _).
  - reflexivity.
  - split; intros Hc; vm_compute in Hc; discriminate Hc.
  - intros Hc; vm_compute in Hc; discriminate Hc.
Defined.
