(* ===== verification/MemoryWatch.v ===== *)
(** * The watch goroutine of the in-memory driver (memory.go, [Watch])

    The goroutine's loop as a step relation, interleaved with the store
    operations of other goroutines: it fetches the notification channel,
    scans the log under the read lock, hands the batch over, and waits for the
    channel to be closed.  Proved: no wake-up is lost, and without compaction
    the watcher delivers every write of its range after its start revision,
    once and in order.  After a compaction the scan starts one entry too early. *)
From S2P Require Import Prelude Types OrderedMap Mvcc MvccSpec Memory MemoryProofs MemoryTheorems.

Section watch.
Context {M : Type -> Type} `{OrderedMapLaws M}.
Implicit Types m : Memory M.

(** The program points of the [for] loop. *)
Inductive wphase : Type :=
  | WTop
  | WScan (notifyCh : nat)
  | WSend (notifyCh : nat) (batch : list Event)
  | WWait (notifyCh : nat)
  | WDone.

Record wstate := MkWState {
  w_mem : Memory M;
  w_phase : wphase;
  w_lastSeen : Z;
  w_delivered : list Event
}.

Definition watch_init m (startRevision : Z) : option wstate :=
  match (Watch m startRevision).2 with
  | Some lastSeen => Some (MkWState m WTop lastSeen [])
  | None => None
  end.

(** [compacting] says whether other goroutines may compact. *)
Inductive wstep (key end_ : string) (compacting : bool) : wstate -> wstate -> Prop :=
  | wstep_top m ls d :
      wstep key end_ compacting (MkWState m WTop ls d) (MkWState m (WScan (getNotifyCh m)) ls d)
  | wstep_scan m ch ls d batch ls' :
      watch_pass m key end_ ls = (batch, ls') ->
      wstep key end_ compacting (MkWState m (WScan ch) ls d)
        (MkWState m (match batch with [] => WWait ch | _ => WSend ch batch end) ls' d)
  | wstep_send m ch batch ls d :
      wstep key end_ compacting (MkWState m (WSend ch batch) ls d)
        (MkWState m (WWait ch) ls (d ++ batch))
  | wstep_wake m ch ls d :
      chClosed ch m = true ->
      wstep key end_ compacting (MkWState m (WWait ch) ls d) (MkWState m WTop ls d)
  | wstep_cancel m p ls d :
      (forall ch, p <> WScan ch) -> p <> WTop -> 
      wstep key end_ compacting (MkWState m p ls d) (MkWState m WDone ls d)
  | wstep_store m p ls d o :
      (compacting = false -> forall r, o <> OCompact r) -> currentRevision m < maxInt64 ->
      wstep key end_ compacting (MkWState m p ls d) (MkWState (apply_op o m).2 p ls d).

Definition pending (p : wphase) : list Event :=
  match p with WSend _ b => b | _ => [] end.

(** What a delivered event says of the write it reports. *)
Definition ev_core (e : Event) : option KeyValue * bool * bool := (evKV e, evCreate e, evDelete e).
Definition w_core (w : write) : option KeyValue * bool * bool :=
  (Some (wKV w), wCreated w, wDeleted w).

(** The writes a watcher of the range owes its client: those from revision
    [a + 1] to [b]. *)
Definition watched (key end_ : string) (h : list write) (a b : Z) : list write :=
  filter (fun w => key_in_range (wKey w) key end_ = true) (above a (upto b h)).

(** ** The scan *)
Lemma watch_loop_spec m key end_ l batch ls :
  watch_loop m key end_ l batch ls
  = (batch ++ (watch_event m <$> filter (fun e => key_in_range (e_key e) key end_ = true) (deref m <$> l)),
     match last l with Some p => e_revision (deref m p) | None => ls end).
Proof.
  revert batch ls. induction l as [|p l IH]; intros batch ls; [simpl; by rewrite app_nil_r|].
  rewrite last_cons. simpl. rewrite IH, filter_cons. f_equal.
  - case_decide as Hd; [rewrite Hd; by rewrite <- app_assoc|].
    apply not_true_is_false in Hd. by rewrite Hd.
  - by destruct (last l).
Qed.

Lemma pass_core m key end_ l :
  ev_core <$> (watch_event m <$> filter (fun e => key_in_range (e_key e) key end_ = true) (deref m <$> l))
  = w_core <$> filter (fun w => key_in_range (wKey w) key end_ = true) (writes m l).
Proof.
  unfold writes. induction l as [|p l IH]; [done|]. rewrite !fmap_cons, !filter_cons. simpl.
  case_decide; simpl; [f_equal|]; done.
Qed.

(** In a state where nothing was compacted the log is the history. *)
Lemma rep_log_full h m : rep h m -> compactRevision m = 0 -> writes m (log m) = h.
Proof. intros R Hc. destruct (rep_log _ _ R) as (b & Hb & ->). by replace b with 0%nat by lia. Qed.

Lemma above_drop h m n : rep h m -> 0 <= n -> above n h = drop (Z.to_nat n) h.
Proof.
  intros R Hn. pose proof (rep_dense _ _ R) as Hd. revert n Hn.
  assert (Hoff : forall (off : nat) l, (forall i w, l !! i = Some w -> wRev w = Z.of_nat (off + i) + 1) ->
    forall n, 0 <= n -> above (Z.of_nat off + n) l = drop (Z.to_nat n) l).
  { intros off l. revert off. induction l as [|w l IH]; intros off Hl n Hn; [by destruct (Z.to_nat n)|].
    pose proof (Hl 0%nat w eq_refl) as Hw. unfold above. rewrite filter_cons.
    destruct (decide (n = 0)) as [->|].
    - simpl. rewrite decide_True by lia. f_equal. rewrite Z.add_0_r.
      apply above_all, Forall_forall. intros v [i Hi]%list_elem_of_lookup.
      specialize (Hl (S i) v Hi). simpl. lia.
    - rewrite decide_False by lia. replace (Z.to_nat n) with (S (Z.to_nat (n - 1))) by lia. simpl.
      rewrite <- (IH (S off)) by (try lia; intros i v Hi; specialize (Hl (S i) v Hi); lia).
      unfold above. apply list_filter_iff. intros; lia. }
  intros n Hn. rewrite <- (Hoff 0%nat h) by (try done; intros i w Hi; by rewrite (Hd i w Hi)).
  done.
Qed.

Lemma last_drop_writes m l w : last (writes m l) = Some w ->
  exists p, last l = Some p /\ toWrite (deref m p) = w.
Proof. unfold writes. rewrite fmap_last. destruct (last l); intros; simplify_eq/=; eauto. Qed.

Lemma logIndexAfter_full h m ls : rep h m -> compactRevision m = 0 ->
  0 <= ls <= currentRevision m -> logIndexAfter m ls = ls.
Proof.
  intros R Hc Hl. unfold logIndexAfter. rewrite Hc, Z.sub_0_r.
  pose proof (rep_int _ _ R). pose proof (rep_compact _ _ R).
  rewrite wrap64_id by (unfold int64_ok, minInt64, maxInt64, two63 in *; lia).
  assert (Z.of_nat (length (log m)) = currentRevision m).
  { rewrite <- (rep_unfold_rev _ _ R). f_equal. rewrite <- (rep_log_full _ _ R Hc).
    unfold writes. by rewrite length_fmap. }
  destruct (Z.ltb_spec ls 0); [lia|]. destruct (Z.gtb_spec ls (Z.of_nat (length (log m)))); lia.
Qed.

(** One pass from [ls] collects exactly the writes after [ls], and moves
    [lastSeen] to the current revision. *)
Lemma watch_pass_full h m key end_ ls : rep h m -> compactRevision m = 0 ->
  0 <= ls <= currentRevision m -> forall batch ls',
  watch_pass m key end_ ls = (batch, ls') ->
  ev_core <$> batch = w_core <$> watched key end_ h ls (currentRevision m) /\ ls' = currentRevision m.
Proof.
  intros R Hc Hl batch ls'. unfold watch_pass. rewrite (logIndexAfter_full h) by done.
  rewrite watch_loop_spec. intros [= <- <-]. pose proof (wf_bounds _ _ (rep_wf _ _ R)) as Hb.
  assert (Hall : upto (currentRevision m) h = h).
  { apply upto_all. eapply Forall_impl; [exact Hb|]. simpl; lia. }
  split.
  - simpl app. rewrite pass_core, writes_drop, (rep_log_full h) by done.
    unfold watched. rewrite Hall. by rewrite (above_drop h m) by (done || lia).
  - pose proof (rep_unfold_rev _ _ R) as Hlen.
    destruct (last (drop (Z.to_nat ls) (log m))) as [p|] eqn:E.
    + assert (Hw : last (drop (Z.to_nat ls) h) = Some (toWrite (deref m p))).
      { rewrite <- (rep_log_full h m R Hc), <- writes_drop. unfold writes. by rewrite fmap_last, E. }
      change (e_revision (deref m p)) with (wRev (toWrite (deref m p))).
      rewrite last_lookup, lookup_drop in Hw. rewrite (rep_dense _ _ R _ _ Hw).
      apply lookup_lt_Some in Hw. rewrite length_drop in *. lia.
    + apply last_None in E. apply (f_equal length) in E. rewrite length_drop in E. simpl in E.
      pose proof (f_equal length (rep_log_full h m R Hc)) as Hlog.
      unfold writes in Hlog. rewrite length_fmap in Hlog. lia.
Qed.

(** ** The invariant of a watcher that runs beside writers *)
Definition waiting (p : wphase) : option nat :=
  match p with WSend ch _ | WWait ch => Some ch | _ => None end.

Record winv (key end_ : string) (a0 : Z) (s : wstate) : Prop := {
  winv_ch : forall ch, w_phase s = WScan ch \/ waiting (w_phase s) = Some ch ->
    (ch <= notifyCh (w_mem s))%nat;
  winv_seen : 0 <= a0 <= w_lastSeen s /\ w_lastSeen s <= currentRevision (w_mem s);
  winv_wait : forall ch, waiting (w_phase s) = Some ch -> ch = notifyCh (w_mem s) ->
    w_lastSeen s = currentRevision (w_mem s);
  winv_hist : exists a rest, arep a (w_mem s) /\ a_compact a = 0 /\
    (w_phase s <> WDone -> rest = pending (w_phase s)) /\
    ev_core <$> (w_delivered s ++ rest)
      = w_core <$> watched key end_ (a_hist a) a0 (w_lastSeen s)
}.

(** A store operation either leaves revision and channel alone, or closes the
    channel. *)
Lemma apply_op_notify o m : (forall r, o <> OCompact r) ->
  notifyCh (apply_op o m).2 = S (notifyCh m) \/
  (notifyCh (apply_op o m).2 = notifyCh m /\ currentRevision (apply_op o m).2 = currentRevision m).
Proof.
  intros Ho. destruct o as [k v l|k v r l|k r|r]; [..|by destruct (Ho r)];
    unfold apply_op, st_bind, st_ret, Create, Update, Delete, nextRevision, alloc;
    repeat case_match; simplify_eq/=; auto; left; by destruct (last _).
Qed.

Lemma mvcc_step_upto a o r a' x : mvcc_step a o r a' -> x <= a_rev a ->
  upto x (a_hist a') = upto x (a_hist a).
Proof.
  intros Hs Hx. destruct Hs; try done; simpl; rewrite upto_app, upto_one, decide_False by (simpl; lia);
    by rewrite app_nil_r.
Qed.

Lemma watched_app key end_ h m a b c : rep h m -> a <= b <= c ->
  watched key end_ h a c = watched key end_ h a b ++ watched key end_ h b c.
Proof.
  intros R Hb. unfold watched. rewrite <- filter_app. f_equal.
  assert (Hs : sorted (upto c h)) by apply StronglySorted_filter, (rep_wf _ _ R).
  rewrite (split_at b _ Hs) at 1. unfold above at 1. rewrite filter_app. f_equal.
  - rewrite upto_upto by lia. done.
  - apply above_all. eapply Forall_impl; [apply Forall_above|]. simpl; lia.
Qed.

Lemma winv_step key end_ a0 s s' :
  winv key end_ a0 s -> wstep key end_ false s s' -> winv key end_ a0 s'.
Proof.
  intros [Hch Hseen Hwait (a & rest & HR & Hc & Hrest & Hdel)] Hstep.
  pose proof HR as (R & Hn & Hk).
  destruct Hstep as [m ls d|m ch ls d batch ls' Hp|m ch batch ls d|m ch ls d Hcl|m p ls d Hns Hnt|m p ls d o Ho Hmax];
    simpl in *.
  - split; simpl; [|done|done|].
    + intros ch [[= <-]|?]; [done|done].
    + exists a, []. rewrite Hrest in Hdel by done. done.
  - rewrite Hk in Hc. destruct (watch_pass_full _ m key end_ ls R Hc ltac:(lia) _ _ Hp) as [Hb ->].
    rewrite Hrest in Hdel by done. simpl in Hdel. rewrite app_nil_r in Hdel.
    split; simpl; [|lia| |].
    + intros ch' Hor. assert (ch' = ch) as -> by (destruct batch, Hor; simplify_eq/=; done). auto.
    + done.
    + exists a, batch. split_and!; [done|by rewrite Hk|by destruct batch|].
      rewrite (watched_app _ _ _ m a0 ls) by (done || lia).
      by rewrite !fmap_app, Hdel, Hb.
  - rewrite Hrest in Hdel by done. split; simpl; [naive_solver|done|naive_solver|].
    exists a, []. by rewrite app_nil_r.
  - rewrite Hrest in Hdel by done. split; simpl; [naive_solver|done|naive_solver|].
    exists a, []. done.
  - split; simpl; [naive_solver|done|done|]. exists a, rest. done.
  - destruct (memory_step a o m HR Hmax) as (a' & Hs & HR' & _).
    pose proof (mvcc_step_mono _ _ _ _ Hs) as [Hmono _]. pose proof HR' as (_ & Hn' & Hk').
    pose proof (apply_op_notify o m (Ho eq_refl)) as Hnot.
    split; simpl.
    + intros ch Hor. specialize (Hch ch Hor). destruct Hnot as [|[? _]]; lia.
    + lia.
    + intros ch Hw ->. specialize (Hch _ (or_intror Hw)).
      destruct Hnot as [|[Hnn Hcc]]; [lia|]. rewrite Hcc. apply (Hwait _ Hw). done.
    + exists a', rest. split_and!; [done| |done|].
      * rewrite Hk', step_writes_compact by auto. congruence.
      * rewrite Hdel. unfold watched. by rewrite (mvcc_step_upto _ _ _ _ ls Hs) by lia.
Qed.

Lemma winv_init key end_ m start s a : arep a m -> compactRevision m = 0 ->
  minInt64 < start <= currentRevision m + 1 ->
  watch_init m start = Some s -> 
  winv key end_ (if start >? 0 then start - 1 else currentRevision m) s /\ w_phase s = WTop.
Proof.
  intros HR Hc Hs Hi. pose proof HR as (R & Hn & Hk). pose proof (rep_compact _ _ R).
  pose proof (rep_int _ _ R). unfold watch_init, Watch in Hi. rewrite Hc in Hi.
  rewrite wrap64_id in Hi by (unfold int64_ok, minInt64, maxInt64, two63 in *; lia).
  assert (((start >? 0) && (start <=? 0)) = false) as Hf.
  { destruct (Z.gtb_spec start 0), (Z.leb_spec start 0); simpl; lia || done. }
  rewrite Hf in Hi. simpl in Hi. injection Hi as <-. split; [|done].
  set (a0 := if start >? 0 then _ else _).
  assert ((if start - 1 <? 0 then currentRevision m else start - 1) = a0) as ->.
  { unfold a0. destruct (Z.gtb_spec start 0), (Z.ltb_spec (start - 1) 0); lia. }
  assert (0 <= a0 <= currentRevision m).
  { unfold a0. destruct (Z.gtb_spec start 0); lia. }
  split; simpl; [naive_solver|lia|done|].
  exists a, []. split_and!; [done|congruence|done|].
  unfold watched. rewrite filter_none; [done|].
  intros w Hw. apply elem_of_above in Hw as [Hgt Hw]. apply elem_of_upto in Hw as [Hle _]. lia.
Qed.

Definition watch_from m (start : Z) : Z := if start >? 0 then start - 1 else currentRevision m.

Lemma winv_reach key end_ m start s0 s : reachable m -> compactRevision m = 0 ->
  minInt64 < start <= currentRevision m + 1 -> watch_init m start = Some s0 ->
  rtc (wstep key end_ false) s0 s -> winv key end_ (watch_from m start) s.
Proof.
  intros (a & HR & _)%reachable_arep Hc Hs Hi Hrun.
  destruct (winv_init key end_ m start s0 a HR Hc Hs Hi) as [Hinv _].
  clear Hi. induction Hrun as [|s0 s1 s2 Hstep _ IH]; [done|].
  apply IH. by eapply winv_step.
Qed.

(** C25. Exactly once, in order: while nothing is compacted, what a watcher of a
    range has handed to its client is at every moment a prefix of the writes
    to that range from its start revision on, in revision order and without
    repetition, whatever the writers do between its steps. *)
Theorem watch_exactly_once key end_ m start s0 s : reachable m -> compactRevision m = 0 ->
  minInt64 < start <= currentRevision m + 1 -> watch_init m start = Some s0 ->
  rtc (wstep key end_ false) s0 s ->
  exists a rest, arep a (w_mem s) /\
    (ev_core <$> w_delivered s) ++ rest
    = w_core <$> watched key end_ (a_hist a) (watch_from m start) (currentRevision (w_mem s)).
Proof.
  intros Hm Hc Hs Hi Hrun.
  destruct (winv_reach key end_ m start s0 s Hm Hc Hs Hi Hrun) as [_ Hseen _ (a & rest & HR & _ & _ & Hd)].
  exists a. pose proof HR as (R & _ & _).
  rewrite (watched_app _ _ _ (w_mem s) _ (w_lastSeen s)) by (done || lia).
  rewrite fmap_app, <- Hd, fmap_app, <- app_assoc. by eexists.
Qed.

(** No lost wake-up: when the watch goroutine is blocked on a notification
    channel that nobody has closed, everything in its range up to the current
    revision has been handed over, so it can miss no write by waiting. *)
Theorem watch_no_lost_wakeup key end_ m start s0 s ch : reachable m -> compactRevision m = 0 ->
  minInt64 < start <= currentRevision m + 1 -> watch_init m start = Some s0 ->
  rtc (wstep key end_ false) s0 s ->
  w_phase s = WWait ch -> chClosed ch (w_mem s) = false ->
  exists a, arep a (w_mem s) /\
    ev_core <$> w_delivered s
    = w_core <$> watched key end_ (a_hist a) (watch_from m start) (currentRevision (w_mem s)).
Proof.
  intros Hm Hc Hs Hi Hrun Hph Hcl.
  destruct (winv_reach key end_ m start s0 s Hm Hc Hs Hi Hrun)
    as [Hch _ Hwait (a & rest & HR & _ & Hrest & Hd)].
  rewrite Hph in *. simpl in *. exists a. split; [done|].
  apply Nat.ltb_ge in Hcl. specialize (Hch ch (or_intror eq_refl)).
  rewrite <- (Hwait ch) by (done || lia). rewrite Hrest, app_nil_r in Hd by done. done.
Qed.

(** The entry the scan of a watcher that has seen [ls] starts from. *)
Definition first_scanned m (ls : Z) : option entry :=
  deref m <$> log m !! Z.to_nat (logIndexAfter m ls).

(** After a first compaction at [r] the log scan is off by one: the entry the
    scan of a watcher that has seen revision [x] starts from is the one of
    revision [x] itself, so every pass delivers that event again (the comment
    of [logIndexAfter] expects the first revision above [x]). *)
Theorem compact_scan_redelivers m r m' x :
  reachable m -> compactRevision m = 0 -> 2 <= r <= currentRevision m ->
  Compact r m = ((currentRevision m, None), m') -> r <= x <= currentRevision m ->
  exists e, first_scanned m' x = Some e /\ e_revision e = x.
Proof.
  intros (a & HR & _ & Hmax)%reachable_arep Hc Hr Hcomp Hx. pose proof HR as (R & _ & _).
  destruct (Compact_rep _ m r R) as (_ & _ & Hop).
  destruct Hop as (m1 & Hop & R1 & Hc1 & Hlog & Hw); [lia|].
  rewrite Hcomp in Hop. injection Hop as <-.
  pose proof (rep_unfold_rev _ _ R) as Hlen. pose proof (f_equal length (rep_log_full _ m R Hc)) as Hll.
  unfold writes in Hll. rewrite length_fmap in Hll.
  assert (Hidx : logIndexAfter m' x = x - r).
  { unfold logIndexAfter. rewrite Hc1, Hlog, length_drop.
    rewrite wrap64_id by (unfold int64_ok, minInt64, maxInt64, two63 in *; lia).
    destruct (Z.ltb_spec (x - r) 0); [lia|]. destruct (Z.gtb_spec (x - r) (Z.of_nat (length (log m) - Z.to_nat (r - compactRevision m - 1)))); lia. }
  unfold first_scanned. rewrite Hidx, Hlog, lookup_drop.
  destruct (lookup_lt_is_Some_2 (log m) (Z.to_nat (r - compactRevision m - 1) + Z.to_nat (x - r))) as [p Hp]; [lia|].
  exists (deref m' p). split; [by rewrite Hp|].
  pose proof (f_equal wRev (Hw p)) as Hrev. simpl in Hrev. rewrite Hrev.
  assert (Hh : a_hist a !! (Z.to_nat (r - compactRevision m - 1) + Z.to_nat (x - r))%nat = Some (toWrite (deref m p))).
  { rewrite <- (rep_log_full _ m R Hc), writes_lookup, Hp. done. }
  apply (rep_dense _ _ R) in Hh. simpl in Hh. lia.
Qed.
End watch.
Arguments wstate : clear implicits.

(** ** Witnesses *)
Definition w0 : Memory samap :=
  (run_ops [OCreate "a" "x" 0; OCreate "b" "y" 0; OUpdate "a" "z" 1 0] New).2.

Lemma w0_reachable : reachable w0.
Proof.
  exists [OCreate "a" "x" 0; OCreate "b" "y" 0; OUpdate "a" "z" 1 0].
  eexists. split; [exact (surjective_pairing _)|reflexivity].
Qed.

(** A watcher of [a] from revision 1: it scans, delivers and waits. *)
Definition w0_blocked : wstate samap :=
  MkWState w0 (WWait 3) 3 (watch_pass w0 "a" "" 0).1.

Lemma w0_run : rtc (wstep "a" "" false) (MkWState w0 WTop 0 []) w0_blocked.
Proof.
  eapply rtc_l; [apply wstep_top|]. eapply rtc_l; [apply wstep_scan; apply surjective_pairing|].
  eapply rtc_l; [|apply rtc_refl]. apply (wstep_send _ _ _ w0 3 (watch_pass w0 "a" "" 0).1 3 []).
Qed.

Lemma watch_exactly_once_witness : exists a rest, arep a (w_mem w0_blocked) /\
  (ev_core <$> w_delivered w0_blocked) ++ rest
  = w_core <$> watched "a" "" (a_hist a) (watch_from w0 1) (currentRevision (w_mem w0_blocked)).
Proof.
  apply (watch_exactly_once "a" "" w0 1 (MkWState w0 WTop 0 []) w0_blocked).
  - apply w0_reachable.
  - reflexivity.
  - split; [reflexivity|intros Hc; vm_compute in Hc; discriminate Hc].
  - reflexivity.
  - apply w0_run.
Defined.

Lemma watch_no_lost_wakeup_witness : exists a, arep a (w_mem w0_blocked) /\
  ev_core <$> w_delivered w0_blocked
  = w_core <$> watched "a" "" (a_hist a) (watch_from w0 1) (currentRevision (w_mem w0_blocked)).
Proof.
  apply (watch_no_lost_wakeup "a" "" w0 1 (MkWState w0 WTop 0 []) w0_blocked 3).
  - apply w0_reachable.
  - reflexivity.
  - split; [reflexivity|intros Hc; vm_compute in Hc; discriminate Hc].
  - reflexivity.
  - apply w0_run.
  - reflexivity.
  - reflexivity.
Defined.

Lemma compact_scan_redelivers_witness :
  exists e, first_scanned (Compact 2 w0).2 3 = Some e /\ e_revision e = 3.
Proof.
  apply (compact_scan_redelivers w0 2 (Compact 2 w0).2 3).
  - apply w0_reachable.
  - reflexivity.
  - split; [intros Hc; discriminate Hc|intros Hc; vm_compute in Hc; discriminate Hc].
  - exact (surjective_pairing _).
  - split; [intros Hc; discriminate Hc|intros Hc; vm_compute in Hc; discriminate Hc].
Defined.
