(* ===== verification/Backend.v ===== *)
(** * The interface between the front end and the storage drivers

    [server.Backend] of types.go: the calls the front end makes of a driver, as
    the operations of its handlers ([Prog]).  [BackendLaws] is what a driver promises:
    every call is a step of the contract of [MvccSpec], reads show its
    history.  The in-memory driver is an instance. *)
From S2P Require Import Prelude Types Prog OrderedMap Mvcc MvccSpec Memory MemoryProofs MemoryTheorems MemoryWatch.

(** One constructor per method, indexed by what it returns. *)
Inductive bop : Type -> Type :=
  | BGet (key : string) (revision : Z) (keysOnly : bool) : bop (Z * option KeyValue * gerr)
  | BCreate (key value : string) (lease : Z) : bop (Z * gerr)
  | BDelete (key : string) (revision : Z) : bop (Z * option KeyValue * bool * gerr)
  | BList (key end_ : string) (limit revision : Z) (keysOnly : bool)
      (labelSelector fieldSelector : string) : bop (Z * list KeyValue * gerr)
  | BCount (key end_ : string) (revision : Z) (labelSelector fieldSelector : string)
      : bop (Z * Z * gerr)
  | BUpdate (key value : string) (revision lease : Z) : bop (Z * option KeyValue * bool * gerr)
  | BDbSize : bop (Z * gerr)
  | BCurrentRevision : bop (Z * gerr)
  | BCompact (revision : Z) : bop (Z * gerr).

Abbreviation Backend := (Handler bop).
Abbreviation b_do := (h_do (E:=bop)).
Abbreviation b_room := (h_room (E:=bop)).

(** ** The promise of a driver *)
Definition list_result (a : astate) (key e : string) (limit r : Z) (b : bool)
    (res : Z * list KeyValue * gerr) : Prop :=
  exists kvs, is_listing (a_hist a) r key e b kvs /\ res = (r, limited limit kvs, None).

Definition count_result (a : astate) (key e : string) (r : Z) (res : Z * Z * gerr) : Prop :=
  exists kvs, is_listing (a_hist a) r key e true kvs /\ res = (r, Z.of_nat (length kvs), None).

(** The revision a read names, or now. *)
Definition rev_of (a : astate) (r : Z) : Z := if r >? 0 then r else a_rev a.

(** [Get] at a revision ([<= 0]: now). *)
Definition get_result (a : astate) (k : string) (r : Z) (b : bool) : Z * option KeyValue * gerr :=
  if r >? 0 then
    if r >? a_rev a then (a_rev a, None, Some ErrFutureRev)
    else if r <? a_compact a then (a_rev a, None, Some ErrCompacted)
    else (r, strip b <$> view (a_hist a) r k, None)
  else (a_rev a, strip b <$> current (a_hist a) k, None).

Class BackendLaws (S : Type) `{Backend S} (sim : astate -> S -> Prop) : Prop := {
  law_wf : forall a s, sim a s -> a_wf a;
  law_room : forall a s s', sim a s -> sim a s' -> b_room s -> b_room s';
  law_create : forall a s k v l, sim a s -> b_room s ->
    exists a', mvcc_step a (OCreate k v l)
      (RRev (b_do (BCreate k v l) s).1.1 (b_do (BCreate k v l) s).1.2) a' /\
      sim a' (b_do (BCreate k v l) s).2;
  law_update : forall a s k v r l, sim a s -> b_room s ->
    let x := b_do (BUpdate k v r l) s in
    exists a', mvcc_step a (OUpdate k v r l) (RKV x.1.1.1.1 x.1.1.1.2 x.1.1.2 x.1.2) a' /\ sim a' x.2;
  law_delete : forall a s k r, sim a s -> b_room s ->
    let x := b_do (BDelete k r) s in
    exists a', mvcc_step a (ODelete k r) (RKV x.1.1.1.1 x.1.1.1.2 x.1.1.2 x.1.2) a' /\ sim a' x.2;
  law_compact : forall a s r, sim a s -> b_room s ->
    exists a', mvcc_step a (OCompact r)
      (RRev (b_do (BCompact r) s).1.1 (b_do (BCompact r) s).1.2) a' /\
      sim a' (b_do (BCompact r) s).2;
  law_get : forall a s k r b, sim a s ->
    b_do (BGet k r b) s = (get_result a k r b, s);
  law_list : forall a s key e limit r b, sim a s -> (0 < r -> a_compact a <= r <= a_rev a) ->
    list_result a key e limit (rev_of a r) b (b_do (BList key e limit r b "" "") s).1;
  law_count : forall a s key e r, sim a s -> (0 < r -> a_compact a <= r <= a_rev a) ->
    count_result a key e (rev_of a r) (b_do (BCount key e r "" "") s).1;
  law_refuse : forall a s key e limit r b ls fs, sim a s -> 0 < r -> r < a_compact a \/ a_rev a < r ->
    (exists n e', (b_do (BList key e limit r b ls fs) s).1 = (n, [], Some e')) /\
    (exists e', (b_do (BCount key e r ls fs) s).1.2 = Some e');
  law_reads : forall s, (forall key e limit r b ls fs, (b_do (BList key e limit r b ls fs) s).2 = s) /\
    (forall key e r ls fs, (b_do (BCount key e r ls fs) s).2 = s) /\
    (b_do BDbSize s).2 = s /\ (b_do BCurrentRevision s).2 = s
}.

(** A listing is determined by the history, the revision and the range. *)
Lemma is_listing_unique h r key e b l1 l2 :
  is_listing h r key e b l1 -> is_listing h r key e b l2 -> l1 = l2.
Proof.
  assert (Hnd : forall l, StronglySorted str_lt (kvKey <$> l) -> NoDup l).
  { intros l Hs. induction l as [|x l IH]; [constructor|]. inversion Hs as [|?? Hs' Hx]; subst.
    constructor; [|auto]. intros Hin. rewrite Forall_forall in Hx.
    apply (irreflexivity str_lt (kvKey x)), Hx, list_elem_of_fmap. eauto. }
  intros [Hs1 He1] [Hs2 He2].
  assert (Hp : l1 ≡ₚ l2).
  { apply NoDup_Permutation; [by apply Hnd|by apply Hnd|]. intros x. by rewrite He1, He2. }
  clear He1 He2 Hnd. revert l2 Hs2 Hp. induction l1 as [|x l1 IH]; intros l2 Hs2 Hp.
  { by apply Permutation_nil_l in Hp. }
  destruct l2 as [|y l2]; [by apply Permutation_nil_r in Hp|].
  inversion Hs1 as [|?? Hs1' Hx]; subst. inversion Hs2 as [|?? Hs2' Hy]; subst.
  assert (x = y) as ->.
  { assert (Hxy : x ∈ y :: l2) by (rewrite <- Hp; set_solver).
    assert (Hyx : y ∈ x :: l1) by (rewrite Hp; set_solver).
    apply elem_of_cons in Hxy as [?|Hxy]; [done|]. apply elem_of_cons in Hyx as [?|Hyx]; [done|].
    rewrite Forall_forall in Hx, Hy. exfalso. apply (irreflexivity str_lt (kvKey x)).
    trans (kvKey y); [apply Hx|apply Hy]; apply list_elem_of_fmap; eauto. }
  f_equal. apply IH; [done|done|]. by apply Permutation_cons_inv in Hp.
Qed.

Lemma is_listing_strip h r key e b l :
  is_listing h r key e b l -> is_listing h r key e true (strip true <$> l).
Proof.
  intros [Hs He]. split.
  - replace (kvKey <$> (strip true <$> l)) with (kvKey <$> l); [done|].
    rewrite <- list_fmap_compose. by apply list_fmap_ext.
  - intros kv. rewrite list_elem_of_fmap. split.
    + intros (kv' & -> & (kv0 & ? & ? & ->)%He). exists kv0. by destruct b.
    + intros (kv0 & ? & ? & ->). exists (strip b kv0). split; [by destruct b|]. apply He. eauto.
Qed.

Lemma is_listing_length h r key e b b' l l' :
  is_listing h r key e b l -> is_listing h r key e b' l' -> length l = length l'.
Proof.
  intros H1%is_listing_strip H2%is_listing_strip.
  pose proof (f_equal length (is_listing_unique _ _ _ _ _ _ _ H1 H2)) as Hl.
  by rewrite !length_fmap in Hl.
Qed.

Lemma length_limited (limit : Z) (kvs : list KeyValue) : 0 < limit ->
  Z.of_nat (length (limited limit kvs)) = Z.min limit (Z.of_nat (length kvs)).
Proof. intros Hl. unfold limited. rewrite (proj2 (Z.gtb_lt _ _)) by lia. rewrite length_take. lia. Qed.

Lemma is_listing_later a1 l a2 r key e b kvs :
  mvcc_run a1 l a2 -> a_wf a1 -> r <= a_rev a1 ->
  is_listing (a_hist a2) r key e b kvs -> is_listing (a_hist a1) r key e b kvs.
Proof.
  intros Hrun Hwf Hr [Hs He]. split; [done|]. intros kv. rewrite He.
  by setoid_rewrite (mvcc_run_view _ _ _ r _ Hrun Hwf Hr).
Qed.

Lemma listing_pos a r key e b kvs : a_wf a -> is_listing (a_hist a) r key e b kvs ->
  (0 < length kvs)%nat -> 0 < a_rev a.
Proof.
  intros Hwf [_ He] Hlen. destruct kvs as [|kv kvs]; [simpl in Hlen; lia|].
  destruct (proj1 (He kv)) as (kv0 & Hv & _); [set_solver|]. unfold view in Hv.
  destruct (last _) as [w|] eqn:E; [|done].
  apply last_Some_elem_of, elem_of_upto in E as [_ [_ E]%elem_of_hist_of].
  pose proof (wf_bounds _ _ (awf_hist _ Hwf)) as Hb. rewrite Forall_forall in Hb.
  specialize (Hb w E). simpl in Hb. lia.
Qed.

(** Interference moves a driver along runs of the contract. *)
Section laws.
Context {S : Type} {sim : astate -> S -> Prop} `{BackendLaws S sim}.

Lemma env_step_sim a s s' : sim a s -> env_step (E:=bop) s s' ->
  exists l a', mvcc_run a l a' /\ sim a' s'.
Proof.
  intros Hsim [R o Hroom].
  assert (Hone : forall op r a', mvcc_step a op r a' -> sim a' (b_do o s).2 ->
    exists l a', mvcc_run a l a' /\ sim a' (b_do o s).2).
  { intros op r a' Hs Hsim'. exists [(op, r)], a'. split; [|done]. by repeat econstructor. }
  assert (Hid : (b_do o s).2 = s -> exists l a', mvcc_run a l a' /\ sim a' (b_do o s).2).
  { intros ->. exists [], a. split; [constructor|done]. }
  destruct (law_reads s) as (Hl & Hc & Hd & Hr).
  destruct o as [k r b|k v l|k r|key e limit r b ls fs|key e r ls fs|k v r l| | |r].
  - apply Hid. by rewrite (law_get a).
  - destruct (law_create a s k v l Hsim Hroom) as (a' & ? & ?). eauto.
  - destruct (law_delete a s k r Hsim Hroom) as (a' & ? & ?). eauto.
  - apply Hid, Hl.
  - apply Hid, Hc.
  - destruct (law_update a s k v r l Hsim Hroom) as (a' & ? & ?). eauto.
  - by apply Hid.
  - by apply Hid.
  - destruct (law_compact a s r Hsim Hroom) as (a' & ? & ?). eauto.
Qed.

Lemma list_cases a s key e limit rv b : sim a s -> 0 <= rv ->
  (exists n er, (b_do (BList key e limit rv b "" "") s).1 = (n, [], Some er)) \/
  (rev_of a rv <= a_rev a /\
   list_result a key e limit (rev_of a rv) b (b_do (BList key e limit rv b "" "") s).1).
Proof.
  intros Hsim Hrv. destruct (decide (0 < rv /\ (rv < a_compact a \/ a_rev a < rv))) as [[Hp Hbad]|Hgood].
  - left. by apply (law_refuse a s key e limit rv b "" "").
  - right. split; [unfold rev_of; destruct (Z.gtb_spec rv 0); lia|]. apply law_list; [done|]. intros; lia.
Qed.

Lemma mvcc_run_app a l1 a1 l2 a2 : mvcc_run a l1 a1 -> mvcc_run a1 l2 a2 -> mvcc_run a (l1 ++ l2) a2.
Proof. induction 1; simpl; [done|]. intros. econstructor; eauto. Qed.

Lemma env_sim a s s' : sim a s -> rtc (env_step (E:=bop)) s s' -> exists l a', mvcc_run a l a' /\ sim a' s'.
Proof.
  intros Hsim Hr. revert a Hsim. induction Hr as [s|s s1 s2 Hs _ IH]; intros a Hsim.
  { exists [], a. split; [constructor|done]. }
  destruct (env_step_sim _ _ _ Hsim Hs) as (l1 & a1 & Hl1 & Hsim1).
  destruct (IH a1 Hsim1) as (l2 & a2 & Hl2 & Hsim2).
  exists (l1 ++ l2), a2. split; [by eapply mvcc_run_app|done].
Qed.
End laws.

(** ** The in-memory driver keeps the promise *)
Section memory.
Context {M : Type -> Type} `{OrderedMapLaws M}.

Definition memory_do {R} (o : bop R) : ST (Memory M) R :=
  match o with
  | BGet k r b => fun m => (Get m k r b, m)
  | BCreate k v l => Create k v l
  | BDelete k r => Delete k r
  | BList key e limit r b _ _ => fun m => (List m key e limit r b, m)
  | BCount key e r _ _ => fun m => (Count m key e r, m)
  | BUpdate k v r l => Update k v r l
  | BDbSize => fun m => (DbSize m, m)
  | BCurrentRevision => fun m => (CurrentRevision m, m)
  | BCompact r => Compact r
  end.

#[export] Instance memory_backend : Backend (Memory M) := {
  h_do R := memory_do;
  h_room m := currentRevision m < maxInt64
}.

Definition msim (a : astate) (m : Memory M) : Prop := arep a m /\ a_wf a.

Lemma memory_get_law a (m : Memory M) k r b : arep a m -> Get m k r b = get_result a k r b.
Proof.
  intros HR. pose proof HR as (R & Hn & Hc). pose proof (rep_compact _ _ R).
  assert (Hcur : forall k, view (a_hist a) (a_rev a) k = current (a_hist a) k).
  { intros. rewrite Hn. apply view_current, rep_wf, R. }
  unfold get_result. destruct (Z.gtb_spec r 0); [destruct (Z.gtb_spec r (a_rev a))|].
  - unfold Get, List. rewrite <- Hn. by rewrite !(proj2 (Z.gtb_lt _ _)) by lia.
  - destruct (Z.ltb_spec r (a_compact a)).
    + unfold Get, List. rewrite <- Hn, <- Hc. rewrite (proj2 (Z.gtb_lt r 0)) by lia.
      destruct (Z.gtb_spec r (a_rev a)); [lia|]. by rewrite (proj2 (Z.ltb_lt r _)) by lia.
    + rewrite (arep_Get a) by (done || lia). by rewrite (proj2 (Z.gtb_lt r 0)) by lia.
  - rewrite (arep_Get a) by (done || lia). destruct (Z.gtb_spec r 0); [lia|]. by rewrite Hcur.
Qed.

#[export] Instance memory_laws : BackendLaws (Memory M) msim.
Proof.
  split.
  - by intros a m [_ ?].
  - intros a m m' [(_ & Hn & _) _] [(_ & Hn' & _) _]. simpl. by rewrite <- Hn, <- Hn'.
  - intros a m k v l [HR Hwf] Hroom.
    destruct (memory_step a (OCreate k v l) m HR Hroom) as (a' & Hs & HR' & _).
    simpl in *. unfold st_bind, st_ret in *. destruct (Create k v l m) as [[r e] m']. simpl in *.
    exists a'. split; [done|]. split; [done|by eapply mvcc_step_wf].
  - intros a m k v r l [HR Hwf] Hroom.
    destruct (memory_step a (OUpdate k v r l) m HR Hroom) as (a' & Hs & HR' & _).
    simpl in *. unfold st_bind, st_ret in *. destruct (Update k v r l m) as [[[[? ?] ?] ?] m']. simpl in *.
    exists a'. split; [done|]. split; [done|by eapply mvcc_step_wf].
  - intros a m k r [HR Hwf] Hroom.
    destruct (memory_step a (ODelete k r) m HR Hroom) as (a' & Hs & HR' & _).
    simpl in *. unfold st_bind, st_ret in *. destruct (Delete k r m) as [[[[? ?] ?] ?] m']. simpl in *.
    exists a'. split; [done|]. split; [done|by eapply mvcc_step_wf].
  - intros a m r [HR Hwf] Hroom.
    destruct (memory_step a (OCompact r) m HR Hroom) as (a' & Hs & HR' & _).
    simpl in *. unfold st_bind, st_ret in *. destruct (Compact r m) as [[? ?] m']. simpl in *.
    exists a'. split; [done|]. split; [done|by eapply mvcc_step_wf].
  - intros a m k r b [HR _]. simpl. f_equal. by apply memory_get_law.
  - intros a m key e limit r b [(R & Hn & Hc) _] Hr. simpl.
    destruct (List_rep _ m key e limit r b R) as (_ & _ & Hl).
    destruct Hl as [Hl Heq]; [lia|]. exists (listing m key e r b). unfold read_rev, rev_of in *.
    by rewrite Hn.
  - intros a m key e r [(R & Hn & Hc) _] Hr. simpl. unfold Count.
    destruct (List_rep _ m key e 0 r true R) as (_ & _ & Hl).
    destruct Hl as [Hl ->]; [lia|]. exists (listing m key e r true). unfold read_rev, rev_of in *.
    by rewrite Hn.
  - intros a m key e limit r b ls fs [(R & Hn & Hc) _] Hr Hor. simpl. unfold Count.
    rewrite Hn, Hc in Hor.
    destruct (List_rep _ m key e limit r b R) as (H1 & H2 & _).
    destruct (List_rep _ m key e 0 r true R) as (H3 & H4 & _).
    destruct (decide (r > currentRevision m)).
    + rewrite H1, H3 by lia. split; eauto.
    + rewrite H2, H4 by lia. split; eauto.
  - done.
Qed.

(** The abstract state of a driver that has not been compacted. *)
Definition astate_of (m : Memory M) : astate := MkAState (writes m (log m)) (currentRevision m) 0.

Lemma astate_of_sim m : reachable m -> compactRevision m = 0 -> msim (astate_of m) m.
Proof.
  intros (a & HR & Hwf & _)%reachable_arep Hc. pose proof HR as (R & Hn & Hk).
  assert (a = astate_of m) as <-; [|done].
  unfold astate_of. rewrite (rep_log_full _ _ R Hc). destruct a; simpl in *. congruence.
Qed.
End memory.
