(* ===== verification/Server.v ===== *)
(** * The etcd front end: KV requests (pkg/server)

    kv.go, limited.go, create.go, delete.go, update.go, compact.go, put.go,
    get.go and list.go: recognising the transaction shapes the API server
    sends and answering them with backend calls.  The requests and responses
    are the protobuf messages, with the fields the handlers use.  Registering a
    custom resource definition is the argument [RegisterCustomResourceDefinition]. *)
From S2P Require Import Prelude Types GoStrings Prog Backend.

(** ** Messages *)
Inductive Compare_CompareTarget : Type :=
  | Compare_VERSION | Compare_CREATE | Compare_MOD | Compare_VALUE | Compare_LEASE.
Inductive Compare_CompareResult : Type :=
  | Compare_EQUAL | Compare_GREATER | Compare_LESS | Compare_NOT_EQUAL.
Inductive Compare_TargetUnion : Type :=
  | TU_Version (v : Z) | TU_CreateRevision (v : Z) | TU_ModRevision (v : Z)
  | TU_Value (v : string) | TU_Lease (v : Z).

#[export] Instance Compare_CompareTarget_dec : EqDecision Compare_CompareTarget.
Proof. solve_decision. Defined.
#[export] Instance Compare_CompareResult_dec : EqDecision Compare_CompareResult.
Proof. solve_decision. Defined.

Record Compare := MkCompare {
  cmpTarget : Compare_CompareTarget;
  cmpResult : Compare_CompareResult;
  cmpKey : string;
  cmpUnion : Compare_TargetUnion
}.

(** The generated getters: zero when another member of the union is set. *)
Definition GetModRevision (c : Compare) : Z :=
  match cmpUnion c with TU_ModRevision v => v | _ => 0 end.
Definition GetVersion (c : Compare) : Z :=
  match cmpUnion c with TU_Version v => v | _ => 0 end.

Record PutRequest := MkPut {
  putKey : string; putValue : string; putLease : Z;
  putPrevKv : bool; putIgnoreValue : bool; putIgnoreLease : bool
}.

Record RangeRequest := MkRange {
  rngKey : string; rngRangeEnd : string; rngLimit : Z; rngRevision : Z;
  rngSortOrder : Z; rngSortTarget : Z; rngSerializable : bool;
  rngKeysOnly : bool; rngCountOnly : bool;
  rngMinModRevision : Z; rngMaxModRevision : Z;
  rngMinCreateRevision : Z; rngMaxCreateRevision : Z;
  rngLabelSelector : string; rngFieldSelector : string
}.

Record DeleteRangeRequest := MkDeleteRange { delKey : string; delRangeEnd : string; delPrevKv : bool }.

Inductive RequestOp : Type :=
  | RequestRange (r : RangeRequest)
  | RequestPut (r : PutRequest)
  | RequestDeleteRange (r : DeleteRangeRequest)
  | RequestTxn.

Definition GetRequestPut (o : RequestOp) : option PutRequest :=
  match o with RequestPut r => Some r | _ => None end.
Definition GetRequestRange (o : RequestOp) : option RangeRequest :=
  match o with RequestRange r => Some r | _ => None end.
Definition GetRequestDeleteRange (o : RequestOp) : option DeleteRangeRequest :=
  match o with RequestDeleteRange r => Some r | _ => None end.

Record TxnRequest := MkTxn {
  txnCompare : list Compare; txnSuccess : list RequestOp; txnFailure : list RequestOp
}.

(** Responses carry the revision of their header. *)
Record RangeResponse := MkRangeResponse {
  rrHeader : Z; rrKvs : list KeyValue; rrMore : bool; rrCount : Z
}.
Record PutResponse := MkPutResponse { prHeader : Z; prPrevKv : option KeyValue }.
Record DeleteRangeResponse := MkDeleteRangeResponse {
  drHeader : Z; drPrevKvs : list KeyValue; drDeleted : Z
}.
Inductive ResponseOp : Type :=
  | ResponsePut (r : PutResponse)
  | ResponseRange (r : RangeResponse)
  | ResponseDeleteRange (r : DeleteRangeResponse).
Record TxnResponse := MkTxnResponse {
  txHeader : Z; txResponses : list ResponseOp; txSucceeded : bool
}.

(** ** The substitute for the compact revision key (compact.go, kv.go) *)
Definition compactRevKey : string := "compact_rev_key".
Definition compactRevAPI : string := "compact_rev_key_apiserver".

Definition EncodeVersion (version : Z) (value : string) : string :=
  FormatInt version +:+ "|" +:+ value.

Definition DecodeVersion (value : string) : Z * string :=
  match Cut value "|" with
  | Some (ver, val) => ((ParseInt ver).1, val)
  | None => ((ParseInt value).1, "0")
  end.

(** What [toKV] makes of a stored key value. *)
Definition toKV (kv : option KeyValue) : option KeyValue :=
  match kv with
  | None => None
  | Some kv =>
      if String.eqb (kvKey kv) compactRevAPI then
        let (version, value) := DecodeVersion (kvValue kv) in
        Some (MkKeyValue compactRevKey value version (kvCreateRevision kv) (kvModRevision kv) (kvLease kv))
      else Some kv
  end.

Definition toKVs (kvs : list (option KeyValue)) : list KeyValue :=
  match kvs with
  | [] | None :: _ => []
  | _ => omap toKV kvs
  end.

(** ** Recognising transactions *)
Definition isCreate (txn : TxnRequest) : option PutRequest :=
  match txnCompare txn, txnSuccess txn, txnFailure txn with
  | [c], [s], [] =>
      if bool_decide (cmpTarget c = Compare_MOD) && bool_decide (cmpResult c = Compare_EQUAL) &&
         (GetModRevision c =? 0)
      then GetRequestPut s else None
  | _, _, _ => None
  end.

Definition isDelete (txn : TxnRequest) : option (Z * string) :=
  match txnCompare txn, txnSuccess txn, txnFailure txn with
  | [], [s0; s1], [] =>
      match GetRequestRange s0, GetRequestDeleteRange s1 with
      | Some _, Some rng => Some (0, delKey rng)
      | _, _ => None
      end
  | [c], [s], [f] =>
      if bool_decide (cmpTarget c = Compare_MOD) && bool_decide (cmpResult c = Compare_EQUAL) then
        match GetRequestRange f, GetRequestDeleteRange s with
        | Some _, Some rng => Some (GetModRevision c, delKey rng)
        | _, _ => None
        end
      else None
  | _, _, _ => None
  end.

Definition isUpdate (txn : TxnRequest) : option (Z * string * string * Z) :=
  match txnCompare txn, txnSuccess txn, txnFailure txn with
  | [c], [s], [f] =>
      if bool_decide (cmpTarget c = Compare_MOD) && bool_decide (cmpResult c = Compare_EQUAL) then
        match GetRequestPut s, GetRequestRange f with
        | Some put, Some _ => Some (GetModRevision c, cmpKey c, putValue put, putLease put)
        | _, _ => None
        end
      else None
  | _, _, _ => None
  end.

Definition isCompact (txn : TxnRequest) : option (Z * string) :=
  match txnCompare txn, txnSuccess txn, txnFailure txn with
  | [c], [s], [f] =>
      if bool_decide (cmpTarget c = Compare_VERSION) && bool_decide (cmpResult c = Compare_EQUAL) then
        match GetRequestPut s, GetRequestRange f with
        | Some put, Some _ =>
            if String.eqb (cmpKey c) compactRevKey then Some (GetVersion c, putValue put) else None
        | _, _ => None
        end
      else None
  | _, _, _ => None
  end.

(** ** Handlers *)
Abbreviation handler A := (prog bop (option A * gerr)).

Section handlers.
Context (RegisterCustomResourceDefinition : string -> gerr).

Definition crdPrefix : string := "/registry/apiextensions.k8s.io/customresourcedefinitions/".

Definition unsupported (field : string) : gerr := Some (ErrUnsupported field).

Definition create (put : PutRequest) : handler TxnResponse :=
  if putIgnoreLease put then Ret (None, unsupported "ignoreLease")
  else if putIgnoreValue put then Ret (None, unsupported "ignoreValue")
  else if putPrevKv put then Ret (None, unsupported "prevKv")
  else
    '(rev, err) <-! call (BCreate (putKey put) (putValue put) (putLease put));;
    if err_eq err ErrKeyExists then Ret (Some (MkTxnResponse rev [] false), None)
    else if is_err err then Ret (None, err)
    else
      let ok rev := Ret (Some (MkTxnResponse rev [ResponsePut (MkPutResponse rev None)] true), None) in
      if HasPrefix (putKey put) crdPrefix then
        match RegisterCustomResourceDefinition (putValue put) with
        | Some err =>
            '(rev, _, _, delErr) <-! call (BDelete (putKey put) 0);;
            match delErr with
            | Some delErr => Ret (None, Some (ErrJoin [err; delErr]))
            | None => ok rev
            end
        | None => ok rev
        end
      else ok rev.

(** [len(kvs)] of a response, and the response itself. *)
Definition rangeOf (rev : Z) (kvs : list KeyValue) : ResponseOp :=
  ResponseRange (MkRangeResponse rev kvs false (Z.of_nat (length kvs))).

Definition delete (key : string) (revision : Z) : handler TxnResponse :=
  '(rev, kv, ok, err) <-! call (BDelete key revision);;
  if is_err err then Ret (None, err)
  else
    let kvs := toKVs [kv] in
    if negb ok then Ret (Some (MkTxnResponse rev [rangeOf rev kvs] false), None)
    else Ret (Some (MkTxnResponse rev
           [ResponseDeleteRange (MkDeleteRangeResponse rev kvs (Z.of_nat (length kvs)))] true), None).

(** The closure of [update] that runs when a definition cannot be registered:
    the revision it leaves and its error. *)
Definition update_revert (key : string) (rev lease : Z) : prog bop (Z * gerr) :=
  '(_, kv, err) <-! call (BGet key rev false);;
  if is_err err then Ret (rev, err)
  else match kv with
       | None => Panic
       | Some kv =>
           '(rev, _, _, err) <-! call (BUpdate key (kvValue kv) rev lease);;
           Ret (rev, err)
       end.

Definition update (rev : Z) (key value : string) (lease : Z) : handler TxnResponse :=
  '(rev, kv, ok, err) <-!
    (if rev =? 0 then
       '(rev, err) <-! call (BCreate key value lease);;
       if err_eq err ErrKeyExists then
         '(rev, kv, err) <-! call (BGet key rev false);;
         Ret (rev, kv, false, err)
       else Ret (rev, None, true, err)
     else call (BUpdate key value rev lease));;
  if is_err err then Ret (None, err)
  else
    let header := rev in
    if ok then
      let done rev :=
        Ret (Some (MkTxnResponse header [ResponsePut (MkPutResponse rev None)] ok), None) in
      if HasPrefix key crdPrefix then
        match RegisterCustomResourceDefinition value with
        | Some err =>
            '(rev, revErr) <-! update_revert key rev lease;;
            match revErr with
            | Some revErr => Ret (None, Some (ErrJoin [err; revErr]))
            | None => done rev
            end
        | None => done rev
        end
      else done rev
    else Ret (Some (MkTxnResponse header [rangeOf rev (toKVs [kv])] ok), None).

Definition version_of (kv : option KeyValue) : Z * string :=
  match kv with Some kv => DecodeVersion (kvValue kv) | None => (0, "") end.

Definition compact (compareVersion : Z) (value : string) : handler TxnResponse :=
  '(rev, kv, err) <-! call (BGet compactRevAPI 0 false);;
  if is_err err then Ret (None, err)
  else
    let modRev := match kv with Some kv => kvModRevision kv | None => 0 end in
    let '(version, curValue) := version_of kv in
    let failure rev version curValue :=
      Ret (Some (MkTxnResponse rev
        [ResponseRange (MkRangeResponse 0 [MkKeyValue compactRevKey curValue version 0 0 0] false 1)]
        false), None) in
    if compareVersion =? version then
      let value := EncodeVersion (wrap64 (version + 1)) value in
      '(rev, err) <-!
        (if version =? 0 then call (BCreate compactRevAPI value 0)
         else '(rev, _, _, err) <-! call (BUpdate compactRevAPI value modRev 0);; Ret (rev, err));;
      if is_err err then
        '(rev, kv, err) <-! call (BGet compactRevAPI 0 false);;
        if is_err err then Ret (None, err)
        else
          let '(version, curValue) :=
            match kv with Some kv => DecodeVersion (kvValue kv) | None => (version, curValue) end in
          failure rev version curValue
      else Ret (Some (MkTxnResponse rev [] true), None)
    else failure rev version curValue.

Definition Txn (txn : TxnRequest) : handler TxnResponse :=
  match isCreate txn with
  | Some put => create put
  | None =>
  match isDelete txn with
  | Some (rev, key) => delete key rev
  | None =>
  match isUpdate txn with
  | Some (rev, key, value, lease) => update rev key value lease
  | None =>
  match isCompact txn with
  | Some (ver, value) => compact ver value
  | None => Ret (None, Some ErrNotSupported)
  end end end end.

Definition redirect (key : string) : string :=
  if String.eqb key compactRevKey then compactRevAPI else key.

Definition Put (r : PutRequest) : handler PutResponse :=
  if putIgnoreValue r then Ret (None, unsupported "ignoreValue")
  else if putIgnoreLease r then Ret (None, unsupported "ignoreLease")
  else
    let key := redirect (putKey r) in
    let response rev kv err := Ret (Some (MkPutResponse rev (toKV kv)), err) in
    '(rev, err) <-! call (BCreate key (putValue r) (putLease r));;
    if err_eq err ErrKeyExists then
      '(rev, kv, err) <-! call (BGet key rev false);;
      if is_err err then Ret (None, err)
      else
        let kv := if putPrevKv r then kv else None in
        '(rev, _, _, err) <-! call (BUpdate key (putValue r) rev (putLease r));;
        response rev kv err
    else response rev None err.

Definition LimitedServer_get (r : RangeRequest) : handler RangeResponse :=
  if rngLimit r >? 1 then Ret (None, unsupported "limit")
  else
    '(rev, kv, err) <-! call (BGet (redirect (rngKey r)) (rngRevision r) (rngKeysOnly r));;
    Ret (Some (match kv with
               | Some kv => MkRangeResponse rev [kv] false 1
               | None => MkRangeResponse rev [] false 0
               end), err).

Definition LimitedServer_list (r : RangeRequest) : handler RangeResponse :=
  if String.eqb (rngRangeEnd r) "" then Ret (None, Some (ErrOther "invalid range end length of 0"))
  else
    let key := rngKey r in
    let end_ := rngRangeEnd r in
    let ls := rngLabelSelector r in
    let fs := rngFieldSelector r in
    let revision := if rngRevision r >? 0 then rngRevision r else 0 in
    if rngCountOnly r then
      '(rev, count, err) <-! call (BCount key end_ revision ls fs);;
      Ret (Some (MkRangeResponse rev [] false count), err)
    else
      let limit := if rngLimit r >? 0 then wrap64 (rngLimit r + 1) else rngLimit r in
      '(rev, kvs, err) <-! call (BList key end_ limit revision (rngKeysOnly r) ls fs);;
      let count := Z.of_nat (length kvs) in
      if (limit >? 0) && (count >? rngLimit r) then
        let revision := if revision =? 0 then rev else revision in
        '(rev, count, err) <-! call (BCount key end_ revision ls fs);;
        Ret (Some (MkRangeResponse rev (take (Z.to_nat (limit - 1)) kvs) true count), err)
      else Ret (Some (MkRangeResponse rev kvs false count), err).

Definition LimitedServer_Range (r : RangeRequest) : handler RangeResponse :=
  if String.eqb (rngRangeEnd r) "" then LimitedServer_get r else LimitedServer_list r.

Definition LimitedServer_Compact (revision : Z) : handler Z :=
  '(rev, err) <-! call (BCompact revision);; Ret (Some rev, err).

(** ** The bridge (kv.go, maintenance.go, lease.go); its logging is left out *)
Definition Range (r : RangeRequest) : handler RangeResponse :=
  if negb (rngMaxCreateRevision r =? 0) then Ret (None, unsupported "maxCreateRevision")
  else if negb (rngSortOrder r =? 0) then Ret (None, unsupported "sortOrder")
  else if negb (rngSortTarget r =? 0) then Ret (None, unsupported "sortTarget")
  else if rngSerializable r then Ret (None, unsupported "serializable")
  else if negb (rngMinModRevision r =? 0) then Ret (None, unsupported "minModRevision")
  else if negb (rngMinCreateRevision r =? 0) then Ret (None, unsupported "minCreateRevision")
  else if negb (rngMaxModRevision r =? 0) then Ret (None, unsupported "maxModRevision")
  else
    '(resp, err) <-! LimitedServer_Range r;;
    match err, resp with
    | Some _, _ => Ret (None, err)
    | None, Some resp =>
        Ret (Some (MkRangeResponse (rrHeader resp) (toKVs (Some <$> rrKvs resp)) (rrMore resp)
                     (rrCount resp)), None)
    | None, None => Panic
    end.

Definition DeleteRange (r : DeleteRangeRequest) : handler DeleteRangeResponse :=
  Ret (None, unsupported "delete").

Definition Status : handler Z :=
  '(size, err) <-! call BDbSize;;
  if is_err err then Ret (None, err) else Ret (Some size, None).

(** [LeaseGrant]: identifier and time to live of the response. *)
Definition LeaseGrant (TTL : Z) : Z * Z := (TTL, TTL).

End handlers.

(** ** Where a client finds the server (cluster.go) *)
Definition authorityURL (scheme : string) (authority : option string) : string :=
  match authority with
  | None => scheme +:+ "://" +:+ "127.0.0.1:2379"
  | Some authority =>
      if HasPrefix authority "#initially=[" then
        ReplaceAll (TrimSuffix (TrimPrefix authority "#initially=[") "]") ";" ","
      else scheme +:+ "://" +:+ authority
  end.
