(* ===== verification/ServerProofs.v ===== *)
(** * The etcd front end: its transactions are etcd's (proofs)

    Against any driver that keeps the promise of [Backend], and with other
    clients' calls placed between the calls of a handler: every supported
    transaction takes effect at one moment, with the result etcd's compare and
    put, delete or range would give at that moment. *)
From S2P Require Import Prelude Types GoStrings Prog OrderedMap Mvcc MvccSpec Memory MemoryProofs.
From S2P Require Import MemoryTheorems Backend Server.

(** ** Reference semantics on the abstract store *)
Definition mod_rev (o : option KeyValue) : Z := match o with Some kv => kvModRevision kv | None => 0 end.

Definition cur (a : astate) (key : string) : option KeyValue := current (a_hist a) key.

(** A put of the key at a new revision, and nothing else. *)
Definition puts (a : astate) (key value : string) (lease : Z) (a' : astate) (rev : Z) : Prop :=
  exists w, a' = add_write w a /\ wKey w = key /\ wValue w = value /\ wLease w = lease /\
    wDeleted w = false /\ wRev w = rev /\ a_rev a < rev.

Definition put_response (rev : Z) : TxnResponse :=
  MkTxnResponse rev [ResponsePut (MkPutResponse rev None)] true.

Definition range_response (a : astate) (key : string) : TxnResponse :=
  MkTxnResponse (a_rev a) [rangeOf (a_rev a) (toKVs [cur a key])] false.

(** [if mod(key) = rev then put else range]. *)
Definition etcd_update (a : astate) (rev : Z) (key value : string) (lease : Z)
    (resp : TxnResponse) (a' : astate) : Prop :=
  if decide (mod_rev (cur a key) = rev)
  then exists n, puts a key value lease a' n /\ resp = put_response n
  else a' = a /\ resp = range_response a key.

(** [if mod(key) = 0 then put]. *)
Definition etcd_create (a : astate) (key value : string) (lease : Z)
    (resp : TxnResponse) (a' : astate) : Prop :=
  if decide (mod_rev (cur a key) = 0)
  then exists n, puts a key value lease a' n /\ resp = put_response n
  else a' = a /\ resp = MkTxnResponse (a_rev a) [] false.

(** [if mod(key) = rev then delete else range], for [rev <> 0]. *)
Definition etcd_delete (a : astate) (rev : Z) (key : string)
    (resp : TxnResponse) (a' : astate) : Prop :=
  if decide (mod_rev (cur a key) = rev)
  then exists w, a' = add_write w a /\ wKey w = key /\ wDeleted w = true /\ a_rev a < wRev w /\
    resp = MkTxnResponse (wRev w)
      [ResponseDeleteRange (MkDeleteRangeResponse (wRev w) (toKVs [cur a key]) 1)] true
  else a' = a /\ resp = range_response a key.

Section proofs.
Context {S : Type} {sim : astate -> S -> Prop} `{BackendLaws S sim}.
Implicit Types s : S.

(** An execution whose only effect happens at one moment [a1] of its
    duration. *)
Definition takes_effect (a0 : astate) (P : astate -> astate -> Prop) s' : Prop :=
  exists l a1 a2 l' a3, mvcc_run a0 l a1 /\ P a1 a2 /\ mvcc_run a2 l' a3 /\ sim a3 s'.

Lemma cur_pos a key kv : a_wf a -> cur a key = Some kv -> 0 < kvModRevision kv <= a_rev a.
Proof.
  intros Hwf (w & Hw & _ & -> & _)%current_mod. pose proof (wf_bounds _ _ (awf_hist _ Hwf)) as Hb.
  rewrite Forall_forall in Hb. specialize (Hb w Hw). simpl in *. lia.
Qed.

Lemma mod_rev_0 a key : a_wf a -> mod_rev (cur a key) = 0 <-> cur a key = None.
Proof.
  intros Hwf. destruct (cur a key) as [kv|] eqn:E; simpl; [|done].
  pose proof (cur_pos a key kv Hwf E). split; [lia|done].
Qed.

Lemma toKVs_one kv : length (toKVs [Some kv]) = 1%nat.
Proof.
  unfold toKVs. rewrite omap_cons_list. simpl.
  destruct (String.eqb (kvKey kv) compactRevAPI); [by destruct (DecodeVersion _)|done].
Qed.

Lemma puts_cur a key value lease a' n : puts a key value lease a' n ->
  exists kv, cur a' key = Some kv /\ kvValue kv = value /\ kvModRevision kv = n /\ a_rev a' = n /\
    a_rev a < n /\ a_compact a' = a_compact a /\ length (a_hist a') = (length (a_hist a) + 1)%nat.
Proof.
  intros (w & -> & Hk & Hv & _ & Hd & Hr & Hlt). exists (wKV w). unfold cur. simpl.
  rewrite current_snoc, decide_True by done. simpl. rewrite Hd, length_app. done.
Qed.

Lemma get_0 a key : get_result a key 0 false = (a_rev a, cur a key, None).
Proof. unfold get_result, cur. simpl. by destruct (current _ _). Qed.

Lemma get_now a key : a_wf a -> get_result a key (a_rev a) false = (a_rev a, cur a key, None).
Proof.
  intros Hwf. unfold get_result. destruct (Z.gtb_spec (a_rev a) 0).
  - destruct (Z.gtb_spec (a_rev a) (a_rev a)); [lia|].
    destruct (Z.ltb_spec (a_rev a) (a_compact a)); [destruct (awf_compact _ Hwf); lia|].
    rewrite (view_current _ _ _ (awf_hist _ Hwf)). unfold cur. by destruct (current _ _).
  - unfold cur. by destruct (current _ _).
Qed.

(** *** One backend call *)
Lemma exec_call_inv {R A} (o : bop R) (k : R -> prog bop A) s x s' a0 :
  sim a0 s -> exec (pbind (call o) k) s x s' ->
  exists l a1 s1, mvcc_run a0 l a1 /\ sim a1 s1 /\ b_room s1 /\ a_wf a1 /\
    exec (k (b_do o s1).1) (b_do o s1).2 x s'.
Proof.
  intros Hsim (s1 & Henv & Hroom & Hex)%exec_inv.
  destruct (env_sim _ _ _ Hsim Henv) as (l & a1 & Hl & Hs1).
  exists l, a1, s1. split_and!; try done. by eapply law_wf.
Qed.

(** Results of the three writing calls, with the abstract step. *)
Lemma create_cases a s key value lease : sim a s -> b_room s ->
  let x := b_do (BCreate key value lease) s in
  (cur a key = None /\ exists n a', puts a key value lease a' n /\ x.1 = (n, None) /\ sim a' x.2) \/
  (exists kv, cur a key = Some kv /\ x.1 = (a_rev a, Some ErrKeyExists) /\ sim a x.2).
Proof.
  intros Hsim Hroom. destruct (law_create a s key value lease Hsim Hroom) as (a' & Hs & Hsim').
  destruct (b_do (BCreate key value lease) s) as [[n e] s']; simpl in *.
  inversion Hs; subst.
  - left. split; [done|]. exists n, (add_write (MkWrite n key value n 1 prev lease true false) a).
    split_and!; [|done|done]. by eexists.
  - right. eauto.
Qed.

Lemma update_cases a s key value rev lease : sim a s -> b_room s ->
  let x := b_do (BUpdate key value rev lease) s in
  (exists kv n a' kv', cur a key = Some kv /\ kvModRevision kv = rev /\
     puts a key value lease a' n /\ x.1 = (n, kv', true, None) /\ sim a' x.2) \/
  ((forall kv, cur a key = Some kv -> kvModRevision kv <> rev) /\
   x.1 = (a_rev a, cur a key, false, None) /\ sim a x.2).
Proof.
  intros Hsim Hroom. destruct (law_update a s key value rev lease Hsim Hroom) as (a' & Hs & Hsim').
  destruct (b_do (BUpdate key value rev lease) s) as [[[[n kv'] ok] e] s']; simpl in *.
  inversion Hs; subst.
  - left. eexists _, n, _, _. split_and!; [done|done| |done|done]. by eexists.
  - right. unfold cur. split_and!; [congruence|congruence|done].
  - right. unfold cur. split_and!; [congruence|congruence|done].
Qed.

Lemma delete_cases a s key rev : sim a s -> b_room s ->
  let x := b_do (BDelete key rev) s in
  (exists kv w, cur a key = Some kv /\ (rev = 0 \/ kvModRevision kv = rev) /\ wKey w = key /\
     wDeleted w = true /\ a_rev a < wRev w /\ x.1 = (wRev w, Some kv, true, None) /\
     sim (add_write w a) x.2) \/
  ((forall kv, cur a key = Some kv -> rev <> 0 /\ kvModRevision kv <> rev) /\
   x.1 = (a_rev a, cur a key, false, None) /\ sim a x.2).
Proof.
  intros Hsim Hroom. destruct (law_delete a s key rev Hsim Hroom) as (a' & Hs & Hsim').
  destruct (b_do (BDelete key rev) s) as [[[[n kv'] ok] e] s']; simpl in *.
  inversion Hs; subst.
  - left. eexists _, (MkWrite n key _ _ _ _ _ false true). split_and!; done.
  - right. unfold cur. split_and!; [naive_solver congruence|congruence|done].
  - right. unfold cur. split_and!; [congruence|congruence|done].
Qed.

Lemma effect_here a0 l a1 a2 s' (P : astate -> astate -> Prop) :
  mvcc_run a0 l a1 -> P a1 a2 -> sim a2 s' -> takes_effect a0 P s'.
Proof. intros. exists l, a1, a2, [], a2. split_and!; try done. constructor. Qed.

(** *** The handlers *)
Lemma read_back a1 l a2 s key : mvcc_run a1 l a2 -> a_wf a1 -> sim a2 s ->
  0 < a_rev a1 ->
  (b_do (BGet key (a_rev a1) false) s).1 = (a_rev a1, cur a1 key, None) \/
  (b_do (BGet key (a_rev a1) false) s).1 = (a_rev a2, None, Some ErrCompacted).
Proof.
  intros Hrun Hwf Hsim Hpos. rewrite (law_get a2) by done. simpl. unfold get_result.
  destruct (mvcc_run_mono _ _ _ Hrun) as [Hle _].
  rewrite (proj2 (Z.gtb_lt _ _)) by lia. destruct (Z.gtb_spec (a_rev a1) (a_rev a2)); [lia|].
  destruct (a_rev a1 <? a_compact a2); [by right|left].
  rewrite (mvcc_run_view _ _ _ _ _ Hrun) by (done || lia).
  rewrite (view_current _ _ _ (awf_hist _ Hwf)). unfold cur. by destruct (current _ _).
Qed.

Context (reg : string -> gerr).

Lemma create_effect put s s' a0 out :
  sim a0 s -> HasPrefix (putKey put) crdPrefix = false ->
  putIgnoreLease put = false -> putIgnoreValue put = false -> putPrevKv put = false ->
  exec (create reg put) s out s' ->
  exists r, out = Some (Some r, None) /\
    takes_effect a0 (fun a => etcd_create a (putKey put) (putValue put) (putLease put) r) s'.
Proof.
  intros Hsim Hcrd H1 H2 H3. unfold create. rewrite H1, H2, H3, Hcrd. intros Hex.
  destruct (exec_call_inv _ _ _ _ _ a0 Hsim Hex) as (l & a1 & s1 & Hl & Hs1 & Hroom & Hwf & Hk).
  destruct (create_cases a1 s1 (putKey put) (putValue put) (putLease put) Hs1 Hroom)
    as [(Hc & n & a2 & Hp & Hx & Hs2)|(kv & Hc & Hx & Hs2)].
  - rewrite Hx in Hk. simpl in Hk. apply exec_Ret_inv in Hk as [-> ->].
    eexists. split; [done|]. eapply effect_here; [done| |done].
    unfold etcd_create. rewrite Hc. simpl. eauto.
  - rewrite Hx in Hk. simpl in Hk. apply exec_Ret_inv in Hk as [-> ->].
    eexists. split; [done|]. eapply effect_here; [done| |done].
    unfold etcd_create. rewrite decide_False; [done|]. rewrite mod_rev_0 by done. congruence.
Qed.

Lemma delete_effect key rev s s' a0 out : rev <> 0 ->
  sim a0 s -> exec (delete key rev) s out s' ->
  exists r, out = Some (Some r, None) /\ takes_effect a0 (fun a => etcd_delete a rev key r) s'.
Proof.
  intros Hne Hsim Hex. unfold delete in Hex.
  destruct (exec_call_inv _ _ _ _ _ a0 Hsim Hex) as (l & a1 & s1 & Hl & Hs1 & Hroom & Hwf & Hk).
  destruct (delete_cases a1 s1 key rev Hs1 Hroom)
    as [(kv & w & Hc & Hor & Hkey & Hd & Hlt & Hx & Hs2)|(Hc & Hx & Hs2)];
    rewrite Hx in Hk; cbn [is_err negb] in Hk; apply exec_Ret_inv in Hk as [-> ->];
    (eexists; split; [done|]; eapply effect_here; [done| |done]).
  - unfold etcd_delete. rewrite Hc. destruct Hor as [?|Hor]; [done|]. rewrite decide_True by done.
    exists w. split_and!; try done. by rewrite toKVs_one.
  - unfold etcd_delete. rewrite decide_False; [done|]. destruct (cur a1 key) as [kv|] eqn:E; simpl; [|lia].
    by apply Hc.
Qed.

Lemma update_effect rev key value lease s s' a0 out :
  sim a0 s -> HasPrefix key crdPrefix = false -> exec (update reg rev key value lease) s out s' ->
  (exists r, out = Some (Some r, None) /\
     takes_effect a0 (fun a => etcd_update a rev key value lease r) s') \/
  (rev = 0 /\ out = Some (None, Some ErrCompacted) /\ takes_effect a0 (fun a a' => a' = a) s').
Proof.
  intros Hsim Hcrd Hex. unfold update in Hex. rewrite Hcrd in Hex.
  destruct (Z.eqb_spec rev 0) as [->|Hne].
  - cbn [pbind call] in Hex. apply exec_inv in Hex as (s1 & Henv & Hroom & Hk).
    destruct (env_sim _ _ _ Hsim Henv) as (l & a1 & Hl & Hs1).
    assert (Hwf : a_wf a1) by (by eapply law_wf).
    destruct (create_cases a1 s1 key value lease Hs1 Hroom)
      as [(Hc & n & a2 & Hp & Hx & Hs2)|(kv & Hc & Hx & Hs2)]; rewrite Hx in Hk; simpl in Hk.
    + apply exec_Ret_inv in Hk as [-> ->]. left. eexists. split; [done|].
      eapply effect_here; [done| |done]. unfold etcd_update. rewrite Hc. simpl. eauto.
    + apply exec_inv in Hk as (s2 & Henv2 & Hroom2 & Hk).
      destruct (env_sim _ _ _ Hs2 Henv2) as (l2 & a2 & Hl2 & Hs3).
      pose proof (cur_pos _ _ _ Hwf Hc) as Hpos.
      assert (Hst : (b_do (BGet key (a_rev a1) false) s2).2 = s2) by (by rewrite (law_get a2)).
      rewrite Hst in Hk.
      destruct (read_back a1 l2 a2 s2 key Hl2 Hwf Hs3 ltac:(lia)) as [Hg|Hg]; rewrite Hg in Hk;
        simpl in Hk; apply exec_Ret_inv in Hk as [-> ->].
      * left. eexists. split; [done|]. exists l, a1, a1, l2, a2. split_and!; try done.
        unfold etcd_update. rewrite decide_False; [done|]. rewrite mod_rev_0 by done. congruence.
      * right. split_and!; try done. exists l, a1, a1, l2, a2. done.
  - cbn [pbind call] in Hex. apply exec_inv in Hex as (s1 & Henv & Hroom & Hk).
    destruct (env_sim _ _ _ Hsim Henv) as (l & a1 & Hl & Hs1).
    assert (Hwf : a_wf a1) by (by eapply law_wf).
    destruct (update_cases a1 s1 key value rev lease Hs1 Hroom)
      as [(kv & n & a2 & kv' & Hc & Hm & Hp & Hx & Hs2)|(Hc & Hx & Hs2)]; rewrite Hx in Hk;
      simpl in Hk; apply exec_Ret_inv in Hk as [-> ->]; left; (eexists; split; [done|]);
      (eapply effect_here; [done| |done]); unfold etcd_update.
    + rewrite Hc. simpl. rewrite decide_True by done. eauto.
    + rewrite decide_False; [done|]. destruct (cur a1 key) as [kv|] eqn:E; simpl; [by apply Hc|lia].
Qed.

(** *** Recognised shapes *)
Ltac shapes := unfold isCreate, isDelete, isUpdate, isCompact;
  repeat case_match; simplify_eq/=; try done.

Lemma update_shape txn x : isUpdate txn = Some x -> isCreate txn = None /\ isDelete txn = None.
Proof. shapes. all: unfold GetRequestPut, GetRequestDeleteRange, GetRequestRange in *; repeat case_match; simplify_eq; done. Qed.

Lemma delete_shape txn x : isDelete txn = Some x -> isCreate txn = None.
Proof. shapes. all: unfold GetRequestPut, GetRequestDeleteRange, GetRequestRange in *; repeat case_match; simplify_eq; done. Qed.

Lemma compact_shape txn x : isCompact txn = Some x ->
  isCreate txn = None /\ isDelete txn = None /\ isUpdate txn = None.
Proof. shapes. all: destruct_and?; repeat case_bool_decide; simplify_eq; try congruence; done. Qed.
End proofs.
