(* ===== verification/ServerTheorems.v ===== *)
(** * The etcd front end: what it guarantees, and where it differs from etcd *)
From S2P Require Import Prelude Types GoStrings Prog OrderedMap Mvcc MvccSpec Memory MemoryProofs.
From S2P Require Import MemoryTheorems MemoryWatch Backend Server ServerProofs.
From Stdlib Require Import Ascii.

(** The four recognisers are disjoint and [Txn] runs the handler of the one
    that matches; a transaction of any other shape is answered
    [ErrNotSupported] without a backend call. *)
Theorem txn_dispatch reg txn :
  (exists put, isCreate txn = Some put /\ isDelete txn = None /\ isUpdate txn = None /\
     isCompact txn = None /\ Txn reg txn = create reg put) \/
  (exists rev key, isDelete txn = Some (rev, key) /\ isCreate txn = None /\ isUpdate txn = None /\
     isCompact txn = None /\ Txn reg txn = delete key rev) \/
  (exists rev key value lease, isUpdate txn = Some (rev, key, value, lease) /\ isCreate txn = None /\
     isDelete txn = None /\ isCompact txn = None /\ Txn reg txn = update reg rev key value lease) \/
  (exists ver value, isCompact txn = Some (ver, value) /\ isCreate txn = None /\
     isDelete txn = None /\ isUpdate txn = None /\ Txn reg txn = compact ver value) \/
  (isCreate txn = None /\ isDelete txn = None /\ isUpdate txn = None /\ isCompact txn = None /\
     Txn reg txn = Ret (None, Some ErrNotSupported)).
Proof.
  unfold Txn. destruct (isCompact txn) as [[ver value]|] eqn:Hc.
  { destruct (compact_shape _ _ Hc) as (-> & -> & ->). do 3 right. left. eauto 10. }
  destruct (isUpdate txn) as [[[[rev key] value] lease]|] eqn:Hu.
  { destruct (update_shape _ _ Hu) as (-> & ->). do 2 right. left. exists rev, key, value, lease. done. }
  destruct (isDelete txn) as [[rev key]|] eqn:Hd.
  { rewrite (delete_shape _ _ Hd). right. left. eauto 10. }
  destruct (isCreate txn) as [put|]; [left; eauto 10|]. do 4 right. done.
Qed.

Lemma DecodeVersion_EncodeVersion_aux version value :
  int64_ok version -> DecodeVersion (EncodeVersion version value) = (version, value).
Proof.
  intros Hv. unfold DecodeVersion, EncodeVersion.
  change ("|" +:+ value) with (String "|"%char value).
  rewrite (Cut_char _ "|"%char) by (apply FormatInt_no_char; done).
  by rewrite ParseInt_FormatInt.
Qed.

(** Round trip: decoding an encoded version and value gives them back, for
    every 64-bit version and every value, separators in it included. *)
Theorem DecodeVersion_EncodeVersion version value :
  int64_ok version -> DecodeVersion (EncodeVersion version value) = (version, value).
Proof. apply DecodeVersion_EncodeVersion_aux. Qed.

Section theorems.
Context {S : Type} {sim : astate -> S -> Prop} `{BackendLaws S sim}.
Context (reg : string -> gerr).
Implicit Types s : S.

(** Linearizability of creation: a transaction of the create shape, with
    other clients' calls in between, returns without panic and takes effect at
    one moment, at which it does what etcd's [if mod(key) = 0 then put] does
    and answers as etcd does. *)
Theorem txn_create_linearizable a s txn put out s' :
  sim a s -> isCreate txn = Some put -> HasPrefix (putKey put) crdPrefix = false ->
  putIgnoreLease put = false -> putIgnoreValue put = false -> putPrevKv put = false ->
  exec (Txn reg txn) s out s' ->
  exists r, out = Some (Some r, None) /\
    takes_effect (sim:=sim) a
      (fun a1 => etcd_create a1 (putKey put) (putValue put) (putLease put) r) s'.
Proof.
  intros Hsim Hc Hcrd H1 H2 H3. unfold Txn. rewrite Hc. intros Hex. by eapply create_effect.
Qed.

(** Linearizability of conditional deletion at a revision other than 0: the
    transaction takes effect at one moment, as etcd's
    [if mod(key) = rev then delete else range] does. *)
Theorem txn_delete_linearizable a s txn rev key out s' :
  sim a s -> isDelete txn = Some (rev, key) -> rev <> 0 ->
  exec (Txn reg txn) s out s' ->
  exists r, out = Some (Some r, None) /\
    takes_effect (sim:=sim) a (fun a1 => etcd_delete a1 rev key r) s'.
Proof.
  intros Hsim Hd Hne. unfold Txn. rewrite (delete_shape _ _ Hd), Hd. intros Hex. by eapply delete_effect.
Qed.

(** Linearizability of conditional update: the transaction takes effect at
    one moment, as etcd's [if mod(key) = rev then put else range] does, revision
    0 (which the handler turns into a creation followed by a read at the
    revision of the refusal) included; the one other outcome is [ErrCompacted]
    with no effect, when that revision is compacted before the read. *)
Theorem txn_update_linearizable a s txn rev key value lease out s' :
  sim a s -> isUpdate txn = Some (rev, key, value, lease) -> HasPrefix key crdPrefix = false ->
  exec (Txn reg txn) s out s' ->
  (exists r, out = Some (Some r, None) /\
     takes_effect (sim:=sim) a (fun a1 => etcd_update a1 rev key value lease r) s') \/
  (rev = 0 /\ out = Some (None, Some ErrCompacted) /\
     takes_effect (sim:=sim) a (fun a1 a2 => a2 = a1) s').
Proof.
  intros Hsim Hu Hcrd. unfold Txn. destruct (update_shape _ _ Hu) as [-> ->]. rewrite Hu.
  intros Hex. by eapply update_effect.
Qed.

(** A delete transaction that compares the mod revision with 0 deletes an
    existing key (the backend takes revision 0 as "no condition"), where etcd's
    comparison fails and leaves the key. *)
Theorem txn_delete_zero_unconditional a s txn key kv : 
  sim a s -> b_room s -> isDelete txn = Some (0, key) -> cur a key = Some kv ->
  exists r a' s', run (Txn reg txn) s = (Some (Some r, None), s') /\ sim a' s' /\
    cur a' key = None /\ txSucceeded r = true /\ ~ etcd_delete a 0 key r a'.
Proof.
  intros Hsim Hroom Hd Hc. unfold Txn. rewrite (delete_shape _ _ Hd), Hd. unfold delete. simpl.
  destruct (delete_cases a s key 0 Hsim Hroom)
    as [(kv' & w & Hc' & _ & Hkey & Hdel & Hlt & Hx & Hs2)|(Hno & _)];
    [|by destruct (Hno kv Hc)].
  destruct (b_do (BDelete key 0) s) as [xr s1]. simpl in *. subst xr. simpl.
  eexists _, _, _. split_and!; [done|done| |done|].
  - unfold cur. simpl. rewrite current_snoc, decide_True by done. simpl. by rewrite Hdel.
  - unfold etcd_delete. rewrite decide_False.
    + intros [Ha _]. apply (f_equal (fun a => length (a_hist a))) in Ha. simpl in Ha.
      rewrite length_app in Ha. simpl in Ha. lia.
    + rewrite mod_rev_0 by (by eapply law_wf). congruence.
Qed.

(** When a definition is refused by the registry after an update, the
    "revert" reads back the revision that was just written and writes the
    refused value again: the transaction reports success and the refused value
    is the current one. *)
Theorem update_revert_keeps_refused a s key value lease kv e :
  sim a s -> b_room s -> b_room (b_do (BUpdate key value (kvModRevision kv) lease) s).2 ->
  HasPrefix key crdPrefix = true -> reg value = Some e -> cur a key = Some kv ->
  exists r a' s' kv', run (update reg (kvModRevision kv) key value lease) s = (Some (Some r, None), s') /\
    sim a' s' /\ txSucceeded r = true /\ cur a' key = Some kv' /\ kvValue kv' = value /\
    length (a_hist a') = (length (a_hist a) + 2)%nat.
Proof.
  intros Hsim Hroom Hroom1 Hcrd Hreg Hc. assert (Hwf : a_wf a) by by eapply law_wf.
  pose proof (cur_pos _ _ _ Hwf Hc) as Hpos. unfold update. rewrite Hcrd, Hreg.
  destruct (Z.eqb_spec (kvModRevision kv) 0) as [?|_]; [lia|]. simpl.
  destruct (update_cases a s key value (kvModRevision kv) lease Hsim Hroom)
    as [(kv0 & n & a1 & kv1 & Hc0 & _ & Hp & Hx & Hs1)|(Hno & _)]; [|by destruct (Hno _ Hc)].
  destruct (b_do (BUpdate key value (kvModRevision kv) lease) s) as [xr s1]. simpl in *. subst xr. simpl.
  destruct (puts_cur _ _ _ _ _ _ Hp) as (kv2 & Hc2 & Hv2 & Hm2 & Hr2 & _ & _ & Hl2).
  assert (Hwf1 : a_wf a1) by by eapply law_wf.
  rewrite (law_get a1) by done. rewrite <- Hr2, (get_now _ _ Hwf1), Hc2. simpl.
  destruct (update_cases a1 s1 key (kvValue kv2) (a_rev a1) lease Hs1 Hroom1)
    as [(kv3 & n' & a2 & kv4 & Hc3 & _ & Hp' & Hx' & Hs2)|(Hno & _)];
    [|destruct (Hno _ Hc2); congruence].
  destruct (b_do (BUpdate key (kvValue kv2) (a_rev a1) lease) s1) as [xr s2]. simpl in *. subst xr. simpl.
  destruct (puts_cur _ _ _ _ _ _ Hp') as (kv5 & Hc5 & Hv5 & _ & _ & _ & _ & Hl5).
  eexists _, a2, s2, kv5. split_and!; [done|done|done|done|congruence|lia].
Qed.

End theorems.

Section register.
Context {S : Type} {sim : astate -> S -> Prop} `{BackendLaws S sim}.
Implicit Types s : S.

(** ** The versioned register behind the compact revision key *)
Definition stored (a : astate) (version : Z) (value : string) : Prop :=
  match cur a compactRevAPI with
  | None => version = 0 /\ value = ""
  | Some kv => DecodeVersion (kvValue kv) = (version, value) /\ version <> 0
  end.

Lemma stored_version a v cv : stored a v cv -> version_of (cur a compactRevAPI) = (v, cv).
Proof. unfold stored. by destruct (cur a compactRevAPI) as [kv|]; intros [? ?]; subst. Qed.

(** The compact transaction is a compare-and-swap on a register with a
    version: when the compared version is the stored one it stores the value
    under the next version, otherwise it answers the stored version and value
    under the key the client asked for, and changes nothing. *)
Theorem compact_register a s v cv ver value :
  sim a s -> b_room s -> stored a v cv -> 0 <= v < maxInt64 ->
  if decide (ver = v) then
    exists n a' s', run (compact ver value) s = (Some (Some (MkTxnResponse n [] true), None), s') /\
      puts a compactRevAPI (EncodeVersion (v + 1) value) 0 a' n /\ sim a' s' /\
      DecodeVersion (EncodeVersion (v + 1) value) = (v + 1, value)
  else
    run (compact ver value) s = (Some (Some (MkTxnResponse (a_rev a)
      [ResponseRange (MkRangeResponse 0 [MkKeyValue compactRevKey cv v 0 0 0] false 1)] false), None), s).
Proof.
  intros Hsim Hroom Hst Hv. unfold compact. cbn [pbind call run].
  rewrite (law_get a) by done. rewrite get_0. cbn [is_err].
  rewrite (stored_version _ _ _ Hst).
  destruct (decide (ver = v)) as [->|Hne]; [|by rewrite (proj2 (Z.eqb_neq _ _)) by done].
  rewrite Z.eqb_refl.
  assert (Hok : int64_ok (v + 1)) by (unfold int64_ok, minInt64, maxInt64, two63 in *; lia).
  rewrite wrap64_id by done.
  assert (Hdec : DecodeVersion (EncodeVersion (v + 1) value) = (v + 1, value)).
  { by apply DecodeVersion_EncodeVersion_aux. }
  unfold stored in Hst. destruct (cur a compactRevAPI) as [kv|] eqn:Hc; destruct Hst as [Hst Hv0].
  - rewrite (proj2 (Z.eqb_neq _ _)) by done. cbn [pbind call run].
    destruct (update_cases a s compactRevAPI (EncodeVersion (v + 1) value) (kvModRevision kv) 0 Hsim Hroom)
      as [(? & n & a' & ? & _ & _ & Hp & Hx & Hs')|(Hno & _)]; [|by destruct (Hno _ Hc)].
    destruct (b_do (BUpdate _ _ _ _) s) as [xr s']. simpl in *. subst xr. simpl. eauto 10.
  - subst v. cbn [pbind call run Z.eqb].
    destruct (create_cases a s compactRevAPI (EncodeVersion (0 + 1) value) 0 Hsim Hroom)
      as [(_ & n & a' & Hp & Hx & Hs')|(? & Hc' & _)]; [|congruence].
    destruct (b_do (BCreate _ _ _) s) as [xr s']. simpl in *. subst xr. simpl. eauto 10.
Qed.

(** The compact transaction ignores whether its update was applied: when
    another client updates the key between the read and the update, the
    transaction reports success although the other value is stored and its own
    is not. *)
Theorem compact_lost_update a s v cv value other lease kv :
  sim a s -> b_room s -> stored a v cv -> cur a compactRevAPI = Some kv ->
  b_room (b_do (BUpdate compactRevAPI other (kvModRevision kv) lease) s).2 ->
  exists n a' s' kv', exec (compact v value) s (Some (Some (MkTxnResponse n [] true), None)) s' /\
    sim a' s' /\ cur a' compactRevAPI = Some kv' /\ kvValue kv' = other /\
    length (a_hist a') = (length (a_hist a) + 1)%nat.
Proof.
  intros Hsim Hroom Hst Hc Hroom1.
  destruct (update_cases a s compactRevAPI other (kvModRevision kv) lease Hsim Hroom)
    as [(? & n & a1 & ? & _ & _ & Hp & Hx & Hs1)|(Hno & _)]; [|by destruct (Hno _ Hc)].
  destruct (puts_cur _ _ _ _ _ _ Hp) as (kv2 & Hc2 & Hv2 & Hm2 & Hr2 & Hlt & _ & Hl2).
  pose proof (cur_pos _ _ _ (law_wf _ _ Hsim) Hc) as Hpos.
  set (s1 := (b_do (BUpdate compactRevAPI other (kvModRevision kv) lease) s).2) in *.
  set (val := EncodeVersion (wrap64 (v + 1)) value).
  destruct (update_cases a1 s1 compactRevAPI val (kvModRevision kv) 0 Hs1 Hroom1)
    as [(kv3 & ? & ? & ? & Hc3 & Hm3 & _)|(_ & Hx1 & Hs2)]; [exfalso; simplify_eq; lia|].
  exists (a_rev a1), a1, (b_do (BUpdate compactRevAPI val (kvModRevision kv) 0) s1).2, kv2.
  split_and!; try done. unfold compact. cbn [pbind call].
  eapply exec_call; [apply rtc_refl|done|].
  rewrite (law_get a) by done. rewrite get_0. cbn [fst snd is_err].
  rewrite (stored_version _ _ _ Hst), Z.eqb_refl, Hc. fold val.
  unfold stored in Hst. rewrite Hc in Hst. destruct Hst as [_ Hv].
  rewrite (proj2 (Z.eqb_neq _ _)) by done. cbn [pbind call].
  eapply exec_call; [apply rtc_once, (env_call s _ (BUpdate compactRevAPI other (kvModRevision kv) lease)); done|done|].
  fold s1. rewrite Hx1. simpl. constructor.
Qed.

(** ** Put *)
(** [Put] writes a key that does not exist, and a key whose mod revision is
    the store's current revision, and answers the new revision. *)
Theorem put_writes a s r :
  sim a s -> b_room s -> putIgnoreValue r = false -> putIgnoreLease r = false ->
  let key := redirect (putKey r) in
  (forall kv, cur a key = Some kv -> kvModRevision kv = a_rev a) ->
  exists n a' s', run (Put r) s
      = (Some (Some (MkPutResponse n (if putPrevKv r then toKV (cur a key) else None)), None), s') /\
    puts a key (putValue r) (putLease r) a' n /\ sim a' s'.
Proof.
  intros Hsim Hroom H1 H2 key Hkv. unfold Put. rewrite H1, H2. fold key. cbn [pbind call run].
  destruct (create_cases a s key (putValue r) (putLease r) Hsim Hroom)
    as [(Hc & n & a' & Hp & Hx & Hs')|(kv & Hc & Hx & Hs')];
    destruct (b_do (BCreate _ _ _) s) as [xr s1]; simpl in *; subst xr; simpl.
  - rewrite Hc. exists n, a', s1. by destruct (putPrevKv r).
  - pose proof (law_room _ _ _ Hsim Hs' Hroom) as Hroom1.
    rewrite (law_get a) by done. rewrite (get_now _ _ (law_wf _ _ Hsim)). simpl.
    destruct (update_cases a s1 key (putValue r) (a_rev a) (putLease r) Hs' Hroom1)
      as [(kv0 & n & a' & kv1 & _ & _ & Hp & Hx & Hs2)|(Hno & _)]; [|by destruct (Hno _ Hc (Hkv _ Hc))].
    destruct (b_do (BUpdate _ _ _ _) s1) as [xr s2]. simpl in *. subst xr. simpl.
    exists n, a', s2. by destruct (putPrevKv r).
Qed.

(** [Put] on an existing key whose mod revision is not the store's current
    revision writes nothing and reports no error: the handler passes the store
    revision where the key's mod revision is expected, and ignores the refusal. *)
Theorem put_silently_ignored a s r kv :
  sim a s -> b_room s -> putIgnoreValue r = false -> putIgnoreLease r = false ->
  cur a (redirect (putKey r)) = Some kv -> kvModRevision kv <> a_rev a ->
  exists resp s', run (Put r) s = (Some (Some resp, None), s') /\ sim a s'.
Proof.
  intros Hsim Hroom H1 H2 Hc Hne. unfold Put. rewrite H1, H2. set (key := redirect (putKey r)) in *.
  cbn [pbind call run].
  destruct (create_cases a s key (putValue r) (putLease r) Hsim Hroom)
    as [(Hc' & _)|(kv' & _ & Hx & Hs')]; [congruence|].
  destruct (b_do (BCreate _ _ _) s) as [xr s1]; simpl in *; subst xr; simpl.
  pose proof (law_room _ _ _ Hsim Hs' Hroom) as Hroom1.
  rewrite (law_get a) by done. rewrite (get_now _ _ (law_wf _ _ Hsim)). simpl.
  destruct (update_cases a s1 key (putValue r) (a_rev a) (putLease r) Hs' Hroom1)
    as [(kv0 & ? & ? & ? & Hc0 & Hm0 & _)|(_ & Hx & Hs2)]; [congruence|].
  destruct (b_do (BUpdate _ _ _ _) s1) as [xr s2]. simpl in *. subst xr. simpl. eauto.
Qed.
(** ** Pagination *)
(** A count at the revision of an earlier listing counts that listing. *)
Lemma count_snapshot a1 l a2 s2 R key e b kvs :
  mvcc_run a1 l a2 -> a_wf a1 -> sim a2 s2 -> 0 < R <= a_rev a1 ->
  is_listing (a_hist a1) R key e b kvs ->
  (exists er, (b_do (BCount key e R "" "") s2).1.2 = Some er) \/
  (b_do (BCount key e R "" "") s2).1 = (R, Z.of_nat (length kvs), None).
Proof.
  intros Hrun Hwf Hsim HR Hlist. destruct (mvcc_run_mono _ _ _ Hrun) as [Hmono _].
  destruct (decide (R < a_compact a2)).
  - left. apply (law_refuse a2 s2 key e 0 R false "" ""); [done|lia|by left].
  - right. destruct (law_count a2 s2 key e R Hsim ltac:(lia)) as (kvs2 & Hl2 & ->).
    unfold rev_of in *. rewrite (proj2 (Z.gtb_lt R 0)) in * by lia.
    apply (is_listing_later _ _ _ R _ _ _ _ Hrun Hwf (proj2 HR)) in Hl2.
    by rewrite (is_listing_length _ _ _ _ _ _ _ _ Hl2 Hlist).
Qed.

Lemma rev_of_bound a r : (0 < r -> r <= a_rev a) -> 0 < a_rev a -> 0 < rev_of a r <= a_rev a.
Proof. unfold rev_of. destruct (Z.gtb_spec r 0); lia. Qed.

(** Pagination: a list request with a positive limit, with other clients'
    writes between its two backend calls, answers one snapshot: the keys are
    the first [limit] of the range at the answered revision, [More] says
    whether there are others, and [Count] is the number of all of them. *)
Theorem list_page_snapshot a s r resp s' :
  sim a s -> rngRangeEnd r <> "" -> rngCountOnly r = false ->
  rngLabelSelector r = "" -> rngFieldSelector r = "" -> 0 < rngLimit r < maxInt64 ->
  exec (LimitedServer_list r) s (Some (Some resp, None)) s' ->
  exists l a1 kvs, mvcc_run a l a1 /\
    rrHeader resp = rev_of a1 (rngRevision r) /\
    is_listing (a_hist a1) (rrHeader resp) (rngKey r) (rngRangeEnd r) (rngKeysOnly r) kvs /\
    rrKvs resp = take (Z.to_nat (rngLimit r)) kvs /\
    rrMore resp = (Z.of_nat (length kvs) >? rngLimit r) /\
    rrCount resp = Z.of_nat (length kvs).
Proof.
  intros Hsim Hend Hco Hls Hfs Hlim Hex. unfold LimitedServer_list in Hex.
  rewrite (proj2 (String.eqb_neq _ _) Hend), Hco, Hls, Hfs in Hex.
  rewrite (proj2 (Z.gtb_lt (rngLimit r) 0)) in Hex by lia.
  rewrite wrap64_id in Hex by (unfold int64_ok, minInt64, maxInt64, two63 in *; lia).
  set (rv := if rngRevision r >? 0 then rngRevision r else 0) in *.
  assert (Hrv : 0 <= rv) by (unfold rv; destruct (Z.gtb_spec (rngRevision r) 0); lia).
  destruct (exec_call_inv _ _ _ _ _ a Hsim Hex) as (l & a1 & s1 & Hl & Hs1 & Hroom & Hwf & Hk).
  rewrite (proj1 (law_reads s1)) in Hk.
  assert (Hrev : rev_of a1 rv = rev_of a1 (rngRevision r)).
  { unfold rv, rev_of. destruct (rngRevision r >? 0) eqn:E; [by rewrite E|done]. }
  destruct (list_cases a1 s1 (rngKey r) (rngRangeEnd r) (rngLimit r + 1) rv (rngKeysOnly r) Hs1 Hrv)
    as [(n & er & Hr)|(Hle & kvs & Hlist & Hr)]; rewrite Hr in Hk; clear Hr.
  { cbn [length] in Hk. destruct (Z.gtb_spec (Z.of_nat 0) (rngLimit r)); [lia|].
    rewrite andb_false_r in Hk. apply exec_Ret_inv in Hk as [? _]. congruence. }
  rewrite (length_limited (rngLimit r + 1) kvs), (proj2 (Z.gtb_lt (rngLimit r + 1) 0)) in Hk by lia.
  cbn [andb] in Hk. unfold limited in Hk. rewrite (proj2 (Z.gtb_lt (rngLimit r + 1) 0)) in Hk by lia.
  rewrite Hrev in *. set (R := rev_of a1 (rngRevision r)) in *.
  destruct (Z.gtb_spec (Z.min (rngLimit r + 1) (Z.of_nat (length kvs))) (rngLimit r)).
  - assert (HR : (if rv =? 0 then R else rv) = R /\ 0 < R <= a_rev a1).
    { pose proof (listing_pos a1 R _ _ _ kvs Hwf Hlist ltac:(lia)).
      unfold R, rv, rev_of in *. destruct (Z.gtb_spec (rngRevision r) 0); [|done].
      rewrite (proj2 (Z.eqb_neq _ _)) by lia. done. }
    destruct HR as [HR HRb]. rewrite HR in Hk. cbv zeta in Hk.
    destruct (exec_call_inv _ _ _ _ _ a1 Hs1 Hk) as (l2 & a2 & s2 & Hl2 & Hs2 & _ & _ & Hk2).
    destruct (count_snapshot a1 l2 a2 s2 R _ _ _ kvs Hl2 Hwf Hs2 HRb Hlist) as [[er Hr]|Hr].
    { destruct (b_do _ s2) as [[[n c] e0] s3]. simpl in *. subst e0.
      apply exec_Ret_inv in Hk2 as [? _]. congruence. }
    rewrite Hr in Hk2. apply exec_Ret_inv in Hk2 as [Hrr _]. injection Hrr as ->.
    exists l, a1, kvs. simpl. split_and!; try done; [|symmetry; apply Z.gtb_lt; lia].
    rewrite take_take. f_equal. lia.
  - apply exec_Ret_inv in Hk as [Hr _]. injection Hr as ->. exists l, a1, kvs. simpl.
    rewrite !take_ge by lia. split_and!; try done; [|lia].
    destruct (Z.gtb_spec (Z.of_nat (length kvs)) (rngLimit r)); [lia|done].
Qed.
End register.

(** ** Witnesses: the in-memory driver after three writes *)
Definition wa : astate := astate_of w0.
Definition noreg (v : string) : gerr := None.
Definition wcmp (rev : Z) (key : string) : Compare :=
  MkCompare Compare_MOD Compare_EQUAL key (TU_ModRevision rev).
Definition wput (key value : string) : PutRequest := MkPut key value 0 false false false.
Definition wrange (key : string) : RangeRequest :=
  MkRange key "" 0 0 0 0 false false false 0 0 0 0 "" "".

Lemma w0_sim : msim wa w0.
Proof. apply astate_of_sim; [apply w0_reachable|reflexivity]. Qed.

Definition w_create_txn : TxnRequest := MkTxn [wcmp 0 "c"] [RequestPut (wput "c" "v")] [].

Lemma txn_create_linearizable_witness : exists r s',
  takes_effect (sim:=msim) wa (fun a1 => etcd_create a1 "c" "v" 0 r) s'.
Proof.
  destruct (txn_create_linearizable noreg wa w0 w_create_txn (wput "c" "v")
    (Some (Some (put_response 4), None)) (Create "c" "v" 0 w0).2) as (r & _ & Hr).
  - apply w0_sim.
  - reflexivity.
  - reflexivity.
  - reflexivity.
  - reflexivity.
  - reflexivity.
  - eapply exec_call; [apply rtc_refl|reflexivity|apply exec_ret].
  - exists r. eexists. exact Hr.
Defined.

Definition w_delete_txn (rev : Z) : TxnRequest :=
  MkTxn [wcmp rev "a"] [RequestDeleteRange (MkDeleteRange "a" "" false)] [RequestRange (wrange "a")].
Definition w_update_txn : TxnRequest :=
  MkTxn [wcmp 3 "a"] [RequestPut (wput "a" "v")] [RequestRange (wrange "a")].
Definition w_a : KeyValue := MkKeyValue "a" "z" 2 1 3 0.

Lemma txn_delete_linearizable_witness : exists r s',
  takes_effect (sim:=msim) wa (fun a1 => etcd_delete a1 3 "a" r) s'.
Proof.
  destruct (txn_delete_linearizable noreg wa w0 (w_delete_txn 3) 3 "a"
    (Some (Some (MkTxnResponse 4 [ResponseDeleteRange (MkDeleteRangeResponse 4 [w_a] 1)] true), None))
    (Delete "a" 3 w0).2) as (r & _ & Hr).
  - apply w0_sim.
  - reflexivity.
  - discriminate.
  - eapply exec_call; [apply rtc_refl|reflexivity|apply exec_ret].
  - exists r. eexists. exact Hr.
Defined.

Lemma txn_update_linearizable_witness :
  (exists r, Some (Some (put_response 4), None) = Some (Some r, None : gerr) /\
     takes_effect (sim:=msim) wa (fun a1 => etcd_update a1 3 "a" "v" 0 r) (Update "a" "v" 3 0 w0).2) \/
  (3 = 0 /\ Some (Some (put_response 4), None) = Some (None, Some ErrCompacted) /\
     takes_effect (sim:=msim) wa (fun a1 a2 => a2 = a1) (Update "a" "v" 3 0 w0).2).
Proof.
  apply (txn_update_linearizable noreg wa w0 w_update_txn 3 "a" "v" 0).
  - apply w0_sim.
  - reflexivity.
  - reflexivity.
  - eapply exec_call; [apply rtc_refl|reflexivity|apply exec_ret].
Defined.

Lemma txn_delete_zero_unconditional_witness : exists r a' s',
  run (Txn noreg (w_delete_txn 0)) w0 = (Some (Some r, None), s') /\ msim a' s' /\
  cur a' "a" = None /\ txSucceeded r = true /\ ~ etcd_delete wa 0 "a" r a'.
Proof.
  apply (txn_delete_zero_unconditional noreg wa w0 (w_delete_txn 0) "a" w_a).
  - apply w0_sim.
  - reflexivity.
  - reflexivity.
  - vm_compute. reflexivity.
Defined.

(** A store holding a definition, and one holding the compact revision. *)
Definition w_crd : string := crdPrefix +:+ "crontabs".
Definition wcrd : Memory samap := (run_ops [OCreate w_crd "{}" 0] New).2.
Definition wcompact : Memory samap := (run_ops [OCreate compactRevAPI "1|100" 0] New).2.

Lemma wcrd_sim : msim (astate_of wcrd) wcrd.
Proof.
  apply astate_of_sim; [|reflexivity]. exists [OCreate w_crd "{}" 0]. eexists.
  split; [exact (surjective_pairing _)|reflexivity].
Qed.

Lemma wcompact_sim : msim (astate_of wcompact) wcompact.
Proof.
  apply astate_of_sim; [|reflexivity]. exists [OCreate compactRevAPI "1|100" 0]. eexists.
  split; [exact (surjective_pairing _)|reflexivity].
Qed.

Lemma update_revert_keeps_refused_witness : exists r a' s' kv',
  run (update (fun _ => Some (ErrOther "refused")) 1 w_crd "bad" 0) wcrd = (Some (Some r, None), s') /\
  msim a' s' /\ txSucceeded r = true /\ cur a' w_crd = Some kv' /\ kvValue kv' = "bad" /\
  length (a_hist a') = (length (a_hist (astate_of wcrd)) + 2)%nat.
Proof.
  apply (update_revert_keeps_refused (fun _ => Some (ErrOther "refused")) (astate_of wcrd) wcrd
    w_crd "bad" 0 (MkKeyValue w_crd "{}" 1 1 1 0) (ErrOther "refused")).
  - apply wcrd_sim.
  - reflexivity.
  - reflexivity.
  - reflexivity.
  - reflexivity.
  - vm_compute. reflexivity.
Defined.

Lemma compact_register_witness : exists n a' s',
  run (compact 1 "200") wcompact = (Some (Some (MkTxnResponse n [] true), None), s') /\
  puts (astate_of wcompact) compactRevAPI (EncodeVersion (1 + 1) "200") 0 a' n /\ msim a' s' /\
  DecodeVersion (EncodeVersion (1 + 1) "200") = (1 + 1, "200").
Proof.
  apply (compact_register (astate_of wcompact) wcompact 1 "100" 1 "200").
  - apply wcompact_sim.
  - reflexivity.
  - vm_compute. split; [reflexivity|discriminate].
  - split; [discriminate|reflexivity].
Defined.

Lemma compact_lost_update_witness : exists n a' s' kv',
  exec (compact 1 "200") wcompact (Some (Some (MkTxnResponse n [] true), None)) s' /\ msim a' s' /\
  cur a' compactRevAPI = Some kv' /\ kvValue kv' = "2|150" /\
  length (a_hist a') = (length (a_hist (astate_of wcompact)) + 1)%nat.
Proof.
  apply (compact_lost_update (astate_of wcompact) wcompact 1 "100" "200" "2|150" 0
    (MkKeyValue compactRevAPI "1|100" 1 1 1 0)).
  - apply wcompact_sim.
  - reflexivity.
  - vm_compute. split; [reflexivity|discriminate].
  - vm_compute. reflexivity.
  - reflexivity.
Defined.

Lemma put_writes_witness : exists n a' s',
  run (Put (wput "a" "new")) w0 = (Some (Some (MkPutResponse n None), None), s') /\
  puts wa "a" "new" 0 a' n /\ msim a' s'.
Proof.
  apply (put_writes wa w0 (wput "a" "new")).
  - apply w0_sim.
  - reflexivity.
  - reflexivity.
  - reflexivity.
  - intros kv Hkv. vm_compute in Hkv. injection Hkv as <-. reflexivity.
Defined.

Lemma put_silently_ignored_witness : exists resp s',
  run (Put (wput "b" "new")) w0 = (Some (Some resp, None), s') /\ msim wa s'.
Proof.
  apply (put_silently_ignored wa w0 (wput "b" "new") (MkKeyValue "b" "y" 1 2 2 0)).
  - apply w0_sim.
  - reflexivity.
  - reflexivity.
  - reflexivity.
  - vm_compute. reflexivity.
  - vm_compute. discriminate.
Defined.

Definition w_list : RangeRequest := MkRange "a" "z" 1 0 0 0 false false false 0 0 0 0 "" "".

Lemma w_list_results :
  (b_do (BList "a" "z" (wrap64 (1 + 1)) 0 false "" "") w0).1
    = (3, [w_a; MkKeyValue "b" "y" 1 2 2 0], None) /\
  (b_do (BCount "a" "z" 3 "" "") w0).1 = (3, 2, None) /\
  (b_do (BList "a" "z" (wrap64 (1 + 1)) 0 false "" "") w0).2 = w0.
Proof. split; [vm_compute; reflexivity|split; [vm_compute; reflexivity|reflexivity]]. Qed.

Lemma w_list_exec :
  exec (LimitedServer_list w_list) w0 (Some (Some (MkRangeResponse 3 [w_a] true 2), None)) w0.
Proof.
  destruct w_list_results as (H1 & H2 & H3). unfold LimitedServer_list.
  eapply exec_call; [apply rtc_refl|reflexivity|]. unfold w_list. cbn [rngKey rngRangeEnd rngLimit rngRevision
    rngKeysOnly rngLabelSelector rngFieldSelector Z.gtb Z.compare]. rewrite H1.
  eapply exec_call; [apply rtc_refl|reflexivity|]. 
  change (if 0 =? 0 then 3 else 0) with 3. rewrite H3, H2. apply exec_ret.
Qed.

Lemma list_page_snapshot_witness : exists l a1 kvs, mvcc_run wa l a1 /\
  is_listing (a_hist a1) 3 "a" "z" false kvs /\ [w_a] = take 1 kvs.
Proof.
  destruct (list_page_snapshot wa w0 w_list (MkRangeResponse 3 [w_a] true 2) w0)
    as (l & a1 & kvs & Hl & Hr & Hlist & Hk & Hm & Hc).
  - apply w0_sim.
  - discriminate.
  - reflexivity.
  - reflexivity.
  - reflexivity.
  - split; reflexivity.
  - exact w_list_exec.
  - exists l, a1, kvs. split; [exact Hl|]. split; [exact Hlist|exact Hk].
Defined.

Lemma DecodeVersion_EncodeVersion_witness : DecodeVersion (EncodeVersion 12 "a|b") = (12, "a|b").
Proof. apply DecodeVersion_EncodeVersion. split; apply Z.leb_le; reflexivity. Defined.
