(* ===== verification/Watch.v ===== *)
(** * The etcd front end: watches (pkg/server/watch.go)

    One watch stream: the [server] that sends responses, the [watcher] with its
    watches and progress channels, and a goroutine per watch.  The operations
    that run under the watcher's lock are functions; the interleaving of the
    stream's receive loop, the goroutines and the progress tickers is the step
    relation [wstep].  What the backend's channels deliver and whether a send
    on the stream fails is chosen by the environment. *)
From S2P Require Import Prelude Types GoStrings Server.

(** ** Messages *)
Inductive mvccpb_EventType : Type := PUT | DELETE.
Record mvccpb_Event := MkMvccEvent {
  meType : mvccpb_EventType;
  meKv : option KeyValue;
  mePrevKv : option KeyValue
}.

Record WatchResponse := MkWatchResponse {
  wrHeader : Z;
  wrWatchId : Z;
  wrCreated : bool;
  wrCanceled : bool;
  wrCompactRevision : Z;
  wrCancelReason : gerr;
  wrEvents : list mvccpb_Event
}.

Record WatchCreateRequest := MkWatchCreateRequest {
  wcKey : string; wcRangeEnd : string; wcStartRevision : Z; wcProgressNotify : bool; wcWatchId : Z
}.

Definition AutoWatchID : Z := 0.
Definition InvalidWatchID : Z := -1.

Definition toEvent (event : Event) : mvccpb_Event :=
  MkMvccEvent (if evDelete event then DELETE else PUT) (toKV (evKV event))
    (if evCreate event then None else toKV (evPrevKV event)).

Definition toEvents (events : list Event) : list mvccpb_Event := toEvent <$> events.

(** ** Sending: the header revision never goes backwards *)
Record server := MkServer { maxRevision : Z; sent : list WatchResponse }.

Definition set_header (rev : Z) (wr : WatchResponse) : WatchResponse :=
  MkWatchResponse rev (wrWatchId wr) (wrCreated wr) (wrCanceled wr) (wrCompactRevision wr)
    (wrCancelReason wr) (wrEvents wr).

Definition Send (wr : WatchResponse) (s : server) : server :=
  if wrHeader wr >? 0 then
    if wrHeader wr >? maxRevision s then MkServer (wrHeader wr) (sent s ++ [wr])
    else MkServer (maxRevision s) (sent s ++ [set_header (maxRevision s) wr])
  else MkServer (maxRevision s) (sent s ++ [wr]).

(** ** The watcher *)
Record watcher := MkWatcher {
  w_server : server;
  w_watches : gset Z;
  w_progress : gset Z;
  w_notify : bool
}.

Definition set_server (s : server) (w : watcher) : watcher :=
  MkWatcher s (w_watches w) (w_progress w) (w_notify w).

Definition send (wr : WatchResponse) (w : watcher) : watcher := set_server (Send wr (w_server w)) w.

Definition removeWatch (watchID : Z) (w : watcher) : bool * watcher :=
  let progress := w_progress w ∖ {[watchID]} in
  if bool_decide (watchID ∈ w_watches w)
  then (true, MkWatcher (w_server w) (w_watches w ∖ {[watchID]}) progress (w_notify w))
  else (false, MkWatcher (w_server w) (w_watches w) progress (w_notify w)).

Definition Cancel (watchID revision compactRev : Z) (err : gerr) (w : watcher) : watcher :=
  let (known, w) := removeWatch watchID w in
  if negb known then w
  else send (MkWatchResponse revision watchID false true compactRev err []) w.

Definition CancelEarly (currentRevision : Z * gerr) (earlyErr : err) (w : watcher) : watcher :=
  let (rev, err) := currentRevision in
  if is_err err then w
  else send (MkWatchResponse rev InvalidWatchID true true 0 (Some earlyErr) []) w.

(** A watch goroutine: what it was started with, and where it is. *)
Inductive gphase : Type :=
  | GCreated
  | GBackend
  | GLoop (maxRev : Z)
  | GDone.

Record gor := MkGor {
  g_key : string; g_end : string; g_startRevision : Z; g_progress : bool; g_phase : gphase
}.

Definition set_phase (p : gphase) (g : gor) : gor :=
  MkGor (g_key g) (g_end g) (g_startRevision g) (g_progress g) p.

(** [Create] with the next identifier: the request is rejected, or a watch is
    registered and its goroutine started. *)
Definition Create (currentRevision : Z * gerr) (r : WatchCreateRequest) (id : Z) (w : watcher)
  : option gor * watcher :=
  if negb (wcWatchId r =? AutoWatchID) then (None, CancelEarly currentRevision ErrInvalidWatch w)
  else if wcStartRevision r <? 0 then (None, CancelEarly currentRevision ErrCompacted w)
  else
    let progress := if wcProgressNotify r then {[id]} ∪ w_progress w else w_progress w in
    (Some (MkGor (redirect (wcKey r)) (wcRangeEnd r) (wcStartRevision r) (wcProgressNotify r) GCreated),
     MkWatcher (w_server w) ({[id]} ∪ w_watches w) progress (w_notify w)).

Definition Close (w : watcher) : watcher := MkWatcher (w_server w) ∅ ∅ (w_notify w).

Definition Progress (w : watcher) : watcher :=
  MkWatcher (w_server w) (w_watches w) (w_progress w) true.

(** What one round of the loop receives: a progress revision, or the batches
    read without blocking, and whether the channel was found closed. *)
Inductive received : Type :=
  | RProgress (rev : Z)
  | REvents (first : list Event) (more : list (list Event)) (closed : bool).

Definition last_revision (events : list Event) : option Z :=
  match last events with
  | None => Some 0
  | Some e => kvModRevision <$> evKV e
  end.

(** The revision and events of the round; [None] is the nil dereference of an
    event without a key value. *)
Definition round_events (maxRev : Z) (r : received) : option (list Event * Z) :=
  match r with
  | RProgress progressRev => Some ([], if progressRev >=? maxRev then progressRev else 0)
  | REvents first more _ =>
      let events := first ++ concat more in
      rev ← last_revision events; Some (events, rev)
  end.

Definition round (id startRevision maxRev : Z) (r : received)
  : option (option WatchResponse * Z) :=
  '(events, revision) ← round_events maxRev r;
  if negb (revision =? 0) && (match events with [] => true | _ => false end || (revision >=? startRevision))
  then Some (Some (MkWatchResponse revision id false false 0 None (toEvents events)), revision)
  else Some (None, maxRev).

Definition is_closed (r : received) : bool :=
  match r with REvents _ _ closed => closed | RProgress _ => false end.

(** [ProgressAll] after [WaitForSyncTo]: [synced id] tells whether the
    goroutine of [id] is blocked on its progress channel.  The response is sent
    by a goroutine of its own, so it is returned. *)
Definition ProgressAll (currentRevision : Z * gerr) (synced : Z -> bool) (w : watcher)
  : option WatchResponse * watcher :=
  if negb (w_notify w) then (None, w)
  else
    let (rev, err) := currentRevision in
    if is_err err then (None, w)
    else
      let w := MkWatcher (w_server w) (w_watches w) (w_progress w) false in
      if forallb synced (elements (w_progress w))
      then (Some (MkWatchResponse rev InvalidWatchID false false 0 None []), w)
      else (None, w).

(** [ProgressIfSynced]: the goroutines that receive the revision. *)
Definition ProgressIfSynced (currentRevision : Z * gerr) (synced : Z -> bool) (w : watcher)
  : list (Z * Z) :=
  if w_notify w then []
  else
    let (rev, err) := currentRevision in
    if is_err err then []
    else (fun id => (id, rev)) <$> filter (fun id => synced id = true) (elements (w_progress w)).

(** ** One stream *)
Record stream := MkStream {
  st_watcher : watcher;
  st_gors : gmap Z gor;
  st_nextID : Z;
  st_pending : list WatchResponse
}.

Definition stream_init (nextID : Z) : stream :=
  MkStream (MkWatcher (MkServer 0 []) ∅ ∅ false) ∅ nextID [].

Definition on_watcher (f : watcher -> watcher) (s : stream) : stream :=
  MkStream (f (st_watcher s)) (st_gors s) (st_nextID s) (st_pending s).

Definition on_gor (id : Z) (g : gor) (s : stream) : stream :=
  MkStream (st_watcher s) (<[id := g]> (st_gors s)) (st_nextID s) (st_pending s).

Inductive wstep (s : stream) : stream -> Prop :=
  | w_create cr r :
      wstep s (match Create cr r (st_nextID s) (st_watcher s) with
               | (Some g, w) => MkStream w (<[st_nextID s := g]> (st_gors s)) (st_nextID s + 1) (st_pending s)
               | (None, w) => MkStream w (st_gors s) (st_nextID s) (st_pending s)
               end)
  | w_cancel_request id : wstep s (on_watcher (Cancel id 0 0 None) s)
  | w_progress_request : wstep s (on_watcher Progress s)
  | w_progress_all cr synced :
      wstep s (let (resp, w) := ProgressAll cr synced (st_watcher s) in
               MkStream w (st_gors s) (st_nextID s) (st_pending s ++ option_list resp))
  | w_progress_send l1 wr l2 :
      st_pending s = l1 ++ wr :: l2 ->
      wstep s (MkStream (send wr (st_watcher s)) (st_gors s) (st_nextID s) (l1 ++ l2))
  | w_close : wstep s (on_watcher Close s)
  | w_other_stream n : 0 <= n -> wstep s (MkStream (st_watcher s) (st_gors s) (st_nextID s + n) (st_pending s))
  | w_started id g ok err :
      st_gors s !! id = Some g -> g_phase g = GCreated ->
      let s1 := on_watcher (send (MkWatchResponse 0 id true false 0 None [])) s in
      wstep s (if ok : bool then on_gor id (set_phase GBackend g) s1
               else on_watcher (Cancel id 0 0 err) (on_gor id (set_phase GDone g) s1))
  | w_compacted id g cur compactRev :
      st_gors s !! id = Some g -> g_phase g = GBackend -> compactRev <> 0 ->
      wstep s (on_watcher (Cancel id cur compactRev (Some ErrCompacted)) (on_gor id (set_phase GDone g) s))
  | w_watching id g :
      st_gors s !! id = Some g -> g_phase g = GBackend ->
      wstep s (on_gor id (set_phase (GLoop 0) g) s)
  | w_round id g maxRev r resp maxRev' ok err :
      st_gors s !! id = Some g -> g_phase g = GLoop maxRev ->
      (forall rev, r = RProgress rev -> g_progress g = true) ->
      round id (g_startRevision g) maxRev r = Some (resp, maxRev') ->
      let s1 := match resp with
                | Some wr =>
                    let s1 := on_watcher (send wr) s in
                    if ok : bool then s1 else on_watcher (Cancel id 0 0 err) s1
                | None => s
                end in
      let s2 := on_gor id (set_phase (GLoop maxRev') g) s1 in
      wstep s (if is_closed r
               then on_watcher (Cancel id 0 0 err) (on_gor id (set_phase GDone g) s2)
               else s2).
