(* ===== verification/WatchProofs.v ===== *)
(** * The etcd front end: guarantees of a watch stream

    Invariants of every reachable state of a stream, whatever the clients, the
    backend and the tickers do, and the completeness of the forwarding loop. *)
From S2P Require Import Prelude Types GoStrings Server Watch.

(** ** Header revisions *)
Definition headers (s : server) : list Z := filter (fun r => 0 < r) (wrHeader <$> sent s).

Record sinv (s : server) : Prop := {
  sinv_sorted : StronglySorted Z.le (headers s);
  sinv_max : Forall (fun r => r <= maxRevision s) (headers s);
  sinv_pos : 0 <= maxRevision s
}.

Lemma StronglySorted_snoc_Z (l : list Z) x :
  StronglySorted Z.le l -> Forall (fun r => r <= x) l -> StronglySorted Z.le (l ++ [x]).
Proof.
  induction 1 as [|y l Hs IH Hy]; simpl; intros Hall; [repeat constructor|].
  inversion Hall; subst. constructor; [auto|].
  apply Forall_app; split; [done|]. by repeat constructor.
Qed.

Lemma headers_snoc m l wr : headers (MkServer m (l ++ [wr]))
  = headers (MkServer m l) ++ (if decide (0 < wrHeader wr) then [wrHeader wr] else []).
Proof. unfold headers. simpl. rewrite fmap_app, filter_app. simpl. by rewrite filter_cons, filter_nil. Qed.

Lemma Send_sinv wr s : sinv s -> sinv (Send wr s).
Proof.
  destruct s as [m l]. intros [Hs Hm Hp]. unfold Send. simpl in *.
  destruct (Z.gtb_spec (wrHeader wr) 0); [destruct (Z.gtb_spec (wrHeader wr) m)|].
  - split; simpl; [..|lia]; rewrite headers_snoc, decide_True by lia.
    + apply StronglySorted_snoc_Z; [done|]. eapply Forall_impl; [exact Hm|]. simpl; lia.
    + apply Forall_app; split; [|repeat constructor; lia]. eapply Forall_impl; [exact Hm|]. simpl; lia.
  - split; simpl; [..|lia]; rewrite headers_snoc; cbn [set_header wrHeader]; case_decide; rewrite ?app_nil_r;
      try done.
    + by apply StronglySorted_snoc_Z.
    + apply Forall_app; split; [done|]. repeat constructor. lia.
  - split; simpl; [..|lia]; rewrite headers_snoc, decide_False by lia; by rewrite app_nil_r.
Qed.

(** ** Cancellations *)
Definition canceled (id : Z) (wr : WatchResponse) : Prop := wrCanceled wr = true /\ wrWatchId wr = id.
Definition created (id : Z) (wr : WatchResponse) : Prop := wrCreated wr = true /\ wrWatchId wr = id.

#[export] Instance canceled_dec id wr : Decision (canceled id wr).
Proof. unfold canceled. apply _. Defined.
#[export] Instance created_dec id wr : Decision (created id wr).
Proof. unfold created. apply _. Defined.

Definition cancels (id : Z) (s : stream) : nat :=
  length (filter (canceled id) (sent (w_server (st_watcher s)))).
Definition creations (id : Z) (s : stream) : nat :=
  length (filter (created id) (sent (w_server (st_watcher s)))).

Lemma sent_Send wr s : exists h, sent (Send wr s) = sent s ++ [set_header h wr].
Proof.
  unfold Send. repeat case_match; simpl; [exists (wrHeader wr)|exists (maxRevision s)|exists (wrHeader wr)];
    by destruct wr.
Qed.

Lemma count_Send (P : WatchResponse -> Prop) `{!forall x, Decision (P x)} wr s :
  (forall h, P (set_header h wr) <-> P wr) ->
  length (filter P (sent (Send wr s)))
  = (length (filter P (sent s)) + (if decide (P wr) then 1 else 0))%nat.
Proof.
  intros HP. destruct (sent_Send wr s) as [h ->]. rewrite filter_app, length_app.
  rewrite filter_cons, filter_nil. f_equal.
  destruct (decide (P wr)) as [Hp|Hp].
  - rewrite decide_True by by apply HP. done.
  - rewrite decide_False by by rewrite HP. done.
Qed.

(** The state of one identifier: not yet used; registered, with no
    cancellation sent; or removed, with at most one. *)
Record idinv (s : stream) (id : Z) : Prop := {
  id_new : st_nextID s <= id -> st_gors s !! id = None /\ (id ∉ w_watches (st_watcher s)) /\
    cancels id s = 0%nat /\ creations id s = 0%nat;
  id_live : id ∈ w_watches (st_watcher s) -> cancels id s = 0%nat;
  id_once : (cancels id s <= 1)%nat;
  id_created : (creations id s <= 1)%nat;
  id_phase : forall g, st_gors s !! id = Some g -> g_phase g = GCreated -> creations id s = 0%nat
}.

Record stinv (s : stream) : Prop := {
  st_server : sinv (w_server (st_watcher s));
  st_next : 0 < st_nextID s;
  st_pend : Forall (fun wr => wrCanceled wr = false /\ wrCreated wr = false) (st_pending s);
  st_ids : forall id, 0 < id -> idinv s id
}.

Lemma idinv_same s s' id :
  st_nextID s <= st_nextID s' -> st_gors s' !! id = st_gors s !! id ->
  (id ∈ w_watches (st_watcher s') -> id ∈ w_watches (st_watcher s)) ->
  cancels id s' = cancels id s -> creations id s' = creations id s ->
  idinv s id -> idinv s' id.
Proof.
  intros Hn Hg Hw Hc Hcr [H1 H2 H3 H4 H5]. split; rewrite ?Hg, ?Hc, ?Hcr; auto.
  intros Hle. destruct H1 as (? & ? & ? & ?); [lia|]. split_and!; auto.
Qed.

#[local] Arguments Send : simpl never.

Lemma cancels_send wr w id : 
  length (filter (canceled id) (sent (w_server (send wr w))))
  = (length (filter (canceled id) (sent (w_server w))) + (if decide (canceled id wr) then 1 else 0))%nat.
Proof. apply count_Send. intros h. by destruct wr. Qed.

Lemma creations_send wr w id : 
  length (filter (created id) (sent (w_server (send wr w))))
  = (length (filter (created id) (sent (w_server w))) + (if decide (created id wr) then 1 else 0))%nat.
Proof. apply count_Send. intros h. by destruct wr. Qed.

(** Sending a response that is neither a creation nor a cancellation. *)
Lemma stinv_send wr s :
  stinv s -> (forall id, 0 < id -> ~ canceled id wr /\ ~ created id wr) ->
  stinv (on_watcher (send wr) s).
Proof.
  intros [Hs Hn Hp Hi] Hwr. split; simpl; [by apply Send_sinv|done|done|].
  intros id Hid. destruct (Hwr id Hid). apply (idinv_same s); auto; simpl; try lia.
  - unfold cancels. simpl. rewrite (cancels_send wr (st_watcher s)), decide_False by done. lia.
  - unfold creations. simpl. rewrite (creations_send wr (st_watcher s)), decide_False by done. lia.
Qed.

Lemma stinv_gor id g0 g s : stinv s -> st_gors s !! id = Some g0 -> g_phase g <> GCreated ->
  stinv (on_gor id g s).
Proof.
  intros [Hs Hn Hp Hi] Hg0 Hg. split; simpl; [done|done|done|].
  intros id' Hid'. destruct (Hi id' Hid') as [H1 H2 H3 H4 H5].
  split; simpl; [|exact H2|exact H3|exact H4|].
  - intros Hle. destruct (H1 Hle) as (Hnone & ? & ? & ?). rewrite lookup_insert_ne by congruence. done.
  - intros g'. destruct (decide (id = id')) as [->|].
    + rewrite lookup_insert_eq. intros [= <-] ?. done.
    + rewrite lookup_insert_ne by done. apply H5.
Qed.

Lemma stinv_cancel id rev crev err s : stinv s -> stinv (on_watcher (Cancel id rev crev err) s).
Proof.
  intros [Hs Hn Hp Hi]. unfold on_watcher, Cancel, removeWatch.
  case_bool_decide as Hin; simpl.
  - split; simpl; [by apply Send_sinv|done|done|]. intros id' Hid'.
    destruct (Hi id' Hid') as [H1 H2 H3 H4 H5]. unfold cancels, creations in *. simpl in *.
    pose (wr := MkWatchResponse rev id false true crev err []).
    assert (Hcr : length (filter (created id') (sent (Send wr (w_server (st_watcher s)))))
      = length (filter (created id') (sent (w_server (st_watcher s))))).
    { rewrite count_Send by done. rewrite decide_False by (by intros [? _]). lia. }
    assert (Hca : length (filter (canceled id') (sent (Send wr (w_server (st_watcher s)))))
      = (length (filter (canceled id') (sent (w_server (st_watcher s)))) + (if decide (id = id') then 1 else 0))%nat).
    { rewrite count_Send by done. f_equal. unfold canceled. simpl. repeat case_decide; naive_solver. }
    split; unfold cancels, creations; simpl; fold wr; rewrite ?Hcr, ?Hca.
    + intros Hle. destruct (H1 Hle) as (? & Hnw & ? & ?). case_decide; [congruence|].
      split_and!; [done|set_solver|lia|done].
    + intros Hw. case_decide; [set_solver|]. rewrite H2 by set_solver. done.
    + case_decide; [|lia]. subst. rewrite (H2 Hin). lia.
    + done.
    + done.
  - split; simpl; [done|done|done|]. intros id' Hid'. apply (idinv_same s); auto; simpl; lia.
Qed.

Lemma stinv_watcher w' s : stinv s -> w_server w' = w_server (st_watcher s) ->
  w_watches w' ⊆ w_watches (st_watcher s) -> stinv (on_watcher (fun _ => w') s).
Proof.
  intros [Hs Hn Hp Hi] Hsrv Hw. split; simpl; [by rewrite Hsrv|done|done|].
  intros id Hid. apply (idinv_same s); auto; simpl; try lia; unfold cancels, creations; simpl; by rewrite Hsrv.
Qed.

Lemma stinv_pending l s : stinv s ->
  Forall (fun wr => wrCanceled wr = false /\ wrCreated wr = false) l ->
  stinv (MkStream (st_watcher s) (st_gors s) (st_nextID s) l).
Proof.
  intros [Hs Hn Hp Hi] Hl. split; simpl; [done|done|done|].
  intros id Hid. apply (idinv_same s); auto; simpl; lia.
Qed.

Lemma stinv_round_resp id start maxRev r resp maxRev' : round id start maxRev r = Some (Some resp, maxRev') ->
  forall id', ~ canceled id' resp /\ ~ created id' resp.
Proof.
  unfold round. destruct (round_events maxRev r) as [[events revision]|]; simpl; [|done].
  case_match; intros; simplify_eq. split; by intros [? _].
Qed.

Lemma stinv_create cr r s : stinv s ->
  stinv (match Create cr r (st_nextID s) (st_watcher s) with
         | (Some g, w) => MkStream w (<[st_nextID s := g]> (st_gors s)) (st_nextID s + 1) (st_pending s)
         | (None, w) => MkStream w (st_gors s) (st_nextID s) (st_pending s)
         end).
Proof.
  intros Hst. unfold Create.
  assert (Hearly : forall e, stinv (MkStream (CancelEarly cr e (st_watcher s)) (st_gors s)
    (st_nextID s) (st_pending s))).
  { intros e. unfold CancelEarly. destruct cr as [rev er]. destruct (is_err er).
    - by destruct s.
    - apply (stinv_send _ s Hst). intros id Hid. split; intros [_ Hbad]; simpl in Hbad;
        unfold InvalidWatchID in Hbad; lia. }
  repeat case_match; simplify_eq; try apply Hearly.
  all: destruct Hst as [Hs Hn Hp Hi]; split; simpl; [done|lia|done|].
  all: intros id Hid; destruct (Hi id Hid) as [I1 I2 I3 I4 I5]; split; simpl; try done.
  all: try (intros Hle; destruct I1 as (? & ? & ? & ?); [lia|]; rewrite lookup_insert_ne by lia;
    split_and!; [done|set_solver by lia|done|done]).
  all: try (intros [Heq%elem_of_singleton|Hw]%elem_of_union; [|by apply I2];
    destruct I1 as (_ & _ & Hz & _); [lia|exact Hz]).
  all: intros g'; destruct (decide (st_nextID s = id)) as [Heq|];
    [intros _ _; destruct I1 as (_ & _ & _ & Hz); [lia|exact Hz]|rewrite lookup_insert_ne by done; apply I5].
Qed.

Lemma stinv_started id g s : stinv s -> st_gors s !! id = Some g -> g_phase g = GCreated ->
  forall p, p <> GCreated ->
  stinv (on_gor id (set_phase p g) (on_watcher (send (MkWatchResponse 0 id true false 0 None [])) s)).
Proof.
  intros [Hs Hn Hp Hi] Hg Hph p Hne. set (wr := MkWatchResponse 0 id true false 0 None []).
  set (s' := on_gor _ _ _).
  assert (Hsrv : w_server (st_watcher s') = Send wr (w_server (st_watcher s))) by done.
  assert (Hw' : w_watches (st_watcher s') = w_watches (st_watcher s)) by done.
  assert (Hg' : st_gors s' = <[id := set_phase p g]> (st_gors s)) by done.
  assert (Hn' : st_nextID s' = st_nextID s) by done.
  split; [rewrite Hsrv; by apply Send_sinv|by rewrite Hn'|done|].
  intros id' Hid'. destruct (Hi id' Hid') as [H1 H2 H3 H4 H5].
  assert (Hca : cancels id' s' = cancels id' s).
  { unfold cancels. rewrite Hsrv, count_Send by done.
    rewrite decide_False by (by intros [? _]). lia. }
  assert (Hcr : creations id' s' = (creations id' s + (if decide (id = id') then 1 else 0))%nat).
  { unfold creations. rewrite Hsrv, count_Send by done. f_equal. unfold created. simpl.
    repeat case_decide; naive_solver. }
  clearbody s'. split; rewrite ?Hn', ?Hg', ?Hw', ?Hca, ?Hcr; try done.
  - intros Hle. destruct (H1 Hle) as (Hnone & ? & ? & ?).
    assert (id <> id') by congruence. rewrite decide_False by done.
    rewrite lookup_insert_ne by done. split_and!; [done|done|done|lia].
  - case_decide; [|lia]. subst. rewrite (H5 g Hg Hph). lia.
  - intros g'. case_decide; [subst; rewrite lookup_insert_eq; by intros [= <-]|].
    rewrite lookup_insert_ne by done. intros ? ?. rewrite (H5 g') by done. done.
Qed.

Lemma stinv_step s s' : stinv s -> wstep s s' -> stinv s'.
Proof.
  intros Hst Hstep. destruct Hstep as [cr r|id| |cr synced|l1 wr l2 Hp| |n Hn|id g ok err Hg Hph s1
    |id g cur crev Hg Hph Hne|id g Hg Hph|id g maxRev r resp maxRev' ok err Hg Hph Hpr Hr s1 s2].
  - by apply stinv_create.
  - by apply stinv_cancel.
  - by apply (stinv_watcher _ s Hst).
  - unfold ProgressAll. repeat case_match; simplify_eq; simpl; rewrite ?app_nil_r; try (by destruct s).
    + apply (stinv_pending _ (on_watcher (fun _ => _) s)); [by apply (stinv_watcher _ s Hst)|].
      apply Forall_app; split; [apply (st_pend _ Hst)|]. by repeat constructor.
    + by apply (stinv_watcher _ s Hst).
  - pose proof (st_pend _ Hst) as Hpd. rewrite Hp in Hpd. apply Forall_app in Hpd as [Hp1 Hp2].
    inversion Hp2 as [|?? [Hc1 Hc2] Hp3]; subst.
    apply (stinv_pending _ (on_watcher (send wr) s)); [|by apply Forall_app].
    apply stinv_send; [done|]. intros id Hid. split; intros [? _]; congruence.
  - apply (stinv_watcher _ s Hst); [done|set_solver].
  - destruct Hst as [A1 A2 A3 A4]. split; simpl; [done|lia|done|].
    intros id Hid. apply (idinv_same s); auto; simpl; lia.
  - unfold s1. destruct ok.
    + by apply stinv_started.
    + by apply stinv_cancel, stinv_started.
  - apply stinv_cancel. by eapply stinv_gor.
  - by eapply stinv_gor.
  - assert (Hs1 : stinv s1 /\ st_gors s1 = st_gors s).
    { unfold s1. destruct resp as [wr|]; [|done].
      assert (stinv (on_watcher (send wr) s)).
      { apply stinv_send; [done|]. intros. by eapply stinv_round_resp. }
      destruct ok; split; try done. by apply stinv_cancel. }
    destruct Hs1 as [Hs1 Hgs].
    assert (Hs2 : stinv s2) by (eapply stinv_gor; [done|by rewrite Hgs|done]).
    destruct (is_closed r); [|done]. apply stinv_cancel.
    eapply stinv_gor; [done|simpl; apply lookup_insert_eq|done].
Qed.

Lemma stinv_init n : 0 < n -> stinv (stream_init n).
Proof.
  intros Hn. split; simpl; [|done|done|].
  - split; simpl; [constructor|constructor|lia].
  - intros id Hid. split; simpl; try done; unfold cancels, creations; simpl; try lia; set_solver.
Qed.

Lemma stinv_reach n s : 0 < n -> rtc wstep (stream_init n) s -> stinv s.
Proof.
  intros Hn Hr. assert (Hi := stinv_init n Hn). revert Hi.
  induction Hr as [|s0 s1 s2 Hs _ IH]; [done|]. intros Hi. apply IH. by eapply stinv_step.
Qed.

(** The positive header revisions a watch stream sends, watches, progress
    notifications and cancellations of all its goroutines together, never
    decrease, whatever order the goroutines send in. *)
Theorem stream_headers_monotone n s : 0 < n -> rtc wstep (stream_init n) s ->
  StronglySorted Z.le (headers (w_server (st_watcher s))).
Proof. intros Hn Hr. apply sinv_sorted, st_server. by eapply stinv_reach. Qed.

(** Each watch identifier is announced at most once and canceled at most
    once, although the client, a failed send, a compacted start and the end of
    the backend's channel all cancel, and a watch that is still registered has
    not been canceled. *)
Theorem stream_cancel_once n s id : 0 < n -> rtc wstep (stream_init n) s -> 0 < id ->
  (cancels id s <= 1)%nat /\ (creations id s <= 1)%nat /\
  (id ∈ w_watches (st_watcher s) -> cancels id s = 0%nat).
Proof.
  intros Hn Hr Hid. destruct (st_ids _ (stinv_reach n s Hn Hr) id Hid) as [_ H2 H3 H4 _]. auto.
Qed.

(** ** The forwarding loop *)
Fixpoint rounds (id startRevision maxRev : Z) (rs : list received) : option (list WatchResponse * Z) :=
  match rs with
  | [] => Some ([], maxRev)
  | r :: rs =>
      '(resp, maxRev) ← round id startRevision maxRev r;
      '(resps, maxRev) ← rounds id startRevision maxRev rs;
      Some (option_list resp ++ resps, maxRev)
  end.

Definition events_of (r : received) : list Event :=
  match r with RProgress _ => [] | REvents first more _ => first ++ concat more end.

(** What the backend promises of a batch: the last event is not older than the
    start revision. *)
Definition batch_ok (startRevision : Z) (r : received) : Prop :=
  match last (events_of r) with
  | None => True
  | Some e => exists kv, evKV e = Some kv /\ kvModRevision kv <> 0 /\ startRevision <= kvModRevision kv
  end.

Lemma round_forwards id start maxRev r : batch_ok start r ->
  exists resp maxRev', round id start maxRev r = Some (resp, maxRev') /\
    concat (wrEvents <$> option_list resp) = toEvents (events_of r).
Proof.
  intros Hb. unfold round, batch_ok in *. destruct r as [rev|first more closed]; simpl in *.
  - destruct (rev >=? maxRev); simpl.
    + destruct (negb (rev =? 0)); simpl; eauto.
    + eauto.
  - unfold last_revision. destruct (last (first ++ concat more)) as [e|] eqn:El; simpl.
    + destruct Hb as (kv & -> & Hne & Hle). simpl.
      rewrite (proj2 (Z.eqb_neq _ _) Hne). rewrite (proj2 (Z.geb_le _ _)) by lia.
      rewrite orb_true_r. simpl. eexists _, _. split; [done|]. simpl. by rewrite app_nil_r.
    + apply last_None in El. rewrite El. simpl. eauto.
Qed.

(** A watch goroutine forwards every event the backend delivers, once, in
    order and without a panic, however the batches and progress requests
    interleave, provided no batch ends below the start revision. *)
Theorem watch_forwards_all id start maxRev rs : Forall (batch_ok start) rs ->
  exists resps maxRev', rounds id start maxRev rs = Some (resps, maxRev') /\
    concat (wrEvents <$> resps) = toEvents (concat (events_of <$> rs)).
Proof.
  intros Hok. revert maxRev. induction Hok as [|r rs Hr _ IH]; intros maxRev; simpl; [eauto|].
  destruct (round_forwards id start maxRev r Hr) as (resp & mr & -> & He). simpl.
  destruct (IH mr) as (resps & mr' & -> & Hes). simpl. eexists _, _. split; [done|].
  unfold toEvents in *. by rewrite fmap_app, concat_app, He, Hes, fmap_app.
Qed.

(** ** Witnesses *)
Definition w_req : WatchCreateRequest := MkWatchCreateRequest "a" "" 0 true 0.
Definition w_stream : stream :=
  let s1 := match Create (0, None) w_req 1 (st_watcher (stream_init 1)) with
            | (Some g, w) => MkStream w (<[1 := g]> ∅) 2 []
            | (None, w) => MkStream w ∅ 1 []
            end in
  on_watcher (Cancel 1 0 0 None) s1.

Lemma w_stream_run : rtc wstep (stream_init 1) w_stream.
Proof.
  eapply rtc_l; [exact (w_create (stream_init 1) (0, None) w_req)|].
  eapply rtc_l; [exact (w_cancel_request _ 1)|]. apply rtc_refl.
Qed.

Lemma stream_headers_monotone_witness : StronglySorted Z.le (headers (w_server (st_watcher w_stream))).
Proof. apply (stream_headers_monotone 1 w_stream); [reflexivity|exact w_stream_run]. Defined.

Lemma stream_cancel_once_witness : cancels 1 w_stream = 1%nat /\ (cancels 1 w_stream <= 1)%nat.
Proof.
  split; [vm_compute; reflexivity|].
  apply (stream_cancel_once 1 w_stream 1); [reflexivity|exact w_stream_run|reflexivity].
Defined.

Definition w_event (k : string) (rev : Z) : Event :=
  MkEvent false true (Some (MkKeyValue k "v" 1 rev rev 0)) None.

Lemma watch_forwards_all_witness : exists resps maxRev',
  rounds 1 2 0 [REvents [w_event "a" 2] [[w_event "b" 3]] false; RProgress 3; REvents [] [] true]
    = Some (resps, maxRev') /\
  concat (wrEvents <$> resps) = toEvents [w_event "a" 2; w_event "b" 3].
Proof.
  apply (watch_forwards_all 1 2 0
    [REvents [w_event "a" 2] [[w_event "b" 3]] false; RProgress 3; REvents [] [] true]).
  constructor; [|constructor; [exact I|constructor; [exact I|constructor]]].
  exists (MkKeyValue "b" "v" 1 3 3 0). split; [reflexivity|]. split; [discriminate|].
  intros Hc. discriminate Hc.
Defined.
