(* ===== verification/Sql.v ===== *)
(** * The SQL dialect (pkg/drivers/generic/generic.go, sqlite.go)

    The table [kine], the meaning of each SQL statement of the dialect on it,
    and the dialect's methods.  A table is a list of rows in ascending order of
    [id] with the sequence new ids are drawn from; the unique index on
    [(name, prev_revision)] is the test of [insert_row].  Collation is byte-wise.
    [Insert] is given what the decoder says of the value.  The label, field and
    owner tables and the [uid] column are in [SqlMeta], the clauses of selectors
    in [Selectors] and [SelectList].  Transport errors
    are left out here; the attempts of a statement are in [SqlOpen]. *)
From S2P Require Import Prelude Types GoStrings.

Record row := MkRow {
  r_id : Z;
  r_name : string;
  r_created : bool;
  r_deleted : bool;
  r_create_revision : Z;
  r_prev_revision : Z;
  r_lease : Z;
  r_value : string;
  r_old_value : string
}.

#[export] Instance row_eq_dec : EqDecision row.
Proof. solve_decision. Defined.

Record table := MkTable { rows : list row; seq : Z }.

Definition compact_rev_key : string := "compact_rev_key".

(** ** Aggregates and clauses *)
Definition sql_max (l : list Z) : option Z :=
  fold_right (fun x acc => Some match acc with Some y => Z.max x y | None => x end) None l.

Definition CurrentRevSQL (t : table) : option Z := sql_max (r_id <$> rows t).

Definition CompactRevSQL (t : table) : option Z :=
  sql_max (r_prev_revision <$> filter (fun r => r_name r = compact_rev_key) (rows t)).

(** [WHERE] clauses on the name. *)
Definition BetweenName (key end_ : string) (r : row) : bool :=
  negb (String.ltb (r_name r) key) && String.ltb (r_name r) end_.
Definition EqualsName (key : string) (r : row) : bool := String.eqb (r_name r) key.
Definition id_le (revision : Z) (r : row) : bool := r_id r <=? revision.

(** [id IN (SELECT MAX(id) ... WHERE c GROUP BY name)]. *)
Definition group_max (t : table) (c : row -> bool) (r : row) : bool :=
  c r && forallb (fun r' => negb (c r' && String.eqb (r_name r') (r_name r)) || (r_id r' <=? r_id r)) (rows t).

(** [ORDER BY name ASC]. *)
Fixpoint insert_by_name (r : row) (l : list row) : list row :=
  match l with
  | [] => [r]
  | r' :: l' => if String.ltb (r_name r') (r_name r) then r' :: insert_by_name r l' else r :: r' :: l'
  end.
Definition order_by_name (l : list row) : list row := fold_right insert_by_name [] l.

Definition LIMIT {A} (limit : Z) (l : list A) : list A :=
  if limit >? 0 then take (Z.to_nat limit) l else l.

(** A row of a result: current and compact revision, then the columns. *)
Definition qrow : Type := option Z * option Z * row.
Definition with_revs (t : table) (l : list row) : list qrow :=
  (fun r => (CurrentRevSQL t, CompactRevSQL t, r)) <$> l.

Definition not_deleted (includeDeleted : bool) (r : row) : bool := negb (r_deleted r) || includeDeleted.

(** [ListFmt] over a name clause. *)
Definition ListSQL (t : table) (c : row -> bool) (includeDeleted : bool) (limit : Z) : list qrow :=
  with_revs t (LIMIT limit (order_by_name
    (filter (fun r => group_max t c r && not_deleted includeDeleted r = true) (rows t)))).

(** [GetSingle]: at most one row, without a limit clause. *)
Definition GetSingleSQL (t : table) (key : string) (includeDeleted : bool) : list qrow :=
  with_revs t
    (filter (fun r => group_max t (EqualsName key) r && not_deleted includeDeleted r = true) (rows t)).

Definition CountSQL (t : table) (c : row -> bool) (includeDeleted : bool) : Z :=
  Z.of_nat (length (filter (fun r => group_max t c r && not_deleted includeDeleted r = true) (rows t))).

(** The three [After] statements; rows are in [id] order already. *)
Definition AfterSQL (t : table) (c : row -> bool) (rev limit : Z) : list qrow :=
  with_revs t (LIMIT limit (filter (fun r => c r && (r_id r >? rev) = true) (rows t))).

(** ** The dialect's reads *)
Definition ListCurrent (t : table) (key end_ : string) (limit : Z) (includeDeleted : bool) : list qrow :=
  if String.eqb end_ "" then GetSingleSQL t key includeDeleted
  else ListSQL t (BetweenName key end_) includeDeleted limit.

Definition List (t : table) (key end_ : string) (limit revision : Z) (includeDeleted : bool) : list qrow :=
  let name := if String.eqb end_ "" then EqualsName key else BetweenName key end_ in
  ListSQL t (fun r => name r && id_le revision r) includeDeleted limit.

(** A [NullInt64] scanned from a NULL is 0. *)
Definition Int64 (v : option Z) : Z := default 0 v.

Definition CountCurrent (t : table) (key end_ : string) : Z * Z :=
  (Int64 (CurrentRevSQL t), CountSQL t (BetweenName key end_) false).

Definition Count (t : table) (key end_ : string) (revision : Z) : Z * Z * Z :=
  (Int64 (CurrentRevSQL t), Int64 (CompactRevSQL t),
   CountSQL t (fun r => BetweenName key end_ r && id_le revision r) false).

(** Scanning a NULL into an [int64] is an error of [database/sql]. *)
Definition errScanNull : err := ErrOther "converting NULL to int64 is unsupported".
Definition scan_int64 (v : option Z) : Z * gerr :=
  match v with Some id => (id, None) | None => (0, Some errScanNull) end.

Definition CurrentRevision (t : table) : Z * gerr := scan_int64 (CurrentRevSQL t).
Definition GetCompactRevision (t : table) : Z * gerr := scan_int64 (CompactRevSQL t).

Definition After (t : table) (key end_ : string) (rev limit : Z) : list qrow :=
  AfterSQL t (if String.eqb key "" then fun _ => true
              else if String.eqb end_ "" then EqualsName key else BetweenName key end_) rev limit.

(** ** Writes *)
Definition set_rows (l : list row) (t : table) : table := MkTable l (seq t).

Definition DeleteRevision (revision : Z) (t : table) : table :=
  set_rows (filter (fun r => r_id r <> revision) (rows t)) t.

Definition SetCompactRevision (revision : Z) (t : table) : table :=
  set_rows ((fun r => if String.eqb (r_name r) compact_rev_key
                      then MkRow (r_id r) (r_name r) (r_created r) (r_deleted r) (r_create_revision r)
                             revision (r_lease r) (r_value r) (r_old_value r)
                      else r) <$> rows t) t.

(** [CompactSQL] of sqlite.go: the ids of superseded rows and of deletions. *)
Definition superseded (revision : Z) (t : table) : list Z :=
  r_prev_revision <$> filter (fun kp => r_name kp <> compact_rev_key /\ r_prev_revision kp <> 0 /\
                                        r_id kp <= revision) (rows t).
Definition tombstones (revision : Z) (t : table) : list Z :=
  r_id <$> filter (fun kd => r_deleted kd = true /\ r_id kd <= revision) (rows t).

Definition Compact (revision : Z) (t : table) : Z * table :=
  let gone := superseded revision t ++ tombstones revision t in
  let kept := filter (fun r => r_id r ∉ gone) (rows t) in
  (Z.of_nat (length (rows t)) - Z.of_nat (length kept), set_rows kept t).

(** Rows with an explicit id may land in the middle. *)
Fixpoint insert_by_id (r : row) (l : list row) : list row :=
  match l with
  | [] => [r]
  | r' :: l' => if r_id r' <? r_id r then r' :: insert_by_id r l' else r :: r' :: l'
  end.

Definition unique_violation (name : string) (prev : Z) (t : table) : bool :=
  existsb (fun r => String.eqb (r_name r) name && (r_prev_revision r =? prev)) (rows t).

Definition value_of (id : Z) (t : table) : string :=
  match filter (fun r => r_id r = id) (rows t) with r :: _ => r_value r | [] => "" end.

(** The statement of [Insert] and the translation of the constraint error. *)
Definition insert_row (name : string) (create delete : bool) (createRevision previousRevision ttl : Z)
  (value : string) (t : table) : (Z * gerr) * table :=
  if unique_violation name previousRevision t then ((0, Some ErrKeyExists), t)
  else
    let id := seq t + 1 in
    let r := MkRow id name create delete createRevision previousRevision ttl value
               (value_of previousRevision t) in
    ((id, None), MkTable (rows t ++ [r]) id).

(** What [decodeObject] makes of a key and its value, as far as the table
    [kine] sees it: the row can be written with whatever metadata the object
    has; the value does not decode; the metadata cannot be rendered, so that the
    transaction is not committed; or the object has the label its dependents are
    collected by.  In the last case [Insert] writes other rows too, which is in
    [SqlMeta]; here it is any function.  [SqlMetaProofs.insert_storing] relates
    the first three to the complete [Insert]. *)
Inductive storing : Type :=
  | Stored
  | NotDecoded (message : string)
  | NotCommitted (message : string)
  | Collected (insert : bool -> bool -> Z -> Z -> Z -> table -> (Z * gerr) * table).

(** [Insert] as the table [kine] sees it.  A value that is empty is written
    outside of a transaction and without metadata. *)
Definition Insert (obj : storing) (name : string) (create delete : bool)
  (createRevision previousRevision ttl : Z) (value : string) (t : table) : (Z * gerr) * table :=
  let insert := insert_row name create delete createRevision previousRevision ttl value t in
  match obj with
  | NotDecoded message => ((0, Some (ErrOther message)), t)
  | NotCommitted message =>
      if String.eqb value "" then insert
      else if is_err insert.1.2 then insert
      else ((0, Some (ErrOther message)), t)
  | Collected collect =>
      if String.eqb value "" then insert else collect create delete createRevision previousRevision ttl t
  | Stored => insert
  end.

(** The error of a value that is never stored. *)
Definition refusal (obj : storing) (value : string) : option err :=
  match obj with
  | NotDecoded message => Some (ErrOther message)
  | NotCommitted message => if String.eqb value "" then None else Some (ErrOther message)
  | Stored | Collected _ => None
  end.

Definition collects (obj : storing) (value : string) : bool :=
  match obj with Collected _ => negb (String.eqb value "") | _ => false end.

Definition fill_name (revision : Z) : string := "gap-" +:+ FormatInt revision.
Definition IsFill (key : string) : bool := HasPrefix key "gap-".

Definition Fill (revision : Z) (t : table) : gerr * table :=
  if existsb (fun r => r_id r =? revision) (rows t) || unique_violation (fill_name revision) 0 t
  then (Some (ErrOther "constraint failed"), t)
  else
    (None, MkTable (insert_by_id (MkRow revision (fill_name revision) false true 0 0 0 "" "") (rows t))
             (Z.max (seq t) revision)).
