(* ===== verification/SqlLog.v ===== *)
(** * The SQL log (pkg/logstructured/sqllog/sql.go)

    Events from rows, the log's operations as trees of dialect calls, the
    compaction loop and the polling loop.  The store is the table together
    with the two atomic revisions the log keeps and what the decoder says of each
    value; a dialect transaction is one call that runs a function on the table
    and commits or not, since the source opens it with serializable isolation.
    The goroutines around the polling loop and their channels are in [SqlPoll]. *)
From S2P Require Import Prelude Types GoStrings Prog Sql.

(** ** Rows to events *)
Definition scan (q : qrow) (val prev : bool) : Z * Z * Event :=
  let '(currentRev, compactRev, r) := q in
  let createRevision := if r_created r then r_id r else r_create_revision r in
  let kv := MkKeyValue (r_name r) (if val then r_value r else "") 0 createRevision (r_id r) (r_lease r) in
  let prevKV :=
    if r_created r then None
    else Some (MkKeyValue (r_name r) (if val && prev then r_old_value r else "") 0
                 createRevision (r_prev_revision r) (r_lease r)) in
  (Int64 currentRev, Int64 compactRev, MkEvent (r_deleted r) (r_created r) (Some kv) prevKV).

Fixpoint RowsToEvents_loop (l : list qrow) (val prev : bool) (rev compact : Z) (result : list Event)
  : Z * Z * list Event :=
  match l with
  | [] => (rev, compact, result)
  | q :: l =>
      let '(rev, compact, event) := scan q val prev in
      RowsToEvents_loop l val prev rev compact (result ++ [event])
  end.
Definition RowsToEvents (l : list qrow) (val prev : bool) : Z * Z * list Event :=
  RowsToEvents_loop l val prev 0 0 [].

(** ** The store and its calls *)
Record world := MkWorld {
  w_table : table; w_currentRev : Z; w_polledRev : Z;
  w_objects : string -> string -> storing  (* what the decoder says of a key and a value *)
}.

Definition on_table (f : table -> table) (w : world) : world :=
  MkWorld (f (w_table w)) (w_currentRev w) (w_polledRev w) (w_objects w).

Inductive dop : Type -> Type :=
  | DListCurrent (key end_ : string) (limit : Z) (includeDeleted : bool) : dop (list qrow)
  | DList (key end_ : string) (limit revision : Z) (includeDeleted : bool) : dop (list qrow)
  | DCountCurrent (key end_ : string) : dop (Z * Z)
  | DCount (key end_ : string) (revision : Z) : dop (Z * Z * Z)
  | DCurrentRevision : dop (Z * gerr)
  | DGetCompactRevision : dop (Z * gerr)
  | DAfter (key end_ : string) (rev limit : Z) : dop (list qrow)
  | DInsert (name : string) (create delete : bool) (createRevision previousRevision ttl : Z)
      (value : string) : dop (Z * gerr)
  | DFill (revision : Z) : dop gerr
  | DTx {R : Type} (body : table -> R * option table) : dop R
  | DLoadCurrentRev : dop Z
  | DCASCurrentRev (old new : Z) : dop bool.

Definition dialect_do {R} (o : dop R) : ST world R :=
  match o with
  | DListCurrent key e limit incl => fun w => (ListCurrent (w_table w) key e limit incl, w)
  | DList key e limit rev incl => fun w => (List (w_table w) key e limit rev incl, w)
  | DCountCurrent key e => fun w => (CountCurrent (w_table w) key e, w)
  | DCount key e rev => fun w => (Count (w_table w) key e rev, w)
  | DCurrentRevision => fun w => (CurrentRevision (w_table w), w)
  | DGetCompactRevision => fun w => (GetCompactRevision (w_table w), w)
  | DAfter key e rev limit => fun w => (After (w_table w) key e rev limit, w)
  | DInsert name c d crev prev ttl v =>
      fun w => let (r, t) := Insert (w_objects w name v) name c d crev prev ttl v (w_table w) in
               (r, on_table (fun _ => t) w)
  | DFill rev => fun w => let (r, t) := Fill rev (w_table w) in (r, on_table (fun _ => t) w)
  | DTx body => fun w =>
      match body (w_table w) with
      | (r, Some t) => (r, on_table (fun _ => t) w)
      | (r, None) => (r, w)
      end
  | DLoadCurrentRev => fun w => (w_currentRev w, w)
  | DCASCurrentRev old new => fun w =>
      if w_currentRev w =? old then (true, MkWorld (w_table w) new (w_polledRev w) (w_objects w)) else (false, w)
  end.

#[export] Instance dialect_handler : Handler dop world := {
  h_do R := dialect_do;
  h_room w := seq (w_table w) < maxInt64 - 1
}.

Abbreviation dprog := (prog dop).

(** ** Revisions *)
Definition SQLLog_CurrentRevision : dprog (Z * gerr) :=
  currRev <-! call DLoadCurrentRev;;
  if negb (currRev =? 0) then Ret (currRev, None)
  else
    '(lastRev, err) <-! call DCurrentRevision;;
    if is_err err then Ret (lastRev, err)
    else
      ok <-! call (DCASCurrentRev currRev lastRev);;
      if ok : bool then Ret (lastRev, None)
      else currRev <-! call DLoadCurrentRev;; Ret (currRev, None).

Definition CompactRevision : dprog (Z * gerr) := call DGetCompactRevision.

(** ** Reads *)
Definition SQLLog_After (key end_ : string) (revision limit : Z) : dprog (Z * list Event * gerr) :=
  rows <-! call (DAfter key end_ revision limit);;
  let '(rev, compact, result) := RowsToEvents rows true true in
  '(rev, compact, err) <-!
    (if (revision >? 0) && match result with [] => true | _ => false end then
       '(rev, err) <-! SQLLog_CurrentRevision;;
       if is_err err then Ret (0, 0, err)
       else
         '(compact, err) <-! call DGetCompactRevision;;
         if is_err err then Ret (0, 0, err) else Ret (rev, compact, None)
     else Ret (rev, compact, None));;
  if is_err err then Ret (0, [], err)
  else if (revision >? 0) && (revision <? compact) then Ret (rev, [], Some ErrCompacted)
  else Ret (rev, result, None).

(** [TranslateStartKey] is the identity unless the driver sets it. *)
Definition SQLLog_List (key end_ : string) (limit revision : Z) (includeDeleted keysOnly : bool)
  : dprog (Z * list Event * gerr) :=
  rows <-! (if revision =? 0 then call (DListCurrent key end_ limit includeDeleted)
            else call (DList key end_ limit revision includeDeleted));;
  let '(rev, compact, result) := RowsToEvents rows (negb keysOnly) false in
  '(rev, compact, err) <-!
    (match result with
     | [] =>
         '(rev, err) <-! SQLLog_CurrentRevision;;
         if is_err err then Ret (0, 0, err)
         else
           '(compact, err) <-! call DGetCompactRevision;;
           if is_err err then Ret (0, 0, err) else Ret (rev, compact, None)
     | _ => Ret (rev, compact, None)
     end);;
  if is_err err then Ret (0, [], err)
  else if revision >? rev then Ret (rev, [], Some ErrFutureRev)
  else if (revision >? 0) && (revision <? compact) then Ret (rev, [], Some ErrCompacted)
  else Ret (rev, result, None).

Definition SQLLog_Count (key end_ : string) (revision : Z) : dprog (Z * Z * gerr) :=
  if revision =? 0 then
    '(rev, n) <-! call (DCountCurrent key end_);; Ret (rev, n, None)
  else
    '(rev, compact, rows) <-! call (DCount key end_ revision);;
    if revision >? rev then Ret (rev, 0, Some ErrFutureRev)
    else if revision <? compact then Ret (rev, 0, Some ErrCompacted)
    else Ret (rev, rows, None).

(** ** Append *)
Definition Append (event : Event) : dprog (Z * gerr) :=
  let kv := default zeroKV (evKV event) in
  let prevKV := default zeroKV (evPrevKV event) in
  currentRev <-! call DLoadCurrentRev;;
  '(rev, err) <-! call (DInsert (kvKey kv) (evCreate event) (evDelete event) (kvCreateRevision kv)
                         (kvModRevision prevKV) (kvLease kv) (kvValue kv));;
  if is_err err then Ret (0, err)
  else
    _ <-! call (DCASCurrentRev currentRev rev);;
    Ret (rev, None).

(** ** Compaction *)
Definition safeCompactRev (targetCompactRev currentRev compactMinRetain : Z) : Z :=
  let safeRev := wrap64 (currentRev - compactMinRetain) in
  let safeRev := if targetCompactRev <? safeRev then targetCompactRev else safeRev in
  if safeRev <? 0 then 0 else safeRev.

(** The transaction of [compact]: its results and the table to commit. *)
Definition compact_body (compactMinRetain compactRev targetCompactRev : Z) (t : table)
  : (Z * Z * gerr) * option table :=
  let (currentRev, err) := CurrentRevision t in
  if is_err err then ((0, 0, err), None)
  else
    let (dbCompactRev, err) := GetCompactRevision t in
    if is_err err then ((0, 0, err), None)
    else if negb (compactRev =? dbCompactRev)
    then ((dbCompactRev, currentRev, Some ErrCompacted), None)
    else
      let targetCompactRev := safeCompactRev targetCompactRev currentRev compactMinRetain in
      if targetCompactRev <=? compactRev
      then ((dbCompactRev, currentRev, Some ErrCompacted), None)
      else
        let (_, t) := Compact targetCompactRev t in
        ((targetCompactRev, currentRev, None), Some (SetCompactRevision targetCompactRev t)).

Definition compact (compactMinRetain compactRev targetCompactRev : Z) : dprog (Z * Z * gerr) :=
  call (DTx (compact_body compactMinRetain compactRev targetCompactRev)).

(** The batches of [compactIter]; one unit of fuel per batch. *)
Fixpoint compactIter_loop (fuel : nat) (batch minRetain iterCompactRev targetCompactRev compactedRev
  currentRev : Z) : dprog (Z * Z * gerr) :=
  if negb (iterCompactRev <? targetCompactRev) then Ret (compactedRev, currentRev, None)
  else
    match fuel with
    | O => Panic
    | S fuel =>
        let iterCompactRev := wrap64 (iterCompactRev + batch) in
        let iterCompactRev := if iterCompactRev >? targetCompactRev then targetCompactRev
                              else iterCompactRev in
        '(compacted, current, cerr) <-! compact minRetain compactedRev iterCompactRev;;
        let valid := negb (compacted =? 0) && negb (current =? 0) in
        let compactedRev := if valid then compacted else compactedRev in
        let currentRev := if valid then current else currentRev in
        if is_err cerr then Ret (compactedRev, currentRev, cerr)
        else compactIter_loop fuel batch minRetain iterCompactRev targetCompactRev compactedRev currentRev
    end.

(** Enough fuel: every batch moves at least one revision forward. *)
Definition compactIter_fuel (compactRev targetCompactRev : Z) : nat :=
  Z.to_nat (targetCompactRev - compactRev).

Definition compactIter (batch minRetain compactRev targetCompactRev : Z) : dprog (Z * Z) :=
  '(compactedRev, currentRev, _) <-!
    compactIter_loop (compactIter_fuel compactRev targetCompactRev) batch minRetain compactRev
      targetCompactRev compactRev 0;;
  if currentRev >? 0 then Ret (compactedRev, currentRev) else Ret (compactRev, targetCompactRev).

Definition SQLLog_Compact (compactInterval batch minRetain targetCompactRev : Z) : dprog (Z * gerr) :=
  '(currentRev, _) <-! SQLLog_CurrentRevision;;
  if targetCompactRev >? currentRev then Ret (0, Some ErrFutureRev)
  else
    '(compactRev, _) <-! call DGetCompactRevision;;
    if targetCompactRev <=? compactRev then Ret (0, Some ErrCompacted)
    else if compactInterval <=? 0 then
      _ <-! compactIter batch minRetain compactRev targetCompactRev;;
      SQLLog_CurrentRevision
    else Ret (currentRev, None).

(** ** Start: exactly one row for the compact revision key *)
Definition compactStart_max (events : list Event) : Z * Z :=
  fold_left (fun '(maxRev, maxID) e =>
    match evPrevKV e with
    | Some p => if kvModRevision p >? maxRev
                then (kvModRevision p, kvModRevision (default zeroKV (evKV e)))
                else (maxRev, maxID)
    | None => (maxRev, maxID)
    end) events (0, 0).

Definition compactStart : dprog gerr :=
  rows <-! call (DAfter compact_rev_key "" 0 0);;
  let '(_, _, events) := RowsToEvents rows true true in
  match events with
  | [] =>
      '(_, err) <-! Append (MkEvent false true (Some (MkKeyValue compact_rev_key "" 0 0 0 0)) None);;
      Ret err
  | [_] => Ret None
  | _ =>
      let (_, maxID) := compactStart_max events in
      call (DTx (fun t =>
        (None, Some (fold_left (fun t e =>
           let id := kvModRevision (default zeroKV (evKV e)) in
           if id =? maxID then t else DeleteRevision id t) events t))))
  end.

Definition minCompactBatchSize : Z := 100.

Definition Start (batch : Z) : dprog gerr :=
  if batch <? minCompactBatchSize then Ret (Some (ErrOther "compact-batch-size too small"))
  else compactStart.

(** ** The polling loop *)
Inductive poll_end : Type :=
  | PollDone
  | PollRetry (next : Z)
  | PollFill (next : Z).

(** The scan of one batch from [rev]: the new revision, whether anything was
    passed, the slots of [sequential], and how the scan ended.  [expired] is
    [time.Since(skipTime) > time.Second]. *)
Fixpoint poll_scan (skip : Z) (expired : bool) (events : list Event) (rev : Z) (saveLast : bool)
  (sequential : list (option Event)) : Z * bool * list (option Event) * poll_end :=
  match events with
  | [] => (rev, saveLast, sequential, PollDone)
  | event :: events' =>
      let kv := default zeroKV (evKV event) in
      let next := wrap64 (rev + 1) in
      let stop e := (rev, saveLast, sequential ++ (const None <$> events), e) in
      if negb (kvModRevision kv =? next) && negb ((next =? skip) && expired) then
        if negb (skip =? next) then stop (PollRetry next) else stop (PollFill next)
      else
        poll_scan skip expired events' (kvModRevision kv) true
          (sequential ++ [if IsFill (kvKey kv) then None else Some event])
  end.

Record poller := MkPoller { p_revision : Z; p_skip : Z }.

(** One round with a non-empty batch: the new state and the batch sent to the
    watchers, with nil slots for fill rows and for what was not reached. *)
Definition poll_round (p : poller) (expired : bool) (events : list Event)
  : poller * option (list (option Event)) * poll_end :=
  let '(rev, saveLast, sequential, e) := poll_scan (p_skip p) expired events (p_revision p) false [] in
  let skip := match e with PollRetry next => next | _ => p_skip p end in
  if saveLast then (MkPoller rev skip, Some sequential, e)
  else (MkPoller (p_revision p) skip, None, e).

(** The watcher's filter; [selects] is [filterEventBySelectors] for the
    selectors of the watch. *)
Definition filter_events (selects : KeyValue -> bool) (events : list (option Event)) (key end_ : string)
  : list Event * bool :=
  match events with
  | [e] => if InRange e key end_ then (option_list e, true) else ([], false)
  | _ =>
      let keep e :=
        match e with
        | Some ev =>
            InRange e key end_ &&
            (match evKV ev with Some kv => selects kv | None => true end ||
             match evPrevKV ev with Some pkv => selects pkv | None => false end)
        | None => false
        end in
      let l := omap (fun e => if keep e then e else None) events in
      (l, match l with [] => false | _ => true end)
  end.
