(* ===== verification/SqlProofs.v ===== *)
(** * The SQL dialect refines the multi-version store (proofs)

    [row_write] reads a table as a history.  On a table that satisfies the
    chain invariant (every row names the row it replaced), the statements of
    the dialect are the operations of [Mvcc]: lists are listings, compaction is
    trimming, and the unique index makes an insertion a compare-and-swap. *)
From S2P Require Import Prelude Types GoStrings OrderedMap Mvcc MemoryProofs Sql.

Definition row_write (r : row) : write :=
  MkWrite (r_id r) (r_name r) (r_value r) (if r_created r then r_id r else r_create_revision r) 0
    (r_prev_revision r) (r_lease r) (r_created r) (r_deleted r).

Definition thist (t : table) : list write := row_write <$> rows t.

Definition name_rows (k : string) (l : list row) : list row := filter (fun r => r_name r = k) l.

Definition id_lt (r r' : row) : Prop := r_id r < r_id r'.

Definition links (r r' : row) : Prop := r_prev_revision r' = r_id r.

Record chain (t : table) : Prop := {
  ch_seq : 0 <= seq t;
  ch_sorted : StronglySorted id_lt (rows t);
  ch_ids : Forall (fun r => 0 < r_id r <= seq t) (rows t);
  ch_prev : Forall (fun r => r_name r <> compact_rev_key -> 0 <= r_prev_revision r < r_id r) (rows t);
  ch_linked : forall k, k <> compact_rev_key -> Sorted links (name_rows k (rows t));
  ch_same : forall r r', r ∈ rows t -> r' ∈ rows t -> r_name r' <> compact_rev_key ->
    r_prev_revision r' = r_id r -> r_name r = r_name r'
}.

(** ** Rows and writes *)
Lemma hist_of_rows k l : hist_of k (row_write <$> l) = row_write <$> name_rows k l.
Proof.
  unfold hist_of, name_rows. induction l as [|r l IH]; [done|].
  rewrite fmap_cons, !filter_cons, IH. simpl. by case_decide.
Qed.

Lemma upto_rows c l : upto c (row_write <$> l) = row_write <$> filter (fun r => r_id r <= c) l.
Proof.
  unfold upto. induction l as [|r l IH]; [done|].
  rewrite fmap_cons, !filter_cons, IH. simpl. by case_decide.
Qed.

Lemma above_rows c l : above c (row_write <$> l) = row_write <$> filter (fun r => c < r_id r) l.
Proof.
  unfold above. induction l as [|r l IH]; [done|].
  rewrite fmap_cons, !filter_cons, IH. simpl. by case_decide.
Qed.

Lemma insert_by_id_perm (x : row) (l : list row) : insert_by_id x l ≡ₚ x :: l.
Proof. induction l as [|y l IH]; [done|]. cbn. destruct (r_id y <? r_id x); [|done]. by rewrite IH, Permutation_swap. Qed.

Lemma insert_by_id_sorted (x : row) (l : list row) : StronglySorted id_lt l -> r_id x ∉ r_id <$> l ->
  StronglySorted id_lt (insert_by_id x l).
Proof.
  induction 1 as [|y l Hs IH Hy]; intros Hx; [by repeat constructor|]. cbn.
  rewrite fmap_cons, not_elem_of_cons in Hx. destruct Hx as [Hxy Hx]. destruct (Z.ltb_spec (r_id y) (r_id x)) as [H|H].
  - constructor; [by apply IH|]. rewrite insert_by_id_perm. by constructor.
  - assert (Hlt : r_id x < r_id y) by lia. constructor; [by constructor|]. constructor; [done|].
    eapply Forall_impl; [exact Hy|]. unfold id_lt. intros z. simpl. lia.
Qed.

Lemma sorted_rows l : StronglySorted id_lt l -> sorted (row_write <$> l).
Proof.
  induction 1 as [|r l Hs IH Hr]; [constructor|]. constructor; [done|].
  apply Forall_forall. intros w (r' & -> & Hr')%list_elem_of_fmap.
  rewrite Forall_forall in Hr. by apply Hr.
Qed.

Lemma thist_wf t : chain t -> wf_history (thist t) (seq t).
Proof.
  intros Hc. split; [apply sorted_rows, Hc|].
  apply Forall_forall. intros w (r & -> & Hr)%list_elem_of_fmap.
  pose proof (ch_ids _ Hc) as Hi. rewrite Forall_forall in Hi. by apply Hi.
Qed.

Lemma elem_of_name_rows k l r : r ∈ name_rows k l <-> r_name r = k /\ r ∈ l.
Proof. unfold name_rows. by rewrite list_elem_of_filter. Qed.

(** ** Group maxima *)
Lemma last_sorted_max l r : StronglySorted id_lt l ->
  last l = Some r <-> r ∈ l /\ forall r', r' ∈ l -> r_id r' <= r_id r.
Proof.
  intros Hs. split.
  - intros Hl. split; [by apply last_Some_elem_of|]. intros r' Hr'.
    induction l as [|x l IH] using rev_ind; [done|]. rewrite last_snoc in Hl. simplify_eq.
    apply elem_of_app in Hr' as [Hr'|Hr']; [|set_solver by lia].
    apply StronglySorted_app in Hs as (Hlt & _ & _). specialize (Hlt r' r Hr').
    unfold id_lt in Hlt. set_solver by lia.
  - intros [Hr Hmax]. induction l as [|x l IH] using rev_ind; [set_solver|].
    rewrite last_snoc. apply elem_of_app in Hr as [Hr|Hr]; [|set_solver].
    apply StronglySorted_app in Hs as (Hlt & _ & _). specialize (Hlt r x Hr).
    unfold id_lt in Hlt. specialize (Hmax x ltac:(set_solver)). set_solver by lia.
Qed.

Lemma group_max_spec t (P : row -> bool) r :
  group_max t P r = true <->
  P r = true /\ forall r', r' ∈ rows t -> P r' = true -> r_name r' = r_name r -> r_id r' <= r_id r.
Proof.
  unfold group_max. rewrite andb_true_iff, forallb_forall. split.
  - intros [HP Hall]. split; [done|]. intros r' Hr' HP' Hn.
    apply list_elem_of_In in Hr'. specialize (Hall r' Hr'). rewrite HP', Hn, String.eqb_refl in Hall.
    simpl in Hall. by apply Z.leb_le.
  - intros [HP Hall]. split; [done|]. intros r' Hr'. apply list_elem_of_In in Hr'.
    destruct (P r') eqn:HP', (String.eqb (r_name r') (r_name r)) eqn:Hn; simpl; try done.
    apply String.eqb_eq in Hn. apply Z.leb_le. auto.
Qed.

(** Within the rows of one name up to a revision, the group maximum is the
    deciding row. *)
Lemma group_max_last t (N : row -> bool) rev r :
  StronglySorted id_lt (rows t) -> r ∈ rows t ->
  (forall r', r_name r' = r_name r -> N r' = N r) ->
  group_max t (fun r => N r && id_le rev r) r = true <->
  N r = true /\ last (filter (fun r => r_id r <= rev) (name_rows (r_name r) (rows t))) = Some r.
Proof.
  intros Hs Hr HN. rewrite group_max_spec, last_sorted_max by by do 2 apply StronglySorted_filter.
  unfold id_le. rewrite andb_true_iff, list_elem_of_filter, elem_of_name_rows, Z.leb_le. split.
  - intros [[HNr Hle] Hall]. split_and!; try done. intros r' [? [? ?]%elem_of_name_rows]%list_elem_of_filter.
    apply Hall; [done| |done]. rewrite HN by done. rewrite HNr. simpl. by apply Z.leb_le.
  - intros (HNr & (Hle & _ & _) & Hall). split_and!; try done. intros r' Hr' [_ Hle']%andb_true_iff Hn.
    apply Hall, list_elem_of_filter. rewrite elem_of_name_rows. split; [by apply Z.leb_le|done].
Qed.

(** ** Ordering *)
Lemma elem_of_insert_by_name r l x : x ∈ insert_by_name r l <-> x = r \/ x ∈ l.
Proof.
  induction l as [|r' l IH]; simpl; [set_solver|]. case_match; rewrite ?elem_of_cons, ?IH; naive_solver.
Qed.

Lemma elem_of_order l x : x ∈ order_by_name l <-> x ∈ l.
Proof.
  induction l as [|r l IH]; simpl; [done|]. by rewrite elem_of_insert_by_name, IH, elem_of_cons.
Qed.

Lemma order_elem l x : x ∈ order_by_name l -> x ∈ l.
Proof. by rewrite elem_of_order. Qed.

Lemma insert_by_name_sorted r l : StronglySorted str_lt (r_name <$> l) -> r_name r ∉ r_name <$> l ->
  StronglySorted str_lt (r_name <$> insert_by_name r l).
Proof.
  induction l as [|r' l IH]; simpl; intros Hs Hn; [repeat constructor|].
  inversion Hs as [|?? Hs' Hall]; subst.
  destruct (String.ltb (r_name r') (r_name r)) eqn:E; simpl.
  - constructor; [apply IH; [done|set_solver]|]. apply Forall_forall.
    intros x (y & -> & [->|Hy]%elem_of_insert_by_name)%list_elem_of_fmap; [done|].
    rewrite Forall_forall in Hall. apply Hall, list_elem_of_fmap. eauto.
  - constructor; [done|].
    assert (Hlt : str_lt (r_name r) (r_name r')).
    { destruct (decide (str_lt (r_name r) (r_name r'))) as [|Hno]; [done|].
      apply not_true_is_false in Hno. pose proof (ltb_total _ _ E Hno). set_solver. }
    constructor; [done|]. eapply Forall_impl; [exact Hall|]. intros x Hx. by trans (r_name r').
Qed.

Lemma order_sorted l : NoDup (r_name <$> l) -> StronglySorted str_lt (r_name <$> order_by_name l).
Proof.
  induction l as [|r l IH]; simpl; intros Hn; [constructor|].
  apply NoDup_cons in Hn as [Hr Hn]. apply insert_by_name_sorted; [auto|].
  intros (x & Hx & Hin)%list_elem_of_fmap. rewrite elem_of_order in Hin.
  apply Hr, list_elem_of_fmap. eauto.
Qed.

Lemma NoDup_filter_inj (P : row -> Prop) `{!forall r, Decision (P r)} l :
  StronglySorted id_lt l ->
  (forall r r', r ∈ l -> r' ∈ l -> P r -> P r' -> r_name r = r_name r' -> r_id r = r_id r') ->
  NoDup (r_name <$> filter P l).
Proof.
  induction 1 as [|r l Hs IH Hr]; intros Hinj; [constructor|]. rewrite filter_cons.
  assert (NoDup (r_name <$> filter P l)) by (apply IH; intros; apply Hinj; set_solver).
  case_decide as HP; [|done]. rewrite fmap_cons. constructor; [|done].
  intros (r' & Hn & [HP' Hr']%list_elem_of_filter)%list_elem_of_fmap.
  rewrite Forall_forall in Hr. pose proof (Hr r' Hr') as Hlt. unfold id_lt in Hlt.
  rewrite (Hinj r r') in Hlt by (done || set_solver). lia.
Qed.

(** ** Listings *)
Definition in_names (key e : string) : row -> bool :=
  if String.eqb e "" then EqualsName key else BetweenName key e.

Lemma in_names_range key e r : in_names key e r = true <-> in_list_range (r_name r) key e.
Proof.
  unfold in_names, in_list_range, EqualsName, BetweenName, str_lt.
  destruct (String.eqb e "") eqn:E; b2p.
  - rewrite decide_True by done. apply String.eqb_eq.
  - rewrite decide_False by done. rewrite andb_true_iff, negb_true_iff.
    rewrite <- not_true_iff_false. tauto.
Qed.

Lemma in_names_name key e r r' : r_name r' = r_name r -> in_names key e r' = in_names key e r.
Proof. unfold in_names, EqualsName, BetweenName. case_match; by intros ->. Qed.

(** The selected rows of a list at [rev]. *)
Definition list_rows (t : table) (key e : string) (rev : Z) : list row :=
  filter (fun r => group_max t (fun r => in_names key e r && id_le rev r) r && not_deleted false r = true)
    (rows t).

Definition row_kv (keysOnly : bool) (r : row) : KeyValue := strip keysOnly (wKV (row_write r)).

Lemma list_rows_spec t key e rev r : chain t ->
  r ∈ list_rows t key e rev <->
  r ∈ rows t /\ in_list_range (r_name r) key e /\ r_deleted r = false /\
  last (upto rev (hist_of (r_name r) (thist t))) = Some (row_write r).
Proof.
  intros Hc. unfold list_rows, thist. rewrite list_elem_of_filter, hist_of_rows, upto_rows, fmap_last.
  unfold not_deleted. rewrite orb_false_r, andb_true_iff, negb_true_iff.
  split.
  - intros [[Hg Hd] Hr]. apply group_max_last in Hg as [HN Hl]; [|apply Hc|done|].
    + split_and!; [done|by apply in_names_range|done|by rewrite Hl].
    + intros r' Hn. by apply in_names_name.
  - intros (Hr & HN & Hd & Hl). split_and!; [|done|done]. apply group_max_last; [apply Hc|done| |].
    + intros r' Hn. by apply in_names_name.
    + split; [by apply in_names_range|]. apply fmap_Some in Hl as (r' & Hl & Heq).
      rewrite Hl. f_equal.
      apply last_Some_elem_of, list_elem_of_filter in Hl as [_ [_ Hr']%elem_of_name_rows].
      assert (Hid : r_id r = r_id r') by (pose proof (f_equal wRev Heq) as Hx; exact Hx).
      pose proof (ch_sorted _ Hc) as Hs. clear -Hs Hr Hr' Hid.
      induction Hs as [|x l Hs IH Hx]; [set_solver|]. rewrite Forall_forall in Hx.
      apply elem_of_cons in Hr as [->|Hr], Hr' as [->|Hr']; auto.
      * specialize (Hx _ Hr'). unfold id_lt in Hx. lia.
      * specialize (Hx _ Hr). unfold id_lt in Hx. lia.
Qed.

Lemma list_rows_listing t key e rev b : chain t ->
  is_listing (thist t) rev key e b (row_kv b <$> order_by_name (list_rows t key e rev)).
Proof.
  intros Hc. split.
  - assert (Heq : forall l : list row, kvKey <$> (row_kv b <$> l) = r_name <$> l).
    { intros l. rewrite <- list_fmap_compose. apply list_fmap_ext. intros _ r _. simpl.
      unfold row_kv. by rewrite strip_key. }
    rewrite Heq. apply order_sorted, NoDup_filter_inj; [apply Hc|].
    intros r r' Hr Hr' HP HP' Hn.
    apply andb_true_iff in HP as [HP _], HP' as [HP' _].
    apply group_max_spec in HP as [HP Hmax], HP' as [HP' Hmax'].
    pose proof (Hmax r' Hr' HP' (eq_sym Hn)). pose proof (Hmax' r Hr HP Hn). lia.
  - intros kv. rewrite list_elem_of_fmap. split.
    + intros (r & -> & Hr%order_elem). apply list_rows_spec in Hr as (Hr & HN & Hd & Hl); [|done].
      exists (wKV (row_write r)). unfold view. simpl. rewrite Hl. simpl. by rewrite Hd.
    + intros (kv0 & Hv & HN & ->). unfold view in Hv.
      destruct (last (upto rev (hist_of (kvKey kv0) (thist t)))) as [w|] eqn:Hl; [|done].
      simpl in Hv. destruct (wDeleted w) eqn:Hd; [done|]. injection Hv as <-. simpl in *.
      pose proof Hl as Hl'. apply last_Some_elem_of, elem_of_upto in Hl' as [_ [_ Hw]%elem_of_hist_of].
      apply list_elem_of_fmap in Hw as (r & -> & Hr). simpl in *.
      exists r. split; [done|]. apply elem_of_order, list_rows_spec; [done|]. done.
Qed.

(** The current listing is the listing at the sequence. *)
Lemma group_max_ext t (P Q : row -> bool) r : r ∈ rows t -> (forall r, r ∈ rows t -> P r = Q r) ->
  group_max t P r = group_max t Q r.
Proof.
  intros Hr HPQ. apply eq_bool_prop_intro. rewrite !Is_true_true, !group_max_spec, (HPQ r Hr).
  split; intros [HP Hall]; (split; [done|]); intros r' Hr' HP'; apply Hall; try done;
    [by rewrite HPQ|by rewrite <- HPQ].
Qed.

Lemma list_rows_current t key e : chain t ->
  filter (fun r => group_max t (in_names key e) r && not_deleted false r = true) (rows t)
  = list_rows t key e (seq t).
Proof.
  intros Hc. unfold list_rows. apply filter_agree. intros r Hr.
  rewrite (group_max_ext t (in_names key e) (fun r => in_names key e r && id_le (seq t) r)); [done|done|].
  intros r' Hr'. pose proof (ch_ids _ Hc) as Hi. rewrite Forall_forall in Hi. specialize (Hi r' Hr').
  unfold id_le. rewrite (proj2 (Z.leb_le _ _)) by apply Hi. by rewrite andb_true_r.
Qed.

(** ** Compaction *)
Definition trim_rows (c : Z) (l : list row) : list row :=
  match last (filter (fun r => r_id r <= c) l) with
  | None => l
  | Some f => if r_deleted f then filter (fun r => c < r_id r) l
              else f :: filter (fun r => c < r_id r) l
  end.

Lemma trim_rows_write c l : row_write <$> trim_rows c l = trim c (row_write <$> l).
Proof.
  unfold trim_rows, trim. rewrite upto_rows, above_rows, fmap_last.
  destruct (last _) as [f|]; [|done]. simpl. by destruct (r_deleted f).
Qed.

Lemma linked_next l f r : Sorted links (l ++ [f]) -> r ∈ l ->
  exists r', r' ∈ l ++ [f] /\ links r r'.
Proof.
  induction l as [|x l IH]; simpl; [set_solver|]. intros Hs Hr.
  inversion Hs as [|?? Hs' Hh]; subst. apply elem_of_cons in Hr as [->|Hr].
  - destruct l as [|y l]; simpl in Hh; inversion Hh; subst; eexists; (split; [|done]); set_solver.
  - destruct (IH Hs' Hr) as (r' & ? & ?). exists r'. split; [set_solver|done].
Qed.

Definition gone (c : Z) (t : table) : list Z := superseded c t ++ tombstones c t.

Lemma elem_of_gone c t i : i ∈ gone c t <->
  (exists r, r ∈ rows t /\ r_name r <> compact_rev_key /\ i <> 0 /\ r_prev_revision r = i /\ r_id r <= c) \/
  (exists r, r ∈ rows t /\ r_deleted r = true /\ r_id r <= c /\ r_id r = i).
Proof.
  unfold gone, superseded, tombstones. rewrite elem_of_app, !list_elem_of_fmap.
  setoid_rewrite list_elem_of_filter. naive_solver.
Qed.

Section one_key.
Variables (t : table) (k : string) (c : Z).
Hypotheses (Hchain : chain t) (Hk : k <> compact_rev_key).

Local Abbreviation kl := (name_rows k (rows t)).

Lemma kl_row r : r ∈ kl -> r ∈ rows t /\ r_name r = k /\ 0 < r_id r /\ 0 <= r_prev_revision r < r_id r.
Proof using Hchain Hk.
  rewrite elem_of_name_rows. intros [Hn Hr]. subst k. pose proof (ch_ids _ Hchain) as Hi.
  pose proof (ch_prev _ Hchain) as Hp. rewrite Forall_forall in Hi, Hp.
  specialize (Hi r Hr). specialize (Hp r Hr Hk). simpl in *. split_and!; try done; lia.
Qed.

(** A row is compacted when a later row up to [c] replaced it or it is a
    deletion. *)
Lemma gone_kl r : r ∈ kl -> r_id r ∈ gone c t <->
  (exists r', r' ∈ kl /\ links r r' /\ r_id r' <= c) \/ (r_deleted r = true /\ r_id r <= c).
Proof using Hchain Hk.
  intros Hr. pose proof (kl_row r Hr) as (Hrt & Hn & Hpos & _). rewrite elem_of_gone. split.
  - intros [(r' & Hr' & Hn' & _ & Hp & Hc)|(r' & Hr' & Hd & Hc & Hi)].
    + left. exists r'. split_and!; [|done|done]. apply elem_of_name_rows. split; [|done].
      by rewrite <- Hn, (ch_same _ Hchain r r').
    + right. assert (r' = r) as <-; [|done].
      pose proof (ch_sorted _ Hchain) as Hs. clear -Hs Hr' Hrt Hi.
      induction Hs as [|x l Hs IH Hx]; [set_solver|]. rewrite Forall_forall in Hx.
      apply elem_of_cons in Hr' as [->|Hr'], Hrt as [->|Hrt]; auto.
      * specialize (Hx _ Hrt). unfold id_lt in Hx. lia.
      * specialize (Hx _ Hr'). unfold id_lt in Hx. lia.
  - intros [(r' & Hr' & Hl & Hc)|[Hd Hc]]; [left|right; by exists r].
    pose proof (kl_row r' Hr') as (Hrt' & Hn' & _). exists r'.
    rewrite Hn'. unfold links in Hl. split_and!; done || lia.
Qed.

Lemma kl_sorted : StronglySorted id_lt kl.
Proof using Hchain. apply StronglySorted_filter, Hchain. Qed.

Lemma filter_gone : filter (fun r => r_id r ∉ gone c t) kl = trim_rows c kl.
Proof using Hchain Hk.
  assert (Hsplit : kl = filter (fun r => r_id r <= c) kl ++ filter (fun r => c < r_id r) kl).
  { generalize kl_sorted. generalize kl. induction 1 as [|r l Hs IH Hr]; [done|].
    rewrite !filter_cons. destruct (decide (r_id r <= c)), (decide (c < r_id r)); try lia.
    - simpl. by rewrite <- IH.
    - rewrite Forall_forall in Hr. rewrite (filter_none (fun r => r_id r <= c)).
      + simpl. f_equal. symmetry. apply filter_all. intros x Hx. specialize (Hr x Hx).
        unfold id_lt in Hr. lia.
      + intros x Hx. specialize (Hr x Hx). unfold id_lt in Hr. lia. }
  assert (Hhigh : filter (fun r => r_id r ∉ gone c t) (filter (fun r => c < r_id r) kl)
                  = filter (fun r => c < r_id r) kl).
  { apply filter_all. intros r [Hc Hr]%list_elem_of_filter. rewrite gone_kl by done.
    intros [(r' & Hr' & Hl & Hc')|[_ ?]]; [|lia]. pose proof (kl_row r' Hr') as (_ & _ & _ & Hp).
    unfold links in Hl. lia. }
  unfold trim_rows. destruct (last (filter (fun r => r_id r <= c) kl)) as [f|] eqn:Hf.
  2:{ apply last_None in Hf. rewrite Hf in Hsplit. simpl in Hsplit. rewrite Hsplit at 1. by rewrite Hhigh. }
  pose proof Hf as Hmax. apply last_sorted_max in Hmax as [Hfin Hmax]; [|apply StronglySorted_filter, kl_sorted].
  pose proof Hfin as [Hfc Hfk]%list_elem_of_filter.
  apply last_Some in Hf as [l Hl].
  assert (Hlow : filter (fun r => r_id r ∉ gone c t) (filter (fun r => r_id r <= c) kl)
                 = if r_deleted f then [] else [f]).
  { rewrite Hl, filter_app, (filter_none _ l).
    - rewrite filter_cons, filter_nil. destruct (r_deleted f) eqn:Hd; case_decide as Hg; try done.
      + exfalso. apply Hg, gone_kl; [done|]. by right.
      + exfalso. revert Hg. rewrite gone_kl by done. rewrite Hd.
        intros [(r' & Hr' & Hlk & Hc')|[? _]]; [|done].
        assert (Hle : r_id r' <= r_id f) by (apply Hmax, list_elem_of_filter; done).
        pose proof (kl_row r' Hr') as (_ & _ & _ & Hp). unfold links in Hlk. lia.
    - intros r Hr Hg. apply Hg, gone_kl.
      + assert (r ∈ filter (fun r => r_id r <= c) kl) as [_ ?]%list_elem_of_filter; [|done].
        rewrite Hl. set_solver.
      + left. assert (Hlin : Sorted links (l ++ [f])).
        { pose proof (ch_linked _ Hchain k Hk) as Hlin. rewrite Hsplit, Hl in Hlin.
          by apply Sorted_app_l in Hlin. }
        destruct (linked_next l f r Hlin Hr) as (r' & Hr' & Hlk). rewrite <- Hl in Hr'.
        apply list_elem_of_filter in Hr' as [? ?]. by exists r'. }
  rewrite Hsplit at 1. rewrite filter_app, Hlow, Hhigh. by destruct (r_deleted f).
Qed.
End one_key.

Lemma trim_rows_suffix c l : StronglySorted id_lt l -> exists pre, l = pre ++ trim_rows c l.
Proof.
  intros Hs. unfold trim_rows.
  assert (Hsplit : l = filter (fun r => r_id r <= c) l ++ filter (fun r => c < r_id r) l).
  { induction Hs as [|r l Hs IH Hr]; [done|].
    rewrite !filter_cons. destruct (decide (r_id r <= c)), (decide (c < r_id r)); try lia.
    - simpl. by rewrite <- IH.
    - rewrite Forall_forall in Hr. rewrite (filter_none (fun r => r_id r <= c)).
      + simpl. f_equal. symmetry. apply filter_all. intros x Hx. specialize (Hr x Hx).
        unfold id_lt in Hr. lia.
      + intros x Hx. specialize (Hr x Hx). unfold id_lt in Hr. lia. }
  destruct (last (filter (fun r => r_id r <= c) l)) as [f|] eqn:Hf; [|by exists []].
  apply last_Some in Hf as [l' Hl]. rewrite Hl in Hsplit.
  destruct (r_deleted f); [by eexists|]. exists l'. rewrite Hsplit at 1. by rewrite <- app_assoc.
Qed.

Lemma name_rows_Compact t k c : chain t -> k <> compact_rev_key ->
  name_rows k (rows (Compact c t).2) = trim_rows c (name_rows k (rows t)).
Proof.
  intros Hc Hk. rewrite <- (filter_gone t k c Hc Hk). unfold Compact. simpl. unfold name_rows.
  rewrite !list_filter_filter. apply list_filter_iff. intros r. unfold gone. tauto.
Qed.

Lemma Compact_chain t c : chain t -> chain (Compact c t).2.
Proof.
  intros Hc. pose proof Hc as [Hq Hs Hi Hp Hl Hsame]. split; simpl; [done|..].
  - by apply StronglySorted_filter.
  - apply Forall_forall. intros r [_ Hr]%list_elem_of_filter. rewrite Forall_forall in Hi. by apply Hi.
  - apply Forall_forall. intros r [_ Hr]%list_elem_of_filter. rewrite Forall_forall in Hp. by apply Hp.
  - intros k Hk. pose proof (name_rows_Compact t k c Hc Hk) as Hn. simpl in Hn. rewrite Hn.
    destruct (trim_rows_suffix c (name_rows k (rows t))) as [pre Hpre]; [by apply StronglySorted_filter|].
    specialize (Hl k Hk). rewrite Hpre in Hl. by apply Sorted_app_r in Hl.
  - intros r r' [_ Hr]%list_elem_of_filter [_ Hr']%list_elem_of_filter. by apply Hsame.
Qed.

(** Compaction trims the history of every key ([Mvcc.trim]). *)
Lemma Compact_trims t k c : chain t -> k <> compact_rev_key ->
  hist_of k (thist (Compact c t).2) = trim c (hist_of k (thist t)).
Proof.
  intros Hc Hk. unfold thist. by rewrite !hist_of_rows, name_rows_Compact, trim_rows_write.
Qed.

Lemma name_rows_SetCompact t k c : k <> compact_rev_key ->
  name_rows k (rows (SetCompactRevision c t)) = name_rows k (rows t).
Proof.
  intros Hk. unfold SetCompactRevision, name_rows. simpl. induction (rows t) as [|r l IH]; [done|].
  rewrite fmap_cons, !filter_cons, IH. destruct (String.eqb (r_name r) compact_rev_key) eqn:E; [|done].
  b2p. simpl. by rewrite E, !decide_False by done.
Qed.

Lemma SetCompact_ids t c : r_id <$> rows (SetCompactRevision c t) = r_id <$> rows t.
Proof.
  simpl. rewrite <- list_fmap_compose. apply list_fmap_ext. intros _ r _. simpl. by case_match.
Qed.

Lemma sorted_ids l l' : r_id <$> l = r_id <$> l' -> StronglySorted id_lt l -> StronglySorted id_lt l'.
Proof.
  intros He Hs. revert l' He. induction Hs as [|r l Hs IH Hr]; intros [|r' l'] He; simplify_eq/=; [constructor|].
  constructor; [auto|]. apply Forall_forall. intros x Hx. unfold id_lt. rewrite <- H.
  assert (Hin : r_id x ∈ r_id <$> l').
  { apply list_elem_of_fmap. eauto. }
  unfold fmap in *. rewrite <- H0 in Hin. apply list_elem_of_fmap in Hin as (y & -> & Hy).
  rewrite Forall_forall in Hr. by apply Hr.
Qed.

Lemma elem_of_SetCompact c t r : r ∈ rows (SetCompactRevision c t) ->
  exists r0, r0 ∈ rows t /\ r_id r = r_id r0 /\ r_name r = r_name r0 /\
    (r_name r <> compact_rev_key -> r = r0) /\ (r_name r = compact_rev_key -> r_prev_revision r = c).
Proof.
  simpl. intros (r0 & -> & Hr)%list_elem_of_fmap. exists r0.
  destruct (String.eqb (r_name r0) compact_rev_key) eqn:E; b2p; simpl; split_and!; intros; try done.
  all: cbn in *; congruence.
Qed.

Lemma SetCompact_chain t c : chain t -> chain (SetCompactRevision c t).
Proof.
  intros [Hq Hs Hi Hp Hl Hsame]. split; [done|..].
  - eapply sorted_ids; [|exact Hs]. by rewrite SetCompact_ids.
  - apply Forall_forall. intros r (r0 & Hr & -> & _)%elem_of_SetCompact. simpl.
    rewrite Forall_forall in Hi. by apply Hi.
  - apply Forall_forall. intros r (r0 & Hr & _ & _ & He & _)%elem_of_SetCompact Hn.
    rewrite Forall_forall in Hp. rewrite (He Hn) in Hn |- *. by apply Hp.
  - intros k Hk. rewrite name_rows_SetCompact by done. auto.
  - intros r r' (r0 & Hr & Hid & Hn & _)%elem_of_SetCompact
      (r0' & Hr' & _ & Hn' & He & _)%elem_of_SetCompact Hk Hprev.
    pose proof (He Hk); subst r0'. rewrite Hn. apply Hsame; [done|done|done|congruence].
Qed.

Lemma sql_max_const (l : list Z) c : l <> [] -> Forall (fun x => x = c) l -> sql_max l = Some c.
Proof.
  induction l as [|x l IH]; [done|]. intros _ Hall. inversion Hall as [|?? -> Hall']; subst. simpl.
  destruct l as [|y l]; [done|]. rewrite IH by done. f_equal. lia.
Qed.

Lemma CompactRev_SetCompact t c : name_rows compact_rev_key (rows t) <> [] ->
  CompactRevSQL (SetCompactRevision c t) = Some c.
Proof.
  intros Hne. apply sql_max_const.
  - destruct (name_rows compact_rev_key (rows t)) as [|r l] eqn:E; [done|].
    assert (Hr : r ∈ name_rows compact_rev_key (rows t)) by (rewrite E; set_solver).
    apply elem_of_name_rows in Hr as [Hn Hr]. intros Hnil.
    assert (Hin : MkRow (r_id r) (r_name r) (r_created r) (r_deleted r) (r_create_revision r) c
              (r_lease r) (r_value r) (r_old_value r)
            ∈ filter (fun r => r_name r = compact_rev_key) (rows (SetCompactRevision c t))).
    { apply list_elem_of_filter. split; [done|]. simpl. apply list_elem_of_fmap. exists r.
      by rewrite Hn, String.eqb_refl. }
    apply fmap_nil_inv in Hnil. rewrite Hnil in Hin. set_solver.
  - apply Forall_forall. intros p (r & -> & [Hn Hr]%list_elem_of_filter)%list_elem_of_fmap.
    apply elem_of_SetCompact in Hr as (r0 & _ & _ & _ & _ & He). by apply He.
Qed.

(** ** Insertion *)
Definition last_row (k : string) (t : table) : option row := last (name_rows k (rows t)).
Definition prev_of (k : string) (t : table) : Z := match last_row k t with Some r => r_id r | None => 0 end.

Lemma current_row t k : current (thist t) k = live (row_write <$> last_row k t).
Proof. unfold current, thist. by rewrite hist_of_rows, fmap_last. Qed.

(** What a well-behaved writer adds: a row on top of the last one of its key,
    created where the key was absent, updated or deleted where it was live. *)
Record appends (t t' : table) (r : row) : Prop := {
  ap_rows : rows t' = rows t ++ [r];
  ap_id : r_id r = seq t + 1;
  ap_seq : seq t' = seq t + 1;
  ap_name : r_name r <> compact_rev_key;
  ap_prev : r_prev_revision r = prev_of (r_name r) t;
  ap_kind : if r_created r then current (thist t) (r_name r) = None /\ r_deleted r = false
            else exists kv, current (thist t) (r_name r) = Some kv /\
                   (r_deleted r = false -> r_create_revision r = kvCreateRevision kv)
}.

Definition grows : table -> table -> Prop := rtc (fun t t' => exists r, appends t t' r).

Lemma name_rows_appends t t' r k : appends t t' r ->
  name_rows k (rows t') = name_rows k (rows t) ++ (if decide (r_name r = k) then [r] else []).
Proof. intros Ha. rewrite (ap_rows _ _ _ Ha). unfold name_rows. by rewrite filter_app, filter_cons, filter_nil. Qed.

Lemma thist_appends t t' r : appends t t' r -> thist t' = thist t ++ [row_write r].
Proof. intros Ha. unfold thist. by rewrite (ap_rows _ _ _ Ha), fmap_app. Qed.

Lemma last_row_elem k t r : last_row k t = Some r -> r_name r = k /\ r ∈ rows t.
Proof. intros Hl%last_Some_elem_of. by apply elem_of_name_rows. Qed.

Lemma last_row_max k t r r' : chain t -> last_row k t = Some r -> r' ∈ rows t -> r_name r' = k ->
  r_id r' <= r_id r.
Proof.
  intros Hc Hl Hr' Hn. apply last_sorted_max in Hl as [_ Hl]; [|apply StronglySorted_filter, Hc].
  apply Hl. by apply elem_of_name_rows.
Qed.

Lemma row_by_id t r r' : chain t -> r ∈ rows t -> r' ∈ rows t -> r_id r = r_id r' -> r = r'.
Proof.
  intros Hc Hr Hr' Hid. pose proof (ch_sorted _ Hc) as Hs. clear Hc.
  induction Hs as [|x l Hs IH Hx]; [set_solver|]. rewrite Forall_forall in Hx.
  apply elem_of_cons in Hr as [->|Hr], Hr' as [->|Hr']; auto.
  - specialize (Hx _ Hr'). unfold id_lt in Hx. lia.
  - specialize (Hx _ Hr). unfold id_lt in Hx. lia.
Qed.

Lemma prev_of_bounds k t : chain t -> 0 <= prev_of k t <= seq t.
Proof.
  intros Hc. unfold prev_of. destruct (last_row k t) as [r|] eqn:Hl.
  - apply last_row_elem in Hl as [_ Hr]. pose proof (ch_ids _ Hc) as Hi. rewrite Forall_forall in Hi.
    specialize (Hi r Hr). simpl in Hi. lia.
  - pose proof (ch_seq _ Hc). lia.
Qed.

Lemma chain_appends t t' r : chain t -> appends t t' r -> chain t'.
Proof.
  intros Hc Ha. pose proof Hc as [Hq Hs Hi Hp Hl Hsame].
  pose proof Ha as [Hrows Hid Hseq Hn Hprev _]. pose proof (prev_of_bounds (r_name r) t Hc) as Hb.
  rewrite Forall_forall in Hi, Hp. split; rewrite ?Hrows, ?Hseq.
  - lia.
  - apply StronglySorted_app_2; [|done|repeat constructor]. intros x y Hx Hy%list_elem_of_singleton.
    subst y. specialize (Hi x Hx). simpl in Hi. unfold id_lt. lia.
  - apply Forall_app. split; [|repeat constructor; lia].
    apply Forall_forall. intros x Hx. specialize (Hi x Hx). simpl in Hi. lia.
  - apply Forall_app. split; [by apply Forall_forall|]. repeat constructor; lia.
  - intros k Hk. rewrite <- Hrows, (name_rows_appends t t' r k Ha).
    case_decide as Hkn; [|by rewrite app_nil_r; auto]. apply Sorted_snoc; [auto|].
    subst k. clear -Hprev. unfold prev_of, last_row in Hprev.
    destruct (name_rows (r_name r) (rows t)) as [|x l _] using rev_ind; [constructor|].
    rewrite last_snoc in Hprev. by constructor.
  - intros x y Hx Hy Hny Hpy. apply elem_of_app in Hx as [Hx|Hx%list_elem_of_singleton],
      Hy as [Hy|Hy%list_elem_of_singleton]; subst.
    + auto.
    + rewrite Hprev in Hpy. unfold prev_of in Hpy. specialize (Hi x Hx). simpl in Hi.
      destruct (last_row (r_name r) t) as [z|] eqn:Hz; [|lia].
      apply last_row_elem in Hz as [Hz Hzr]. by rewrite (row_by_id t x z).
    + specialize (Hp y Hy Hny). specialize (Hi y Hy). simpl in *. lia.
    + done.
Qed.

Lemma grows_chain t t' : chain t -> grows t t' -> chain t'.
Proof. intros Hc. induction 1 as [|t t1 t' [r Hr] _ IH]; [done|]. eauto using chain_appends. Qed.

Lemma grows_seq t t' : grows t t' -> seq t <= seq t'.
Proof. induction 1 as [|t t1 t' [r Hr] _ IH]; [done|]. pose proof (ap_seq _ _ _ Hr). lia. Qed.

Lemma grows_hist t t' : grows t t' -> thist t `prefix_of` thist t'.
Proof.
  induction 1 as [|t t1 t' [r Hr] _ IH]; [done|]. rewrite (thist_appends _ _ _ Hr) in IH.
  etrans; [|exact IH]. by eexists.
Qed.

Lemma grows_elem t t' r : grows t t' -> r ∈ rows t -> r ∈ rows t'.
Proof.
  induction 1 as [|t t1 t' [x Hx] _ IH]; [done|]. intros Hr. apply IH. rewrite (ap_rows _ _ _ Hx). set_solver.
Qed.

Lemma unique_violation_spec k p t :
  unique_violation k p t = true <-> exists r, r ∈ rows t /\ r_name r = k /\ r_prev_revision r = p.
Proof.
  unfold unique_violation. rewrite existsb_exists. setoid_rewrite list_elem_of_In.
  setoid_rewrite andb_true_iff. setoid_rewrite String.eqb_eq. by setoid_rewrite Z.eqb_eq.
Qed.

(** The unique index accepts exactly the successor of the last row. *)
Lemma unique_fresh k t : chain t -> k <> compact_rev_key -> unique_violation k (prev_of k t) t = false.
Proof.
  intros Hc Hk. apply not_true_is_false. rewrite unique_violation_spec. intros (r & Hr & Hn & Hp).
  pose proof (ch_prev _ Hc) as Hpr. rewrite Forall_forall in Hpr. subst k. specialize (Hpr r Hr Hk).
  unfold prev_of in Hp. destruct (last_row (r_name r) t) as [x|] eqn:Hl.
  - pose proof (last_row_max _ _ _ r Hc Hl Hr eq_refl). lia.
  - unfold last_row in Hl. apply last_None in Hl. apply (not_elem_of_nil r).
    rewrite <- Hl. by apply elem_of_name_rows.
Qed.

Lemma prev_of_appends t t' r k : appends t t' r -> r_name r <> k -> name_rows k (rows t') = name_rows k (rows t).
Proof. intros Ha Hn. by rewrite (name_rows_appends t t' r k Ha), decide_False, app_nil_r by done. Qed.

(** The index as a compare-and-swap: from the moment the last row of [k] was
    read, either nothing was written to [k] and the insertion goes through, or
    something was and it is refused. *)
Lemma unique_cas k t0 t : chain t0 -> k <> compact_rev_key -> grows t0 t ->
  (name_rows k (rows t) = name_rows k (rows t0) /\ unique_violation k (prev_of k t0) t = false) \/
  (unique_violation k (prev_of k t0) t = true /\
   exists t1 t2 r, grows t0 t1 /\ appends t1 t2 r /\ r_name r = k /\ grows t2 t /\
     name_rows k (rows t1) = name_rows k (rows t0)).
Proof.
  intros Hc Hk. revert t. apply rtc_ind_r.
  { left. split; [done|]. by apply unique_fresh. }
  intros t t' Hg [r Hr] IH.
  pose proof (grows_chain _ _ Hc Hg) as Hct.
  destruct IH as [[Hn Hu]|[Hu (t1 & t2 & r' & H1 & H2 & H3 & H4 & H5)]].
  - destruct (decide (r_name r = k)) as [Hrk|Hrk].
    + right. assert (Hp : r_prev_revision r = prev_of k t0).
      { rewrite (ap_prev _ _ _ Hr), Hrk. unfold prev_of, last_row. by rewrite Hn. }
      split.
      * apply unique_violation_spec. exists r. rewrite (ap_rows _ _ _ Hr). set_solver.
      * exists t, t', r. by split_and!.
    + left. rewrite (prev_of_appends _ _ _ k Hr Hrk). split; [done|].
      apply not_true_is_false. intros (x & Hx & Hxk & Hxp)%unique_violation_spec.
      rewrite (ap_rows _ _ _ Hr) in Hx. apply elem_of_app in Hx as [Hx|Hx%list_elem_of_singleton]; [|congruence].
      assert (Htr : unique_violation k (prev_of k t0) t = true) by (apply unique_violation_spec; eauto).
      congruence.
  - right. split.
    + apply unique_violation_spec in Hu as (x & Hx & ? & ?). apply unique_violation_spec. exists x.
      rewrite (ap_rows _ _ _ Hr). set_solver.
    + exists t1, t2, r'. split_and!; try done. eapply rtc_r; [done|]. by eexists.
Qed.

(** ** The last row of one key *)
Lemma filter_single {A} (P : A -> Prop) `{!forall x, Decision (P x)} (l : list A) x :
  NoDup l -> x ∈ l -> (forall y, y ∈ l -> P y <-> y = x) -> filter P l = [x].
Proof.
  induction l as [|y l IH]; intros Hd Hx HP; [set_solver|]. apply NoDup_cons in Hd as [Hy Hd].
  rewrite filter_cons. pose proof (HP y ltac:(set_solver)) as HPy. case_decide as Hdec.
  - apply HPy in Hdec as ->. f_equal. apply filter_none. intros z Hz HPz.
    apply (HP z) in HPz; set_solver.
  - apply elem_of_cons in Hx as [->|Hx]; [tauto|]. apply IH; [done|done|]. set_solver.
Qed.

Lemma chain_NoDup t : chain t -> NoDup (rows t).
Proof.
  intros Hc. pose proof (ch_sorted _ Hc) as Hs. induction Hs as [|x l Hs IH Hx]; [constructor|].
  constructor; [|done]. rewrite Forall_forall in Hx. intros Hin. specialize (Hx x Hin).
  unfold id_lt in Hx. lia.
Qed.

Lemma GetSingle_last t k incl : chain t ->
  GetSingleSQL t k incl = with_revs t (match last_row k t with
                                       | Some r => if not_deleted incl r then [r] else []
                                       | None => [] end).
Proof.
  intros Hc. unfold GetSingleSQL. f_equal.
  assert (Hg : forall r, r ∈ rows t -> group_max t (EqualsName k) r = true <-> last_row k t = Some r).
  { intros r Hr. rewrite group_max_spec. unfold EqualsName. rewrite String.eqb_eq. unfold last_row.
    rewrite last_sorted_max by apply StronglySorted_filter, Hc. rewrite elem_of_name_rows.
    setoid_rewrite elem_of_name_rows. setoid_rewrite String.eqb_eq. naive_solver congruence. }
  destruct (last_row k t) as [r|] eqn:Hl.
  - pose proof (last_row_elem _ _ _ Hl) as [Hn Hr]. destruct (not_deleted incl r) eqn:Hd.
    + apply filter_single; [by apply chain_NoDup|done|]. intros y Hy. rewrite andb_true_iff, Hg by done.
      split; [intros [? _]; congruence|]. intros ->. done.
    + apply filter_none. intros y Hy. rewrite andb_true_iff, Hg by done. intros [? ?]. congruence.
  - apply filter_none. intros y Hy. rewrite andb_true_iff, Hg by done. intros [? _]. congruence.
Qed.
