(* ===== verification/LogStructured.v ===== *)
(** * The log-structured backend (pkg/logstructured/logstructured.go)

    Keys and values over an append-only log of events.  [Log] is the interface
    of that name, without the label and field selectors (which it only hands
    through); every method is a tree of calls of the log, so that other
    writers may append between two of them.  The SQL log is an instance. *)
From S2P Require Import Prelude Types GoStrings Prog Sql SqlLog.

Record Log (E : Type -> Type) := MkLog {
  l_Start : prog E gerr;
  l_CompactRevision : prog E (Z * gerr);
  l_CurrentRevision : prog E (Z * gerr);
  l_List (key end_ : string) (limit revision : Z) (includeDeletes keysOnly : bool)
    : prog E (Z * list Event * gerr);
  l_Count (key end_ : string) (revision : Z) : prog E (Z * Z * gerr);
  l_After (key end_ : string) (revision limit : Z) : prog E (Z * list Event * gerr);
  l_Append (event : Event) : prog E (Z * gerr);
  l_Compact (revision : Z) : prog E (Z * gerr)
}.
Arguments l_Start {E} _. Arguments l_CompactRevision {E} _. Arguments l_CurrentRevision {E} _.
Arguments l_List {E} _. Arguments l_Count {E} _. Arguments l_After {E} _. Arguments l_Append {E} _.
Arguments l_Compact {E} _.

Section logstructured.
Context {E : Type -> Type} (log : Log E).

Definition adjustRevision (rev : Z) : prog E Z :=
  if negb (rev =? 0) then Ret rev
  else
    '(newRev, err) <-! l_CurrentRevision log;;
    Ret (if is_err err then rev else newRev).

(** [event.KV] where the code dereferences it. *)
Definition deref {A} (e : Event) (k : KeyValue -> prog E A) : prog E A :=
  match evKV e with Some kv => k kv | None => Panic end.

Definition get (key : string) (revision : Z) (includeDeletes keysOnly : bool)
  : prog E (Z * option Event * gerr) :=
  '(rev, events, err) <-! l_List log key "" 1 revision includeDeletes keysOnly;;
  if is_err err then Ret (0, None, err)
  else match events with [] => Ret (rev, None, None) | e :: _ => Ret (rev, Some e, None) end.

Definition Get (key : string) (revision : Z) (keysOnly : bool) : prog E (Z * option KeyValue * gerr) :=
  '(rev, event, err) <-! get key revision false keysOnly;;
  let kvRet := match event with None => None | Some e => evKV e end in
  revRet <-! adjustRevision rev;;
  Ret (revRet, kvRet, err).

Definition Create_body (key value : string) (lease : Z) : prog E (Z * gerr) :=
  '(_, prevEvent, err) <-! get key 0 true true;;
  if is_err err then Ret (0, err)
  else
    let append prevRev :=
      l_Append log (MkEvent false true (Some (MkKeyValue key value 0 0 0 lease))
                      (Some (MkKeyValue "" "" 0 0 prevRev 0))) in
    match prevEvent with
    | Some e => if negb (evDelete e) then Ret (0, Some ErrKeyExists)
                else deref e (fun kv => append (kvModRevision kv))
    | None => append 0
    end.

Definition Create (key value : string) (lease : Z) : prog E (Z * gerr) :=
  '(revRet, err) <-! Create_body key value lease;;
  revRet <-! adjustRevision revRet;;
  Ret (revRet, err).

Definition Delete_body (key : string) (revision : Z) : prog E (Z * option KeyValue * bool * gerr) :=
  '(rev, event, err) <-! get key 0 true false;;
  if is_err err then Ret (0, None, false, err)
  else
    match event with
    | None => Ret (rev, None, true, None)
    | Some e =>
        if evDelete e then Ret (rev, None, false, None)
        else
          deref e (fun kv =>
            if negb (revision =? 0) && negb (kvModRevision kv =? revision) then Ret (rev, Some kv, false, None)
            else
              '(rev, err) <-! l_Append log (MkEvent true false (Some (MkKeyValue key "" 0 0 0 0))
                               (Some (MkKeyValue "" "" 0 0 (kvModRevision kv) 0)));;
              if is_err err then
                '(latestRev, latestEvent, latestErr) <-! get key 0 true false;;
                match latestEvent with
                | Some le => if is_err latestErr then Ret (rev, Some kv, false, None)
                             else Ret (latestRev, evKV le, false, None)
                | None => Ret (rev, Some kv, false, None)
                end
              else Ret (rev, Some kv, true, None))
    end.

Definition Delete (key : string) (revision : Z) : prog E (Z * option KeyValue * bool * gerr) :=
  '(revRet, kvRet, deletedRet, err) <-! Delete_body key revision;;
  revRet <-! adjustRevision revRet;;
  Ret (revRet, kvRet, deletedRet, err).

(** [kvs = append(kvs, event.KV)]: a slice of pointers. *)
Definition List (key end_ : string) (limit revision : Z) (keysOnly : bool)
  : prog E (Z * list (option KeyValue) * gerr) :=
  '(rev, events, err) <-! l_List log key end_ limit revision false keysOnly;;
  Ret (rev, evKV <$> events, err).

Definition Count (key end_ : string) (revision : Z) : prog E (Z * Z * gerr) := l_Count log key end_ revision.

Definition Update_body (key value : string) (revision lease : Z)
  : prog E (Z * option KeyValue * bool * gerr) :=
  '(rev, event, err) <-! get key 0 false false;;
  if is_err err then Ret (0, None, false, err)
  else
    match event with
    | None => Ret (0, None, false, None)
    | Some e =>
        deref e (fun kv =>
          if negb (kvModRevision kv =? revision) then Ret (rev, Some kv, false, None)
          else
            let newKV modRevision := MkKeyValue key value 0 (kvCreateRevision kv) modRevision lease in
            '(rev, err) <-! l_Append log (MkEvent false false (Some (newKV 0))
                             (Some (MkKeyValue "" "" 0 0 (kvModRevision kv) 0)));;
            if is_err err then
              '(rev, event, err) <-! get key 0 false false;;
              match event with
              | None => Ret (rev, None, false, err)
              | Some e => Ret (rev, evKV e, false, err)
              end
            else Ret (rev, Some (newKV rev), true, None))
    end.

Definition Update (key value : string) (revision lease : Z) : prog E (Z * option KeyValue * bool * gerr) :=
  '(revRet, kvRet, updateRet, err) <-! Update_body key value revision lease;;
  revRet <-! adjustRevision revRet;;
  Ret (revRet, kvRet, updateRet, err).

Definition Compact (revision : Z) : prog E (Z * gerr) := l_Compact log revision.
Definition CurrentRevision : prog E (Z * gerr) := l_CurrentRevision log.

(** ** Watch *)
Record WatchStart := MkWatchStart {
  ws_kvs : list Event;
  ws_lastRevision : Z;
  ws_CompactRevision : Z;
  ws_CurrentRevision : Z;
  ws_err : gerr
}.

(** The part of [Watch] that runs before its goroutine, after the log's watch
    has been subscribed to; a failed listing also cancels the subscription. *)
Definition Watch (key end_ : string) (revision : Z) : prog E WatchStart :=
  let revision := if revision >? 1 then revision - 1 else revision in
  '(rev, kvs, err) <-! l_After log key end_ revision 0;;
  let lastRevision := match kvs with [] => revision | _ => rev end in
  if is_err err then
    if err_eq err ErrCompacted then
      '(compact, _) <-! l_CompactRevision log;;
      Ret (MkWatchStart kvs lastRevision compact rev None)
    else Ret (MkWatchStart kvs lastRevision 0 0 (Some ErrGRPCUnhealthy))
  else Ret (MkWatchStart kvs lastRevision 0 0 None).

(** [filter]; [None] is the panic of an event without a value at its head. *)
Fixpoint filter (events : list Event) (rev : Z) : option (list Event) :=
  match events with
  | [] => Some []
  | e :: events' =>
      match evKV e with
      | None => None
      | Some kv => if kvModRevision kv <=? rev then filter events' rev else Some events
      end
  end.

(** What the goroutine sends for the batches of the log's watch. *)
Definition watch_sends (w : WatchStart) (batches : list (list Event)) : option (list (list Event)) :=
  match mapM (fun b => filter b (ws_lastRevision w)) batches with
  | Some rest => Some (match ws_kvs w with [] => rest | kvs => kvs :: rest end)
  | None => None
  end.

(** [Start], up to launching the expiry goroutine; a failure to create the
    health key is logged. *)
Definition Start : prog E gerr :=
  err <-! l_Start log;;
  if is_err err then Ret err
  else _ <-! Create HealthKey HealthVal 0;; Ret None.
End logstructured.

(** The SQL log. *)
Definition sqlLog (compactInterval batch minRetain : Z) : Log dop :=
  MkLog dop (SqlLog.Start batch) SqlLog.CompactRevision SQLLog_CurrentRevision SQLLog_List SQLLog_Count
    SQLLog_After Append (SQLLog_Compact compactInterval batch minRetain).
