(* ===== verification/LogProofs.v ===== *)
(** * The log-structured backend on the SQL log, under concurrent writers

    The other clients of the table make any steps [env] that add rows on top of
    the last row of a key ([SqlProofs.grows]); the lemmas here show what each
    method adds of its own between such steps, and that it is such a writer
    itself.  Filling of revision gaps and compaction are not among the
    concurrent steps. *)
From S2P Require Import Prelude Types GoStrings Prog OrderedMap Mvcc MemoryProofs Sql SqlLog SqlProofs LogStructured.

Definition lenv (w w' : world) : Prop :=
  grows (w_table w) (w_table w') /\ (0 <= w_currentRev w -> 0 <= w_currentRev w') /\ w_objects w' = w_objects w.

(** The row that [Start] creates is there. *)
Definition started (t : table) : Prop :=
  exists r, r ∈ rows t /\ r_name r = compact_rev_key /\ r_deleted r = false.

Record ready (w : world) : Prop := {
  rd_chain : chain (w_table w);
  rd_started : started (w_table w);
  rd_cached : 0 <= w_currentRev w;
  rd_empty : forall k, refusal (w_objects w k "") "" = None
}.

#[export] Instance lenv_refl : Reflexive lenv.
Proof. intros w. split; [apply rtc_refl|done]. Qed.

#[export] Instance lenv_trans : Transitive lenv.
Proof. intros w1 w2 w3 (H1 & H2 & H3) (H4 & H5 & H6). split_and!; [by etrans|auto|by rewrite H6]. Qed.

Lemma rtc_lenv w w' : rtc lenv w w' -> lenv w w'.
Proof. induction 1 as [|w w1 w' Hw _ IH]; [done|]. by etrans. Qed.

Lemma started_grows t t' : started t -> grows t t' -> started t'.
Proof. intros (r & ? & ? & ?) Hg. exists r. eauto using grows_elem. Qed.

Lemma started_rows t : started t -> name_rows compact_rev_key (rows t) <> [].
Proof.
  intros (r & Hr & Hn & _) Hnil. apply (not_elem_of_nil r). rewrite <- Hnil. by apply elem_of_name_rows.
Qed.

Lemma sql_max_Some l : l <> [] -> exists m, sql_max l = Some m.
Proof. destruct l; [done|]. simpl. eauto. Qed.

Lemma started_revs t : started t -> exists n c, CurrentRevSQL t = Some n /\ CompactRevSQL t = Some c.
Proof.
  intros Hs%started_rows. unfold CurrentRevSQL, CompactRevSQL. fold (name_rows compact_rev_key (rows t)).
  destruct (sql_max_Some (r_id <$> rows t)) as [n ->].
  { intros Hn%fmap_nil_inv. apply Hs. unfold name_rows. by rewrite Hn. }
  destruct (sql_max_Some (r_prev_revision <$> name_rows compact_rev_key (rows t))) as [c ->];
    [by intros Hn%fmap_nil_inv|]. eauto.
Qed.

Lemma sql_max_elem l m : sql_max l = Some m -> m ∈ l.
Proof.
  revert m. induction l as [|x l IH]; simpl; intros m; [done|]. intros [= <-].
  destruct (sql_max l) as [y|]; [|set_solver]. specialize (IH y eq_refl).
  destruct (Z.max_spec x y) as [[_ ->]|[_ ->]]; set_solver.
Qed.

Lemma sql_max_ub l m x : sql_max l = Some m -> x ∈ l -> x <= m.
Proof.
  revert m. induction l as [|y l IH]; simpl; intros m; [set_solver|]. intros [= <-].
  destruct (sql_max l) as [z|] eqn:Hz.
  - intros [->|Hx]%elem_of_cons; [lia|]. specialize (IH z eq_refl Hx). lia.
  - destruct l as [|a l]; [|by destruct (sql_max_Some (a :: l)) as [? ?]; [done|congruence]].
    intros Hx%list_elem_of_singleton. lia.
Qed.

Lemma sql_max_spec l m : sql_max l = Some m <-> m ∈ l /\ forall x, x ∈ l -> x <= m.
Proof.
  split; [intros Hm; split; [by apply sql_max_elem|]; intros x; by apply sql_max_ub|].
  intros [Hin Hall]. destruct (sql_max_Some l) as [m' Hm']; [by intros ->; set_solver|].
  rewrite Hm'. f_equal. pose proof (sql_max_ub _ _ _ Hm' Hin). pose proof (Hall m' (sql_max_elem _ _ Hm')). lia.
Qed.

Lemma CurrentRev_bounds t n : chain t -> CurrentRevSQL t = Some n -> 0 < n <= seq t.
Proof.
  intros Hc (r & -> & Hr)%sql_max_elem%list_elem_of_fmap. pose proof (ch_ids _ Hc) as Hi.
  rewrite Forall_forall in Hi. by apply Hi.
Qed.

Lemma rows_nonempty t r : r ∈ rows t -> exists n, CurrentRevSQL t = Some n.
Proof. intros Hr. apply sql_max_Some. intros Hn%fmap_nil_inv. rewrite Hn in Hr. set_solver. Qed.

Lemma ready_lenv w w' : ready w -> lenv w w' -> ready w'.
Proof. intros [? ? ? He] (? & ? & Ho). split; [eauto using grows_chain|eauto using started_grows|auto|by rewrite Ho]. Qed.

(** ** The other clients *)
Section env.
Variable env : world -> world -> Prop.
Hypothesis env_ok : forall w w', env w w' -> lenv w w'.

(** A step of another client, or one that leaves the table as it is. *)
Definition calm (w w' : world) : Prop :=
  env w w' \/ (w_table w' = w_table w /\ (0 <= w_currentRev w -> 0 <= w_currentRev w') /\ w_objects w' = w_objects w).
Definition others : world -> world -> Prop := rtc calm.

Lemma rtc_env_others w w' : rtc env w w' -> others w w'.
Proof using Type. induction 1; [done|]. eapply rtc_l; [|done]. by left. Qed.

Lemma others_table w w' : w_table w' = w_table w -> (0 <= w_currentRev w -> 0 <= w_currentRev w') ->
  w_objects w' = w_objects w -> others w w'.
Proof using Type. intros Ht Hc Ho. apply rtc_once. by right. Qed.

Lemma others_lenv w w' : others w w' -> lenv w w'.
Proof using env_ok.
  induction 1 as [|w w1 w' [Hw|(Ht & Hc & Ho)] _ IH]; [done|etrans; [by apply env_ok|done]|].
  etrans; [|done]. split; [by rewrite Ht|done].
Qed.

Lemma others_grows w w' : others w w' -> grows (w_table w) (w_table w').
Proof using env_ok. apply others_lenv. Qed.

Lemma ready_others w w' : ready w -> others w w' -> ready w'.
Proof using env_ok. intros Hr Ho. eapply ready_lenv; [done|by apply others_lenv]. Qed.

Lemma others_objects w w' : others w w' -> w_objects w' = w_objects w.
Proof using env_ok. intros Ho. apply (others_lenv _ _ Ho). Qed.

Lemma collects_empty obj : collects obj "" = false.
Proof using Type. by destruct obj. Qed.

(** A moment, between [w] and [w'], of the step from [t1] to [t2]: before it
    and after it there are steps of other clients only. *)
Definition moment (w w' : world) (P : table -> table -> Prop) : Prop :=
  exists w1 w2, others w w1 /\ P (w_table w1) (w_table w2) /\ others w2 w'.

(** Steps of other clients only, and a moment of them. *)
Definition saw (w w' : world) (P : table -> Prop) : Prop :=
  others w w' /\ exists t, grows (w_table w) t /\ P t /\ grows t (w_table w').

Lemma saw_here w w1 w' (P : table -> Prop) : others w w1 -> others w1 w' -> P (w_table w1) -> saw w w' P.
Proof using env_ok. intros H1 H2 HP. split; [by trans w1|]. exists (w_table w1). eauto using others_grows. Qed.

(** ** The log's operations *)
Ltac next_call H w := apply exec_inv in H as (w & ?Henv%rtc_env_others & _ & H);
  cbn [h_do dialect_handler dialect_do fst snd pbind] in H.

Lemma exec_CurrentRevision w x w' : exec_in env SQLLog_CurrentRevision w x w' -> ready w ->
  others w w' /\ exists rev, x = Some (rev, None) /\ 0 <= rev.
Proof using env_ok.
  intros Hex Hr. next_call Hex w1. pose proof (ready_others _ _ Hr Henv) as Hr1.
  destruct (w_currentRev w1 =? 0) eqn:E0; cbn [negb] in Hex.
  2:{ apply exec_Ret_inv in Hex as [-> ->]. split; [done|]. eexists. split; [done|]. apply Hr1. }
  next_call Hex w2. pose proof (ready_others _ _ Hr1 Henv0) as Hr2.
  destruct (started_revs (w_table w2)) as (n & c & Hn & _); [apply Hr2|].
  pose proof (CurrentRev_bounds _ _ (rd_chain _ Hr2) Hn) as Hb.
  unfold Sql.CurrentRevision in Hex. rewrite Hn in Hex. cbn [scan_int64 is_err] in Hex.
  next_call Hex w3. pose proof (ready_others _ _ Hr2 Henv1) as Hr3.
  assert (Hg : others w w3) by (do 2 (etrans; [eassumption|]); done).
  destruct (w_currentRev w3 =? w_currentRev w1); cbn [fst snd pbind] in Hex.
  - apply exec_Ret_inv in Hex as [-> ->]. split; [|eexists; split; [done|lia]].
    etrans; [exact Hg|]. apply others_table; [done| |done]. simpl. lia.
  - next_call Hex w4. apply exec_Ret_inv in Hex as [-> ->]. split; [by etrans|]. eexists. split; [done|].
    apply (ready_others _ _ Hr3 Henv2).
Qed.

(** What follows an empty result of a list at the current revision. *)
Lemma exec_empty_list w x w' :
  exec_in env ('(rev, compact, err) <-!
      ('(rev, err) <-! SQLLog_CurrentRevision;;
       if is_err err then Ret (0, 0, err)
       else '(compact, err) <-! call DGetCompactRevision;;
            if is_err err then Ret (0, 0, err) else Ret (rev, compact, None));;
      if is_err err then Ret (0, [], err)
      else if 0 >? rev then Ret (rev, [], Some ErrFutureRev)
      else if (0 >? 0) && (0 <? compact) then Ret (rev, [], Some ErrCompacted)
      else Ret (rev, [], None)) w x w' ->
  ready w -> others w w' /\ exists rev, x = Some (rev, [] : list Event, None).
Proof using env_ok.
  intros Hex Hr. apply exec_bind_inv in Hex as [([[rev c] err] & w2 & Hex & Hf)|[Hex ->]].
  - apply exec_bind_inv in Hex as [([rev1 err1] & w1 & Hcur & Hex)|[Hex [=]]].
    apply exec_CurrentRevision in Hcur as [Hg (rev' & [= -> ->] & Hpos)]; [|done]. cbn [is_err] in Hex.
    next_call Hex w3. pose proof (ready_others _ _ (ready_others _ _ Hr Hg) Henv) as Hr3.
    destruct (started_revs (w_table w3)) as (n & c' & _ & Hc'); [apply Hr3|].
    unfold GetCompactRevision in Hex. rewrite Hc' in Hex. cbn [scan_int64 is_err] in Hex.
    apply exec_Ret_inv in Hex as [[= -> -> ->] ->]. cbn [is_err] in Hf.
    destruct (Z.gtb_spec 0 rev'); [lia|]. apply exec_Ret_inv in Hf as [-> ->]. split; [by etrans|eauto].
  - exfalso. apply exec_bind_inv in Hex as [([rev1 err1] & w1 & Hcur & Hex)|[Hex _]].
    + apply exec_CurrentRevision in Hcur as [Hg (rev' & [= -> ->] & Hpos)]; [|done]. cbn [is_err] in Hex.
      next_call Hex w3. case_match. case_match; apply exec_Ret_inv in Hex as [? _]; done.
    + by apply exec_CurrentRevision in Hex as [_ (? & ? & _)].
Qed.

Definition row_event (val : bool) (r : row) : Event := (scan (None, None, r) val false).2.

Definition seen_event (keysOnly incl : bool) (o : option row) : option Event :=
  match o with Some r => if not_deleted incl r then Some (row_event (negb keysOnly) r) else None | None => None end.

Section log.
Variables (ci batch mr : Z).
Local Abbreviation L := (sqlLog ci batch mr).

Lemma exec_get k incl ko w x w' : exec_in env (get L k 0 incl ko) w x w' -> ready w ->
  exists w1 rev, others w w1 /\ others w1 w' /\ x = Some (rev, seen_event ko incl (last_row k (w_table w1)), None).
Proof using env_ok.
  intros Hex Hr. next_call Hex w1. pose proof (ready_others _ _ Hr Henv) as Hr1. exists w1.
  unfold ListCurrent in Hex. cbn [String.eqb] in Hex. rewrite GetSingle_last in Hex by apply Hr1.
  assert (Hempty : seen_event ko incl (last_row k (w_table w1)) = None ->
    match last_row k (w_table w1) with Some r => if not_deleted incl r then [r] else [] | None => [] end = []).
  { unfold seen_event. destruct (last_row k (w_table w1)) as [r|]; [|done]. by destruct (not_deleted incl r). }
  destruct (seen_event ko incl (last_row k (w_table w1))) as [e|] eqn:He.
  - unfold seen_event in He. destruct (last_row k (w_table w1)) as [r|] eqn:Hl; [|done].
    destruct (not_deleted incl r) eqn:Hd; [|done]. injection He as <-.
    apply last_row_elem in Hl as [_ Hin]. destruct (rows_nonempty _ _ Hin) as [n Hn].
    pose proof (CurrentRev_bounds _ _ (rd_chain _ Hr1) Hn) as Hnb.
    unfold with_revs in Hex. rewrite Hn in Hex. cbn -[Z.gtb] in Hex.
    destruct (Z.gtb_spec 0 n); [lia|]. cbn in Hex.
    apply exec_Ret_inv in Hex as [-> ->]. by eexists.
  - rewrite Hempty in Hex by done. clear Hempty He.
    cbn [with_revs fmap list_fmap RowsToEvents RowsToEvents_loop] in Hex.
    apply exec_bind_inv in Hex as [(y & w2 & Hex & Hf)|[Hex ->]].
    + apply exec_empty_list in Hex as [Hg [rev [= ->]]]; [|done].
      apply exec_Ret_inv in Hf as [-> ->]. eauto.
    + by apply exec_empty_list in Hex as [_ [rev ?]].
Qed.

Lemma exec_adjust rev w x w' : exec_in env (adjustRevision L rev) w x w' -> ready w ->
  others w w' /\ exists rev', x = Some rev' /\ (rev <> 0 -> rev' = rev).
Proof using env_ok.
  unfold adjustRevision. intros Hex Hr. destruct (rev =? 0) eqn:E0; b2p; cbn [negb] in Hex.
  2:{ apply exec_Ret_inv in Hex as [-> ->]. split; [done|eauto]. }
  apply exec_bind_inv in Hex as [([rev' err] & w1 & Hcur & Hex)|[Hex ->]].
  - apply exec_CurrentRevision in Hcur as [Hg (? & [= -> ->] & _)]; [|done].
    apply exec_Ret_inv in Hex as [-> ->]. split; [done|]. eexists. split; [done|]. done.
  - by apply exec_CurrentRevision in Hex as [_ (? & ? & _)].
Qed.

(** An insertion adds its row or is refused. *)
Lemma Insert_cases obj name c d crev prev l v t : collects obj v = false ->
  Insert obj name c d crev prev l v t = insert_row name c d crev prev l v t \/
  exists e, refusal obj v = Some e /\ Insert obj name c d crev prev l v t = ((0, Some e), t).
Proof using Type.
  destruct obj as [|m|m|f]; cbn; intros Hc; eauto.
  - destruct (String.eqb v ""); [by left|]. destruct (is_err _); eauto.
  - destruct (String.eqb v ""); [by left|done].
Qed.

Lemma Insert_id obj name c d crev prev l v t : collects obj v = false ->
  let ins := Insert obj name c d crev prev l v t in is_err ins.1.2 = false -> ins.1.1 = seq t + 1.
Proof using Type.
  intros Hc ins. unfold ins.
  destruct (Insert_cases obj name c d crev prev l v t Hc) as [->|(e & _ & ->)]; [|done].
  unfold insert_row. by destruct (unique_violation _ _ _).
Qed.

Lemma exec_append e w x w' : exec_in env (Append e) w x w' -> 0 <= seq (w_table w) ->
  let kv := default zeroKV (evKV e) in collects (w_objects w (kvKey kv) (kvValue kv)) (kvValue kv) = false ->
  exists w1 w2, others w w1 /\ others w2 w' /\
    let ins := Insert (w_objects w (kvKey kv) (kvValue kv)) (kvKey kv) (evCreate e) (evDelete e) (kvCreateRevision kv)
                 (kvModRevision (default zeroKV (evPrevKV e))) (kvLease kv) (kvValue kv) (w_table w1) in
    w_table w2 = ins.2 /\ w_currentRev w2 = w_currentRev w1 /\ w_objects w2 = w_objects w1 /\
    x = Some (if is_err ins.1.2 then 0 else ins.1.1, ins.1.2).
Proof using env_ok.
  intros Hex Hpos kv Hplain. next_call Hex w1. next_call Hex w2.
  exists w2. fold kv in Hex. assert (Hobj : w_objects w2 = w_objects w).
  { etrans; [apply (others_lenv _ _ Henv0)|apply (others_lenv _ _ Henv)]. }
  rewrite Hobj in Hex. cbn zeta. set (ins := Insert _ _ _ _ _ _ _ _ (w_table w2)) in *.
  assert (Hseq : seq (w_table w) <= seq (w_table w2)).
  { etrans; [apply (grows_seq _ _ (others_grows _ _ Henv))|apply (grows_seq _ _ (others_grows _ _ Henv0))]. }
  assert (Hrev : is_err ins.1.2 = false -> ins.1.1 = seq (w_table w2) + 1).
  { by apply Insert_id. }
  destruct ins as [[rev err] t2] eqn:Hins. cbn [fst snd] in *.
  exists (on_table (fun _ => t2) w2). split; [by etrans|].
  destruct err as [err|]; cbn [is_err] in Hex |- *.
  { by apply exec_Ret_inv in Hex as [-> ->]. }
  specialize (Hrev eq_refl). next_call Hex w3. split; [|split; [done|]; split; [done|]; split; [done|]].
  - destruct (w_currentRev w3 =? w_currentRev w1); cbn in Hex; apply exec_Ret_inv in Hex as [-> ->]; [|done].
    etrans; [exact Henv1|]. apply others_table; [done| |done]. simpl. lia.
  - destruct (w_currentRev w3 =? w_currentRev w1); cbn in Hex; by apply exec_Ret_inv in Hex as [-> _].
Qed.
End log.

(** ** Insertion on top of a row read earlier *)
Lemma insert_cas k (c d : bool) crev l v t0 t1 :
  chain t0 -> k <> compact_rev_key -> grows t0 t1 ->
  (if c then current (thist t0) k = None /\ d = false
   else exists kv, current (thist t0) k = Some kv /\ (d = false -> crev = kvCreateRevision kv)) ->
  let ins := insert_row k c d crev (prev_of k t0) l v t1 in
  let id := seq t1 + 1 in
  (ins.1 = (id, None) /\ name_rows k (rows t1) = name_rows k (rows t0) /\
   exists r, appends t1 ins.2 r /\
     row_write r = MkWrite id k v (if c then id else crev) 0 (prev_of k t0) l c d) \/
  (ins.1.2 = Some ErrKeyExists /\ ins.2 = t1 /\
   exists t2 t3 r, grows t0 t2 /\ appends t2 t3 r /\ r_name r = k /\ grows t3 t1 /\
     name_rows k (rows t2) = name_rows k (rows t0)).
Proof.
  intros Hc Hk Hg Hkind. cbn zeta. unfold insert_row.
  destruct (unique_cas k t0 t1 Hc Hk Hg) as [[Hn ->]|[-> Hraced]]; [left|by right].
  split; [done|]. split; [done|]. eexists. split.
  - split; cbn; try done.
    + cbn. unfold prev_of, last_row. by rewrite Hn.
    + cbn. assert (Hcur : current (thist t1) k = current (thist t0) k); [|by rewrite Hcur].
      rewrite !current_row. unfold last_row. by rewrite Hn.
  - done.
Qed.

Lemma current_last k t r : last_row k t = Some r -> r_deleted r = false ->
  current (thist t) k = Some (wKV (row_write r)).
Proof. intros Hl Hd. rewrite current_row, Hl. simpl. by rewrite Hd. Qed.

Lemma current_dead k t : (forall r, last_row k t = Some r -> r_deleted r = true) -> current (thist t) k = None.
Proof.
  intros Hd. rewrite current_row. destruct (last_row k t) as [r|]; [|done]. simpl. by rewrite Hd.
Qed.

Lemma current_some k t kv : current (thist t) k = Some kv ->
  exists r, last_row k t = Some r /\ r_deleted r = false /\ kv = wKV (row_write r).
Proof.
  rewrite current_row. destruct (last_row k t) as [r|]; [|done]. simpl.
  destruct (r_deleted r) eqn:Hd; [done|]. intros [= <-]. eauto.
Qed.

Lemma live_appends t t' r : appends t t' r -> r_created r = true -> is_Some (current (thist t') (r_name r)).
Proof.
  intros Ha Hcr. rewrite (thist_appends _ _ _ Ha), current_snoc. simpl. rewrite decide_True by done.
  pose proof (ap_kind _ _ _ Ha) as Hk. rewrite Hcr in Hk. destruct Hk as [_ ->]. eauto.
Qed.

Section bodies.
Variables (ci batch mr : Z).
Local Abbreviation L := (sqlLog ci batch mr).

(** The row that is appended on top of what was read at [t0]. *)
Definition appended k (c d : bool) crev l v (t0 t1 t2 : table) (id : Z) : Prop :=
  id = seq t1 + 1 /\ name_rows k (rows t1) = name_rows k (rows t0) /\
  exists r, appends t1 t2 r /\ row_write r = MkWrite id k v (if c then id else crev) 0 (prev_of k t0) l c d.

(** Another writer's row came before it. *)
Definition raced k (t0 t : table) : Prop :=
  exists t1 t2 r, grows t0 t1 /\ appends t1 t2 r /\ r_name r = k /\ grows t2 t /\
    name_rows k (rows t1) = name_rows k (rows t0).

(** The outcomes of an append on top of the row read at [t0]. *)
Lemma append_outcome k (c d : bool) crev l v t0 w x w' :
  ready w -> chain t0 -> k <> compact_rev_key -> grows t0 (w_table w) ->
  (if c then current (thist t0) k = None /\ d = false
   else exists kv, current (thist t0) k = Some kv /\ (d = false -> crev = kvCreateRevision kv)) ->
  collects (w_objects w k v) v = false ->
  exec_in env (Append (MkEvent d c (Some (MkKeyValue k v 0 crev 0 l))
                         (Some (MkKeyValue "" "" 0 0 (prev_of k t0) 0)))) w x w' ->
  ready w' /\
  ((exists id, x = Some (id, None) /\ moment w w' (fun t1 t2 => appended k c d crev l v t0 t1 t2 id)) \/
   (x = Some (0, Some ErrKeyExists) /\ others w w' /\ raced k t0 (w_table w')) \/
   (exists e, refusal (w_objects w k v) v = Some e /\ x = Some (0, Some e) /\ others w w')).
Proof using env_ok.
  intros Hr Hc Hk Hg Hkind Hplain Hex. apply exec_append in Hex as (w1 & w2 & Hw1 & Hw2 & Hins); [|apply Hr|done].
  cbn -[Insert] in Hins. destruct Hins as (Hw & Hcur & Hobj & Hx). pose proof (ready_others _ _ Hr Hw1) as Hr1.
  assert (Hg1 : grows t0 (w_table w1)) by (etrans; [exact Hg|by apply others_grows]).
  destruct (Insert_cases (w_objects w k v) k c d crev (prev_of k t0) l v (w_table w1) Hplain) as [Hi|(e & He & Hi)].
  2:{ rewrite Hi in Hw, Hx. cbn [fst snd is_err] in Hw, Hx.
      assert (Ho : others w w') by (etrans; [exact Hw1|]; etrans; [|exact Hw2]; apply others_table; [done|by rewrite Hcur|done]).
      split; [exact (ready_others _ _ Hr Ho)|]. right; right. by exists e. }
  rewrite Hi in Hw, Hx. clear Hi.
  destruct (insert_cas k c d crev l v t0 (w_table w1) Hc Hk Hg1 Hkind)
    as [(Hi & Hn & r & Ha & Hrw)|(He & Ht & t2 & t3 & r & Ht2 & Ha & Hrn & Ht3 & Hn)].
  - rewrite Hi in Hx. cbn [is_err fst snd] in Hx. rewrite <- Hw in Ha. split.
    + eapply ready_others; [|exact Hw2]. eapply ready_lenv; [exact Hr1|].
      split_and!; [apply rtc_once; eauto|by rewrite Hcur|done].
    + left. eexists. split; [exact Hx|]. exists w1, w2. unfold appended. eauto 10.
  - rewrite He in Hx. cbn [is_err fst snd] in Hx. rewrite Ht in Hw.
    assert (Ho : others w w').
    { etrans; [exact Hw1|]. etrans; [|exact Hw2]. apply others_table; [done|by rewrite Hcur|done]. }
    split; [exact (ready_others _ _ Hr Ho)|]. right; left. split; [exact Hx|]. split; [done|]. exists t2, t3, r.
    split_and!; [done|done|done| |done]. etrans; [exact Ht3|]. rewrite <- Hw. by apply others_grows.
Qed.

Lemma raced_saw k t0 w w' (P : table -> Prop) : grows (w_table w) t0 -> others w w' -> raced k t0 (w_table w') ->
  (forall t1 t2 r, appends t1 t2 r -> r_name r = k -> grows t0 t1 -> name_rows k (rows t1) = name_rows k (rows t0) -> P t2) ->
  saw w w' P.
Proof using Type.
  intros Hg Ho (t1 & t2 & r & Ht1 & Ha & Hrn & Ht2 & Hn) HP. split; [done|]. exists t2. split_and!; [|by eapply HP|done].
  etrans; [exact Hg|]. etrans; [exact Ht1|]. apply rtc_once. eauto.
Qed.

Lemma same_current k t0 t1 : name_rows k (rows t1) = name_rows k (rows t0) -> current (thist t1) k = current (thist t0) k.
Proof using Type. intros Hn. rewrite !current_row. unfold last_row. by rewrite Hn. Qed.

Lemma same_prev k t0 t1 : name_rows k (rows t1) = name_rows k (rows t0) -> prev_of k t1 = prev_of k t0.
Proof using Type. intros Hn. unfold prev_of, last_row. by rewrite Hn. Qed.

Lemma moment_before w w1 w' P : others w w1 -> moment w1 w' P -> moment w w' P.
Proof using Type. intros H1 (w2 & w3 & H2 & HP & H3). exists w2, w3. split; [by trans w1|done]. Qed.

Lemma moment_after w w1 w' P : moment w w1 P -> others w1 w' -> moment w w' P.
Proof using Type. intros (w2 & w3 & H2 & HP & H3) H1. exists w2, w3. split; [done|]. split; [done|by trans w1]. Qed.

Lemma moment_impl w w' (P Q : table -> table -> Prop) : ready w -> moment w w' P ->
  (forall t1 t2, chain t1 -> P t1 t2 -> Q t1 t2) -> moment w w' Q.
Proof using env_ok.
  intros Hr (w1 & w2 & H1 & HP & H2) HQ. exists w1, w2. split; [done|]. split; [|done].
  apply HQ; [|done]. apply (ready_others _ _ Hr H1).
Qed.

(** Outcomes of the three methods. *)
Definition created k v l rev (t1 t2 : table) : Prop :=
  current (thist t1) k = None /\ rev = seq t1 + 1 /\
  thist t2 = thist t1 ++ [MkWrite rev k v rev 0 (prev_of k t1) l true false].
Definition updated k v rev l n (kv : option KeyValue) (t1 t2 : table) : Prop :=
  n = seq t1 + 1 /\ exists kv0, current (thist t1) k = Some kv0 /\ kvModRevision kv0 = rev /\
  thist t2 = thist t1 ++ [MkWrite n k v (kvCreateRevision kv0) 0 rev l false false] /\
  kv = Some (MkKeyValue k v 0 (kvCreateRevision kv0) n l).
(** [no] is the error of a value that cannot be stored. *)
Definition not_created k (no : option err) e (w w' : world) : Prop :=
  (e = ErrKeyExists /\ saw w w' (fun t => is_Some (current (thist t) k))) \/
  (no = Some e /\ saw w w' (fun t => current (thist t) k = None)).
Definition not_updated k rev (no : option err) (kv : option KeyValue) (t : table) : Prop :=
  kv = current (thist t) k /\ ((forall kv0, kv = Some kv0 -> kvModRevision kv0 <> rev) \/ is_Some no).
Definition deleted k rev n kv (t1 t2 : table) : Prop :=
  n = seq t1 + 1 /\ current (thist t1) k = Some kv /\ (rev = 0 \/ kvModRevision kv = rev) /\
  thist t2 = thist t1 ++ [MkWrite n k "" 0 0 (kvModRevision kv) 0 false true].
Definition not_deleted_at k rev (kv : option KeyValue) (t : table) : Prop :=
  (current (thist t) k = None /\ kv = None) \/
  (current (thist t) k = kv /\ rev <> 0 /\ forall kv0, kv = Some kv0 -> kvModRevision kv0 <> rev) \/
  (exists t0 r, appends t0 t r /\ r_name r = k).

Lemma create_body_exec k v l w x w' : ready w -> k <> compact_rev_key ->
  collects (w_objects w k v) v = false ->
  exec_in env (Create_body L k v l) w x w' ->
  ready w' /\ exists rev err, x = Some (rev, err) /\
    match err with
    | None => moment w w' (created k v l rev)
    | Some e => not_created k (refusal (w_objects w k v) v) e w w'
    end.
Proof using env_ok.
  intros Hr Hk Hplain Hex. apply exec_bind_inv in Hex as [([[rev0 ev] err0] & w2 & Hget & Hex)|[Hget ->]];
    apply exec_get in Hget as (w1 & rev1 & Hw1 & Hw2 & [= -> -> ->]); try done.
  cbn [is_err] in Hex. pose proof (ready_others _ _ Hr Hw1) as Hr1. pose proof (ready_others _ _ Hr1 Hw2) as Hr2.
  assert (Hobj : w_objects w2 = w_objects w) by (rewrite (others_objects _ _ Hw2); by apply others_objects).
  rewrite <- Hobj in Hplain |- *.
  assert (Happ : current (thist (w_table w1)) k = None ->
    exec_in env (Append (MkEvent false true (Some (MkKeyValue k v 0 0 0 l))
                   (Some (MkKeyValue "" "" 0 0 (prev_of k (w_table w1)) 0)))) w2 x w' ->
    ready w' /\ exists rev err, x = Some (rev, err) /\
      match err with
      | None => moment w w' (created k v l rev)
      | Some e => not_created k (refusal (w_objects w2 k v) v) e w w'
      end).
  { intros Hcur Hap. apply append_outcome in Hap as [Hr' Hor];
      [|done|apply Hr1|done|by apply others_grows|done|done].
    split; [done|]. destruct Hor as [(id & -> & Hm)|[(-> & Ho & Hrace)|(e & He & -> & Ho)]]; (eexists _, _; split; [done|]).
    - apply (moment_before _ w2); [by trans w1|]. eapply moment_impl; [done|exact Hm|].
      intros t1 t2 _ (-> & Hn & r & Ha & Hrw). split; [by rewrite (same_current _ _ _ Hn)|]. split; [done|].
      by rewrite (thist_appends _ _ _ Ha), Hrw, (same_prev _ _ _ Hn).
    - left. split; [done|]. eapply raced_saw; [by apply (others_grows _ w1)|by do 2 (etrans; [eassumption|])|done|].
      intros t1 t2 r Ha Hrn _ Hn. rewrite <- Hrn. eapply live_appends; [done|].
      pose proof (ap_kind _ _ _ Ha) as Hkd. destruct (r_created r); [done|].
      destruct Hkd as (kv & Hkv & _). rewrite Hrn, (same_current _ _ _ Hn) in Hkv. congruence.
    - right. split; [done|]. apply (saw_here _ w1); [done|by trans w2|done]. }
  unfold seen_event in Hex. destruct (last_row k (w_table w1)) as [r|] eqn:Hl.
  - unfold not_deleted in Hex; rewrite orb_true_r in Hex.
    destruct (r_deleted r) eqn:Hd; cbn in Hex; rewrite ?Hd in Hex; cbn [negb] in Hex.
    + apply Happ; [apply current_dead; congruence|]. unfold prev_of. by rewrite Hl.
    + apply exec_Ret_inv in Hex as [-> ->]. split; [done|]. eexists _, _. split; [done|]. left. split; [done|].
      apply (saw_here _ w1); [done|done|]. erewrite current_last; eauto.
  - apply Happ; [apply current_dead; congruence|]. unfold prev_of. by rewrite Hl.
Qed.

Lemma seen_live t k : seen_event false false (last_row k t) = None -> current (thist t) k = None.
Proof.
  unfold seen_event, not_deleted. intros He. apply current_dead. intros r Hl. rewrite Hl in He.
  by destruct (r_deleted r).
Qed.

Lemma seen_current t k e : seen_event false false (last_row k t) = Some e ->
  exists r, last_row k t = Some r /\ evKV e = Some (wKV (row_write r)) /\
    current (thist t) k = Some (wKV (row_write r)).
Proof.
  unfold seen_event, not_deleted. destruct (last_row k t) as [r|] eqn:Hl; [|done].
  destruct (r_deleted r) eqn:Hd; [done|]. cbn. intros [= <-]. exists r. split_and!; [done|done|].
  by apply current_last.
Qed.

(** A value is never read again at an older revision than one appended since. *)
Lemma current_after_race k t0 t1 t3 kv : chain t0 -> k <> compact_rev_key -> raced k t0 t1 -> grows t1 t3 ->
  current (thist t3) k = Some kv -> prev_of k t0 < kvModRevision kv.
Proof using Type.
  clear env_ok env. intros Hc Hk (ta & tb & r & Hg & Ha & Hn & Hg1 & _) Hg2 Hcur. apply current_some in Hcur as (r' & Hl & _ & ->). simpl.
  pose proof (grows_chain _ _ Hc Hg) as Hc1. assert (Hg' : grows tb t3) by (by trans t1).
  pose proof (grows_chain _ _ (chain_appends _ _ _ Hc1 Ha) Hg') as Hc3.
  assert (Hin : r ∈ rows t3) by (eapply grows_elem; [done|]; rewrite (ap_rows _ _ _ Ha); set_solver).
  pose proof (last_row_max _ _ _ _ Hc3 Hl Hin Hn). pose proof (ap_id _ _ _ Ha).
  pose proof (prev_of_bounds k t0 Hc). pose proof (grows_seq _ _ Hg). lia.
Qed.

Lemma update_body_exec k v rev l w x w' : ready w -> k <> compact_rev_key ->
  collects (w_objects w k v) v = false ->
  exec_in env (Update_body L k v rev l) w x w' ->
  ready w' /\ exists n kv ok, x = Some (n, kv, ok, None) /\
    if ok : bool then moment w w' (updated k v rev l n kv) else saw w w' (not_updated k rev (refusal (w_objects w k v) v) kv).
Proof using env_ok.
  intros Hr Hk Hplain Hex. apply exec_bind_inv in Hex as [([[rev0 ev] err0] & w2 & Hget & Hex)|[Hget ->]];
    apply exec_get in Hget as (w1 & rev1 & Hw1 & Hw2 & [= -> -> ->]); try done.
  cbn [is_err] in Hex. pose proof (ready_others _ _ Hr Hw1) as Hr1. pose proof (ready_others _ _ Hr1 Hw2) as Hr2.
  assert (Hobj : w_objects w2 = w_objects w) by (rewrite (others_objects _ _ Hw2); by apply others_objects).
  rewrite <- Hobj in Hplain |- *.
  destruct (seen_event false false (last_row k (w_table w1))) as [e|] eqn:He.
  2:{ apply exec_Ret_inv in Hex as [-> ->]. split; [done|]. eexists _, _, false. split; [done|].
      apply (saw_here _ w1); [done|done|]. split; [by rewrite (seen_live _ _ He)|by left]. }
  apply seen_current in He as (r & Hl & Hkv & Hcur). unfold deref in Hex. rewrite Hkv in Hex.
  destruct (kvModRevision (wKV (row_write r)) =? rev) eqn:Hm; cbn [negb] in Hex; b2p.
  2:{ apply exec_Ret_inv in Hex as [-> ->]. split; [done|]. eexists _, _, false. split; [done|].
      apply (saw_here _ w1); [done|done|]. split; [done|]. left. by intros ? [= <-]. }
  assert (Hp : kvModRevision (wKV (row_write r)) = prev_of k (w_table w1)) by (unfold prev_of; by rewrite Hl).
  rewrite Hp in Hex. change (l_Append L) with Append in Hex.
  apply exec_bind_inv in Hex as [([n err] & w3 & Hap & Hex)|[Hap ->]];
    apply append_outcome in Hap as [Hr3 Hor]; [|done|apply Hr1|done|by apply others_grows|by eauto|done| |done|apply Hr1|done|by apply others_grows|by eauto|done];
    [|by destruct Hor as [(? & ? & _)|[[? _]|(? & _ & ? & _)]]].
  destruct Hor as [(id & [= -> ->] & Hmo)|Hno]; cbn [is_err] in Hex.
  - apply exec_Ret_inv in Hex as [-> ->]. split; [done|]. eexists _, _, true. split; [done|].
    apply (moment_before _ w2); [by trans w1|]. eapply moment_impl; [done|exact Hmo|].
    intros t1 t2 _ (Hid & Hn & r1 & Ha & Hrw). split; [done|]. exists (wKV (row_write r)).
    rewrite (same_current _ _ _ Hn). split_and!; [done|done| |done].
    rewrite (thist_appends _ _ _ Ha), Hrw. by rewrite <- Hm, Hp.
  - assert (Hor : is_err err = true /\ others w2 w3 /\
      (raced k (w_table w1) (w_table w3) \/ is_Some (refusal (w_objects w2 k v) v)))
      by (destruct Hno as [([= _ ->] & ? & ?)|(e' & He' & [= _ ->] & ?)]; rewrite ?He'; eauto).
    destruct Hor as (Herr & Ho & Hor). rewrite Herr in Hex.
    apply exec_bind_inv in Hex as [([[rev2 ev] err2] & w5 & Hget & Hex)|[Hget ->]];
      apply exec_get in Hget as (w4 & rev3 & Hw4 & Hw5 & [= -> -> ->]); try done.
    assert (Hx : x = Some (rev3, current (thist (w_table w4)) k, false, None) /\ w' = w5).
    { destruct (seen_event false false (last_row k (w_table w4))) as [e'|] eqn:He'.
      - apply seen_current in He' as (r' & _ & Hkv' & Hcur'). rewrite Hkv', <- Hcur' in Hex.
        by apply exec_Ret_inv in Hex.
      - rewrite (seen_live _ _ He'). by apply exec_Ret_inv in Hex. }
    destruct Hx as [-> ->]. split; [exact (ready_others _ _ (ready_others _ _ Hr3 Hw4) Hw5)|].
    eexists _, _, false. split; [done|]. apply (saw_here _ w4); [by do 3 (etrans; [eassumption|])|done|].
    split; [done|]. destruct Hor as [Hrace|Hno']; [left|by right]. intros kv0 Hkv0. rewrite <- Hm, Hp.
    pose proof (current_after_race _ _ _ _ _ (rd_chain _ Hr1) Hk Hrace (others_grows _ _ Hw4) Hkv0). lia.
Qed.

Lemma seen_all t k : seen_event false true (last_row k t) = row_event true <$> last_row k t.
Proof. unfold seen_event, not_deleted. destruct (last_row k t); [|done]. by rewrite orb_true_r. Qed.

Lemma delete_body_exec k rev w x w' : ready w -> k <> compact_rev_key ->
  exec_in env (Delete_body L k rev) w x w' ->
  ready w' /\ exists n kv ok, x = Some (n, kv, ok, None) /\
    match ok, kv with
    | true, Some kv0 => moment w w' (deleted k rev n kv0)
    | true, None => moment w w' (fun t1 t2 => t2 = t1 /\ hist_of k (thist t1) = [])
    | false, _ => saw w w' (not_deleted_at k rev kv)
    end.
Proof using env_ok.
  intros Hr Hk Hex. apply exec_bind_inv in Hex as [([[rev0 ev] err0] & w2 & Hget & Hex)|[Hget ->]];
    apply exec_get in Hget as (w1 & rev1 & Hw1 & Hw2 & [= -> -> ->]); try done.
  cbn [is_err] in Hex. pose proof (ready_others _ _ Hr Hw1) as Hr1. pose proof (ready_others _ _ Hr1 Hw2) as Hr2.
  rewrite seen_all in Hex. destruct (last_row k (w_table w1)) as [r|] eqn:Hl; cbn [fmap option_fmap option_map] in Hex.
  2:{ apply exec_Ret_inv in Hex as [-> ->]. split; [done|]. eexists _, None, true. split; [done|].
      exists w1, w1. split; [done|]. split; [|done]. split; [done|].
      unfold thist. rewrite hist_of_rows. unfold last_row in Hl. apply last_None in Hl. by rewrite Hl. }
  change (evDelete (row_event true r)) with (r_deleted r) in Hex.
  destruct (r_deleted r) eqn:Hd.
  { apply exec_Ret_inv in Hex as [-> ->]. split; [done|]. eexists _, None, false. split; [done|].
    apply (saw_here _ w1); [done|done|]. left. split; [apply current_dead; congruence|done]. }
  pose proof (current_last _ _ _ Hl Hd) as Hcur.
  unfold deref in Hex. change (evKV (row_event true r)) with (Some (wKV (row_write r))) in Hex.
  set (kv := wKV (row_write r)) in *. cbv iota beta in Hex.
  destruct (negb (rev =? 0) && negb (kvModRevision kv =? rev)) eqn:Hm.
  { apply exec_Ret_inv in Hex as [-> ->]. split; [done|]. eexists _, (Some kv), false. split; [done|].
    apply (saw_here _ w1); [done|done|]. right. left. b2p. split_and!; [done|done|]. by intros ? [= <-]. }
  assert (Hp : kvModRevision kv = prev_of k (w_table w1)) by (unfold prev_of; by rewrite Hl).
  rewrite Hp in Hex. change (l_Append L) with Append in Hex.
  apply exec_bind_inv in Hex as [([n err] & w3 & Hap & Hex)|[Hap ->]];
    apply append_outcome in Hap as [Hr3 Hor]; [|done|apply Hr1|done|by apply others_grows|by exists kv|apply collects_empty| |done|apply Hr1|done|by apply others_grows|by exists kv|apply collects_empty];
    [|by destruct Hor as [(? & ? & _)|[[? _]|(? & _ & ? & _)]]].
  destruct Hor as [(id & [= -> ->] & Hmo)|[([= -> ->] & Ho & Hrace)|(e & He & _)]]; cbn [is_err] in Hex;
    [| |by rewrite rd_empty in He].
  - apply exec_Ret_inv in Hex as [-> ->]. split; [done|]. eexists _, (Some kv), true. split; [done|].
    apply (moment_before _ w2); [by trans w1|]. eapply moment_impl; [done|exact Hmo|].
    intros t1 t2 _ (Hid & Hn & r1 & Ha & Hrw). split; [done|]. rewrite (same_current _ _ _ Hn). split_and!; [done| |].
    + apply andb_false_iff in Hm as [Hm|Hm]; b2p; auto.
    + by rewrite (thist_appends _ _ _ Ha), Hrw, Hp.
  - apply exec_bind_inv in Hex as [([[rev2 ev] err2] & w5 & Hget & Hex)|[Hget ->]];
      apply exec_get in Hget as (w4 & rev3 & Hw4 & Hw5 & [= -> -> ->]); try done.
    assert (Hx : exists n' kv', x = Some (n', kv', false, None) /\ w' = w5).
    { rewrite seen_all in Hex. destruct (last_row k (w_table w4)); cbn in Hex;
        apply exec_Ret_inv in Hex as [-> ->]; eauto. }
    destruct Hx as (n' & kv' & -> & ->). split; [exact (ready_others _ _ (ready_others _ _ Hr3 Hw4) Hw5)|].
    eexists _, _, false. split; [done|].
    assert (Ho4 : others w3 w5) by (by trans w4). destruct Hrace as (t1 & t2 & r1 & Ht1 & Ha & Hrn & Ht2 & Hn).
    eapply (raced_saw k (w_table w1)); [by apply others_grows|by do 3 (etrans; [eassumption|])| |].
    + exists t1, t2, r1. split_and!; [done|done|done| |done]. etrans; [exact Ht2|by apply others_grows].
    + intros ta tb r2 Ha2 Hrn2 _ _. right. right. eauto.
Qed.
(** ** The methods: a body, then the revision when it has none *)
Lemma then_adjust {A} (rev : Z) (f : Z -> A) w x w' : exec_in env (r <-! adjustRevision L rev;; Ret (f r)) w x w' ->
  ready w -> others w w' /\ exists rev', x = Some (f rev') /\ (rev <> 0 -> rev' = rev).
Proof using env_ok.
  intros Hex Hr. apply exec_bind_inv in Hex as [(r & w1 & Hadj & Hex)|[Hadj ->]];
    apply exec_adjust in Hadj as [Ho (rev' & [= <-] & Hrev)]; try done.
  apply exec_Ret_inv in Hex as [-> ->]. eauto.
Qed.

Lemma saw_after w w1 w' P : saw w w1 P -> others w1 w' -> saw w w' P.
Proof using env_ok.
  intros [Ho (t & H1 & HP & H2)] H3. split; [by trans w1|]. exists t. split_and!; [done|done|].
  etrans; [exact H2|by apply others_grows].
Qed.

Lemma moment_pos w w' id (P : table -> table -> Prop) : ready w -> moment w w' P ->
  (forall t1 t2, P t1 t2 -> id = seq t1 + 1) -> id <> 0.
Proof using env_ok.
  intros Hr (w1 & w2 & H1 & HP & _) Hid. rewrite (Hid _ _ HP).
  pose proof (ch_seq _ (rd_chain _ (ready_others _ _ Hr H1))). lia.
Qed.

Lemma create_exec k v l w x w' : ready w -> k <> compact_rev_key ->
  collects (w_objects w k v) v = false ->
  exec_in env (Create L k v l) w x w' ->
  ready w' /\ exists rev err, x = Some (rev, err) /\
    match err with
    | None => moment w w' (created k v l rev)
    | Some e => not_created k (refusal (w_objects w k v) v) e w w'
    end.
Proof using env_ok.
  intros Hr Hk Hplain Hex. apply exec_bind_inv in Hex as [([rev err] & w4 & Hbody & Hex)|[Hbody ->]];
    apply create_body_exec in Hbody as (Hr4 & rev' & err' & [= <- <-] & Hres); try done.
  apply (then_adjust _ (fun r => (r, err))) in Hex as (Ho & rev2 & -> & Hrev); [|done].
  split; [exact (ready_others _ _ Hr4 Ho)|]. exists rev2, err. split; [done|]. destruct err as [e|].
  - destruct Hres as [[-> Hs]|[He Hs]]; [left|right]; (split; [done|by eapply saw_after]).
  - rewrite Hrev; [by eapply moment_after|]. eapply moment_pos; [exact Hr|exact Hres|]. by intros t1 t2 (_ & ? & _).
Qed.

Lemma update_exec k v rev l w x w' : ready w -> k <> compact_rev_key ->
  collects (w_objects w k v) v = false ->
  exec_in env (Update L k v rev l) w x w' ->
  ready w' /\ exists n kv ok, x = Some (n, kv, ok, None) /\
    if ok : bool then moment w w' (updated k v rev l n kv) else saw w w' (not_updated k rev (refusal (w_objects w k v) v) kv).
Proof using env_ok.
  intros Hr Hk Hplain Hex. apply exec_bind_inv in Hex as [([[[n kv] ok] err] & w4 & Hbody & Hex)|[Hbody ->]];
    apply update_body_exec in Hbody as (Hr4 & n' & kv' & ok' & [= <- <- <- ->] & Hres); try done.
  apply (then_adjust _ (fun r => (r, kv, ok, None))) in Hex as (Ho & n2 & -> & Hrev); [|done].
  split; [exact (ready_others _ _ Hr4 Ho)|]. exists n2, kv, ok. split; [done|]. destruct ok; [|by eapply saw_after].
  rewrite Hrev; [by eapply moment_after|]. eapply moment_pos; [exact Hr|exact Hres|]. by intros t1 t2 (? & _).
Qed.

Lemma delete_exec k rev w x w' : ready w -> k <> compact_rev_key -> exec_in env (Delete L k rev) w x w' ->
  ready w' /\ exists n kv ok, x = Some (n, kv, ok, None) /\
    match ok, kv with
    | true, Some kv0 => moment w w' (deleted k rev n kv0)
    | true, None => moment w w' (fun t1 t2 => t2 = t1 /\ hist_of k (thist t1) = [])
    | false, _ => saw w w' (not_deleted_at k rev kv)
    end.
Proof using env_ok.
  intros Hr Hk Hex. apply exec_bind_inv in Hex as [([[[n kv] ok] err] & w4 & Hbody & Hex)|[Hbody ->]];
    apply delete_body_exec in Hbody as (Hr4 & n' & kv' & ok' & [= <- <- <- ->] & Hres); try done.
  apply (then_adjust _ (fun r => (r, kv, ok, None))) in Hex as (Ho & n2 & -> & Hrev); [|done].
  split; [exact (ready_others _ _ Hr4 Ho)|]. exists n2, kv, ok. split; [done|].
  destruct ok, kv as [kv|]; [|by eapply moment_after|by eapply saw_after..].
  rewrite Hrev; [by eapply moment_after|]. eapply moment_pos; [exact Hr|exact Hres|]. by intros t1 t2 (? & _).
Qed.
End bodies.
End env.
