(* ===== verification/LogTheorems.v ===== *)
(** * Theorems of the log-structured backend on the SQL log *)
From S2P Require Import Prelude Types GoStrings Prog OrderedMap Mvcc MemoryProofs Sql SqlLog SqlProofs LogStructured LogProofs.

Section linearizable.
Variables (ci batch mr : Z).
Local Abbreviation L := (sqlLog ci batch mr).
Variable env : world -> world -> Prop.
Hypothesis env_ok : forall w w', env w w' -> lenv w w'.

(** C6. Creation on the SQL log, interleaved with any number of writers (each
    adding rows on top of the last row of a key), always answers, and takes
    effect at one moment: either the key was absent and the one row it
    appended, with a fresh revision, is the new value; or it added nothing and
    answers [ErrKeyExists], and at some moment of the call the key was there;
    or it added nothing and answers with the error of a value that does not
    decode or whose metadata cannot be rendered, and the key was absent at a
    moment of the call.  The unique index is what makes it so.  The object must
    not be one with the label that has its dependents collected. *)
Theorem ls_create_linearizable k v l w x w' :
  ready w -> k <> compact_rev_key -> collects (w_objects w k v) v = false ->
  exec_in env (Create L k v l) w x w' ->
  ready w' /\ exists rev err, x = Some (rev, err) /\
    match err with
    | None => moment env w w' (fun t1 t2 => current (thist t1) k = None /\ rev = seq t1 + 1 /\
        thist t2 = thist t1 ++ [MkWrite rev k v rev 0 (prev_of k t1) l true false])
    | Some e =>
        (e = ErrKeyExists /\ saw env w w' (fun t => is_Some (current (thist t) k))) \/
        (refusal (w_objects w k v) v = Some e /\ saw env w w' (fun t => current (thist t) k = None))
    end.
Proof using env_ok. apply (create_exec env env_ok). Qed.

(** C5. Update on the SQL log, interleaved with any number of writers, always
    answers without an error and takes effect at one moment: either the key's
    mod revision was the one given and the one row appended is the new value;
    or it added nothing and answers with the value at a moment of the call,
    whose mod revision is not the one given (or no value), unless the new value
    is one that does not decode or whose metadata cannot be rendered: such a
    value is answered as not updated too.  The object must not be one with the
    label that has its dependents collected. *)
Theorem ls_update_linearizable k v rev l w x w' :
  ready w -> k <> compact_rev_key -> collects (w_objects w k v) v = false ->
  exec_in env (Update L k v rev l) w x w' ->
  ready w' /\ exists n kv ok, x = Some (n, kv, ok, None) /\
    if ok : bool then moment env w w' (fun t1 t2 =>
      n = seq t1 + 1 /\ exists kv0, current (thist t1) k = Some kv0 /\ kvModRevision kv0 = rev /\
      thist t2 = thist t1 ++ [MkWrite n k v (kvCreateRevision kv0) 0 rev l false false] /\
      kv = Some (MkKeyValue k v 0 (kvCreateRevision kv0) n l))
    else saw env w w' (fun t => kv = current (thist t) k /\
      ((forall kv0, kv = Some kv0 -> kvModRevision kv0 <> rev) \/ is_Some (refusal (w_objects w k v) v))).
Proof using env_ok. apply (update_exec env env_ok). Qed.

(** C7. Deletion on the SQL log, interleaved with any number of writers,
    always answers without an error, and: when it reports a value deleted, at
    one moment that was the key's value, its mod revision the one given (or
    none was given), and the one row appended deletes it; otherwise it added
    nothing, and: when it reports deleted without a value the key has no row
    at all; when it does not, the key was absent, or its mod revision was
    another one, or another writer wrote the key during the call. *)
Theorem ls_delete_linearizable k rev w x w' :
  ready w -> k <> compact_rev_key -> exec_in env (Delete L k rev) w x w' ->
  ready w' /\ exists n kv ok, x = Some (n, kv, ok, None) /\
    match ok, kv with
    | true, Some kv0 => moment env w w' (fun t1 t2 =>
        n = seq t1 + 1 /\ current (thist t1) k = Some kv0 /\ (rev = 0 \/ kvModRevision kv0 = rev) /\
        thist t2 = thist t1 ++ [MkWrite n k "" 0 0 (kvModRevision kv0) 0 false true])
    | true, None => moment env w w' (fun t1 t2 => t2 = t1 /\ hist_of k (thist t1) = [])
    | false, _ => saw env w w' (fun t =>
        (current (thist t) k = None /\ kv = None) \/
        (current (thist t) k = kv /\ rev <> 0 /\ forall kv0, kv = Some kv0 -> kvModRevision kv0 <> rev) \/
        (exists t0 r, appends t0 t r /\ r_name r = k))
    end.
Proof using env_ok. apply (delete_exec env env_ok). Qed.
End linearizable.

(** ** A table with the compact revision row, one value and its update *)
Definition wt1 : table := MkTable [MkRow 1 compact_rev_key true false 0 0 0 "" ""] 1.
Definition wt2 : table := (insert_row "a" true false 0 0 0 "x" wt1).2.
Definition wt3 : table := (insert_row "a" false false 2 2 0 "y" wt2).2.
Definition ww : world := MkWorld wt3 3 3 (fun _ v => if String.eqb v "bad" then NotDecoded "cannot decode" else Stored).

Lemma wt1_chain : chain wt1.
Proof.
  split; simpl.
  - lia.
  - repeat constructor.
  - repeat constructor; simpl; lia.
  - repeat constructor. by intros [].
  - intros k Hk. unfold name_rows. rewrite filter_cons, decide_False by (intros <-; done). constructor.
  - intros r r' Hr Hr' Hn. apply list_elem_of_singleton in Hr'. subst r'. by destruct Hn.
Qed.

Lemma wt_grows : grows wt1 wt3.
Proof.
  apply (rtc_l _ _ wt2); [|apply (rtc_l _ _ wt3); [|apply rtc_refl]]; eexists.
  - split; [reflexivity|reflexivity|reflexivity|done|reflexivity|]. split; reflexivity.
  - split; [reflexivity|reflexivity|reflexivity|done|reflexivity|].
    exists (MkKeyValue "a" "x" 0 2 2 0). split; reflexivity.
Qed.

Lemma ww_ready : ready ww.
Proof.
  split; [apply (grows_chain wt1), wt_grows; apply wt1_chain| |done|done].
  exists (MkRow 1 compact_rev_key true false 0 0 0 "" ""). split_and!; [set_solver|done|done].
Qed.

Definition roomb (w : world) : bool := seq (w_table w) <? maxInt64 - 1.
Lemma roomb_room w : roomb w = true -> h_room w.
Proof. apply Z.ltb_lt. Qed.

Definition wlog : Log dop := sqlLog 0 100 1000.

Lemma run_lenv {A} (p : dprog A) : run_ok roomb p ww = true -> exec_in lenv p ww (run p ww).1 (run p ww).2.
Proof. apply run_exec, roomb_room. Qed.

Lemma ls_create_linearizable_witness : exists rev err,
  ready (run (Create wlog "b" "{}" 0) ww).2 /\ (run (Create wlog "b" "{}" 0) ww).1 = Some (rev, err).
Proof.
  destruct (ls_create_linearizable 0 100 1000 lenv (fun _ _ H => H) "b" "{}" 0 ww _ _ ww_ready ltac:(discriminate) eq_refl
    (run_lenv (Create wlog "b" "{}" 0) eq_refl)) as (Hg & H). naive_solver.
Defined.

Lemma ls_update_linearizable_witness : exists n kv ok,
  ready (run (Update wlog "a" "{}" 3 0) ww).2 /\ (run (Update wlog "a" "{}" 3 0) ww).1 = Some (n, kv, ok, None).
Proof.
  destruct (ls_update_linearizable 0 100 1000 lenv (fun _ _ H => H) "a" "{}" 3 0 ww _ _ ww_ready ltac:(discriminate) eq_refl
    (run_lenv (Update wlog "a" "{}" 3 0) eq_refl)) as (Hg & H). naive_solver.
Defined.

Lemma ls_delete_linearizable_witness : exists n kv ok,
  ready (run (Delete wlog "a" 0) ww).2 /\ (run (Delete wlog "a" 0) ww).1 = Some (n, kv, ok, None).
Proof.
  destruct (ls_delete_linearizable 0 100 1000 lenv (fun _ _ H => H) "a" 0 ww _ _ ww_ready ltac:(discriminate)
    (run_lenv (Delete wlog "a" 0) eq_refl)) as (Hg & H). naive_solver.
Defined.

(** A value that does not decode: [Create] answers with the error, [Update]
    that the key, whose mod revision is 3, was not updated from revision 3. *)
Example undecodable_value :
  (run (Create wlog "b" "bad" 0) ww).1 = Some (3, Some (ErrOther "cannot decode")) /\
  (run (Update wlog "a" "bad" 3 0) ww).1 = Some (3, Some (MkKeyValue "a" "y" 0 2 3 0), false, None).
Proof. split; reflexivity. Qed.
