(* ===== verification/SqlTheorems.v ===== *)
(** * Theorems of the SQL log: listings, compaction, polling *)
From S2P Require Import Prelude Types GoStrings Prog OrderedMap Mvcc MemoryProofs Sql SqlLog SqlProofs LogStructured LogProofs LogTheorems.

(** ** Rows to events *)
Definition event_of (val prev : bool) (r : row) : Event := (scan (None, None, r) val prev).2.

Lemma RowsToEvents_spec t l val prev :
  RowsToEvents (with_revs t l) val prev =
  (match l with [] => 0 | _ => Int64 (CurrentRevSQL t) end,
   match l with [] => 0 | _ => Int64 (CompactRevSQL t) end, event_of val prev <$> l).
Proof.
  unfold RowsToEvents.
  assert (H : forall l a b acc, RowsToEvents_loop (with_revs t l) val prev a b acc =
    (match l with [] => a | _ => Int64 (CurrentRevSQL t) end,
     match l with [] => b | _ => Int64 (CompactRevSQL t) end, acc ++ (event_of val prev <$> l))).
  { clear. induction l as [|r l IH]; intros a b acc; [by rewrite app_nil_r|].
    simpl. fold (with_revs t l). rewrite IH, <- app_assoc. by destruct l. }
  by rewrite H.
Qed.

Lemma event_of_kv b prev r : evKV (event_of (negb b) prev r) = Some (row_kv b r).
Proof. unfold row_kv. by destruct b. Qed.

Lemma events_kv b prev (l : list row) : evKV <$> (event_of (negb b) prev <$> l) = Some <$> (row_kv b <$> l).
Proof.
  rewrite <- !list_fmap_compose. apply list_fmap_ext. intros _ r _. apply event_of_kv.
Qed.

(** ** Listings *)
(** The cached revision is up to date, or not set. *)
Definition fresh (w : world) : Prop :=
  w_currentRev w = 0 \/ CurrentRevSQL (w_table w) = Some (w_currentRev w).

Lemma run_CurrentRevision w n : CurrentRevSQL (w_table w) = Some n -> fresh w ->
  exists w', run SQLLog_CurrentRevision w = (Some (n, None), w') /\ w_table w' = w_table w.
Proof.
  intros Hn Hf. unfold SQLLog_CurrentRevision. cbn. destruct (w_currentRev w =? 0) eqn:E; b2p; cbn.
  - unfold Sql.CurrentRevision. rewrite Hn. cbn. rewrite Z.eqb_refl. cbn. eauto.
  - destruct Hf as [?|Hf]; [done|]. exists w. rewrite Hn in Hf. injection Hf as ->. done.
Qed.

Definition list_query (t : table) (key e : string) (limit rev : Z) : list row :=
  if rev =? 0 then
    if String.eqb e "" then list_rows t key e (seq t)
    else LIMIT limit (order_by_name (list_rows t key e (seq t)))
  else LIMIT limit (order_by_name (list_rows t key e rev)).

Lemma in_names_single key e : e = "" -> in_names key e = EqualsName key.
Proof. intros ->. done. Qed.
Lemma in_names_range' key e : e <> "" -> in_names key e = BetweenName key e.
Proof. intros He. unfold in_names. by destruct (String.eqb_spec e ""). Qed.

Lemma ListCurrent_rows t key e limit : chain t ->
  ListCurrent t key e limit false = with_revs t (list_query t key e limit 0).
Proof.
  intros Hc. unfold ListCurrent, list_query. cbn. rewrite <- (list_rows_current t key e Hc).
  destruct (String.eqb_spec e ""); [by rewrite in_names_single|by rewrite in_names_range'].
Qed.

Lemma List_rows t key e limit rev : rev <> 0 ->
  Sql.List t key e limit rev false = with_revs t (list_query t key e limit rev).
Proof.
  intros Hr. unfold Sql.List, list_query, ListSQL, list_rows. rewrite (proj2 (Z.eqb_neq _ _) Hr). reflexivity.
Qed.

Lemma run_List w key e limit rev b n c :
  chain (w_table w) -> fresh w -> CurrentRevSQL (w_table w) = Some n -> CompactRevSQL (w_table w) = Some c ->
  exists w', run (SQLLog_List key e limit rev false b) w =
    (Some (if rev >? n then (n, [], Some ErrFutureRev)
           else if (rev >? 0) && (rev <? c) then (n, [], Some ErrCompacted)
           else (n, event_of (negb b) false <$> list_query (w_table w) key e limit rev, None)), w') /\
    w_table w' = w_table w.
Proof.
  intros Hc Hf Hn Hcr. set (q := list_query (w_table w) key e limit rev).
  assert (Hq : (if rev =? 0 then ListCurrent (w_table w) key e limit false
                else Sql.List (w_table w) key e limit rev false) = with_revs (w_table w) q).
  { subst q. destruct (rev =? 0) eqn:E; b2p; [subst; by apply ListCurrent_rows|by apply List_rows]. }
  assert (Hrun : run (SQLLog_List key e limit rev false b) w =
    run (let '(rv, compact, result) := RowsToEvents (with_revs (w_table w) q) (negb b) false in
         '(rv, compact, err) <-!
           (match result with
            | [] => '(rv, err) <-! SQLLog_CurrentRevision;;
                    if is_err err then Ret (0, 0, err)
                    else '(compact, err) <-! call DGetCompactRevision;;
                         if is_err err then Ret (0, 0, err) else Ret (rv, compact, None)
            | _ => Ret (rv, compact, None)
            end);;
         if is_err err then Ret (0, [], err)
         else if rev >? rv then Ret (rv, [], Some ErrFutureRev)
         else if (rev >? 0) && (rev <? compact) then Ret (rv, [], Some ErrCompacted)
         else Ret (rv, result, None)) w).
  { unfold SQLLog_List. destruct (rev =? 0); cbn [pbind call run h_do dialect_handler dialect_do]; by rewrite Hq. }
  rewrite Hrun, RowsToEvents_spec. clear Hrun Hq. destruct q as [|r q].
  - cbn [fmap list_fmap]. rewrite run_bind, run_bind.
    destruct (run_CurrentRevision w n Hn Hf) as (w1 & -> & Hw1). cbn [fst snd is_err run].
    cbn [pbind call run h_do dialect_handler dialect_do]. unfold GetCompactRevision.
    rewrite Hw1, Hcr. cbn. exists w1. split; [|done]. by repeat case_match.
  - cbn [fmap list_fmap pbind is_err]. rewrite Hn, Hcr. cbn [Int64 default from_option id].
    exists w. split; [|done]. by repeat case_match.
Qed.

Lemma LIMIT_fmap {A B} (f : A -> B) limit (l : list A) : f <$> LIMIT limit l = LIMIT limit (f <$> l).
Proof. unfold LIMIT. case_match; [|done]. by rewrite fmap_take. Qed.

Lemma limited_one limit (l : list KeyValue) : (length l <= 1)%nat -> limited limit l = l.
Proof. intros Hl. unfold limited. destruct (Z.gtb_spec limit 0); [|done]. apply take_ge. lia. Qed.

Lemma StronglySorted_one (l : list row) : (length l <= 1)%nat -> order_by_name l = l.
Proof. destruct l as [|r [|r' l]]; simpl; [done|done|lia]. Qed.

Lemma list_rows_single t key rev : chain t -> (length (list_rows t key "" rev) <= 1)%nat.
Proof.
  intros Hc. destruct (list_rows t key "" rev) as [|r [|r' l]] eqn:E; simpl; [lia|lia|exfalso].
  assert (Hnd : NoDup (list_rows t key "" rev)) by (apply NoDup_filter, chain_NoDup, Hc).
  assert (Hr : r ∈ list_rows t key "" rev /\ r' ∈ list_rows t key "" rev) by (rewrite E; set_solver).
  destruct Hr as [Hr Hr'].
  apply list_rows_spec in Hr as (_ & Hn & _ & Hl), Hr' as (Hin' & Hn' & _ & Hl'); [|done|done].
  unfold in_list_range in Hn, Hn'. simpl in Hn, Hn'. rewrite Hn in Hl. rewrite Hn', Hl in Hl'.
  injection Hl' as Hid. rewrite E in Hnd. apply NoDup_cons in Hnd as [Hnot _]. apply Hnot.
  assert (r = r') as ->; [|set_solver].
  assert (Hin : r ∈ list_rows t key "" rev) by (rewrite E; set_solver).
  apply list_elem_of_filter in Hin as [_ Hin]. by apply (row_by_id t).
Qed.

Lemma list_query_listing t key e limit rev b : chain t -> 0 <= rev ->
  exists kvs, is_listing (thist t) (if rev =? 0 then seq t else rev) key e b kvs /\
    row_kv b <$> list_query t key e limit rev = limited limit kvs.
Proof.
  intros Hc Hr. set (rv := if rev =? 0 then seq t else rev).
  exists (row_kv b <$> order_by_name (list_rows t key e rv)). split; [by apply list_rows_listing|].
  unfold list_query, rv. destruct (rev =? 0); [destruct (String.eqb_spec e "") as [->|]|].
  - pose proof (list_rows_single t key (seq t) Hc) as Hlen. rewrite StronglySorted_one by done.
    rewrite limited_one; [done|]. by rewrite length_fmap.
  - apply LIMIT_fmap.
  - apply LIMIT_fmap.
Qed.

(** C14. A list on the SQL log (current, or at a revision) in a table whose
    rows form chains, while the cached revision is not set or is that of the
    table (what an empty list at a revision answers if it lags is
    [stale_cache_future_rev]), returns, with the store's revision, exactly the live
    values of the history that the table stands for at that revision in the
    range, in key order and cut at the limit; a revision beyond the store's is
    [ErrFutureRev] and one below the compact revision is [ErrCompacted], both
    without events.  The table is not changed. *)
Theorem sqllog_list_correct w key e limit rev b n c :
  chain (w_table w) -> fresh w -> CurrentRevSQL (w_table w) = Some n -> CompactRevSQL (w_table w) = Some c ->
  0 <= rev ->
  exists evs err, (run (SQLLog_List key e limit rev false b) w).1 = Some (n, evs, err) /\
    w_table (run (SQLLog_List key e limit rev false b) w).2 = w_table w /\
    (n < rev -> err = Some ErrFutureRev /\ evs = []) /\
    (0 < rev < c -> rev <= n -> err = Some ErrCompacted /\ evs = []) /\
    (rev = 0 \/ c <= rev <= n -> err = None /\
       exists kvs, is_listing (thist (w_table w)) (if rev =? 0 then seq (w_table w) else rev) key e b kvs /\
         evKV <$> evs = Some <$> limited limit kvs).
Proof.
  intros Hc Hf Hn Hcr Hrev.
  destruct (run_List w key e limit rev b n c Hc Hf Hn Hcr) as (w' & -> & Hw'). cbn [fst snd].
  pose proof (CurrentRev_bounds _ _ Hc Hn).
  destruct (Z.gtb_spec rev n); [|destruct (Z.gtb_spec rev 0), (Z.ltb_spec rev c); cbn [andb]];
    (eexists _, _; split; [reflexivity|]); split_and!; try done; try lia.
  all: intros _; split; [done|]; rewrite events_kv;
    destruct (list_query_listing (w_table w) key e limit rev b Hc Hrev) as (kvs & Hk & Heq); exists kvs;
    by rewrite Heq.
Qed.

(** ** Compaction *)
Lemma started_Compact t c : chain t -> started t -> started (Sql.Compact c t).2.
Proof.
  intros Hc (r & Hr & Hn & Hd). exists r. split; [|done]. simpl. apply list_elem_of_filter. split; [|done].
  intros [(r' & Hr' & Hn' & _ & Hp & _)|(r' & Hr' & Hd' & _ & Hid)]%elem_of_gone.
  - by rewrite (ch_same _ Hc r r' Hr Hr' Hn' Hp) in Hn.
  - rewrite (row_by_id t r' r Hc Hr' Hr Hid) in Hd'. congruence.
Qed.

(** C16. A transaction of [compact] either rolls back with an error, or commits
    and then: it moved the compact revision forward, to the target or the
    revision the minimum to retain allows, whichever is less; the compact
    revision recorded is that one; every key's history is trimmed at it, so
    every read at or after it shows what it showed before; and the rows still
    form chains. *)
Theorem sql_compact_transaction mr c0 target t cr cur t' :
  chain t -> started t -> int64_ok (cur - mr) -> 0 <= mr ->
  compact_body mr c0 target t = ((cr, cur, None), Some t') ->
  CompactRevSQL t = Some c0 /\ CurrentRevSQL t = Some cur /\ CompactRevSQL t' = Some cr /\
  (0 <= c0 -> cr = Z.min target (cur - mr)) /\ c0 < cr /\ chain t' /\ seq t' = seq t /\
  forall k, k <> compact_rev_key ->
    hist_of k (thist t') = trim cr (hist_of k (thist t)) /\
    (forall r, cr <= r -> view (thist t') r k = view (thist t) r k).
Proof.
  intros Hc Hst Hok Hmr. destruct (started_revs t Hst) as (n & c & Hn & Hcr).
  unfold compact_body, Sql.CurrentRevision, GetCompactRevision. rewrite Hn, Hcr. cbn [scan_int64 is_err].
  destruct (c0 =? c) eqn:E0; cbn [negb]; [|done]. b2p. subst c.
  set (tg := safeCompactRev target n mr). destruct (tg <=? c0) eqn:E1; [done|]. b2p.
  destruct (Sql.Compact tg t) as [m t1] eqn:Ht1. intros [= <- <- <-].
  assert (Hc1 : chain t1) by (pose proof (Compact_chain t tg Hc) as Hx; by rewrite Ht1 in Hx).
  assert (Hh : forall k, k <> compact_rev_key ->
    hist_of k (thist (SetCompactRevision tg t1)) = trim tg (hist_of k (thist t))).
  { intros k Hk. rewrite <- (Compact_trims t k tg Hc Hk), Ht1. unfold thist.
    by rewrite !hist_of_rows, name_rows_SetCompact. }
  split_and!; try done.
  - pose proof (started_Compact t tg Hc Hst) as Hst1. rewrite Ht1 in Hst1.
    by apply CompactRev_SetCompact, started_rows.
  - intros Hpos. subst tg. revert E1. unfold safeCompactRev. rewrite wrap64_id by done.
    destruct (Z.ltb_spec target (n - mr)); case_match; b2p; lia.
  - by apply SetCompact_chain.
  - unfold Sql.Compact in Ht1. injection Ht1 as _ <-. done.
  - intros k Hk. split; [by apply Hh|]. intros r Hr. unfold view. rewrite Hh by done.
    apply trim_live; [|done]. apply sorted_hist_of, sorted_rows, Hc.
Qed.

(** The batches of [compactIter] come to an end: with a positive batch
    size and no overflow, and whatever happens to the database between its
    transactions, it returns. *)
Theorem compact_iter_total env batch mr c0 target w x w' :
  0 < batch -> minInt64 <= c0 -> target + batch <= maxInt64 ->
  exec_in env (compactIter batch mr c0 target) w x w' -> exists r, x = Some r.
Proof.
  intros Hb Hc Ht Hex.
  assert (Hloop : forall fuel iter done_ cur w x w', minInt64 <= iter -> (Z.to_nat (target - iter) <= fuel)%nat ->
    exec_in env (compactIter_loop fuel batch mr iter target done_ cur) w x w' -> exists r, x = Some r).
  { clear w x w' Hex. induction fuel as [|fuel IH]; intros iter dn cur w x w' Hi Hf Hex; simpl in Hex;
      destruct (Z.ltb_spec iter target); cbn [negb] in Hex; try (apply exec_Ret_inv in Hex as [-> _]; eauto); [lia|].
    rewrite wrap64_id in Hex by (unfold int64_ok; lia).
    apply exec_inv in Hex as (w1 & _ & _ & Hex). cbn [h_do dialect_handler] in Hex.
    set (y := dialect_do _ w1) in Hex. destruct y as [[[cp cu] ce] w2]. cbn [fst snd pbind] in Hex.
    destruct (is_err ce); [apply exec_Ret_inv in Hex as [-> _]; eauto|].
    revert Hex. destruct (Z.gtb_spec (iter + batch) target); apply IH; lia. }
  apply exec_bind_inv in Hex as [([[cp cu] ce] & w1 & Hl & Hex)|[Hl ->]].
  - destruct (cu >? 0); apply exec_Ret_inv in Hex as [-> _]; eauto.
  - apply Hloop in Hl as [? [=]]; [lia|done].
Qed.

Lemma CurrentRev_Compact t c n : chain t -> CurrentRevSQL t = Some n -> c < n ->
  CurrentRevSQL (SetCompactRevision c (Sql.Compact c t).2) = Some n.
Proof.
  intros Hc Hn Hlt. unfold CurrentRevSQL. rewrite SetCompact_ids.
  apply sql_max_spec in Hn as [Hin Hall]. apply sql_max_spec. simpl. split.
  - apply list_elem_of_fmap in Hin as (r & -> & Hr). apply list_elem_of_fmap. exists r. split; [done|].
    apply list_elem_of_filter. split; [|done].
    intros [(r' & Hr' & Hn' & _ & Hp & Hle)|(r' & Hr' & _ & Hle & Hid)]%elem_of_gone; [|lia].
    pose proof (ch_prev _ Hc) as Hpr. rewrite Forall_forall in Hpr. specialize (Hpr r' Hr' Hn'). simpl in Hpr. lia.
  - intros x (r & -> & [_ Hr]%list_elem_of_filter)%list_elem_of_fmap. apply Hall, list_elem_of_fmap. eauto.
Qed.

(** The store after a compaction to [c1] from the table [t]. *)
Record compacted (t t' : table) (n c0 c1 : Z) : Prop := {
  cp_chain : chain t';
  cp_started : started t';
  cp_current : CurrentRevSQL t' = Some n;
  cp_rev : CompactRevSQL t' = Some c1;
  cp_hist : forall k, k <> compact_rev_key ->
    hist_of k (thist t') = if c0 <? c1 then trim c1 (hist_of k (thist t)) else hist_of k (thist t)
}.

Lemma compact_body_step mr c0 target t n :
  chain t -> started t -> CurrentRevSQL t = Some n -> CompactRevSQL t = Some c0 -> 0 <= c0 ->
  int64_ok (n - mr) -> 0 < mr ->
  let tg := Z.min target (n - mr) in
  if tg <=? c0 then compact_body mr c0 target t = ((c0, n, Some ErrCompacted), None)
  else exists t', compact_body mr c0 target t = ((tg, n, None), Some t') /\ compacted t t' n c0 tg.
Proof.
  intros Hc Hst Hn Hcr Hpos Hok Hmr. cbn zeta.
  assert (Hsafe : (safeCompactRev target n mr <=? c0) = (Z.min target (n - mr) <=? c0) /\
                  (c0 < Z.min target (n - mr) -> safeCompactRev target n mr = Z.min target (n - mr))).
  { unfold safeCompactRev. rewrite wrap64_id by done.
    destruct (Z.ltb_spec target (n - mr)); case_match; b2p; split; lia. }
  destruct Hsafe as [Hle Heq]. unfold compact_body, Sql.CurrentRevision, GetCompactRevision.
  rewrite Hn, Hcr. cbn [scan_int64 is_err]. rewrite Z.eqb_refl, Hle. cbn [negb].
  destruct (Z.min target (n - mr) <=? c0) eqn:E; [done|]. b2p. rewrite Heq by done.
  set (tg := Z.min target (n - mr)) in *. destruct (Sql.Compact tg t) as [m t1] eqn:Ht1.
  exists (SetCompactRevision tg t1). split; [done|].
  pose proof (Compact_chain t tg Hc) as Hc1. pose proof (started_Compact t tg Hc Hst) as Hst1.
  pose proof (CurrentRev_Compact t tg n Hc Hn) as Hn1. pose proof (fun k => Compact_trims t k tg Hc) as Hh.
  rewrite Ht1 in *. cbn [snd] in *. split.
  - by apply SetCompact_chain.
  - destruct Hst1 as (r & Hr & Hrn & Hd).
    exists (MkRow (r_id r) (r_name r) (r_created r) (r_deleted r) (r_create_revision r) tg
              (r_lease r) (r_value r) (r_old_value r)).
    split; [|done]. simpl. apply list_elem_of_fmap. exists r. by rewrite Hrn, String.eqb_refl.
  - apply Hn1. lia.
  - by apply CompactRev_SetCompact, started_rows.
  - intros k Hk. rewrite (proj2 (Z.ltb_lt _ _)) by done. rewrite <- Hh by done.
    unfold thist. by rewrite !hist_of_rows, name_rows_SetCompact.
Qed.

Lemma compacted_trans t0 t1 t2 n c0 c1 c2 : chain t0 -> c0 <= c1 -> c1 <= c2 ->
  compacted t0 t1 n c0 c1 -> compacted t1 t2 n c1 c2 -> compacted t0 t2 n c0 c2.
Proof.
  intros Hc H1 H2 [? ? ? ? Hh] [? ? ? ? Hh']. split; try done. intros k Hk. rewrite Hh', Hh by done.
  destruct (Z.ltb_spec c0 c1), (Z.ltb_spec c1 c2), (Z.ltb_spec c0 c2); try lia; try done.
  - apply trim_trim; [|lia]. apply sorted_hist_of, sorted_rows, Hc.
  - by replace c2 with c1 by lia.
Qed.

(** The loop, started at [iter], from a compact revision that has reached it or
    the last revision that may be compacted. *)
Lemma compactIter_loop_run fuel batch mr n target : 0 < batch -> target + batch <= maxInt64 ->
  int64_ok (n - mr) -> 0 < mr -> 0 < n -> forall iter c cur w,
  chain (w_table w) -> started (w_table w) -> CurrentRevSQL (w_table w) = Some n ->
  CompactRevSQL (w_table w) = Some c -> 0 <= c <= iter -> Z.min iter (n - mr) <= c ->
  (Z.to_nat (target - iter) <= fuel)%nat ->
  exists r w', run (compactIter_loop fuel batch mr iter target c cur) w = (Some r, w') /\
    compacted (w_table w) (w_table w') n c (Z.max c (Z.min target (n - mr))) /\
    r.1.1 = Z.max c (Z.min target (n - mr)) /\ (r.1.2 = n \/ r.1.2 = cur /\ Z.max c (Z.min target (n - mr)) = c).
Proof.
  intros Hb Ht Hok Hmr Hn0. induction fuel as [|fuel IH]; intros iter c cur w Hc Hst Hn Hcr Hci Hmin Hf;
    cbn [compactIter_loop]; destruct (Z.ltb_spec iter target); cbn [negb].
  1: lia.
  1,3: eexists _, w; split; [reflexivity|]; replace (Z.max c (Z.min target (n - mr))) with c by lia;
       split; [split; try done; intros k Hk; by rewrite Z.ltb_irrefl|split; [done|by right]].
  rewrite wrap64_id by (unfold int64_ok, minInt64, two63 in *; lia).
  set (it := if iter + batch >? target then target else iter + batch).
  assert (Hit : iter < it <= target) by (subst it; destruct (Z.gtb_spec (iter + batch) target); lia).
  pose proof (compact_body_step mr c it (w_table w) n Hc Hst Hn Hcr (proj1 Hci) Hok Hmr) as Hstep. cbn zeta in Hstep.
  unfold compact. cbn [pbind call run h_do dialect_handler dialect_do].
  destruct (Z.min it (n - mr) <=? c) eqn:E; b2p.
  - rewrite Hstep. cbn [is_err]. eexists _, w. split; [reflexivity|].
    replace (Z.max c (Z.min target (n - mr))) with c by lia.
    split; [split; try done; intros k Hk; by rewrite Z.ltb_irrefl|]. cbn.
    destruct (negb (c =? 0) && negb (n =? 0)); auto.
  - destruct Hstep as (t' & -> & Hcp). set (tg := Z.min it (n - mr)) in *. cbn [is_err].
    rewrite (proj2 (Z.eqb_neq tg 0)), (proj2 (Z.eqb_neq n 0)) by lia. cbn [negb andb].
    destruct (IH it tg n (on_table (fun _ => t') w)) as (r & w' & Hrun & Hcp' & Hr1 & Hr2); try apply Hcp; try lia.
    exists r, w'. split; [exact Hrun|]. cbn [w_table on_table] in Hcp'.
    replace (Z.max tg (Z.min target (n - mr))) with (Z.max c (Z.min target (n - mr))) in Hcp', Hr1, Hr2 by lia.
    split; [|split; [done|left; by destruct Hr2 as [|[]]]].
    eapply (compacted_trans _ t' _ _ _ tg); [done|lia|lia|done|done].
Qed.

(** [compactIter] run alone, with what it returns: the compact revision, and
    the current revision unless nothing could be compacted from revision 0. *)
Lemma compactIter_run batch mr n c0 target w :
  chain (w_table w) -> started (w_table w) -> CurrentRevSQL (w_table w) = Some n ->
  CompactRevSQL (w_table w) = Some c0 -> 0 <= c0 -> 0 < batch -> target + batch <= maxInt64 ->
  int64_ok (n - mr) -> 0 < mr ->
  let c1 := Z.max c0 (Z.min target (n - mr)) in
  exists t w', run (compactIter batch mr c0 target) w = (Some (c1, t), w') /\
    compacted (w_table w) (w_table w') n c0 c1 /\ (t = n \/ t = target /\ c1 = c0) /\
    forall k rev, k <> compact_rev_key -> c1 <= rev ->
      view (thist (w_table w')) rev k = view (thist (w_table w)) rev k.
Proof.
  intros Hc Hst Hn Hcr Hpos Hb Ht Hok Hmr c1.
  pose proof (CurrentRev_bounds _ _ Hc Hn) as Hnb.
  destruct (compactIter_loop_run (compactIter_fuel c0 target) batch mr n target Hb Ht Hok Hmr
    (proj1 Hnb) c0 c0 0 w) as ([[cp cu] ce] & w' & Hrun & Hcp & Hr1 & Hr2); try done; try lia. cbn in Hr1, Hr2. subst cp. fold c1 in Hr2.
  assert (Hview : forall k rev, k <> compact_rev_key -> c1 <= rev ->
      view (thist (w_table w')) rev k = view (thist (w_table w)) rev k).
  { intros k rev Hk Hrev. unfold view. rewrite (cp_hist _ _ _ _ _ Hcp k Hk). fold c1.
    destruct (c0 <? c1); [|done]. apply trim_live; [|done]. apply sorted_hist_of, sorted_rows, Hc. }
  unfold compactIter. rewrite run_bind, Hrun. cbn. fold c1. destruct Hr2 as [->|[-> Heq]].
  - rewrite (proj2 (Z.gtb_lt n 0)) by lia. exists n, w'. split_and!; [done|done|by left|done].
  - exists target, w'. split_and!; [by rewrite Heq|exact Hcp|by right|exact Hview].
Qed.

(** C15. Run alone, [compactIter] does in its batches what one compaction would
    do: the compact revision ends at the target, or at the last revision the
    minimum to retain allows, unless it is there already; every key's history
    is trimmed once at that revision, so reads at or after it are unchanged;
    the current revision stays. *)
Theorem compact_iter_correct batch mr n c0 target w :
  chain (w_table w) -> started (w_table w) -> CurrentRevSQL (w_table w) = Some n ->
  CompactRevSQL (w_table w) = Some c0 -> 0 <= c0 -> 0 < batch -> target + batch <= maxInt64 ->
  int64_ok (n - mr) -> 0 < mr ->
  let c1 := Z.max c0 (Z.min target (n - mr)) in
  exists r w', run (compactIter batch mr c0 target) w = (Some r, w') /\
    compacted (w_table w) (w_table w') n c0 c1 /\
    forall k rev, k <> compact_rev_key -> c1 <= rev ->
      view (thist (w_table w')) rev k = view (thist (w_table w)) rev k.
Proof.
  intros Hc Hst Hn Hcr Hpos Hb Ht Hok Hmr c1.
  destruct (compactIter_run batch mr n c0 target w) as (t & w' & Hrun & Hcp & _ & Hview); try done. eauto 6.
Qed.

(** The unique index guards a creation only as long as the rows it would
    collide with are there: once compaction has removed the first version of
    a live key, a creation by a client that had read the key as absent before
    (previous revision 0) is accepted, on top of the live value.  Keeping the
    last [compactMinRetain] revisions is what makes this rare. *)
Theorem create_accepted_after_compaction t k r v l :
  chain t -> k <> compact_rev_key -> last_row k t = Some r -> r_deleted r = false -> 0 < r_prev_revision r ->
  let t1 := (Sql.Compact (r_id r) t).2 in
  current (thist t1) k = Some (wKV (row_write r)) /\
  (insert_row k true false 0 0 l v t1).1 = (seq t1 + 1, None).
Proof.
  intros Hc Hk Hl Hd Hp t1.
  assert (Hn : name_rows k (rows t1) = [r]).
  { unfold t1. rewrite name_rows_Compact by done. unfold trim_rows.
    pose proof (last_row_elem _ _ _ Hl) as [Hrn Hr].
    assert (Hall : forall r', r' ∈ name_rows k (rows t) -> r_id r' <= r_id r).
    { intros r' [Hn' Hr']%elem_of_name_rows. by eapply last_row_max. }
    rewrite (filter_all (fun r' => r_id r' <= r_id r)) by done.
    unfold last_row in Hl. rewrite Hl, Hd, filter_none; [done|].
    intros x Hx. specialize (Hall x Hx). lia. }
  split.
  - rewrite current_row. unfold last_row. rewrite Hn. simpl. by rewrite Hd.
  - unfold insert_row. destruct (unique_violation k 0 t1) eqn:E; [exfalso|done].
    apply unique_violation_spec in E as (x & Hx & Hxn & Hx0).
    assert (Hin : x ∈ name_rows k (rows t1)) by by apply elem_of_name_rows.
    rewrite Hn in Hin. apply list_elem_of_singleton in Hin. subst. lia.
Qed.

(** ** Polling *)
Definition ev : row -> Event := event_of true true.

Definition not_fill (r : row) : Prop := IsFill (r_name r) = false.

#[export] Instance not_fill_dec r : Decision (not_fill r).
Proof. unfold not_fill. apply _. Defined.

Lemma ev_mod r : kvModRevision (default zeroKV (evKV (ev r))) = r_id r.
Proof. done. Qed.
Lemma ev_key r : kvKey (default zeroKV (evKV (ev r))) = r_name r.
Proof. done. Qed.

Lemma omap_nones (l : list Event) : omap id (const (@None Event) <$> l) = [].
Proof. by induction l. Qed.

(** The scan takes a prefix of the rows and ends at its last revision; without
    an expired gap no revision is missing in between. *)
Lemma poll_scan_spec skip expired l : forall r sl acc r' sl' acc' e,
  0 <= r -> StronglySorted id_lt l -> Forall (fun x => r < r_id x < maxInt64) l -> r < maxInt64 ->
  poll_scan skip expired (ev <$> l) r sl acc = (r', sl', acc', e) ->
  exists l1 l2, l = l1 ++ l2 /\ r <= r' /\ Forall (fun x => r_id x <= r') l1 /\ Forall (fun x => r' < r_id x) l2 /\
    match l1 with [] => r' = r | _ => exists x, x ∈ l1 /\ r_id x = r' end /\
    (expired = false -> forall i, r < i <= r' -> exists x, x ∈ l1 /\ r_id x = i) /\
    omap id acc' = omap id acc ++ (ev <$> base.filter not_fill l1) /\
    sl' = sl || match l1 with [] => false | _ => true end /\
    match e with PollDone => l2 = [] | PollRetry n | PollFill n => n = r' + 1 /\
      exists x l', l2 = x :: l' /\ r_id x <> r' + 1 end.
Proof.
  induction l as [|x l IH]; intros r sl acc r' sl' acc' e Hr Hsort Hall Hmax Hs; cbn [fmap list_fmap poll_scan] in Hs.
  { simplify_eq. exists [], []. rewrite !app_nil_r, orb_false_r. split_and!; try done. intros; lia. }
  rewrite ev_mod, ev_key in Hs. rewrite wrap64_id in Hs by (unfold int64_ok, minInt64, two63; lia).
  inversion Hall as [|?? Hx Hall']; subst. inversion Hsort as [|?? Hsort' Hlt]; subst.
  destruct (negb (r_id x =? r + 1) && negb ((r + 1 =? skip) && expired)) eqn:E.
  - assert (Hgen : forall e', (r, sl, acc ++ (const None <$> (ev x :: (ev <$> l))), e') = (r', sl', acc', e) ->
      (e' = PollRetry (r + 1) \/ e' = PollFill (r + 1)) -> exists l1 l2, x :: l = l1 ++ l2 /\ r <= r' /\
      Forall (fun x => r_id x <= r') l1 /\ Forall (fun x => r' < r_id x) l2 /\
      match l1 with [] => r' = r | _ => exists x, x ∈ l1 /\ r_id x = r' end /\
      (expired = false -> forall i, r < i <= r' -> exists x, x ∈ l1 /\ r_id x = i) /\
      omap id acc' = omap id acc ++ (ev <$> base.filter not_fill l1) /\
      sl' = sl || match l1 with [] => false | _ => true end /\
      match e with PollDone => l2 = [] | PollRetry n | PollFill n => n = r' + 1 /\
        exists x l', l2 = x :: l' /\ r_id x <> r' + 1 end).
    { intros e' Heq He'. simplify_eq. exists [], (x :: l). apply andb_true_iff in E as [E _]. b2p. split_and!; try done.
      - eapply Forall_impl; [exact Hall|]. cbn. intros. lia.
      - intros; lia.
      - rewrite omap_app, omap_nones. done.
      - by rewrite orb_false_r.
      - destruct He' as [->| ->]; (split; [done|]); eauto. }
    destruct (negb (skip =? r + 1)); eapply Hgen; eauto.
  - apply IH in Hs as (l1 & l2 & -> & Hle & H1 & H2 & Hlast & Hfull & Hd & -> & He); [|lia|done| |lia].
    2:{ apply Forall_forall. intros y Hy. rewrite Forall_forall in Hlt, Hall'. specialize (Hlt y Hy). specialize (Hall' y Hy).
        unfold id_lt in Hlt. cbn in Hall'. lia. }
    exists (x :: l1), l2. split_and!; [done|lia|by constructor|done| | | | |done].
    + destruct l1 as [|y l1]; [exists x; by split; [left|]|]. destruct Hlast as (z & Hz & ?). exists z. split; [by right|done].
    + intros -> i Hi. rewrite andb_false_r, andb_true_r in E. b2p.
      destruct (decide (i = r_id x)) as [->|Hne]; [exists x; by split; [left|]|].
      destruct (Hfull eq_refl i) as (z & Hz & ?); [lia|]. exists z. split; [by right|done].
    + rewrite Hd, omap_app, filter_cons, <- app_assoc. f_equal.
      case_decide as Hf; unfold not_fill in Hf; [by rewrite Hf|].
      apply not_false_is_true in Hf. by rewrite Hf.
    + by rewrite orb_true_r.
Qed.

Definition after_rows (t : table) (r : Z) : list row := base.filter (fun x => r < r_id x) (rows t).

Lemma AfterSQL_all t r limit :
  After t "" "" r limit = with_revs t (LIMIT limit (after_rows t r)).
Proof.
  unfold After, AfterSQL, after_rows. cbn [String.eqb]. do 2 f_equal. apply list_filter_iff.
  intros x. cbn [andb]. rewrite Z.gtb_ltb. apply Z.ltb_lt.
Qed.

Lemma LIMIT_prefix {A} limit (l : list A) : exists rest, l = LIMIT limit l ++ rest.
Proof.
  unfold LIMIT. destruct (limit >? 0); [|by exists []; rewrite app_nil_r]. eexists. by rewrite take_drop.
Qed.

(** One round on a table whose rows are in order, whatever wrote them. *)
Lemma poll_round_spec t p expired limit p' b e :
  StronglySorted id_lt (rows t) -> Forall (fun x => r_id x < maxInt64) (rows t) -> 0 <= p_revision p < maxInt64 ->
  poll_round p expired (RowsToEvents (After t "" "" (p_revision p) limit) true true).2 = (p', b, e) ->
  p_revision p <= p_revision p' < maxInt64 /\
  (expired = false -> forall i, p_revision p < i <= p_revision p' -> exists x, x ∈ rows t /\ r_id x = i) /\
  omap id (default [] b)
    = ev <$> base.filter (fun x => not_fill x /\ p_revision p < r_id x <= p_revision p') (rows t) /\
  (b = None <-> p_revision p' = p_revision p) /\
  (e <> PollDone -> (exists x, x ∈ rows t /\ p_revision p' + 1 < r_id x) /\
     forall x, x ∈ rows t -> r_id x <> p_revision p' + 1).
Proof.
  intros Hsort Hids Hr. rewrite AfterSQL_all, RowsToEvents_spec. cbn [snd]. unfold poll_round.
  set (r := p_revision p) in *. set (l := LIMIT limit (after_rows t r)).
  change (event_of true true) with ev.
  destruct (poll_scan (p_skip p) expired (ev <$> l) r false []) as [[[r' sl] acc] e'] eqn:Hscan.
  destruct (LIMIT_prefix limit (after_rows t r)) as [rest Hrest]. fold l in Hrest.
  assert (Hmem : forall x, x ∈ after_rows t r <-> r < r_id x /\ x ∈ rows t)
    by (intros x; unfold after_rows; by rewrite list_elem_of_filter).
  assert (Hs : StronglySorted id_lt (after_rows t r)) by (unfold after_rows; by apply StronglySorted_filter).
  rewrite Forall_forall in Hids. rewrite Hrest in Hs.
  apply poll_scan_spec in Hscan as (l1 & l2 & Hl & Hle & H1 & H2 & Hlast & Hfull & Hd & -> & He);
    [|lia|by apply StronglySorted_app_1_l in Hs| |lia].
  2:{ apply Forall_forall. intros x Hx. assert (Hx' : x ∈ after_rows t r) by (rewrite Hrest; set_solver).
      apply Hmem in Hx' as [? Hx']. split; [done|]. by apply Hids. }
  rewrite Forall_forall in H1, H2. rewrite Hl, <- app_assoc in Hrest, Hs. rewrite Hrest in Hmem.
  assert (Hnext : forall x, x ∈ l2 ++ rest -> r' < r_id x).
  { intros x [Hx|Hx]%elem_of_app; [by apply H2|]. destruct l1 as [|y l1].
    - rewrite Hlast. apply Hmem. set_solver.
    - destruct Hlast as (z & Hz & <-). apply (StronglySorted_app_1_elem_of id_lt (y :: l1) (l2 ++ rest)); [done|done|set_solver]. }
  assert (Hmax : r' < maxInt64).
  { destruct l1 as [|y l1]; [rewrite Hlast; lia|]. destruct Hlast as (z & Hz & <-). apply Hids, Hmem. set_solver. }
  assert (Hfilter : base.filter (fun x => not_fill x /\ r < r_id x <= r') (rows t) = base.filter not_fill l1).
  { transitivity (base.filter (fun x => not_fill x /\ r_id x <= r') (after_rows t r)).
    - unfold after_rows. rewrite list_filter_filter. apply list_filter_iff. intros; tauto.
    - rewrite Hrest, filter_app, (filter_none _ (l2 ++ rest)), app_nil_r.
      + apply filter_agree. intros x Hx. specialize (H1 x Hx). tauto.
      + intros x Hx. specialize (Hnext x Hx). lia. }
  assert (Hgap : e' <> PollDone -> (exists x, x ∈ rows t /\ r' + 1 < r_id x) /\ forall x, x ∈ rows t -> r_id x <> r' + 1).
  { intros Hne. assert (Hex : exists y l', l2 = y :: l' /\ r_id y <> r' + 1) by (destruct e'; [done|apply He|apply He]).
    destruct Hex as (y & l' & -> & Hy). split.
    { exists y. split; [apply Hmem; set_solver|]. specialize (Hnext y ltac:(set_solver)). lia. }
    intros x Hx Hid. assert (Hin : x ∈ l1 ++ y :: l' ++ rest) by (apply Hmem; split; [lia|done]).
    apply elem_of_app in Hin as [Hin|Hin]; [specialize (H1 x Hin); lia|].
    apply (StronglySorted_app_1_r id_lt) in Hs. simpl in Hs. inversion Hs as [|?? _ Hall]; subst.
    apply elem_of_cons in Hin as [->|Hin]; [done|].
    rewrite Forall_forall in Hall. specialize (Hall x Hin). unfold id_lt in Hall.
    specialize (Hnext y ltac:(set_solver)). lia. }
  assert (Hfull' : expired = false -> forall i, r < i <= r' -> exists x, x ∈ rows t /\ r_id x = i).
  { intros Hx i Hi. destruct (Hfull Hx i Hi) as (x & Hin & Hid). exists x. split; [apply Hmem; set_solver|done]. }
  destruct l1 as [|x1 l1]; cbn [orb]; intros [= <- <- <-]; cbn [p_revision default from_option].
  - subst r'. fold r. split_and!; try done; by rewrite Hfilter.
  - assert (Hne : r' <> r).
    { destruct Hlast as (z & Hz & <-). assert (r < r_id z) by (apply Hmem; set_solver). lia. }
    split_and!; [done|done|done|rewrite Hfilter; exact Hd|split; [done|congruence]|done].
Qed.

(** One round of the poller hands the watchers every stored event after
    its revision up to the first missing revision (or the end of the batch),
    in order, each once, fill rows left out; its revision moves exactly that
    far, so the next round goes on there and no event is skipped or repeated;
    when it stops at a gap the next revision is really not in the table. *)
Theorem poll_delivers t p limit p' b e :
  chain t -> seq t < maxInt64 -> 0 <= p_revision p < maxInt64 ->
  poll_round p false (RowsToEvents (After t "" "" (p_revision p) limit) true true).2 = (p', b, e) ->
  p_revision p <= p_revision p' /\
  (forall i, p_revision p < i <= p_revision p' -> exists x, x ∈ rows t /\ r_id x = i) /\
  omap id (default [] b)
    = ev <$> base.filter (fun x => not_fill x /\ p_revision p < r_id x <= p_revision p') (rows t) /\
  (b = None <-> p_revision p' = p_revision p) /\
  (e <> PollDone -> forall x, x ∈ rows t -> r_id x <> p_revision p' + 1).
Proof.
  intros Hc Hseq Hr Hp. apply poll_round_spec in Hp as (H1&H2&H3&H4&H5); [|apply Hc| |done].
  { split; [lia|split; [by apply H2|split; [done|split; [done|]]]]. intros He. by apply H5. }
  eapply Forall_impl; [apply (ch_ids _ Hc)|]. simpl. lia.
Qed.

(** The watch filter lets a batch of one event through on its key alone:
    the selectors of the watch, which a batch of two is filtered by, are not
    consulted. *)
Theorem filter_one_ignores_selectors e key end_ :
  InRange (Some e) key end_ = true -> is_Some (evKV e) ->
  filter_events (fun _ => false) [Some e] key end_ = ([e], true) /\
  filter_events (fun _ => false) [Some e; None] key end_ = ([], false).
Proof.
  intros Hr [kv Hkv]. unfold filter_events. rewrite Hr. split; [done|]. simpl. rewrite Hkv.
  destruct (evPrevKV e), (InRange None key end_); by rewrite ?andb_false_r.
Qed.

(** ** Start *)
Lemma compactStart_max_created l : Forall (fun r => r_created r = true) l ->
  compactStart_max (ev <$> l) = (0, 0).
Proof.
  unfold compactStart_max. induction 1 as [|r l Hr _ IH]; [done|].
  cbn [fmap list_fmap fold_left]. unfold ev, event_of. cbn [scan snd evPrevKV]. by rewrite Hr.
Qed.

Lemma delete_fold_rows maxID l t r :
  r ∈ rows (fold_left (fun t e =>
     let id := kvModRevision (default zeroKV (evKV e)) in
     if id =? maxID then t else DeleteRevision id t) (ev <$> l) t) ->
  r ∈ rows t /\ forall x, x ∈ l -> r_id x <> maxID -> r_id r <> r_id x.
Proof.
  revert t. induction l as [|x l IH]; intros t; cbn [fmap list_fmap fold_left]; [set_solver|].
  intros [Hr Hl]%IH. rewrite ev_mod in Hr. destruct (r_id x =? maxID) eqn:E; b2p.
  - split; [done|]. intros y [->|Hy]%elem_of_cons; [done|auto].
  - simpl in Hr. apply list_elem_of_filter in Hr as [Hne Hr]. split; [done|].
    intros y [->|Hy]%elem_of_cons; [done|auto].
Qed.

Lemma list_two_match {A B} (l : list A) (a b c : B) : (2 <= length l)%nat ->
  match l with [] => a | [_] => b | _ => c end = c.
Proof. destruct l as [|? [|? ?]]; simpl; [lia|lia|done]. Qed.

(** [compactStart] looks for the duplicate of the compact revision row to
    keep by its previous revision, which a created row never shows: given two
    or more rows, all written as creations (the only way the code writes
    them), it deletes every one of them and reports success. *)
Theorem compact_start_deletes_all w :
  (2 <= length (name_rows compact_rev_key (rows (w_table w))))%nat ->
  (forall r, r ∈ rows (w_table w) -> r_name r = compact_rev_key -> r_created r = true /\ 0 < r_id r) ->
  (run compactStart w).1 = Some None /\
  name_rows compact_rev_key (rows (w_table (run compactStart w).2)) = [].
Proof.
  intros Hlen Hall. set (t := w_table w) in *. set (l := name_rows compact_rev_key (rows t)) in *.
  assert (Hmem : forall r, r ∈ l <-> r_name r = compact_rev_key /\ r ∈ rows t) by (intros; apply elem_of_name_rows).
  assert (Hafter : After t compact_rev_key "" 0 0 = with_revs t l).
  { unfold After, AfterSQL. do 2 f_equal. cbn [LIMIT String.eqb compact_rev_key]. unfold l, name_rows.
    change (LIMIT 0 ?x) with x. apply filter_agree. intros r Hr. unfold EqualsName.
    rewrite andb_true_iff, String.eqb_eq, Z.gtb_ltb, Z.ltb_lt. split; [by intros [? _]|].
    intros Hn. split; [done|]. by apply Hall. }
  assert (Hcr : Forall (fun r => r_created r = true) l).
  { apply Forall_forall. intros r [Hn Hr]%Hmem. by apply Hall. }
  unfold compactStart. cbn [pbind call run h_do dialect_handler dialect_do]. fold t.
  rewrite Hafter, RowsToEvents_spec. change (event_of true true) with ev.
  rewrite (list_two_match (ev <$> l)) by (by rewrite length_fmap).
  clearbody l. rewrite compactStart_max_created by done. cbn [call run h_do dialect_handler dialect_do fst snd w_table on_table].
  split; [done|]. destruct (name_rows compact_rev_key _) as [|r l'] eqn:E; [done|exfalso].
  assert (Hr : r ∈ r :: l') by set_solver. rewrite <- E in Hr.
  apply elem_of_name_rows in Hr as [Hn [Hr Hno]%delete_fold_rows].
  destruct (Hall r Hr Hn) as [_ Hpos]. apply (Hno r); [by apply Hmem|lia|done].
Qed.

(** An empty list takes the store's revision from the cache: if that lags
    behind the table, as after another process's write, a revision that exists
    (here 3, with the cache at 2) is answered as one of the future. *)
Example stale_cache_future_rev : CurrentRevSQL (w_table ww) = Some 3 /\
  (run (SQLLog_List "b" "c" 0 3 false false) (MkWorld (w_table ww) 2 3 (w_objects ww))).1 = Some (2, [], Some ErrFutureRev).
Proof. split; reflexivity. Qed.

(** ** Witnesses *)
Lemma sqllog_list_correct_witness : exists evs err,
  (run (SQLLog_List "a" "z" 10 3 false false) ww).1 = Some (3, evs, err) /\ err = None.
Proof.
  destruct (sqllog_list_correct ww "a" "z" 10 3 false 3 0) as (evs & err & Hx & _ & _ & _ & Hok);
    [apply ww_ready|right; reflexivity|reflexivity|reflexivity|lia|].
  exists evs, err. split; [exact Hx|]. destruct Hok as [Hok _]; [lia|exact Hok].
Defined.

Definition wt4 : table := SetCompactRevision 2 (Sql.Compact 2 wt3).2.

Lemma sql_compact_transaction_witness : CompactRevSQL wt4 = Some 2 /\ chain wt4.
Proof.
  destruct (sql_compact_transaction 1 0 5 wt3 2 3 wt4) as (_ & _ & Hc & _ & _ & Hch & _);
    [apply ww_ready|apply ww_ready|vm_compute; split; discriminate|lia|reflexivity|].
  split; [exact Hc|exact Hch].
Defined.

Lemma compact_iter_total_witness : exists r, (run (compactIter 1 1 0 2) ww).1 = Some r.
Proof.
  apply (compact_iter_total lenv 1 1 0 2 ww (run (compactIter 1 1 0 2) ww).1 (run (compactIter 1 1 0 2) ww).2);
    [lia|vm_compute; discriminate|vm_compute; discriminate|].
  apply (run_exec lenv roomb); [apply roomb_room|reflexivity].
Defined.

Lemma compact_iter_correct_witness : exists r w', run (compactIter 1 1 0 3) ww = (Some r, w') /\
  compacted (w_table ww) (w_table w') 3 0 2.
Proof.
  destruct (compact_iter_correct 1 1 3 0 3 ww) as (r & w' & Hr & Hc & _);
    [apply ww_ready|apply ww_ready|reflexivity|reflexivity|lia|lia|vm_compute; discriminate|
     vm_compute; split; discriminate|lia|].
  exists r, w'. split; [exact Hr|exact Hc].
Defined.

Lemma create_accepted_after_compaction_witness :
  (insert_row "a" true false 0 0 0 "v" (Sql.Compact 3 wt3).2).1 = (4, None).
Proof.
  apply (create_accepted_after_compaction wt3 "a" (MkRow 3 "a" false false 2 2 0 "y" "x") "v" 0);
    [apply ww_ready|discriminate|reflexivity|reflexivity|reflexivity].
Defined.

Lemma poll_delivers_witness : exists p' b e,
  poll_round (MkPoller 1 0) false (RowsToEvents (After wt3 "" "" 1 500) true true).2 = (p', b, e) /\
  1 <= p_revision p'.
Proof.
  eexists _, _, _. split; [reflexivity|].
  apply (poll_delivers wt3 (MkPoller 1 0) 500
    (poll_round (MkPoller 1 0) false (RowsToEvents (After wt3 "" "" 1 500) true true).2).1.1
    (poll_round (MkPoller 1 0) false (RowsToEvents (After wt3 "" "" 1 500) true true).2).1.2
    (poll_round (MkPoller 1 0) false (RowsToEvents (After wt3 "" "" 1 500) true true).2).2);
    [apply ww_ready|vm_compute; reflexivity|vm_compute; split; [discriminate|reflexivity]|reflexivity].
Defined.

Lemma filter_one_ignores_selectors_witness :
  filter_events (fun _ => false) [Some (MkEvent false true (Some (MkKeyValue "/a" "" 0 1 1 0)) None)] "/" "0"
  = ([MkEvent false true (Some (MkKeyValue "/a" "" 0 1 1 0)) None], true).
Proof. apply filter_one_ignores_selectors; [reflexivity|eexists; reflexivity]. Defined.

Definition w2c : world :=
  MkWorld (MkTable [MkRow 1 compact_rev_key true false 0 7 0 "" ""; MkRow 9 compact_rev_key true false 0 0 0 "" ""] 9) 9 9 (fun _ _ => Stored).

Lemma compact_start_deletes_all_witness : (run compactStart w2c).1 = Some None.
Proof.
  apply (compact_start_deletes_all w2c); [simpl; lia|].
  intros r Hr _. simpl in Hr. apply elem_of_cons in Hr as [->|Hr]; [split; reflexivity|].
  apply list_elem_of_singleton in Hr as ->. split; reflexivity.
Defined.
