(* ===== verification/LogWatch.v ===== *)
(** * Watches of the log-structured backend: the listing and the live events *)
From S2P Require Import Prelude Types GoStrings Prog OrderedMap Mvcc MemoryProofs Sql SqlLog SqlProofs LogStructured LogProofs LogTheorems SqlTheorems.

(** The rows a watch is about. *)
Definition watched (key e : string) : row -> bool :=
  if String.eqb key "" then fun _ => true else if String.eqb e "" then EqualsName key else BetweenName key e.

Definition watch_from (rev : Z) : Z := if rev >? 1 then rev - 1 else rev.

Definition rows_between (key e : string) (a b : Z) (l : list row) : list row :=
  base.filter (fun x => watched key e x = true /\ a < r_id x <= b) l.

Definition evs (l : list row) : list Event := ev <$> l.

Lemma After_rows t key e rev :
  After t key e rev 0 = with_revs t (base.filter (fun x => watched key e x = true /\ rev < r_id x) (rows t)).
Proof.
  unfold After, AfterSQL. do 2 f_equal. change (LIMIT 0 ?x) with x. apply list_filter_iff. intros x.
  unfold watched. rewrite Z.gtb_ltb. destruct (rev <? r_id x) eqn:E; b2p;
    rewrite ?andb_true_r, ?andb_false_r; intuition (try done; try lia).
Qed.

(** [filter] on ordered events drops exactly those up to [rev]. *)
Lemma filter_rows l rev : StronglySorted id_lt l ->
  filter (ev <$> l) rev = Some (ev <$> base.filter (fun x => rev < r_id x) l).
Proof.
  induction 1 as [|x l Hs IH Hx]; [done|]. cbn [fmap list_fmap filter]. change (evKV (ev x)) with
    (Some (MkKeyValue (r_name x) (r_value x) 0 (if r_created x then r_id x else r_create_revision x) (r_id x) (r_lease x))).
  cbn [kvModRevision]. rewrite filter_cons. destruct (r_id x <=? rev) eqn:E; b2p.
  - by rewrite decide_False by lia.
  - rewrite decide_True by lia. rewrite Forall_forall in Hx.
    rewrite filter_all; [done|]. intros y Hy. specialize (Hx y Hy). unfold id_lt in Hx. lia.
Qed.

Lemma concat_evs_inv (bs : list (list Event)) (l : list row) : concat bs = evs l ->
  exists ls, bs = evs <$> ls /\ concat ls = l.
Proof.
  revert l. induction bs as [|b bs IH]; intros l Hl; simpl in Hl.
  { exists []. split; [done|]. by symmetry in Hl; apply fmap_nil_inv in Hl as ->. }
  symmetry in Hl. apply fmap_app_inv in Hl as (l1 & l2 & -> & Hl2 & ->).
  destruct (IH l2 Hl2) as (ls & -> & <-). by exists (l1 :: ls).
Qed.

Lemma mapM_filter ls rev : StronglySorted id_lt (concat ls) ->
  mapM (fun b => filter b rev) (evs <$> ls) =
  Some (evs <$> (base.filter (fun x => rev < r_id x) <$> ls)).
Proof.
  intros Hs. apply mapM_Some. revert Hs. induction ls as [|l ls IH]; intros Hs; [constructor|].
  simpl in Hs. rewrite !fmap_cons. constructor.
  - apply filter_rows. by eapply StronglySorted_app_1_l.
  - apply IH. by eapply StronglySorted_app_1_r.
Qed.

Lemma concat_filter ls rev :
  concat (base.filter (fun x => rev < r_id x) <$> ls) = base.filter (fun x => rev < r_id x) (concat ls).
Proof. induction ls as [|l ls IH]; [done|].
  rewrite fmap_cons. cbn [concat]. by rewrite IH, filter_app.
Qed.

Lemma concat_evs (ls : list (list row)) : concat (evs <$> ls) = evs (concat ls).
Proof. 
  induction ls as [|l ls IH]; [done|]. rewrite fmap_cons. cbn [concat]. rewrite IH. unfold evs. by rewrite fmap_app.
Qed.

Lemma run_CurrentRevision_any w : started (w_table w) ->
  exists v w', run SQLLog_CurrentRevision w = (Some (v, None), w') /\ w_table w' = w_table w.
Proof.
  intros Hst. destruct (started_revs _ Hst) as (n & _ & Hn & _).
  destruct (decide (w_currentRev w = 0)) as [E|E].
  - exists n. destruct (run_CurrentRevision w n Hn) as (w' & Hw); [by left|eauto].
  - exists (w_currentRev w), w. unfold SQLLog_CurrentRevision. cbn.
    by rewrite (proj2 (Z.eqb_neq _ _) E).
Qed.

Lemma run_After w key e rev c : chain (w_table w) -> started (w_table w) ->
  CompactRevSQL (w_table w) = Some c -> c <= rev ->
  let kvs := base.filter (fun x => watched key e x = true /\ rev < r_id x) (rows (w_table w)) in
  exists n w', run (SQLLog_After key e rev 0) w = (Some (n, evs kvs, None), w') /\ w_table w' = w_table w /\
    (kvs <> [] -> CurrentRevSQL (w_table w) = Some n).
Proof.
  intros Hc Hst Hcr Hle kvs. destruct (started_revs _ Hst) as (n & c' & Hn & _).
  assert (Hno : (rev >? 0) && (rev <? c) = false) by (destruct (Z.ltb_spec rev c); [lia|apply andb_false_r]).
  assert (Hno' : (rev >? 0) = true -> (rev <? c) = false) by (intros _; destruct (Z.ltb_spec rev c); [lia|done]).
  unfold SQLLog_After. cbn [pbind call run h_do dialect_handler dialect_do]. rewrite After_rows.
  fold kvs. rewrite RowsToEvents_spec. change (event_of true true) with ev. fold (evs kvs).
  destruct kvs as [|x kvs]; [|clear -Hno Hno' Hn Hcr; cbn [evs fmap list_fmap]].
  - cbn [evs fmap list_fmap]. destruct (rev >? 0) eqn:E; cbn [andb].
    + rewrite run_bind, run_bind. destruct (run_CurrentRevision_any w Hst) as (v & w1 & -> & Hw1).
      cbn [fst snd is_err run pbind call h_do dialect_handler dialect_do]. unfold GetCompactRevision.
      rewrite Hw1, Hcr. cbn [scan_int64 is_err run fst snd andb]. rewrite (Hno' eq_refl). exists v, w1. done.
    + cbn. exists 0, w. done.
  - rewrite andb_false_r. cbn [pbind is_err run]. rewrite Hn, Hcr. cbn [Int64 default from_option id].
    rewrite Hno. exists n, w. done.
Qed.

Lemma between_split key e a n b l : a <= n -> n <= b ->
  StronglySorted id_lt l -> rows_between key e a b l = rows_between key e a n l ++ rows_between key e n b l.
Proof.
  intros H1 H2 Hs. unfold rows_between. induction Hs as [|x l Hs IH Hx]; [done|]. rewrite !filter_cons.
  destruct (watched key e x).
  2:{ by rewrite !decide_False by (intros [? _]; done). }
  destruct (decide (r_id x <= n)) as [Hle|Hgt].
  - rewrite (decide_False (P := true = true /\ n < r_id x <= b)) by lia.
    destruct (decide (a < r_id x)).
    + rewrite !decide_True by lia. simpl. by f_equal.
    + rewrite !decide_False by lia. done.
  - rewrite (decide_False (P := true = true /\ a < r_id x <= n)) by lia.
    rewrite Forall_forall in Hx.
    assert (Hnil : base.filter (fun y => watched key e y = true /\ a < r_id y <= n) l = []).
    { apply filter_none. intros y Hy. specialize (Hx y Hy). unfold id_lt in Hx. lia. }
    rewrite Hnil in *. simpl in *.
    destruct (decide (r_id x <= b)).
    + rewrite !decide_True by lia. by f_equal.
    + rewrite !decide_False by lia. done.
Qed.

Lemma filter_between key e a b m l : a <= m ->
  base.filter (fun x => m < r_id x) (rows_between key e a b l) = rows_between key e m b l.
Proof.
  intros Hm. unfold rows_between. rewrite list_filter_filter. apply list_filter_iff. intros x. intuition lia.
Qed.

Lemma kvs_between key e a n R l : base.filter (fun x => r_id x <= n) R = l ->
  base.filter (fun x => watched key e x = true /\ a < r_id x) l = rows_between key e a n R.
Proof.
  intros <-. unfold rows_between. rewrite list_filter_filter. apply list_filter_iff. intros x. intuition lia.
Qed.

(** What the goroutine sends, given the events of the log's watch. *)
Lemma watch_sends_spec key e R p q kvs last batches cr cu er :
  StronglySorted id_lt R -> concat batches = evs (rows_between key e p q R) ->
  exists sends, watch_sends (MkWatchStart (evs kvs) last cr cu er) batches = Some sends /\
    concat sends = evs (kvs ++ base.filter (fun x => last < r_id x) (rows_between key e p q R)).
Proof.
  intros HR Hb. destruct (concat_evs_inv _ _ Hb) as (ls & -> & Hls).
  unfold watch_sends. cbn [ws_lastRevision ws_kvs]. rewrite mapM_filter.
  2:{ rewrite Hls. by apply StronglySorted_filter. }
  eexists. split; [done|]. rewrite <- Hls, <- concat_filter. unfold evs at 4. rewrite fmap_app.
  fold (evs kvs). change (ev <$> concat _) with (evs (concat (base.filter (fun x => last < r_id x) <$> ls))).
  rewrite <- concat_evs. by destruct kvs.
Qed.

Lemma watch_complete ci batch mr w key e rev c n :
  chain (w_table w) -> started (w_table w) -> CompactRevSQL (w_table w) = Some c ->
  CurrentRevSQL (w_table w) = Some n -> c <= watch_from rev ->
  exists ws w', run (Watch (sqlLog ci batch mr) key e rev) w = (Some ws, w') /\ w_table w' = w_table w /\
    ws_err ws = None /\ ws_CompactRevision ws = 0 /\
    forall R p q batches, StronglySorted id_lt R -> base.filter (fun x => r_id x <= n) R = rows (w_table w) ->
      p <= n <= q -> concat batches = evs (rows_between key e p q R) ->
      exists sends, watch_sends ws batches = Some sends /\
        concat sends = evs (rows_between key e (watch_from rev) q R).
Proof.
  intros Hc Hst Hcr Hn Hle. set (rv := watch_from rev).
  destruct (run_After w key e rv c Hc Hst Hcr Hle) as (n' & w' & Hrun & Hw' & Hn').
  set (kvs := base.filter (fun x => watched key e x = true /\ rv < r_id x) (rows (w_table w))) in *.
  set (last := match kvs with [] => rv | _ => n end).
  exists (MkWatchStart (evs kvs) last 0 0 None), w'. split; [|split; [done|split; [done|split; [done|]]]].
  { unfold Watch. rewrite run_bind. fold (watch_from rev). fold rv. cbn [l_After sqlLog]. rewrite Hrun. cbn [fst snd is_err run].
    do 3 f_equal. subst last. destruct kvs; [done|]. cbn. rewrite Hn in Hn'. by injection (Hn' ltac:(done)). }
  intros R p q batches HR HRn Hp Hb.
  destruct (watch_sends_spec key e R p q kvs last batches 0 0 None HR Hb) as (sends & Hs & Hcat).
  exists sends. split; [done|]. rewrite Hcat. f_equal.
  pose proof (kvs_between key e rv n R _ HRn) as Hkvs. fold kvs in Hkvs.
  destruct (decide (rv <= n)) as [Hrn|Hrn].
  - rewrite (between_split key e rv n q R) by (lia || done). rewrite <- Hkvs.
    subst last. destruct kvs as [|x kvs']; [|f_equal; apply filter_between; lia]. cbn [app].
    rewrite <- (filter_between key e p q n) by lia. apply filter_agree. intros y Hy.
    split; [|lia]. intros Hyr. apply Z.lt_nge. intros Hyn. apply (not_elem_of_nil y). rewrite Hkvs.
    unfold rows_between in *. apply list_elem_of_filter in Hy as [[? _] ?]. by apply list_elem_of_filter.
  - assert (Hnil : rows_between key e rv n R = []) by (apply filter_none; intros y _; lia).
    rewrite Hnil in Hkvs. subst last. rewrite Hkvs. cbn [app]. apply filter_between. lia.
Qed.

(** C19. A watch of the log-structured backend delivers every event of its
    range after its start revision exactly once and in order: given that the
    log's watch, subscribed to first, passes on the events from a revision
    that is not beyond the listing, the listing followed by the filtered
    batches are the stored events after the start revision (the one before the
    revision asked for), up to the last one passed on. *)
Theorem ls_watch_complete ci batch mr w key e rev c n :
  chain (w_table w) -> started (w_table w) -> CompactRevSQL (w_table w) = Some c ->
  CurrentRevSQL (w_table w) = Some n -> c <= watch_from rev ->
  exists ws w', run (Watch (sqlLog ci batch mr) key e rev) w = (Some ws, w') /\ w_table w' = w_table w /\
    ws_err ws = None /\ ws_CompactRevision ws = 0 /\
    forall R p q batches, StronglySorted id_lt R -> base.filter (fun x => r_id x <= n) R = rows (w_table w) ->
      p <= n <= q -> concat batches = evs (rows_between key e p q R) ->
      exists sends, watch_sends ws batches = Some sends /\
        concat sends = evs (rows_between key e (watch_from rev) q R).
Proof. apply watch_complete. Qed.

Lemma ls_watch_complete_witness : exists ws w',
  run (Watch wlog "a" "" 3) ww = (Some ws, w') /\
  exists sends, watch_sends ws [evs [MkRow 3 "a" false false 2 2 0 "y" "x"]; []] = Some sends /\
    concat sends = evs [MkRow 3 "a" false false 2 2 0 "y" "x"].
Proof.
  destruct (ls_watch_complete 0 100 1000 ww "a" "" 3 0 3) as (ws & w' & Hrun & _ & _ & _ & Hall);
    [apply ww_ready|apply ww_ready|reflexivity|reflexivity|vm_compute; discriminate|].
  exists ws, w'. split; [exact Hrun|].
  apply (Hall (rows wt3) 2 3); [apply ch_sorted, ww_ready|reflexivity|lia|reflexivity].
Defined.
