(* ===== verification/SqlPoll.v ===== *)
(** * The goroutines of the SQL log (pkg/logstructured/sqllog/sql.go)

    [startWatch], the loop of [poll] and [WaitForSyncTo] take turns with
    writers whose rows become visible in any order, with compaction and with
    the callers that wait.  A critical section, a database call, a channel
    operation are one step each.  Whether a gap has outlived its second when a
    batch is read, so that [canSkipRevision] lets it pass unfilled, is free; a
    run is [late] if it may happen in it.  Two fields are ghosts: [l_hist], every
    row that was ever visible, and [l_skipped], the revisions that were passed
    without a row.  Compaction and the changes of the row of the compact revision
    touch only revisions that the poller has passed. *)
From S2P Require Import Prelude Types GoStrings Prog Sql SqlLog SqlProofs LogProofs LogTheorems SqlTheorems LogWatch.

(** ** State *)

(** [s.notify]: a send that would block is given up. *)
Definition notify_cap : nat := 1024.
Definition post (n : Z) (q : list Z) : list Z := if (length q <? notify_cap)%nat then q ++ [n] else q.

Abbreviation batch := (list (option Event)).

(** Where [poll] is: at the top of the loop, before the critical section,
    before [After], before what it does about a gap, before the send to the
    broadcaster, before the send to the producers, and returned. *)
Inductive pc : Type :=
  | Top | Publish | Read
  | Gap (p : poller) (b : option batch) (e : poll_end)
  | Send (p : poller) (b : option batch)
  | Stream (b : batch)
  | Closed.

(** A caller of [WaitForSyncTo]: about to look at the polled revision, in
    [polled.Wait], or returned. *)
Inductive waiter : Type := WCheck | WAsleep | WDone.

Record slog := MkLog {
  l_table : table;
  l_hist : list row;
  l_notify : list Z;
  l_currentRev : Z;
  l_polledRev : Z;
  l_poller : poller;
  l_waitForMore : bool;
  l_pc : pc;
  l_sent : list batch;
  l_streamed : list batch;
  l_waiters : gmap nat (Z * waiter);
  l_skipped : list Z
}.

Definition l_pollRevision (s : slog) : Z := p_revision (l_poller s).

Definition set_pc (c : pc) (s : slog) : slog :=
  MkLog (l_table s) (l_hist s) (l_notify s) (l_currentRev s) (l_polledRev s) (l_poller s) (l_waitForMore s) c
    (l_sent s) (l_streamed s) (l_waiters s) (l_skipped s).
Definition set_notify (q : list Z) (s : slog) : slog :=
  MkLog (l_table s) (l_hist s) q (l_currentRev s) (l_polledRev s) (l_poller s) (l_waitForMore s) (l_pc s)
    (l_sent s) (l_streamed s) (l_waiters s) (l_skipped s).
Definition set_waiters (w : gmap nat (Z * waiter)) (s : slog) : slog :=
  MkLog (l_table s) (l_hist s) (l_notify s) (l_currentRev s) (l_polledRev s) (l_poller s) (l_waitForMore s) (l_pc s)
    (l_sent s) (l_streamed s) w (l_skipped s).
Definition set_tables (t : table) (h : list row) (s : slog) : slog :=
  MkLog t h (l_notify s) (l_currentRev s) (l_polledRev s) (l_poller s) (l_waitForMore s) (l_pc s)
    (l_sent s) (l_streamed s) (l_waiters s) (l_skipped s).

(** ** [startWatch] *)

(** The ticker of the compactor: [time.NewTicker] panics when its interval is
    not positive. *)
Inductive compactor_start : Type := NoCompactor | Ticks (interval : Z) | TickerPanics.
Definition NewTicker (interval : Z) : compactor_start := if interval <=? 0 then TickerPanics else Ticks interval.

Inductive start_result : Type :=
  | StartErr (e : err)
  | StartPanic
  | Started (c : compactor_start) (s : slog).

(** [jitter] is the random share of the interval; what it can be: *)
Definition jitter_ok (interval jitterPercent jitter : Z) : Prop :=
  100 * Z.abs jitter <= jitterPercent * interval.

Definition startWatch (interval jitterPercent jitter : Z) (t : table) (currentRev : Z) : start_result :=
  let (pollStart, err) := CurrentRevision t in
  match err with
  | Some e => StartErr e
  | None =>
      if (jitterPercent <? 0) || (jitterPercent >? 100) then StartPanic
      else
        Started (if interval <=? 0 then NoCompactor else NewTicker (interval + jitter))
          (MkLog t (rows t) [] currentRev 0 (MkPoller pollStart 0) true Top [] [] ∅ [])
  end.

(** ** [poll] *)

(** The critical section: every sleeping caller is woken. *)
Definition wake (w : Z * waiter) : Z * waiter :=
  match w with (r, WAsleep) => (r, WCheck) | _ => w end.
Definition publish (s : slog) : slog :=
  MkLog (l_table s) (l_hist s) (l_notify s) (l_currentRev s) (l_pollRevision s) (l_poller s) true Read
    (l_sent s) (l_streamed s) (wake <$> l_waiters s) (l_skipped s).

(** The revisions after [q] up to [r] that have no row. *)
Definition without_row (q r : Z) (t : table) : list Z :=
  base.filter (fun i => i ∉ r_id <$> rows t) (seqZ (q + 1) (r - q)).

(** The read and the scan of the batch.  [expired] is what [canSkipRevision]
    finds of the time since the gap was first seen. *)
Definition read (expired : bool) (batchSize : Z) (s : slog) : slog :=
  let '(_, _, events) := RowsToEvents (After (l_table s) "" "" (l_pollRevision s) batchSize) true true in
  match events with
  | [] => set_pc Top s
  | _ =>
      let '(p, b, e) := poll_round (l_poller s) expired events in
      MkLog (l_table s) (l_hist s) (l_notify s) (l_currentRev s) (l_polledRev s) (l_poller s)
        (length events <? 100)%nat (Gap p b e) (l_sent s) (l_streamed s) (l_waiters s)
        (l_skipped s ++ without_row (l_pollRevision s) (p_revision p) (l_table s))
  end.

Definition fill_row (n : Z) : row := MkRow n (fill_name n) false true 0 0 0 "" "".

(** What is done about a gap. *)
Definition at_gap (p : poller) (b : option batch) (e : poll_end) (s : slog) : slog :=
  set_pc (Send p b)
    match e with
    | PollDone => s
    | PollRetry n => set_notify (post n (l_notify s)) s
    | PollFill n =>
        let (err, t) := Fill n (l_table s) in
        if is_err err then s
        else set_notify (post n (l_notify s)) (set_tables t (insert_by_id (fill_row n) (l_hist s)) s)
    end.

Definition send (p : poller) (b : option batch) (s : slog) : slog :=
  match b with
  | None => MkLog (l_table s) (l_hist s) (l_notify s) (l_currentRev s) (l_polledRev s) p (l_waitForMore s) Top
              (l_sent s) (l_streamed s) (l_waiters s) (l_skipped s)
  | Some l =>
      MkLog (l_table s) (l_hist s) (l_notify s)
        (if l_currentRev s =? l_pollRevision s then p_revision p else l_currentRev s)
        (l_polledRev s) p (l_waitForMore s) (Stream l) (l_sent s ++ [l]) (l_streamed s) (l_waiters s) (l_skipped s)
  end.

Definition stream (b : batch) (s : slog) : slog :=
  MkLog (l_table s) (l_hist s) (l_notify s) (l_currentRev s) (l_polledRev s) (l_poller s) (l_waitForMore s) Top
    (l_sent s) (l_streamed s ++ [b]) (l_waiters s) (l_skipped s).

(** One turn of the poller when the ticker has fired and no call fails. *)
Definition turn (expired : bool) (batchSize : Z) (s : slog) : slog :=
  match l_pc s with
  | Top => set_pc Publish s
  | Publish => publish s
  | Read => read expired batchSize s
  | Gap p b e => at_gap p b e s
  | Send p b => send p b s
  | Stream b => stream b s
  | Closed => s
  end.

Inductive poller_step (late : bool) (batchSize : Z) (s : slog) : slog -> Prop :=
  | p_turn expired : (expired = true -> late = true) -> poller_step late batchSize s (turn expired batchSize s)
  | p_notified check q : l_pc s = Top -> l_waitForMore s = true -> l_notify s = check :: q ->
      poller_step late batchSize s (set_notify q (if check <=? l_pollRevision s then s else set_pc Publish s))
  | p_done : l_pc s = Top -> l_waitForMore s = true -> poller_step late batchSize s (set_pc Closed s)
  | p_failed : l_pc s = Read -> poller_step late batchSize s (set_pc Top s).

(** ** [WaitForSyncTo] and the others *)
Inductive waiter_step (s : slog) : slog -> Prop :=
  | w_call id revision : l_waiters s !! id = None ->
      waiter_step s (set_waiters (<[id := (revision, WCheck)]> (l_waiters s)) s)
  | w_look id revision : l_waiters s !! id = Some (revision, WCheck) ->
      waiter_step s (set_waiters (<[id := (revision, if l_polledRev s <? revision then WAsleep else WDone)]> (l_waiters s)) s).

Inductive other_step (s : slog) : slog -> Prop :=
  | o_row x n : 0 < r_id x < maxInt64 -> r_id x ∉ r_id <$> l_hist s ->
      other_step s (set_tables (MkTable (insert_by_id x (rows (l_table s))) n) (insert_by_id x (l_hist s)) s)
  | o_forget t : StronglySorted id_lt (rows t) ->
      base.filter (fun x => l_pollRevision s < r_id x) (rows t)
        = base.filter (fun x => l_pollRevision s < r_id x) (rows (l_table s)) ->
      (r_id <$> rows t) ⊆ (r_id <$> rows (l_table s)) ->
      other_step s (set_tables t (l_hist s) s)
  | o_notify n : other_step s (set_notify (post n (l_notify s)) s)
  | o_current n : other_step s
      (MkLog (l_table s) (l_hist s) (l_notify s) n (l_polledRev s) (l_poller s) (l_waitForMore s) (l_pc s)
         (l_sent s) (l_streamed s) (l_waiters s) (l_skipped s)).

Definition log_step (late : bool) (batchSize : Z) (s s' : slog) : Prop :=
  poller_step late batchSize s s' \/ waiter_step s s' \/ other_step s s'.

(** A run from a start at revision [pollStart]. *)
Definition log_reach (late : bool) (batchSize pollStart : Z) (s : slog) : Prop :=
  exists interval percent jitter t currentRev compactor s0,
    startWatch interval percent jitter t currentRev = Started compactor s0 /\ l_pollRevision s0 = pollStart /\
    StronglySorted id_lt (rows t) /\ Forall (fun x => 0 < r_id x < maxInt64) (rows t) /\
    rtc (log_step late batchSize) s0 s.

(** ** Rows in order *)
Lemma filter_insert_out (P : row -> Prop) `{!forall x, Decision (P x)} (x : row) (l : list row) : ~ P x ->
  base.filter P (insert_by_id x l) = base.filter P l.
Proof.
  intros Hx. induction l as [|y l IH]; cbn [insert_by_id]; [by rewrite filter_cons, decide_False|].
  destruct (r_id y <? r_id x); rewrite !filter_cons; [by rewrite IH|]. by rewrite (decide_False (P := P x)).
Qed.

Lemma filter_insert_in (q : Z) (x : row) (l : list row) : StronglySorted id_lt l -> q < r_id x ->
  base.filter (fun y => q < r_id y) (insert_by_id x l) = insert_by_id x (base.filter (fun y => q < r_id y) l).
Proof.
  intros Hs Hq. induction Hs as [|y l Hs IH Hy]; cbn [insert_by_id]; [by rewrite filter_cons, decide_True|].
  destruct (r_id y <? r_id x) eqn:E; rewrite !filter_cons.
  - rewrite IH. destruct (decide (q < r_id y)); [|done]. cbn [insert_by_id]. by rewrite E.
  - apply Z.ltb_ge in E. rewrite (decide_True (P := q < r_id x)), !(decide_True (P := q < r_id y)) by lia.
    cbn [insert_by_id]. destruct (Z.ltb_spec (r_id y) (r_id x)); [lia|done].
Qed.

Lemma above_insert (q : Z) (x : row) (l l' : list row) : StronglySorted id_lt l -> StronglySorted id_lt l' ->
  base.filter (fun y => q < r_id y) l = base.filter (fun y => q < r_id y) l' ->
  base.filter (fun y => q < r_id y) (insert_by_id x l) = base.filter (fun y => q < r_id y) (insert_by_id x l').
Proof.
  intros Hl Hl' Heq. destruct (decide (q < r_id x)) as [Hq|Hq].
  - by rewrite !filter_insert_in, Heq.
  - by rewrite !filter_insert_out.
Qed.

(** Rows above a revision are those of another list with the same. *)
Lemma above_elem (q : Z) (l l' : list row) (x : row) :
  base.filter (fun y => q < r_id y) l = base.filter (fun y => q < r_id y) l' -> q < r_id x -> x ∈ l <-> x ∈ l'.
Proof.
  intros Heq Hq. assert (H : forall m : list row, x ∈ m <-> x ∈ base.filter (fun y => q < r_id y) m).
  { intros m. rewrite list_elem_of_filter. tauto. }
  by rewrite (H l), (H l'), Heq.
Qed.

Lemma above_fresh (q : Z) (l l' : list row) (i : Z) :
  base.filter (fun y => q < r_id y) l = base.filter (fun y => q < r_id y) l' -> q < i -> i ∉ r_id <$> l -> i ∉ r_id <$> l'.
Proof.
  intros Heq Hq Hi (x & -> & Hx)%list_elem_of_fmap. apply Hi. apply list_elem_of_fmap. exists x. split; [done|].
  by apply (above_elem q l l').
Qed.

Lemma above_mono (q q' : Z) (l l' : list row) : q <= q' ->
  base.filter (fun y => q < r_id y) l = base.filter (fun y => q < r_id y) l' ->
  base.filter (fun y => q' < r_id y) l = base.filter (fun y => q' < r_id y) l'.
Proof.
  intros Hq Heq. transitivity (base.filter (fun y => q' < r_id y) (base.filter (fun y => q < r_id y) l)).
  - rewrite list_filter_filter. apply list_filter_iff. intros. lia.
  - rewrite Heq, list_filter_filter. apply list_filter_iff. intros. lia.
Qed.

(** ** Invariant *)

(** What the poller passes between two revisions, those in [sk] left out. *)
Definition passed (a b : Z) (sk : list Z) (h : list row) : list Event :=
  ev <$> base.filter (fun x => (not_fill x /\ a < r_id x <= b) /\ r_id x ∉ sk) h.
Definition filled (a b : Z) (sk : list Z) (h : list row) : Prop := forall i, a < i <= b -> i ∈ r_id <$> h \/ i ∈ sk.
#[local] Arguments passed : simpl never.
#[local] Arguments filled : simpl never.
#[local] Arguments l_pollRevision : simpl never.

(** A batch read and not sent yet. *)
Record pending (q : Z) (sk : list Z) (h : list row) (p : poller) (b : option batch) : Prop := {
  pd_le : q <= p_revision p;
  pd_max : p_revision p < maxInt64;
  pd_filled : filled q (p_revision p) sk h;
  pd_passed : omap id (default [] b) = passed q (p_revision p) sk h
}.

Definition pc_ok (s : slog) : Prop :=
  match l_pc s with
  | Gap p b e => pending (l_pollRevision s) (l_skipped s) (l_hist s) p b /\
      match e with PollFill n | PollRetry n => n = p_revision p + 1 /\ n < maxInt64 | PollDone => True end
  | Send p b => pending (l_pollRevision s) (l_skipped s) (l_hist s) p b
  | _ => True
  end.

(** How far the rows read have got. *)
Definition reached (s : slog) : Z :=
  match l_pc s with Gap p _ _ | Send p _ => p_revision p | _ => l_pollRevision s end.

Record log_inv (late : bool) (p0 : Z) (s : slog) : Prop := {
  li_rows : StronglySorted id_lt (rows (l_table s));
  li_hist : StronglySorted id_lt (l_hist s);
  li_sub : (r_id <$> rows (l_table s)) ⊆ (r_id <$> l_hist s);
  li_ids : Forall (fun x => r_id x < maxInt64) (rows (l_table s));
  li_rev : 0 <= p0 <= l_pollRevision s /\ l_pollRevision s < maxInt64;
  li_same : base.filter (fun x => l_pollRevision s < r_id x) (rows (l_table s))
            = base.filter (fun x => l_pollRevision s < r_id x) (l_hist s);
  li_filled : filled p0 (l_pollRevision s) (l_skipped s) (l_hist s);
  li_sent : omap id (concat (l_sent s)) = passed p0 (l_pollRevision s) (l_skipped s) (l_hist s);
  li_late : late = false -> l_skipped s = [];
  li_skipped : forall i, i ∈ l_skipped s -> p0 < i <= reached s;
  li_polled : l_polledRev s <= l_pollRevision s;
  li_streamed : l_sent s = l_streamed s ++ match l_pc s with Stream b => [b] | _ => [] end;
  li_waiters : forall id r w, l_waiters s !! id = Some (r, w) ->
    match w with WCheck => True | WAsleep => l_polledRev s < r | WDone => r <= l_polledRev s end;
  li_pc : pc_ok s
}.

(** A row with a new revision is beyond what was passed, or was given up. *)
Lemma passed_fresh (a b : Z) (sk : list Z) (x : row) (h : list row) : filled a b sk h -> r_id x ∉ r_id <$> h ->
  passed a b sk (insert_by_id x h) = passed a b sk h.
Proof.
  intros Hf Hx. unfold passed. rewrite filter_insert_out; [done|]. intros [[_ Hin] Hsk].
  by destruct (Hf (r_id x) Hin).
Qed.

Lemma filled_insert (a b : Z) (sk : list Z) (x : row) (h : list row) : filled a b sk h -> filled a b sk (insert_by_id x h).
Proof. intros Hf i Hi. rewrite insert_by_id_perm, fmap_cons. destruct (Hf i Hi); [left; by apply list_elem_of_further|by right]. Qed.

(** More revisions are given up, all after [b]. *)
Lemma passed_skip (a b : Z) (sk sk' : list Z) (h : list row) : (forall i, i ∈ sk' -> b < i) ->
  passed a b (sk ++ sk') h = passed a b sk h.
Proof.
  intros Hsk. unfold passed. f_equal. apply filter_agree. intros x _. rewrite not_elem_of_app.
  split; [tauto|]. intros [H1 H2]. split; [done|]. split; [done|]. intros Hi%Hsk. lia.
Qed.

Lemma filled_skip (a b : Z) (sk sk' : list Z) (h : list row) : filled a b sk h -> filled a b (sk ++ sk') h.
Proof. intros Hf i Hi. rewrite elem_of_app. destruct (Hf i Hi); tauto. Qed.

Lemma elem_of_without_row (q r i : Z) (t : table) : i ∈ without_row q r t <-> q < i <= r /\ i ∉ r_id <$> rows t.
Proof. unfold without_row. rewrite list_elem_of_filter, elem_of_seqZ. split; intros [? ?]; split; try done; lia. Qed.

Lemma pending_insert (q : Z) (sk : list Z) (h : list row) (p : poller) (b : option batch) (x : row) : r_id x ∉ r_id <$> h ->
  pending q sk h p b -> pending q sk (insert_by_id x h) p b.
Proof. intros Hx [H1 H2 H3 H4]. constructor; [done|done|by apply filled_insert|]. by rewrite passed_fresh. Qed.

(** A new row, from whoever. *)
Lemma inv_new_row (late : bool) (p0 : Z) (s : slog) (x : row) (n : Z) : log_inv late p0 s -> r_id x < maxInt64 -> r_id x ∉ r_id <$> l_hist s ->
  log_inv late p0 (set_tables (MkTable (insert_by_id x (rows (l_table s))) n) (insert_by_id x (l_hist s)) s).
Proof.
  intros Hi Hmax Hh. destruct Hi. assert (Ht : r_id x ∉ r_id <$> rows (l_table s)) by (intros H; by apply Hh, li_sub0).
  constructor; cbn; try done.
  - by apply insert_by_id_sorted.
  - by apply insert_by_id_sorted.
  - rewrite !insert_by_id_perm, !fmap_cons. set_solver.
  - rewrite insert_by_id_perm. by constructor.
  - by apply above_insert.
  - by apply filled_insert.
  - by rewrite passed_fresh.
  - unfold pc_ok in *. cbn. destruct (l_pc s); try done; cbn.
    + destruct li_pc0 as [H1 H2]. split; [by apply pending_insert|done].
    + by apply pending_insert.
Qed.

Lemma inv_notify (late : bool) (p0 : Z) (s : slog) (q : list Z) : log_inv late p0 s -> log_inv late p0 (set_notify q s).
Proof. by intros []. Qed.

(** Moving on without a batch in hand. *)
Lemma inv_pc (late : bool) (p0 : Z) (s : slog) (c : pc) : log_inv late p0 s -> (forall b, l_pc s <> Stream b) ->
  reached s <= reached (set_pc c s) ->
  match c with Stream _ => False | Gap _ _ _ | Send _ _ => pc_ok (set_pc c s) | _ => True end -> log_inv late p0 (set_pc c s).
Proof.
  intros [] Hs Hre Hc. constructor; try done; cbn.
  - intros i Hi%li_skipped0. lia.
  - rewrite li_streamed0. destruct (l_pc s); try done; [by destruct c|by destruct c|by destruct c|by destruct c|by destruct c|by edestruct Hs|by destruct c].
  - unfold pc_ok in *. by destruct c.
Qed.

Lemma inv_publish (late : bool) (p0 : Z) (s : slog) : log_inv late p0 s -> l_pc s = Publish -> log_inv late p0 (publish s).
Proof.
  intros [] Hpc. constructor; cbn; try done.
  - unfold reached in li_skipped0. by rewrite Hpc in li_skipped0.
  - by rewrite Hpc in li_streamed0.
  - intros id r w. rewrite lookup_fmap. destruct (l_waiters s !! id) as [[r' w']|] eqn:Hw; [|done].
    specialize (li_waiters0 _ _ _ Hw). destruct w'; cbn; intros [= <- <-]; [done|done|lia].
Qed.

Lemma poll_scan_saved (skip : Z) (expired : bool) (l : list Event) : forall r acc r' sl' acc' e,
  poll_scan skip expired l r true acc = (r', sl', acc', e) -> sl' = true.
Proof.
  induction l as [|x l IH]; intros r acc r' sl' acc' e; cbn; [by intros [= <- <- <- <-]|].
  case_match; [case_match; by intros [= <- <- <- <-]|]. apply IH.
Qed.

Lemma poll_scan_end (skip : Z) (expired : bool) (l : list Event) : forall r sl acc r' sl' acc' e,
  poll_scan skip expired l r sl acc = (r', sl', acc', e) ->
  match e with
  | PollDone => l <> [] -> sl' = true
  | PollRetry n => n = wrap64 (r' + 1) /\ skip <> n
  | PollFill n => n = wrap64 (r' + 1) /\ skip = n
  end.
Proof.
  induction l as [|x l IH]; intros r sl acc r' sl' acc' e; cbn; [by intros [= <- <- <- <-]|].
  case_match; [case_match; b2p; by intros [= <- <- <- <-]|].
  intros Hs. pose proof (poll_scan_saved _ _ _ _ _ _ _ _ _ Hs) as ->. apply IH in Hs. by destruct e.
Qed.

Lemma poll_scan_unsaved (skip : Z) (expired : bool) (l : list Event) r acc r' acc' e :
  poll_scan skip expired l r false acc = (r', false, acc', e) -> r' = r.
Proof.
  destruct l as [|x l]; cbn; [by intros [= <- <- <-]|].
  case_match; [case_match; by intros [= <- <- <-]|].
  intros Hs. by apply poll_scan_saved in Hs.
Qed.

Lemma poll_round_end (p : poller) (expired : bool) (l : list Event) (p' : poller) (b : option batch) (e : poll_end) :
  poll_round p expired l = (p', b, e) -> l <> [] ->
  p_skip p' = match e with PollRetry n => n | _ => p_skip p end /\
  match e with
  | PollDone => b <> None
  | PollRetry n => n = wrap64 (p_revision p' + 1) /\ p_skip p <> n
  | PollFill n => n = wrap64 (p_revision p' + 1) /\ p_skip p = n
  end.
Proof.
  unfold poll_round. destruct (poll_scan _ _ _ _ _ _) as [[[r' sl] acc] e'] eqn:Hs. intros Heq Hl.
  pose proof (poll_scan_end _ _ _ _ _ _ _ _ _ _ Hs) as He. destruct sl; simplify_eq; cbn.
  - split; [done|]. by destruct e.
  - rewrite <- (poll_scan_unsaved _ _ _ _ _ _ _ _ Hs). split; [done|]. destruct e; [|done|done]. by specialize (He Hl).
Qed.

(** A read leaves the state as it is or has a batch in hand. *)
Lemma read_cases (expired : bool) (n : Z) (s : slog) :
  (after_rows (l_table s) (l_pollRevision s) = [] /\ read expired n s = set_pc Top s) \/
  exists p b e more, after_rows (l_table s) (l_pollRevision s) <> [] /\
    poll_round (l_poller s) expired (RowsToEvents (After (l_table s) "" "" (l_pollRevision s) n) true true).2 = (p, b, e) /\
    (RowsToEvents (After (l_table s) "" "" (l_pollRevision s) n) true true).2 <> [] /\
    read expired n s = MkLog (l_table s) (l_hist s) (l_notify s) (l_currentRev s) (l_polledRev s) (l_poller s) more (Gap p b e)
                 (l_sent s) (l_streamed s) (l_waiters s) (l_skipped s ++ without_row (l_pollRevision s) (p_revision p) (l_table s)).
Proof.
  unfold read. destruct (RowsToEvents _ _ _) as [[u v] events] eqn:He. cbn [snd].
  assert (Hl : events = [] <-> after_rows (l_table s) (l_pollRevision s) = []).
  { rewrite AfterSQL_all, RowsToEvents_spec in He. injection He as _ _ <-. unfold LIMIT.
    destruct (n >? 0) eqn:Hn; [|split; [apply fmap_nil_inv|by intros ->]].
    split; [|intros ->; by rewrite take_nil]. destruct (after_rows _ _); [done|]. rewrite Z.gtb_ltb in Hn. b2p.
    by destruct (Z.to_nat n) eqn:E; [lia|]. }
  destruct events as [|x l]; [left; split; [by apply Hl|done]|right].
  destruct (poll_round _ _ _) as [[p b] e] eqn:Hr. exists p, b, e. eexists. split; [|split; [done|split; [done|done]]].
  intros H. by apply Hl in H.
Qed.

Lemma without_row_nil (q r : Z) (t : table) : (forall i, q < i <= r -> exists x, x ∈ rows t /\ r_id x = i) -> without_row q r t = [].
Proof.
  intros Hf. unfold without_row. apply filter_none. intros i Hi%elem_of_seqZ Hno. destruct (Hf i) as (x & Hx & <-); [lia|].
  apply Hno, list_elem_of_fmap. by exists x.
Qed.

Lemma inv_read (late : bool) (p0 n : Z) (expired : bool) (s : slog) : (expired = true -> late = true) ->
  log_inv late p0 s -> l_pc s = Read -> log_inv late p0 (read expired n s).
Proof.
  intros Hx Hi Hpc. destruct (read_cases expired n s) as [[_ ->]|(p&b&e&more&_&Hr&Hne&->)]; [apply inv_pc; [done|by rewrite Hpc|by unfold reached; rewrite Hpc|done]|].
  pose proof Hi as []. apply poll_round_end in Hr as He; [|done]. destruct He as [_ He].
  apply poll_round_spec in Hr as ([Hle Hmax]&Hfull&Hpass&_&Hgap); [|done|done|unfold l_pollRevision in *; lia].
  change (p_revision (l_poller s)) with (l_pollRevision s) in *.
  assert (Hin : forall x, l_pollRevision s < r_id x -> x ∈ rows (l_table s) <-> x ∈ l_hist s) by (intros x; by apply above_elem).
  set (new := without_row (l_pollRevision s) (p_revision p) (l_table s)).
  assert (Hnew : forall i, i ∈ new -> l_pollRevision s < i) by (intros i [? _]%elem_of_without_row; lia).
  assert (Hold : forall i, i ∈ l_skipped s -> p0 < i <= l_pollRevision s) by (intros i Hi'%li_skipped0; unfold reached in Hi'; by rewrite Hpc in Hi').
  constructor; try done; cbn; [by apply filled_skip|by rewrite passed_skip| | |by rewrite Hpc in li_streamed0|].
  { intros Hl. rewrite (li_late0 Hl). apply without_row_nil, Hfull. destruct expired; [by rewrite Hx in Hl|done]. }
  { change (reached _) with (p_revision p). intros i [Hi'%Hold|[Hi' _]%elem_of_without_row]%elem_of_app; lia. }
  unfold pc_ok. cbn. split.
  - change (pending (l_pollRevision s) (l_skipped s ++ new) (l_hist s) p b). constructor; [done|done| |].
    + intros i Hi'. rewrite elem_of_app. destruct (decide (i ∈ r_id <$> rows (l_table s))) as [Hid|Hno].
      * left. apply list_elem_of_fmap in Hid as (x&->&Hx'). apply list_elem_of_fmap. exists x. split; [done|]. apply Hin; [lia|done].
      * right. right. by apply elem_of_without_row.
    + rewrite Hpass. unfold passed. f_equal.
      transitivity (base.filter (fun x => not_fill x /\ r_id x <= p_revision p) (base.filter (fun x => l_pollRevision s < r_id x) (rows (l_table s)))).
      * rewrite list_filter_filter. apply list_filter_iff. intros; tauto.
      * rewrite li_same0, list_filter_filter. apply filter_agree. intros x Hx'. rewrite not_elem_of_app.
        split; [intros [[H1 H2] H3]|tauto]. split; [tauto|]. split.
        -- intros Hsk%Hold. lia.
        -- intros [_ Hno]%elem_of_without_row. apply Hno, list_elem_of_fmap. exists x. split; [done|]. by apply Hin.
  - assert (Hn : e <> PollDone -> wrap64 (p_revision p + 1) = p_revision p + 1 /\ p_revision p + 1 < maxInt64).
    { intros Hd. destruct (Hgap Hd) as [(x&Hx'&Hlt) _]. rewrite Forall_forall in li_ids0. specialize (li_ids0 x Hx'). simpl in li_ids0.
      split; [|lia]. apply wrap64_id. unfold int64_ok, minInt64, maxInt64, two63 in *. lia. }
    destruct e; [done|destruct Hn as [Hw ?]; [done|]; destruct He as [-> _]; by rewrite Hw..].
Qed.

Lemma Fill_cases (n : Z) (t : table) :
  ((Fill n t).1 = Some (ErrOther "constraint failed") /\ (Fill n t).2 = t) \/
  ((Fill n t).1 = None /\ (n ∉ r_id <$> rows t) /\ exists m, (Fill n t).2 = MkTable (insert_by_id (fill_row n) (rows t)) m).
Proof.
  unfold Fill. destruct (existsb _ _) eqn:Hx; cbn; [by left|]. destruct (unique_violation _ _ _); [by left|]. right.
  split; [done|]. split; [|by eexists]. intros (x&->&Hin)%list_elem_of_fmap.
  apply not_true_iff_false in Hx. apply Hx, existsb_exists. exists x. split; [by apply list_elem_of_In|by apply Z.eqb_eq].
Qed.

Lemma gap_fresh (late : bool) (p0 : Z) (s : slog) (p : poller) (b : option batch) (n : Z) : log_inv late p0 s -> l_pc s = Gap p b (PollFill n) ->
  n ∉ r_id <$> rows (l_table s) -> n ∉ r_id <$> l_hist s.
Proof.
  intros [] Hpc. unfold pc_ok in li_pc0. rewrite Hpc in li_pc0. destruct li_pc0 as [[Hle _ _ _] [-> _]].
  apply (above_fresh (l_pollRevision s)); [done|lia].
Qed.

Lemma inv_gap (late : bool) (p0 : Z) (s : slog) (p : poller) (b : option batch) (e : poll_end) : log_inv late p0 s -> l_pc s = Gap p b e ->
  log_inv late p0 (at_gap p b e s).
Proof.
  intros Hi Hpc. pose proof Hi as []. unfold pc_ok in li_pc0. rewrite Hpc in li_pc0. destruct li_pc0 as [Hp He].
  unfold at_gap. destruct e as [|n|n].
  - apply inv_pc; [done|by rewrite Hpc|by unfold reached; rewrite Hpc|done].
  - apply inv_pc; [by apply inv_notify|cbn; by rewrite Hpc|by unfold reached; cbn; rewrite Hpc|exact Hp].
  - destruct (Fill_cases n (l_table s)) as [[H1 H2]|(H1&Hfresh&m&H2)]; destruct (Fill n (l_table s)) as [err t]; cbn in H1, H2; subst err; cbn [is_err].
    + apply inv_pc; [done|by rewrite Hpc|by unfold reached; rewrite Hpc|exact Hp].
    + subst t. destruct He as [Hn Hmax]. pose proof (gap_fresh _ _ _ _ _ _ Hi Hpc Hfresh : r_id (fill_row n) ∉ r_id <$> l_hist s) as Hh.
      apply inv_pc; [apply inv_notify; by apply inv_new_row|cbn; by rewrite Hpc|by unfold reached; cbn; rewrite Hpc|].
      change (pending (l_pollRevision s) (l_skipped s) (insert_by_id (fill_row n) (l_hist s)) p b). by apply pending_insert.
Qed.

Lemma passed_split (a b c : Z) (sk : list Z) (h : list row) : a <= b <= c -> StronglySorted id_lt h ->
  passed a c sk h = passed a b sk h ++ passed b c sk h.
Proof.
  intros Habc Hs. unfold passed. rewrite <- fmap_app. f_equal.
  assert (Hagree : forall q r, base.filter (fun x => (not_fill x /\ q < r_id x <= r) /\ r_id x ∉ sk) h =
    base.filter (fun x => q < r_id x <= r) (base.filter (fun x => not_fill x /\ r_id x ∉ sk) h)).
  { intros q r. rewrite list_filter_filter. apply list_filter_iff. intros; tauto. }
  rewrite !Hagree. clear Hagree. apply (StronglySorted_filter _ (fun x => not_fill x /\ r_id x ∉ sk)) in Hs.
  induction Hs as [|x l Hs IH Hx]; [done|]. rewrite !filter_cons. destruct (decide (a < r_id x <= b)).
  - rewrite (decide_True (P := a < r_id x <= c)) by lia. rewrite (decide_False (P := b < r_id x <= c)) by lia. by rewrite IH.
  - destruct (decide (b < r_id x)).
    + assert (Hnil : base.filter (fun y => a < r_id y <= b) l = []).
      { apply filter_none. intros y Hy. rewrite Forall_forall in Hx. specialize (Hx y Hy). unfold id_lt in Hx. lia. }
      rewrite Hnil in *. cbn in *. rewrite IH. destruct (decide (r_id x <= c)).
      * by rewrite !decide_True by lia.
      * by rewrite !decide_False by lia.
    + rewrite (decide_False (P := a < r_id x <= c)), (decide_False (P := b < r_id x <= c)) by lia. done.
Qed.

Lemma filled_trans (a b c : Z) (sk : list Z) (h : list row) : filled a b sk h -> filled b c sk h -> filled a c sk h.
Proof. intros H1 H2 i Hi. destruct (decide (i <= b)); [apply H1; lia|apply H2; lia]. Qed.

Lemma inv_send (late : bool) (p0 : Z) (s : slog) (p : poller) (b : option batch) : log_inv late p0 s -> l_pc s = Send p b ->
  log_inv late p0 (send p b s).
Proof.
  intros Hi Hpc. pose proof Hi as []. unfold pc_ok in li_pc0. rewrite Hpc in li_pc0. destruct li_pc0 as [Hle Hm Hf Hpa].
  assert (Hnew : forall sent, omap id (concat sent) = omap id (concat (l_sent s)) ++ omap id (default [] b) ->
    omap id (concat sent) = passed p0 (p_revision p) (l_skipped s) (l_hist s)).
  { intros sent ->. rewrite li_sent0, Hpa. symmetry. apply passed_split; [lia|done]. }
  assert (Hsame : base.filter (fun x => p_revision p < r_id x) (rows (l_table s)) = base.filter (fun x => p_revision p < r_id x) (l_hist s))
    by (by apply (above_mono (l_pollRevision s))).
  rewrite Hpc, app_nil_r in li_streamed0. unfold reached in li_skipped0. rewrite Hpc in li_skipped0.
  destruct b as [l|]; constructor; try done; cbn; change (l_pollRevision (MkLog _ _ _ _ _ p _ _ _ _ _ _)) with (p_revision p);
    try done; try lia; try (by eapply filled_trans); try (by rewrite app_nil_r).
  - apply Hnew. by rewrite concat_app, omap_app; cbn; rewrite app_nil_r.
  - by rewrite li_streamed0.
  - apply Hnew. by rewrite app_nil_r.
Qed.

Lemma inv_stream (late : bool) (p0 : Z) (s : slog) (b : batch) : log_inv late p0 s -> l_pc s = Stream b -> log_inv late p0 (stream b s).
Proof.
  intros [] Hpc. constructor; try done; cbn; [unfold reached in li_skipped0; by rewrite Hpc in li_skipped0|].
  by rewrite app_nil_r, li_streamed0, Hpc.
Qed.

Lemma inv_turn (late : bool) (p0 n : Z) (expired : bool) (s : slog) : (expired = true -> late = true) ->
  log_inv late p0 s -> log_inv late p0 (turn expired n s).
Proof.
  intros Hx Hi. unfold turn. destruct (l_pc s) eqn:Hpc; [| | | | | |done].
  - apply inv_pc; [done|by rewrite Hpc|by unfold reached; rewrite Hpc|done].
  - by apply inv_publish.
  - by apply inv_read.
  - by apply inv_gap.
  - by apply inv_send.
  - by apply inv_stream.
Qed.

Lemma inv_poller (late : bool) (p0 n : Z) (s s' : slog) : log_inv late p0 s -> poller_step late n s s' -> log_inv late p0 s'.
Proof.
  intros Hi [expired Hx|check q Hpc _ _|Hpc _|Hpc]; [by apply inv_turn| |apply inv_pc; [done|by rewrite Hpc|by unfold reached; rewrite Hpc|done]..].
  apply inv_notify. case_match; [done|]. apply inv_pc; [done|by rewrite Hpc|by unfold reached; rewrite Hpc|done].
Qed.

Lemma inv_waiter (late : bool) (p0 : Z) (s s' : slog) : log_inv late p0 s -> waiter_step s s' -> log_inv late p0 s'.
Proof.
  intros [] [id r Hid|id r Hid]; constructor; try done; cbn; intros id' r' w' [[<- [= <- <-]]|[_ Hw]]%lookup_insert_Some;
    try done; try by eapply li_waiters0.
  destruct (Z.ltb_spec (l_polledRev s) r); [done|lia].
Qed.

Lemma inv_other (late : bool) (p0 : Z) (s s' : slog) : log_inv late p0 s -> other_step s s' -> log_inv late p0 s'.
Proof.
  intros Hi [x n Hx Hid|t Hs Heq Hsub|n|n]; [by apply inv_new_row; [|lia|]| |by apply inv_notify|by destruct Hi].
  destruct Hi. constructor; try done; cbn.
  - set_solver.
  - apply Forall_forall. intros x Hx. rewrite Forall_forall in li_ids0.
    assert (Hin : r_id x ∈ r_id <$> rows (l_table s)) by (apply Hsub, list_elem_of_fmap; eauto).
    apply list_elem_of_fmap in Hin as (y&->&Hy). by apply li_ids0.
  - exact (eq_trans Heq li_same0).
Qed.

Lemma inv_steps (late : bool) (p0 n : Z) (s s' : slog) : log_inv late p0 s -> rtc (log_step late n) s s' -> log_inv late p0 s'.
Proof.
  intros Hi Hr. induction Hr as [|s1 s2 s3 Hst _ IH]; [done|]. apply IH.
  destruct Hst as [H|[H|H]]; [by eapply inv_poller|by eapply inv_waiter|by eapply inv_other].
Qed.

Lemma log_reach_inv (late : bool) (n p0 : Z) (s : slog) : log_reach late n p0 s -> log_inv late p0 s.
Proof.
  intros (interval&percent&jitter&t&cur&c&s0&Hs&<-&Hsorted&Hids&Hr). eapply inv_steps; [|exact Hr].
  unfold startWatch, CurrentRevision in Hs. destruct (CurrentRevSQL t) as [m|] eqn:Hm; [|done]. cbn in Hs.
  case_match; [done|]. injection Hs as _ <-. apply sql_max_elem, list_elem_of_fmap in Hm as (x&->&Hx).
  rewrite Forall_forall in Hids. specialize (Hids x Hx) as Hb. cbn in Hb.
  constructor; cbn; try done; change (l_pollRevision _) with (r_id x); try lia.
  - apply Forall_forall. intros y Hy. by apply Hids.
  - intros i Hi. lia.
  - unfold passed. by rewrite filter_none by (intros; lia).
  - by intros i ?%not_elem_of_nil.
Qed.


(** ** The poller alone catches up *)


















(** ** Watches of the log *)

(** The goroutine of [Watch], on the batches its subscription gets. *)
Definition watch_batches (selects : KeyValue -> bool) (key end_ : string) (l : list batch) : list (list Event) :=
  omap (fun b => let (events, ok) := filter_events selects b key end_ in if ok : bool then Some events else None) l.

Lemma filter_events_plain (b : batch) (key end_ : string) :
  let l := base.filter (fun e => InRange (Some e) key end_ = true) (omap id b) in
  (filter_events (fun _ => true) b key end_).1 = l /\
  ((filter_events (fun _ => true) b key end_).2 = false -> l = []).
Proof.
  assert (Hsingle : forall e, base.filter (fun e => InRange (Some e) key end_ = true) (omap id [e]) = if InRange e key end_ then option_list e else []).
  { intros [e|]; [|done]. change (omap id [Some e]) with [e]. rewrite filter_cons, filter_nil. by destruct (InRange (Some e) key end_). }
  assert (Hmany : forall b : batch, omap (fun e : option Event => if (match e with
      | Some ev => InRange e key end_ && (match evKV ev with Some kv => true | None => true end || match evPrevKV ev with Some pkv => true | None => false end)
      | None => false end) then e else None) b = base.filter (fun e => InRange (Some e) key end_ = true) (omap id b)).
  { clear. induction b as [|[e|] b IH]; cbn [omap list_omap id]; [done| |done]. rewrite filter_cons, IH.
    replace (match evKV e with Some _ => true | None => true end) with true by (by destruct (evKV e)). rewrite andb_true_r.
    by destruct (InRange (Some e) key end_). }
  destruct b as [|e [|e' b]]; [done| |]; unfold filter_events.
  - rewrite Hsingle. by destruct (InRange e key end_).
  - cbn [fst snd]. rewrite Hmany. split; [done|]. by destruct (base.filter _ _).
Qed.

Lemma watch_batches_concat (key end_ : string) (l : list batch) :
  concat (watch_batches (fun _ => true) key end_ l) = base.filter (fun e => InRange (Some e) key end_ = true) (omap id (concat l)).
Proof.
  induction l as [|b l IH]; [done|]. cbn [concat watch_batches omap list_omap].
  rewrite omap_app, filter_app, <- IH. destruct (filter_events_plain b key end_) as [H1 H2].
  destruct (filter_events _ b key end_) as [events ok]. cbn [fst snd] in H1, H2. rewrite <- H1.
  destruct ok; [done|]. by rewrite H1, H2.
Qed.

Lemma in_range_watched (key end_ : string) (x : row) : end_ = "" \/ str_lt key end_ ->
  InRange (Some (ev x)) key end_ = watched key end_ x.
Proof.
  intros He. unfold watched. cbn. unfold key_in_range. destruct (String.eqb key "") eqn:Hk; [done|]. cbn.
  destruct (String.eqb_spec end_ "") as [->|Hne]; [done|]. cbn. destruct He as [He|He]; [done|]. unfold BetweenName.
  destruct (String.eqb_spec (r_name x) key) as [->|]; [|by rewrite orb_false_r]. rewrite ltb_irrefl. cbn. by rewrite He.
Qed.

(** The history only gets new revisions. *)
Definition extends (h h' : list row) : Prop := h' = h \/ exists x, (r_id x ∉ r_id <$> h) /\ h' = insert_by_id x h.

Lemma turn_extends (late : bool) (p0 n : Z) (expired : bool) (s : slog) : log_inv late p0 s -> extends (l_hist s) (l_hist (turn expired n s)).
Proof.
  intros Hi. unfold turn. destruct (l_pc s) as [| | |p b e|p b|b|] eqn:Hpc; try by left.
  - destruct (read_cases expired n s) as [[_ ->]|(p&b&e&more&_&_&_&->)]; by left.
  - unfold at_gap. destruct e as [|m|m]; try by left.
    destruct (Fill_cases m (l_table s)) as [[H1 H2]|(H1&Hfresh&k&H2)]; destruct (Fill m (l_table s)) as [err t]; cbn in H1, H2; subst err; [by left|].
    right. exists (fill_row m). split; [by eapply gap_fresh|done].
  - destruct b; by left.
Qed.

(** More revisions are skipped, all after [q]. *)
Definition skips (q : Z) (sk sk' : list Z) : Prop := exists l, sk' = sk ++ l /\ forall i, i ∈ l -> q < i.

#[local] Instance skips_refl (q : Z) : Reflexive (skips q).
Proof. intros sk. exists []. rewrite app_nil_r. split; [done|]. by intros i ?%not_elem_of_nil. Qed.

Lemma step_grows (late : bool) (p0 n : Z) (s s' : slog) : log_inv late p0 s -> log_step late n s s' ->
  extends (l_hist s) (l_hist s') /\ l_sent s `prefix_of` l_sent s' /\ l_pollRevision s <= l_pollRevision s' /\
  skips (l_pollRevision s) (l_skipped s) (l_skipped s').
Proof.
  intros Hi [H|[H|H]].
  - destruct H as [expired _|check q Hpc _ _|Hpc _|Hpc]; [|by case_match; split; try left|by split; [left|]..].
    split; [by eapply turn_extends|]. unfold turn. destruct (l_pc s) as [| | |p b e|p b|b|] eqn:Hpc; try done.
    + destruct (read_cases expired n s) as [[_ ->]|(p&b&e&more&_&_&_&->)]; [done|]. split; [done|]. split; [done|].
      eexists. split; [done|]. intros i [? _]%elem_of_without_row. lia.
    + destruct e; [done|done|]. unfold at_gap. destruct (Fill _ _) as [[] ?]; done.
    + destruct Hi. unfold pc_ok in li_pc0. rewrite Hpc in li_pc0. destruct li_pc0 as [Hle _ _ _].
      destruct b; (split; [|done]); [by apply prefix_app_r|done].
  - destruct H; by split; [left|].
  - destruct H as [x m Hx Hid|t|m|m]; [|by split; [left|]..]. split; [right; by exists x|done].
Qed.

Lemma passed_extends (p0 q q' : Z) (sk sk' : list Z) (h h' : list row) : filled p0 q sk h -> extends h h' -> skips q sk sk' -> q' <= q ->
  passed p0 q' sk' h' = passed p0 q' sk h.
Proof.
  intros Hf Hx (l&->&Hl) Hq. rewrite passed_skip by (intros i Hi%Hl; lia).
  destruct Hx as [->|(x&Hx&->)]; [done|]. apply passed_fresh; [|done]. intros i Hi. apply Hf. lia.
Qed.

Lemma steps_grow (late : bool) (p0 n : Z) (s s' : slog) : log_inv late p0 s -> rtc (log_step late n) s s' ->
  (forall q, q <= l_pollRevision s -> passed p0 q (l_skipped s') (l_hist s') = passed p0 q (l_skipped s) (l_hist s)) /\
  l_sent s `prefix_of` l_sent s' /\ l_pollRevision s <= l_pollRevision s'.
Proof.
  intros Hi Hr. induction Hr as [s|s1 s2 s3 Hst Hr IH]; [done|].
  destruct (step_grows _ _ _ _ _ Hi Hst) as (He&Hs&Hq&Hk). assert (Hi2 : log_inv late p0 s2) by (eapply inv_steps; [exact Hi|by apply rtc_once]).
  destruct (IH Hi2) as (Hp&Hs'&Hq'). destruct Hi. split; [|split; [by etrans|lia]]. intros q Hle. rewrite Hp by lia.
  by eapply passed_extends.
Qed.

Lemma filter_ev (P : Event -> Prop) `{!forall x, Decision (P x)} (l : list row) :
  base.filter P (ev <$> l) = ev <$> base.filter (fun x => P (ev x)) l.
Proof. induction l as [|x l IH]; [done|]. rewrite fmap_cons, !filter_cons, IH. by destruct (decide (P (ev x))). Qed.

(** The rows whose revision was not skipped. *)
Definition kept (s : slog) : list row := base.filter (fun x => r_id x ∉ l_skipped s) (l_hist s).

(** The batches sent from a subscription on, filtered. *)
Lemma watch_run (late : bool) (n p0 : Z) (s1 s2 : slog) (key end_ : string) : log_reach late n p0 s1 -> rtc (log_step late n) s1 s2 ->
  end_ = "" \/ str_lt key end_ -> (forall x, x ∈ l_hist s2 -> watched key end_ x = true -> not_fill x) ->
  concat (watch_batches (fun _ => true) key end_ (drop (length (l_sent s1)) (l_sent s2)))
    = evs (rows_between key end_ (l_pollRevision s1) (l_pollRevision s2) (kept s2)).
Proof.
  intros Hi1%log_reach_inv Hr He Hfill. pose proof (inv_steps _ _ _ _ _ Hi1 Hr) as Hi2.
  destruct (steps_grow _ _ _ _ _ Hi1 Hr) as (Hp&[l Hl]&Hq).
  destruct Hi1 as [_ _ _ _ Hrev1 _ _ Hs1 _ _ _ _ _ _], Hi2 as [_ Hh2 _ _ Hrev2 _ _ Hs2 _ _ _ _ _ _].
  rewrite Hl, drop_app_length, watch_batches_concat. rewrite Hl, concat_app, omap_app, Hs1 in Hs2.
  rewrite (passed_split p0 (l_pollRevision s1) (l_pollRevision s2)), (Hp (l_pollRevision s1)) in Hs2 by (lia || done).
  apply app_inv_head in Hs2. rewrite Hs2.
  unfold passed, evs, rows_between, kept. rewrite filter_ev. f_equal. rewrite !list_filter_filter. apply filter_agree.
  intros x Hx. cbv beta. rewrite (in_range_watched key end_ x He). specialize (Hfill x Hx). tauto.
Qed.

(** What a watch of the log passes on, in every run: the batches sent from
    its subscription on, filtered, are the events of its range with revisions
    from the poller's at the subscription to the poller's now, each once and in
    order, those of skipped revisions left out; this is what
    [LogStructured.Watch] is built on. *)
Theorem sqllog_watch_run (late : bool) (n p0 : Z) (s1 s2 : slog) (key end_ : string) : log_reach late n p0 s1 -> rtc (log_step late n) s1 s2 ->
  end_ = "" \/ str_lt key end_ -> (forall x, x ∈ l_hist s2 -> watched key end_ x = true -> not_fill x) ->
  concat (watch_batches (fun _ => true) key end_ (drop (length (l_sent s1)) (l_sent s2)))
    = evs (rows_between key end_ (l_pollRevision s1) (l_pollRevision s2) (kept s2)).
Proof. apply watch_run. Qed.

(** As long as no gap outlives its second that is all rows. *)
Lemma kept_all (n p0 : Z) (s : slog) : log_reach false n p0 s -> kept s = l_hist s.
Proof.
  intros [_ _ _ _ _ _ _ _ Hl _ _ _ _ _]%log_reach_inv. unfold kept. rewrite Hl by done.
  apply filter_all. intros x _. apply not_elem_of_nil.
Qed.

(** ** What [startWatch] starts *)

(** What a first watch starts: the poller at the last stored revision; no
    compactor unless an interval is configured; with less than 100 per cent of
    jitter a compactor whose ticks are a positive time apart, within the jitter
    of the interval. *)
Theorem startWatch_starts (interval percent jitter currentRev n : Z) (t : table) : CurrentRevSQL t = Some n ->
  0 <= percent < 100 -> jitter_ok interval percent jitter ->
  exists c s, startWatch interval percent jitter t currentRev = Started c s /\
    l_pollRevision s = n /\ l_pc s = Top /\ l_sent s = [] /\
    match c with
    | NoCompactor => interval <= 0
    | Ticks d => 0 < interval /\ 0 < d /\ 100 * Z.abs (d - interval) <= percent * interval
    | TickerPanics => False
    end.
Proof.
  intros Hn Hp Hj. unfold jitter_ok in Hj. unfold startWatch, Sql.CurrentRevision. rewrite Hn. cbn.
  assert (Hr : (percent <? 0) || (percent >? 100) = false) by (rewrite Z.gtb_ltb; apply orb_false_iff; split; apply Z.ltb_ge; lia).
  rewrite Hr. eexists _, _. split; [reflexivity|]. do 3 (split; [done|]). unfold NewTicker.
  destruct (Z.leb_spec interval 0); [done|]. destruct (Z.leb_spec (interval + jitter) 0); [nia|]. split; [done|]. split; [done|].
  by replace (interval + jitter - interval) with jitter by lia.
Qed.

(** With 100 per cent, which is let through, the interval can be 0: creating the
    ticker panics. *)
Lemma jitter_hundred_panics (interval currentRev n : Z) (t : table) : CurrentRevSQL t = Some n -> 0 < interval ->
  jitter_ok interval 100 (- interval) /\
  exists s, startWatch interval 100 (- interval) t currentRev = Started TickerPanics s.
Proof.
  intros Hn Hi. split; [unfold jitter_ok; lia|]. unfold startWatch, Sql.CurrentRevision, NewTicker. rewrite Hn. cbn.
  rewrite (proj2 (Z.leb_gt interval 0)), Z.add_opp_diag_r by lia. by eexists.
Qed.

(** The last resort of [canSkipRevision]: a gap that has been there for a
    second is passed without being filled, and if its row becomes visible
    afterwards no later read of the poller has it. *)
Lemma skip_loses_row (p : poller) (y : row) (l : list row) (t : table) (x : row) : 0 <= p_revision p < maxInt64 - 1 ->
  StronglySorted id_lt (y :: l) -> p_skip p = p_revision p + 1 -> p_revision p + 1 < r_id y ->
  r_id x = p_revision p + 1 ->
  let p' := (poll_round p true (ev <$> (y :: l))).1.1 in
  p_revision p + 1 < p_revision p' /\ x ∉ after_rows t (p_revision p').
Proof.
  intros Hp Hs Hsk Hy Hx. cbn zeta.
  assert (Hge : forall l r acc r' sl' acc' e, StronglySorted id_lt l -> Forall (fun z => r <= r_id z) l ->
    poll_scan (p_skip p) true (ev <$> l) r true acc = (r', sl', acc', e) -> r <= r' /\ sl' = true).
  { clear. induction l as [|z l IH]; intros r acc r' sl' acc' e Hs Hr; cbn; [by intros [= <- <- <- <-]|].
    inversion Hs as [|?? Hs' Hz]; subst. inversion Hr as [|?? Hrz _]; subst.
    case_match; [case_match; by intros [= <- <- <- <-]|]. intros Hz'%IH; [|done|].
    - cbn in Hz'. destruct Hz'. split; [lia|done].
    - eapply Forall_impl; [exact Hz|]. unfold id_lt. cbn. lia. }
  unfold poll_round. cbn [fmap list_fmap poll_scan]. rewrite ev_mod, ev_key.
  rewrite wrap64_id by (unfold int64_ok, minInt64, maxInt64, two63 in *; lia).
  rewrite (proj2 (Z.eqb_neq (r_id y) (p_revision p + 1))), Hsk, Z.eqb_refl by lia. cbn [negb andb].
  inversion Hs as [|?? Hs' Hz]; subst.
  destruct (poll_scan _ _ _ _ _ _) as [[[r' sl] acc] e] eqn:Hscan. rewrite <- Hsk in Hscan. apply Hge in Hscan as [Hle ->]; [|done|].
  - cbn. split; [lia|]. intros Hin%list_elem_of_filter. lia.
  - eapply Forall_impl; [exact Hz|]. unfold id_lt. cbn. lia.
Qed.

(** ** At work: revision 4 becomes visible before revision 3 *)
Lemma turns_rtc (n : Z) (k : nat) (s : slog) : rtc (log_step false n) s (Nat.iter k (turn false n) s).
Proof. induction k as [|k IH]; [done|]. eapply rtc_r; [exact IH|]. left. by apply p_turn. Qed.

Lemma w_looked (s : slog) (c : nat) (q : Z) (b : bool) : l_waiters s !! c = Some (q, WCheck) -> (l_polledRev s <? q) = b ->
  waiter_step s (set_waiters (<[c := (q, if b then WAsleep else WDone)]> (l_waiters s)) s).
Proof. intros H <-. exact (w_look s c q H). Qed.

Definition late4 : row := MkRow 4 "b" true false 0 0 0 "z" "".
Definition late3 : row := MkRow 3 "a" false false 2 2 0 "y" "x".
Definition see (x : row) (s : slog) : slog :=
  set_tables (MkTable (insert_by_id x (rows (l_table s))) 4) (insert_by_id x (l_hist s)) s.

Definition start2 : slog := MkLog wt2 (rows wt2) [] 0 0 (MkPoller 2 0) true Top [] [] ∅ [].
Definition called4 : slog := set_waiters (<[0%nat := (4, WCheck)]> ∅) (see late4 start2).
Definition waiting4 : slog := set_waiters (<[0%nat := (4, WAsleep)]> (l_waiters called4)) called4.
Definition waited : slog := Nat.iter 5 (turn false 500) waiting4.
Definition delivered : slog := Nat.iter 9 (turn false 500) (see late3 waited).
Definition returned : slog := set_waiters (<[0%nat := (4, WDone)]> (l_waiters delivered)) delivered.

Lemma start2_reach : log_reach false 500 2 start2.
Proof.
  exists 0, 0, 0, wt2, 0, NoCompactor, start2. split; [reflexivity|]. split; [reflexivity|].
  split; [|split; [|apply rtc_refl]].
  - unfold wt2. cbn. repeat constructor.
  - cbn. repeat constructor.
Qed.

Lemma see_step (n : Z) (x : row) (s : slog) : 0 < r_id x < maxInt64 -> r_id x ∉ r_id <$> l_hist s ->
  log_step false n s (see x s).
Proof. intros Hx Hf. right. right. by apply o_row. Qed.

Lemma waiting4_steps : rtc (log_step false 500) start2 waiting4.
Proof.
  apply (rtc_l _ _ (see late4 start2)).
  { apply see_step; [split; reflexivity|vm_compute; set_solver]. }
  apply (rtc_l _ _ called4); [right; left; exact (w_call (see late4 start2) 0%nat 4 eq_refl)|].
  apply rtc_once. right. left. apply (w_looked called4 0%nat 4 true); vm_compute; reflexivity.
Qed.

Lemma returned_steps : rtc (log_step false 500) waiting4 returned.
Proof.
  transitivity waited; [exact (turns_rtc 500 5 waiting4)|].
  apply (rtc_l _ _ (see late3 waited)).
  { apply see_step; [split; reflexivity|vm_compute; set_solver]. }
  transitivity delivered; [exact (turns_rtc 500 9 (see late3 waited))|]. apply rtc_once. right. left.
  assert (Hc : l_waiters delivered !! 0%nat = Some (4, WCheck)) by (vm_compute; reflexivity).
  assert (Hp : (l_polledRev delivered <? 4) = false) by (vm_compute; reflexivity).
  exact (w_looked delivered 0%nat 4 false Hc Hp).
Qed.


(** Revision 3 does not become visible for more than a second, and another
    client has taken the name of its fill row: it is skipped, and when it does
    become visible it is not sent. *)
Definition named3 : row := MkRow 1 "gap-3" true false 0 0 0 "" "".
Definition start_named : slog := MkLog (MkTable [named3; MkRow 2 "a" true false 0 0 0 "x" ""] 2)
  [named3; MkRow 2 "a" true false 0 0 0 "x" ""] [] 0 0 (MkPoller 2 0) true Top [] [] ∅ [].
Definition gone3 : slog := see late3 (Nat.iter 6 (turn true 500) (Nat.iter 5 (turn false 500) (see late4 start_named))).


Example gone3_not_sent : l_skipped gone3 = [3] /\ omap id (concat (l_sent gone3)) = [ev late4] /\
  l_pollRevision gone3 = 4 /\ late3 ∈ rows (l_table gone3).
Proof. split; [vm_compute; reflexivity|]. split; [vm_compute; reflexivity|]. split; [reflexivity|]. vm_compute. set_solver. Qed.



Lemma sqllog_watch_run_witness :
  concat (watch_batches (fun _ => true) "b" "c" (drop (length (l_sent start2)) (l_sent returned))) = [ev late4].
Proof.
  rewrite (sqllog_watch_run false 500 2 start2 returned "b" "c").
  - vm_compute. reflexivity.
  - exact start2_reach.
  - exact (transitivity waiting4_steps returned_steps).
  - right. reflexivity.
  - assert (Hall : forallb (fun x => negb (IsFill (r_name x))) (l_hist returned) = true) by (vm_compute; reflexivity).
    intros x Hx _. rewrite forallb_forall in Hall. apply list_elem_of_In in Hx. specialize (Hall x Hx).
    by apply negb_true_iff in Hall.
Defined.

Lemma startWatch_starts_witness : exists c s, startWatch 1000 10 (-7) wt2 0 = Started c s /\ l_pollRevision s = 2.
Proof.
  destruct (startWatch_starts 1000 10 (-7) 0 2 wt2) as (c&s&H&Hp&_).
  - reflexivity.
  - split; [apply Z.leb_le|]; reflexivity.
  - apply Z.leb_le. reflexivity.
  - exists c, s. split; [exact H|exact Hp].
Defined.
