(* ===== verification/Ttl.v ===== *)
(** * Lease expiry (pkg/ttl/ttl.go)

    [seed] is a tree of backend calls; [Run] with its watch, the handler
    goroutine and the other clients of the backend is the step system
    [treach].  The delaying queue is third-party code: it is the set of keys
    waiting in it, and [Get] hands out any of them.  Time is in nanoseconds. *)
From S2P Require Import Prelude Types Prog OrderedMap Mvcc MvccSpec MemoryProofs Backend.

Record entry := MkEntry { modRevision : Z; expiredAt : Z }.

#[export] Instance entry_eq_dec : EqDecision entry.
Proof. solve_decision. Defined.

Definition listPageSize : Z := 1000.
Definition Second : Z := 1000000000.

Abbreviation store := (gmap string entry).

Definition load (s : store) (key : string) : option entry := s !! key.

(** [time.Duration(kv.Lease) * time.Second]. *)
Definition lease_duration (lease : Z) : Z := wrap64 (lease * Second).

Definition save (now : Z) (kv : KeyValue) (s : store) : Z * store :=
  let expires := lease_duration (kvLease kv) in
  (expires, <[kvKey kv := MkEntry (kvModRevision kv) (now + expires)]> s).

(** One event of the watch in [Run]'s loop: the new store and the key added to
    the queue. *)
Definition on_event (now : Z) (event : Event) (s : store) : store * option string :=
  if evDelete event then (s, None)
  else
    match evKV event with
    | None => (s, None)
    | Some kv =>
        if kvLease kv <=? 0 then (s, None)
        else
          let newer :=
            match load s (kvKey kv) with
            | None => true
            | Some stored => kvModRevision kv >? modRevision stored
            end in
          if newer then ((save now kv s).2, Some (kvKey kv)) else (s, None)
    end.

(** [seed]: the revision, the values saved and queued in order, the error.
    One unit of fuel per page after the first. *)
Definition leased (kvs : list KeyValue) : list KeyValue := filter (fun kv => 0 < kvLease kv) kvs.

Fixpoint seed_loop (fuel : nat) (rev : Z) (kvs saved : list KeyValue) : prog bop (Z * list KeyValue * gerr) :=
  match kvs with
  | [] => Ret (rev, saved, None)
  | kv0 :: _ =>
      let saved := saved ++ leased kvs in
      if Z.of_nat (length kvs) <? listPageSize then Ret (rev, saved, None)
      else
        match fuel with
        | O => Panic
        | S fuel =>
            '(_, kvs, err) <-! call (BList (kvKey (List.last kvs kv0)) "0" listPageSize rev true "" "");;
            if is_err err then Ret (rev, saved, err) else seed_loop fuel rev kvs saved
        end
  end.

Definition seed (fuel : nat) : prog bop (Z * list KeyValue * gerr) :=
  '(rev, kvs, err) <-! call (BList "/" "0" listPageSize 0 true "" "");;
  if is_err err then Ret (rev, [], err) else seed_loop fuel rev kvs [].

(** ** The handler and its surroundings *)
(** [errors.Is(err, context.Canceled)] for an error of the backend. *)
Definition is_canceled (err : gerr) : bool :=
  match err with Some (ErrOther msg) => String.eqb msg "context canceled" | _ => false end.

(** Where the handler goroutine is. *)
Inductive hpc : Type :=
  | HIdle
  | HDelete (key : string) (e : entry)
  | HForget (key : string).

Record tstate (S : Type) := MkT {
  t_backend : S;
  t_now : Z;
  t_store : store;
  t_queue : gset string;
  t_pc : hpc
}.
Arguments MkT {S}. Arguments t_backend {S}. Arguments t_now {S}. Arguments t_store {S}.
Arguments t_queue {S}. Arguments t_pc {S}.

Section ttl.
Context {S : Type} `{Backend S}.

(** [handle] up to the call of [Delete]: take [key] from the queue, look its
    entry up, requeue it when it has not expired. *)
Definition handle_get (key : string) (t : tstate S) : tstate S :=
  let q := t_queue t ∖ {[key]} in
  match load (t_store t) key with
  | None => MkT (t_backend t) (t_now t) (t_store t) q HIdle
  | Some e =>
      if expiredAt e - t_now t >? 0
      then MkT (t_backend t) (t_now t) (t_store t) ({[key]} ∪ q) HIdle
      else MkT (t_backend t) (t_now t) (t_store t) q (HDelete key e)
  end.

(** The conditional delete, and the requeue when it fails, unless the program is
    stopping. *)
Definition handle_delete (key : string) (e : entry) (t : tstate S) : tstate S :=
  let '(_, _, _, err, s) := b_do (BDelete key (modRevision e)) (t_backend t) in
  if is_err err && negb (is_canceled err)
  then MkT s (t_now t) (t_store t) ({[key]} ∪ t_queue t) HIdle
  else MkT s (t_now t) (t_store t) (t_queue t) (HForget key).

(** [delete(store, key)] under the lock. *)
Definition handle_forget (key : string) (t : tstate S) : tstate S :=
  MkT (t_backend t) (t_now t) (delete key (t_store t)) (t_queue t) HIdle.

Definition run_event (event : Event) (t : tstate S) : tstate S :=
  let (s, k) := on_event (t_now t) event (t_store t) in
  MkT (t_backend t) (t_now t) s (match k with Some k => {[k]} ∪ t_queue t | None => t_queue t end) (t_pc t).

(** One value [seed] saves and queues. *)
Definition run_seed (kv : KeyValue) (t : tstate S) : tstate S :=
  MkT (t_backend t) (t_now t) (save (t_now t) kv (t_store t)).2 ({[kvKey kv]} ∪ t_queue t) (t_pc t).

Definition ttl_init (s : S) (now : Z) : tstate S := MkT s now ∅ ∅ HIdle.
(** Reachable states, with the values saved so far and when. *)
Inductive treach (s0 : S) : tstate S -> list (Z * KeyValue) -> Prop :=
  | tr_init now : treach s0 (ttl_init s0 now) []
  | tr_time t log now' : treach s0 t log -> t_now t <= now' ->
      treach s0 (MkT (t_backend t) now' (t_store t) (t_queue t) (t_pc t)) log
  | tr_client t log s' : treach s0 t log -> env_step (E:=bop) (t_backend t) s' ->
      treach s0 (MkT s' (t_now t) (t_store t) (t_queue t) (t_pc t)) log
  | tr_seed t log kv : treach s0 t log -> 0 < kvLease kv -> treach s0 (run_seed kv t) ((t_now t, kv) :: log)
  | tr_event t log event : treach s0 t log -> treach s0 (run_event event t)
      (match evKV event with Some kv => (t_now t, kv) :: log | None => log end)
  | tr_get t log key : treach s0 t log -> t_pc t = HIdle -> key ∈ t_queue t -> treach s0 (handle_get key t) log
  | tr_delete t log key e : treach s0 t log -> t_pc t = HDelete key e -> b_room (t_backend t) ->
      treach s0 (handle_delete key e t) log
  | tr_forget t log key : treach s0 t log -> t_pc t = HForget key -> treach s0 (handle_forget key t) log.
End ttl.
