(* ===== verification/TtlProofs.v ===== *)
(** * Lease expiry: the seed covers every leased key, the handler deletes only
    expired versions, no queued key is forgotten but in one race *)
From S2P Require Import Prelude Types Prog OrderedMap Mvcc MvccSpec Memory MemoryProofs MemoryTheorems Backend Ttl.

(** ** Listings from a key on *)
Lemma range_from k key key' e : e <> "" -> in_list_range key' key e ->
  in_list_range k key' e <-> in_list_range k key e /\ String.ltb k key' = false.
Proof.
  intros He. unfold in_list_range. rewrite !decide_False by done. unfold str_lt. intros [H1 H2]. split.
  - intros [H3 H4]. apply not_true_is_false in H4. split; [|done]. split; [done|]. intros Hk. apply H2.
    destruct (String.ltb key' k) eqn:E1; [by apply (str_lt_trans _ _ _ E1)|]. by rewrite (ltb_total _ _ E1 H4).
  - intros [[H3 H4] H5]. split; [done|by rewrite H5].
Qed.

Lemma listing_from h r key e b l1 x l2 : e <> "" -> is_listing h r key e b (l1 ++ x :: l2) ->
  is_listing h r (kvKey x) e b (x :: l2).
Proof.
  intros He [Hs Hel]. rewrite fmap_app, fmap_cons in Hs. apply StronglySorted_app in Hs as (Hlt & Hs1 & Hs2).
  assert (Hx : in_list_range (kvKey x) key e).
  { destruct (proj1 (Hel x)) as (kv0 & _ & Hr & ->); [set_solver|]. by rewrite strip_key. }
  split; [done|]. intros kv. split.
  - intros Hin. destruct (proj1 (Hel kv)) as (kv0 & Hv & Hr & ->); [set_solver|]. exists kv0. split_and!; [done| |done].
    apply (range_from _ key); [done|done|]. split; [done|].
    apply elem_of_cons in Hin as [Hin|Hin]; [rewrite <- Hin, strip_key; apply ltb_irrefl|].
    inversion Hs2 as [|?? _ Hall]; subst. rewrite Forall_forall in Hall.
    specialize (Hall (kvKey (strip b kv0))). rewrite strip_key in Hall.
    apply ltb_asym, Hall. apply list_elem_of_fmap. exists (strip b kv0). by rewrite strip_key.
  - intros (kv0 & Hv & Hr & ->). apply (range_from _ key) in Hr as [Hr Hge]; [|done|done].
    assert (Hin : strip b kv0 ∈ l1 ++ x :: l2) by (apply Hel; eauto).
    apply elem_of_app in Hin as [Hin|Hin]; [exfalso|done].
    specialize (Hlt (kvKey (strip b kv0)) (kvKey x)). rewrite strip_key in Hlt. unfold str_lt in Hlt.
    rewrite Hlt in Hge; [done| |set_solver]. apply list_elem_of_fmap. exists (strip b kv0). by rewrite strip_key.
Qed.

(** A listing at a revision stays one as the history grows. *)
Lemma listing_run a l a' r key e b kvs : a_wf a -> mvcc_run a l a' -> r <= a_rev a ->
  is_listing (a_hist a) r key e b kvs -> is_listing (a_hist a') r key e b kvs.
Proof.
  intros Hwf Hrun Hr [Hs He]. split; [done|]. intros kv. rewrite He.
  by setoid_rewrite (mvcc_run_view a l a' r _ Hrun Hwf Hr).
Qed.

Section ttl.
Context {S : Type} {sim : astate -> S -> Prop} `{BackendLaws S sim}.

Lemma leased_page (saved kvs : list KeyValue) kv :
  kv ∈ saved ++ leased kvs <-> kv ∈ saved \/ (0 < kvLease kv /\ kv ∈ kvs).
Proof. unfold leased. by rewrite elem_of_app, list_elem_of_filter. Qed.

Lemma page_last (kvs : list KeyValue) kv0 : kvs <> [] -> kvs = removelast kvs ++ [List.last kvs kv0].
Proof. apply app_removelast_last. Qed.

(** Enough fuel: every page but the last moves on by 999 keys. *)
Lemma seed_loop_exec fuel : forall rev pre kvs post saved a s x s',
  sim a s -> rev <= a_rev a -> is_listing (a_hist a) rev "/" "0" true (pre ++ kvs ++ post) ->
  0 < rev -> (Z.of_nat (length kvs) < listPageSize -> post = []) ->
  exec (seed_loop fuel rev kvs saved) s x s' ->
  match x with
  | Some (rev', out, e) => rev' = rev /\
      (forall kv, kv ∈ out -> kv ∈ saved \/ (0 < kvLease kv /\ kv ∈ kvs ++ post)) /\
      (e = None -> forall kv, kv ∈ saved \/ (0 < kvLease kv /\ kv ∈ kvs ++ post) -> kv ∈ out)
  | None => (fuel * 999 < length (kvs ++ post))%nat
  end.
Proof.
  induction fuel as [|fuel IH]; intros rev pre kvs post saved a s x s' Hsim Hrev Hl Hpos Hpost Hex;
    (destruct kvs as [|kv0 kvs0]; cbn [seed_loop] in Hex;
     [apply exec_Ret_inv in Hex as [-> ->]; rewrite (Hpost ltac:(simpl; unfold listPageSize; lia));
      split_and!; [done|tauto|set_solver]|]); set (kvs := kv0 :: kvs0) in *;
    destruct (Z.ltb_spec (Z.of_nat (length kvs)) listPageSize) as [Hlt|Hge].
  1,3: apply exec_Ret_inv in Hex as [-> ->]; rewrite (Hpost Hlt), app_nil_r;
    split_and!; [done|intros kv; by rewrite leased_page|intros _ kv; by rewrite leased_page].
  - apply exec_inv in Hex as [-> ->]. rewrite length_app. unfold kvs. simpl. lia.
  - apply exec_inv in Hex as (s1 & Henv & Hroom & Hex). cbn [pbind] in Hex.
    destruct (env_sim _ _ _ Hsim Henv) as (l & a1 & Hrun & Hs1).
    pose proof (law_wf _ _ Hsim) as Hwf. destruct (mvcc_run_mono _ _ _ Hrun) as [Hmono _].
    assert (Hl1 : is_listing (a_hist a1) rev "/" "0" true (pre ++ kvs ++ post)) by by eapply listing_run.
    set (kl := List.last kvs kv0) in *.
    assert (Hlast : is_listing (a_hist a1) rev (kvKey kl) "0" true (kl :: post)).
    { rewrite (page_last kvs kv0) in Hl1 by done. fold kl in Hl1. rewrite <- app_assoc, app_assoc in Hl1.
      by apply listing_from in Hl1. }
    assert (Hst : (b_do (BList (kvKey kl) "0" listPageSize rev true "" "") s1).2 = s1) by apply law_reads.
    destruct (list_cases a1 s1 (kvKey kl) "0" listPageSize rev true Hs1 ltac:(lia)) as [(n & er & Hr)|[_ Hr]].
    { rewrite Hr, Hst in Hex. cbn [is_err] in Hex. apply exec_Ret_inv in Hex as [-> ->].
      split_and!; [done| |done]. intros kv. rewrite leased_page, elem_of_app. tauto. }
    destruct Hr as (kvs' & Hl' & Hr). unfold rev_of in Hl', Hr. rewrite (proj2 (Z.gtb_lt rev 0)) in Hl', Hr by lia.
    rewrite (is_listing_unique _ _ _ _ _ _ _ Hl' Hlast) in Hr. rewrite Hr, Hst in Hex. cbn [is_err] in Hex.
    set (page := limited listPageSize (kl :: post)) in *.
    assert (Hsplit : exists post', kl :: post = page ++ post' /\ (Z.of_nat (length page) < listPageSize -> post' = [])).
    { exists (drop (Z.to_nat listPageSize) (kl :: post)). unfold page, limited. cbn [Z.gtb Z.compare listPageSize].
      split; [by rewrite take_drop|]. intros Hlen. apply drop_ge. rewrite length_take in Hlen. unfold listPageSize in *. lia. }
    destruct Hsplit as (post' & Hsplit & Hp').
    pose proof Hl1 as Hl2. rewrite (page_last kvs kv0) in Hl2 by done. fold kl in Hl2.
    rewrite <- app_assoc, app_assoc in Hl2. change ([kl] ++ post) with (kl :: post) in Hl2. rewrite Hsplit in Hl2.
    specialize (IH rev (pre ++ removelast kvs) page post' (saved ++ leased kvs) a1 s1 x s' Hs1 ltac:(lia) Hl2 Hpos Hp' Hex).
    rewrite <- Hsplit in IH.
    assert (Hkl : kl ∈ kvs) by (rewrite (page_last kvs kv0) by done; fold kl; set_solver).
    destruct x as [[[rev' out] e]|].
    + destruct IH as (-> & Hout & Hin). split_and!; [done| |].
      * intros kv Hkv. specialize (Hout kv Hkv). rewrite leased_page, elem_of_cons in Hout.
        rewrite elem_of_app. destruct Hout as [[?|?]|[? [->|?]]]; tauto.
      * intros He kv Hkv. apply Hin; [done|]. rewrite leased_page, elem_of_cons. rewrite elem_of_app in Hkv. tauto.
    + simpl in IH. rewrite length_app. unfold listPageSize in Hge. lia.
Qed.

(** The seed lists every leased key once and for all: whatever the other
    clients do between its pages, what it saves are leased values of the store
    as it was at the revision it returns, all of them unless it returns an
    error (the store was compacted meanwhile); and it does return, given one
    unit of fuel for every 999 keys. *)
Theorem seed_complete fuel a s x s' :
  sim a s -> exec (seed fuel) s x s' ->
  exists l a1 kvs, mvcc_run a l a1 /\ is_listing (a_hist a1) (a_rev a1) "/" "0" true kvs /\
    match x with
    | Some (rev, saved, e) => rev = a_rev a1 /\
        (forall kv, kv ∈ saved -> kv ∈ kvs /\ 0 < kvLease kv) /\
        (e = None -> forall kv, kv ∈ kvs -> 0 < kvLease kv -> kv ∈ saved)
    | None => (fuel * 999 < length kvs)%nat
    end.
Proof.
  intros Hsim Hex. apply exec_inv in Hex as (s1 & Henv & Hroom & Hex). cbn [pbind] in Hex.
  destruct (env_sim _ _ _ Hsim Henv) as (l & a1 & Hrun & Hs1).
  assert (Hst : (b_do (BList "/" "0" listPageSize 0 true "" "") s1).2 = s1) by apply law_reads.
  destruct (law_list a1 s1 "/" "0" listPageSize 0 true Hs1 ltac:(lia)) as (kvs & Hl & Hr).
  unfold rev_of in Hl, Hr. cbn [Z.gtb Z.compare] in Hl, Hr. rewrite Hr, Hst in Hex. cbn [is_err] in Hex.
  exists l, a1, kvs. split; [done|]. split; [done|].
  set (page := limited listPageSize kvs) in *.
  assert (Hsplit : exists post, kvs = page ++ post /\ (Z.of_nat (length page) < listPageSize -> post = [])).
  { exists (drop (Z.to_nat listPageSize) kvs). unfold page, limited. cbn [Z.gtb Z.compare listPageSize].
    split; [by rewrite take_drop|]. intros Hlen. apply drop_ge. rewrite length_take in Hlen. unfold listPageSize in *. lia. }
  destruct Hsplit as (post & Hsplit & Hpost).
  destruct (decide (kvs = [])) as [Hnil|Hne].
  { assert (Hpn : page = []) by (subst page; by rewrite Hnil). rewrite Hpn in Hex.
    destruct fuel; apply exec_Ret_inv in Hex as [-> ->]; rewrite Hnil; set_solver. }
  assert (Hpos : 0 < a_rev a1).
  { eapply listing_pos; [by eapply law_wf|exact Hl|]. destruct kvs; [done|simpl; lia]. }
  assert (Hl' : is_listing (a_hist a1) (a_rev a1) "/" "0" true ([] ++ page ++ post)) by (simpl; by rewrite <- Hsplit).
  pose proof (seed_loop_exec fuel (a_rev a1) [] page post [] a1 s1 x s' Hs1 ltac:(lia) Hl' Hpos Hpost Hex) as Hx.
  rewrite <- Hsplit in Hx. destruct x as [[[rev saved] e]|]; [|done].
  destruct Hx as (-> & Hout & Hin). split_and!; [done| |].
  - intros kv Hkv. destruct (Hout kv Hkv); [set_solver|tauto].
  - intros He kv Hkv Hlease. apply Hin; auto.
Qed.

(** ** The handler *)
(** An entry stands for a value saved earlier. *)
Definition of_saved (log : list (Z * KeyValue)) (key : string) (e : entry) : Prop :=
  exists t0 kv, (t0, kv) ∈ log /\ kvKey kv = key /\ 0 < kvLease kv /\ modRevision e = kvModRevision kv /\
    expiredAt e = t0 + lease_duration (kvLease kv).

Record t_inv (t : tstate S) (log : list (Z * KeyValue)) : Prop := {
  ti_store : forall key e, t_store t !! key = Some e -> of_saved log key e;
  ti_queued : forall key, is_Some (t_store t !! key) ->
    key ∈ t_queue t \/ (exists e, t_pc t = HDelete key e) \/ t_pc t = HForget key;
  ti_pc : forall key e, t_pc t = HDelete key e -> of_saved log key e /\ expiredAt e <= t_now t
}.

Lemma of_saved_cons log x key e : of_saved log key e -> of_saved (x :: log) key e.
Proof. intros (t0 & kv & Hin & ?). exists t0, kv. split; [set_solver|done]. Qed.

Lemma save_inv t log kv : t_inv t log -> 0 < kvLease kv -> t_inv (run_seed kv t) ((t_now t, kv) :: log).
Proof.
  intros [Hst Hq Hpc] Hl. split; simpl.
  - intros key e. destruct (decide (key = kvKey kv)) as [->|Hne].
    + rewrite lookup_insert_eq. intros [= <-]. exists (t_now t), kv. split; [set_solver|done].
    + rewrite lookup_insert_ne by done. intros He. by apply of_saved_cons, Hst.
  - intros key. destruct (decide (key = kvKey kv)) as [->|Hne]; [set_solver|].
    rewrite lookup_insert_ne by done. intros [?|?]%Hq; set_solver.
  - intros key e He. destruct (Hpc key e He). split; [by apply of_saved_cons|done].
Qed.

Lemma inv_cons t log x : t_inv t log -> t_inv t (x :: log).
Proof. intros [? ? Hpc]. split; eauto using of_saved_cons. intros key e He. destruct (Hpc key e He). eauto using of_saved_cons. Qed.

Lemma treach_inv s0 t log : treach s0 t log -> t_inv t log.
Proof.
  induction 1 as [now|t log now' _ IH Hn|t log s' _ IH Hs|t log kv _ IH Hl|t log event _ IH|t log key _ IH Hpc Hin|
    t log key e _ IH Hpc Hr|t log key _ IH Hpc].
  - split; simpl; [intros key e; by rewrite lookup_empty|intros key; rewrite lookup_empty; by intros []|done].
  - destruct IH as [? ? Hp]. split; simpl; [done|done|]. intros key e He. destruct (Hp key e He). split; [done|lia].
  - by destruct IH.
  - by apply save_inv.
  - unfold run_event, on_event. destruct (evKV event) as [kv|] eqn:Hkv.
    2:{ destruct (evDelete event); simpl; by destruct t. }
    destruct (evDelete event); [apply inv_cons; by destruct t|].
    destruct (kvLease kv <=? 0) eqn:El; [apply inv_cons; by destruct t|b2p].
    destruct (match load _ _ with None => _ | Some _ => _ end); [by apply save_inv|apply inv_cons; by destruct t].
  - destruct IH as [Hst Hq Hp]. unfold handle_get, load.
    destruct (t_store t !! key) as [e|] eqn:He; [destruct (Z.gtb_spec (expiredAt e - t_now t) 0)|]; split; simpl; try done.
    + intros k Hk. destruct (decide (k = key)) as [->|]; [left; set_solver|].
      destruct (Hq k Hk) as [?|[[? ?]|?]]; [left; set_solver|congruence..].
    + intros k Hk. destruct (decide (k = key)) as [->|]; [eauto|].
      destruct (Hq k Hk) as [?|[[? ?]|?]]; [left; set_solver|congruence..].
    + intros k e' [= <- <-]. split; [auto|lia].
    + intros k Hk. destruct (decide (k = key)) as [->|]; [by rewrite He in Hk; destruct Hk|].
      destruct (Hq k Hk) as [?|[[? ?]|?]]; [left; set_solver|congruence..].
  - destruct IH as [Hst Hq Hp]. unfold handle_delete. destruct (b_do _ _) as [[[[? ?] ?] err] s].
    destruct (is_err err && _); split; simpl; try done; intros k Hk;
      destruct (Hq k Hk) as [?|[[e' He']|He']]; rewrite ?Hpc in *; simplify_eq; eauto; left; set_solver.
  - destruct IH as [Hst Hq Hp]. split; simpl; [|intros k|done].
    + intros k e He. apply lookup_delete_Some in He as [_ He]. eauto.
    + intros [e He]. apply lookup_delete_Some in He as [Hne He]. 
      destruct (Hq k) as [?|[[? ?]|?]]; [by eexists|by left|congruence|congruence].
Qed.

Lemma handler_delete_effect a key e (t : tstate S) : sim a (t_backend t) -> b_room (t_backend t) ->
  let t' := handle_delete key e t in
  exists a', sim a' (t_backend t') /\ t_pc t' = HForget key /\ t_store t' = t_store t /\ t_now t' = t_now t /\
    (forall k, k <> key -> current (a_hist a') k = current (a_hist a) k) /\
    (forall kv, current (a_hist a) key = Some kv ->
       (modRevision e <> 0 -> kvModRevision kv <> modRevision e -> current (a_hist a') key = Some kv) /\
       (kvModRevision kv = modRevision e -> current (a_hist a') key = None)).
Proof.
  intros Hsim Hroom t'. destruct (law_delete a (t_backend t) key (modRevision e) Hsim Hroom) as (a' & Hs & Hsim').
  exists a'. subst t'. unfold handle_delete. destruct (b_do _ _) as [[[[n kv] ok] err] s]. cbn [fst snd] in *.
  inversion Hs; subst; cbn [is_err]; split_and!; try done.
  - intros k Hk. cbn [add_write a_hist]. rewrite current_snoc. simpl. by rewrite decide_False.
  - intros kv Hkv. cbn [add_write a_hist]. rewrite current_snoc. simpl. rewrite decide_True by done. split; [|done].
    intros Hne Hm. match goal with Ho : _ \/ _ |- _ => destruct Ho end; congruence.
  - intros kv Hkv. split; [done|]. congruence.
Qed.

(** The handler deletes a key only once a lease it saw on that key has run
    out, and only the version it saw: when it is about to delete, the entry
    stands for a leased value saved earlier whose expiry has passed, and the
    conditional delete removes that version if it is still there, leaves a
    newer one alone, and touches no other key. *)
Theorem ttl_deletes_expired_only s0 t log key e a :
  treach s0 t log -> t_pc t = HDelete key e -> sim a (t_backend t) -> b_room (t_backend t) ->
  of_saved log key e /\ expiredAt e <= t_now t /\
  exists a', sim a' (t_backend (handle_delete key e t)) /\
    (forall k, k <> key -> current (a_hist a') k = current (a_hist a) k) /\
    (forall kv, current (a_hist a) key = Some kv ->
       (modRevision e <> 0 -> kvModRevision kv <> modRevision e -> current (a_hist a') key = Some kv) /\
       (kvModRevision kv = modRevision e -> current (a_hist a') key = None)).
Proof.
  intros Hr Hpc Hsim Hroom. destruct (ti_pc _ _ (treach_inv _ _ _ Hr) key e Hpc) as [Hs He].
  split; [done|]. split; [done|].
  destruct (handler_delete_effect a key e t Hsim Hroom) as (a' & ? & _ & _ & _ & ? & ?). eauto.
Qed.

(** C32. A key the expiry goroutines still know is never lost: it is waiting in
    the queue or being handled; and once its lease has run out, the next three
    steps of the handler on it delete it, provided it is still at the version
    that was saved. *)
Theorem ttl_expires s0 t log key e a kv :
  treach s0 t log -> t_store t !! key = Some e ->
  (key ∈ t_queue t \/ (exists e', t_pc t = HDelete key e') \/ t_pc t = HForget key) /\
  (t_pc t = HIdle -> expiredAt e <= t_now t -> sim a (t_backend t) -> b_room (t_backend t) ->
   current (a_hist a) key = Some kv -> kvModRevision kv = modRevision e ->
   let t' := handle_forget key (handle_delete key e (handle_get key t)) in
   treach s0 t' log /\ t_store t' !! key = None /\
   exists a', sim a' (t_backend t') /\ current (a_hist a') key = None).
Proof.
  intros Hr He. pose proof (ti_queued _ _ (treach_inv _ _ _ Hr) key ltac:(by eexists)) as Hq.
  split; [done|]. intros Hpc Hexp Hsim Hroom Hcur Hm t'.
  assert (Hin : key ∈ t_queue t) by (destruct Hq as [?|[[? ?]|?]]; [done|congruence..]).
  assert (Hget : handle_get key t = MkT (t_backend t) (t_now t) (t_store t) (t_queue t ∖ {[key]}) (HDelete key e)).
  { unfold handle_get, load. rewrite He. destruct (Z.gtb_spec (expiredAt e - t_now t) 0); [lia|done]. }
  assert (Hr1 : treach s0 (handle_get key t) log) by by constructor.
  destruct (handler_delete_effect a key e (handle_get key t)) as (a' & Hs' & Hpc' & Hst & _ & _ & Hd); [by rewrite Hget..|].
  assert (Hr2 : treach s0 (handle_delete key e (handle_get key t)) log) by (constructor; [done|by rewrite Hget|by rewrite Hget]).
  split; [by constructor|]. split; [simpl; apply lookup_delete_eq|]. exists a'. split; [done|]. by apply (Hd kv).
Qed.
End ttl.

(** ** The race, over the in-memory store *)
Definition rm1 : Memory samap := (Create "k" "v" 1 New).2.
Definition rm2 : Memory samap := (Update "k" "w" 1 1 rm1).2.
Definition rkv1 : KeyValue := MkKeyValue "k" "v" 1 1 1 1.
Definition rkv2 : KeyValue := MkKeyValue "k" "w" 2 1 2 1.
Definition rev1 : Event := MkEvent false true (Some rkv1) None.
Definition rev2 : Event := MkEvent false false (Some rkv2) (Some rkv1).
Definition rt_put (m : Memory samap) (t : tstate (Memory samap)) : tstate (Memory samap) :=
  MkT m (t_now t) (t_store t) (t_queue t) (t_pc t).
Definition rt_time (n : Z) (t : tstate (Memory samap)) : tstate (Memory samap) :=
  MkT (t_backend t) n (t_store t) (t_queue t) (t_pc t).

(** The first lease is about to be expired when the key is written again. *)
Definition rt1 : tstate (Memory samap) := handle_get "k" (rt_time (2 * Second) (run_event rev1 (rt_put rm1 (ttl_init New 0)))).
Definition rt2 : tstate (Memory samap) := run_event rev2 (handle_delete "k" (MkEntry 1 Second) (rt_put rm2 rt1)).
Definition rt3 : tstate (Memory samap) := handle_get "k" (handle_forget "k" rt2).
Definition rlog : list (Z * KeyValue) := [(2 * Second, rkv2); (0, rkv1)].

Lemma rm1_step : env_step (E:=bop) (New (M:=samap)) rm1.
Proof.
  change rm1 with (b_do (BCreate "k" "v" 1) (New (M:=samap))).2. constructor. reflexivity.
Qed.

Lemma rm2_step : env_step (E:=bop) rm1 rm2.
Proof. change rm2 with (b_do (BUpdate "k" "w" 1 1) rm1).2. constructor. reflexivity. Qed.

Lemma rt1_reach : treach New rt1 [(0, rkv1)].
Proof.
  unfold rt1. apply tr_get; [|reflexivity|apply (bool_decide_unpack _); vm_compute; exact I].
  apply tr_time; [|vm_compute; discriminate]. apply (tr_event New (rt_put rm1 (ttl_init New 0)) [] rev1).
  apply tr_client; [apply tr_init|]. apply rm1_step.
Qed.

Lemma rt3_reach : treach New rt3 rlog.
Proof.
  unfold rt3. apply tr_get; [|reflexivity|apply (bool_decide_unpack _); vm_compute; exact I].
  apply tr_forget; [|reflexivity]. unfold rt2, rlog.
  set (td := handle_delete "k" (MkEntry 1 Second) (rt_put rm2 rt1)).
  assert (Hn : t_now td = 2 * Second) by (vm_compute; reflexivity).
  rewrite <- Hn. apply (tr_event New td [(0, rkv1)] rev2).
  apply tr_delete; [|reflexivity|reflexivity].
  apply tr_client; [apply rt1_reach|]. apply rm2_step.
Qed.

(** Between the conditional delete and the removal of the entry, the watch
    may save a newer lease of the same key, and the removal then takes that
    one: there is a run over the in-memory store after which a leased key is
    live, its event has been handled, and nothing is left, in the store or the
    queue, that would ever expire it. *)
Theorem ttl_race_loses_key :
  exists (t : tstate (Memory samap)) log kv, treach New t log /\
    (Get (t_backend t) "k" 0 false).1.2 = Some kv /\ 0 < kvLease kv /\
    (exists t0, (t0, kv) ∈ log) /\ t_store t = ∅ /\ t_queue t = ∅ /\ t_pc t = HIdle.
Proof.
  exists rt3, rlog, rkv2. split; [apply rt3_reach|].
  split; [reflexivity|]. split; [reflexivity|]. split; [exists (2 * Second); set_solver|].
  split_and!; reflexivity.
Qed.

Lemma seed_complete_witness : exists l a1 kvs, mvcc_run (astate_of rm1) l a1 /\
  is_listing (a_hist a1) (a_rev a1) "/" "0" true kvs.
Proof.
  destruct (seed_complete (sim:=msim) 1 (astate_of rm1) rm1 (Some (1, [], None)) rm1) as (l & a1 & kvs & Hr & Hl & _).
  - apply astate_of_sim; [|reflexivity]. exists [OCreate "k" "v" 1]. eexists.
    split; [exact (surjective_pairing _)|reflexivity].
  - eapply exec_call; [apply rtc_refl|reflexivity|apply exec_ret].
  - exists l, a1, kvs. split; [exact Hr|exact Hl].
Defined.

Lemma rm1_sim : msim (astate_of rm1) rm1.
Proof.
  apply astate_of_sim; [|reflexivity]. exists [OCreate "k" "v" 1]. eexists.
  split; [exact (surjective_pairing _)|reflexivity].
Qed.

Lemma ttl_deletes_expired_only_witness : of_saved [(0, rkv1)] "k" (MkEntry 1 Second).
Proof.
  apply (ttl_deletes_expired_only (sim:=msim) New rt1 [(0, rkv1)] "k" (MkEntry 1 Second) (astate_of rm1));
    [apply rt1_reach|reflexivity|apply rm1_sim|reflexivity].
Defined.

Definition rt0 : tstate (Memory samap) := rt_time (2 * Second) (run_event rev1 (rt_put rm1 (ttl_init New 0))).

Lemma rt0_reach : treach New rt0 [(0, rkv1)].
Proof.
  apply tr_time; [|vm_compute; discriminate]. apply (tr_event New (rt_put rm1 (ttl_init New 0)) [] rev1).
  apply tr_client; [apply tr_init|]. apply rm1_step.
Qed.

Lemma ttl_expires_witness :
  exists a', msim a' (t_backend (handle_forget "k" (handle_delete "k" (MkEntry 1 Second) (handle_get "k" rt0)))) /\
    current (a_hist a') "k" = None.
Proof.
  destruct (ttl_expires (sim:=msim) New rt0 [(0, rkv1)] "k" (MkEntry 1 Second) (astate_of rm1) rkv1 rt0_reach)
    as [_ H]; [reflexivity|].
  apply H; [reflexivity|vm_compute; discriminate|apply rm1_sim|reflexivity|reflexivity|reflexivity].
Defined.
