(* ===== verification/Broadcaster.v ===== *)
(** * The broadcaster (pkg/broadcaster/broadcaster.go)

    One stream of batches fanned out to subscribers over buffered channels.
    The goroutines (the stream, one waiter per subscription, the goroutines
    that drop slow subscribers) interleave; each critical section under the
    lock is one step.  A batch stands for itself as a value of type [A]. *)
From S2P Require Import Prelude.

Section broadcaster.
Context {A : Type}.

(** A subscriber's channel: what is buffered, what its reader has taken, and
    whether it is closed; [missed] and [wanted] are ghosts: whether a batch was
    dropped, and every batch broadcast since the subscription. *)
Record sub := MkSub {
  buffer : list A;
  taken : list A;
  closed : bool;
  missed : bool;
  wanted : list A
}.

Definition sub_cap : nat := 100.

Record Broadcaster := MkB {
  running : bool;
  subs : gset nat;
  chans : gmap nat sub;
  dropping : gset nat
}.

(** [Subscribe] when the connection is or can be made; [id] is the address of
    the new channel. *)
Definition Subscribe (connect : gerr) (id : nat) (b : Broadcaster) : gerr * Broadcaster :=
  let start := if running b then None else connect in
  if is_err start then (start, b)
  else (None, MkB true ({[id]} ∪ subs b) (<[id := MkSub [] [] false false []]> (chans b)) (dropping b)).

Definition close_sub (s : sub) : sub := MkSub (buffer s) (taken s) true (missed s) (wanted s).

(** [unsub], by the goroutine that waits for the context or by the one that
    drops a slow subscriber. *)
Definition unsub (id : nat) (b : Broadcaster) : Broadcaster :=
  if decide (id ∈ subs b)
  then MkB (running b) (subs b ∖ {[id]}) (alter close_sub id (chans b)) (dropping b ∖ {[id]})
  else MkB (running b) (subs b) (chans b) (dropping b ∖ {[id]}).

Definition full (s : sub) : bool := (sub_cap <=? length (buffer s))%nat.

(** The non-blocking send of one item to one subscriber. *)
Definition send_one (item : A) (s : sub) : sub :=
  if full s then MkSub (buffer s) (taken s) (closed s) true (wanted s ++ [item])
  else MkSub (buffer s ++ [item]) (taken s) (closed s) (missed s) (wanted s ++ [item]).

Definition full_at (b : Broadcaster) (id : nat) : bool :=
  match chans b !! id with Some s => full s | None => false end.

(** One item of [stream], to every subscriber; a full one gets a goroutine
    that will drop it. *)
Definition stream_item (item : A) (b : Broadcaster) : Broadcaster :=
  MkB (running b) (subs b)
    (map_imap (fun id s => Some (if decide (id ∈ subs b) then send_one item s else s)) (chans b))
    (filter (fun id => full_at b id = true) (subs b) ∪ dropping b).

(** The end of [stream]'s input. *)
Definition stream_end (b : Broadcaster) : Broadcaster :=
  MkB false ∅ (map_imap (fun id s => Some (if decide (id ∈ subs b) then close_sub s else s)) (chans b))
    (dropping b).

(** A reader takes one batch from its channel. *)
Definition recv_sub (s : sub) : sub :=
  match buffer s with
  | [] => s
  | x :: l => MkSub l (taken s ++ [x]) (closed s) (missed s) (wanted s)
  end.
Definition recv (id : nat) (b : Broadcaster) : Broadcaster :=
  MkB (running b) (subs b) (alter recv_sub id (chans b)) (dropping b).

Inductive bstep (b : Broadcaster) : Broadcaster -> Prop :=
  | B_subscribe connect id : chans b !! id = None -> bstep b (Subscribe connect id b).2
  | B_cancel id : bstep b (unsub id b)
  | B_drop id : id ∈ dropping b -> bstep b (unsub id b)
  | B_item item : running b = true -> bstep b (stream_item item b)
  | B_end : running b = true -> bstep b (stream_end b)
  | B_recv id : bstep b (recv id b).

Definition b_init : Broadcaster := MkB false ∅ ∅ ∅.
Definition b_reachable (b : Broadcaster) : Prop := rtc bstep b_init b.

(** ** Invariant *)
Record sub_ok (b : Broadcaster) (id : nat) (s : sub) : Prop := {
  so_open : id ∈ subs b <-> closed s = false;
  so_cap : (length (buffer s) <= sub_cap)%nat;
  so_all : missed s = false -> taken s ++ buffer s = wanted s;
  so_sublist : sublist (taken s ++ buffer s) (wanted s);
  so_drop : missed s = true -> closed s = true \/ id ∈ dropping b
}.

Record b_inv (b : Broadcaster) : Prop := {
  bi_subs : forall id, id ∈ subs b -> is_Some (chans b !! id);
  bi_running : running b = false -> subs b = ∅;
  bi_sub : forall id s, chans b !! id = Some s -> sub_ok b id s
}.

Lemma b_init_inv : b_inv b_init.
Proof. split; simpl; [set_solver|done|]. intros id s Hs. by rewrite lookup_empty in Hs. Qed.

Lemma send_one_ok b item id s : id ∈ subs b -> chans b !! id = Some s -> sub_ok b id s ->
  sub_ok (stream_item item b) id (send_one item s).
Proof.
  intros Hid Hs [Ho Hc Ha Hl Hd]. unfold send_one. destruct (full s) eqn:Hf; split; simpl.
  - by rewrite Ho.
  - done.
  - done.
  - by apply sublist_inserts_r.
  - intros _. right. apply elem_of_union_l, elem_of_filter. split; [|done]. unfold full_at. by rewrite Hs.
  - by rewrite Ho.
  - unfold full in Hf. apply Nat.leb_gt in Hf. rewrite length_app. simpl. lia.
  - intros Hm. by rewrite app_assoc, Ha.
  - rewrite app_assoc. by apply sublist_app.
  - intros Hm. destruct (Hd Hm) as [?|?]; [by left|right; set_solver].
Qed.

Lemma recv_ok b b' id s : subs b' = subs b -> dropping b' = dropping b -> sub_ok b id s -> sub_ok b' id (recv_sub s).
Proof.
  intros Hsu Hdr [Ho Hc Ha Hl Hd]. unfold recv_sub. destruct (buffer s) as [|x l] eqn:Hb.
  - split; rewrite ?Hsu, ?Hdr, ?Hb; auto.
  - rewrite cons_middle, app_assoc in Hl. split; simpl in *; rewrite ?Hsu, ?Hdr; auto; [lia|].
    intros Hm. rewrite <- app_assoc. simpl. auto.
Qed.

Lemma unsub_inv b id : b_inv b -> b_inv (unsub id b).
Proof.
  intros [Hsub Hrun Hok]. unfold unsub. case_decide as Hin; split; simpl.
  - intros i Hi. destruct (decide (i = id)) as [->|]; [set_solver|]. rewrite lookup_alter_ne by done. set_solver.
  - intros Hr. rewrite (Hrun Hr) in *. set_solver.
  - intros i s. destruct (decide (i = id)) as [->|Hne].
    + rewrite lookup_alter_eq. intros (s0 & Hs & ->)%fmap_Some_1. destruct (Hok id s0 Hs) as [Ho Hc Ha Hl Hd].
      split; simpl; auto. split; [set_solver|done].
    + rewrite lookup_alter_ne by done. intros Hs. destruct (Hok i s Hs) as [Ho Hc Ha Hl Hd].
      split; simpl; auto; [set_solver|]. intros Hm. destruct (Hd Hm); [auto|right; set_solver].
  - done.
  - done.
  - intros i s Hs. destruct (Hok i s Hs) as [Ho Hc Ha Hl Hd]. split; simpl; auto.
    intros Hm. destruct (decide (i = id)) as [->|]; [left|destruct (Hd Hm); [auto|right; set_solver]].
    destruct (closed s); [done|tauto].
Qed.

Lemma bstep_inv b b' : bstep b b' -> b_inv b -> b_inv b'.
Proof.
  intros Hstep Hinv. pose proof Hinv as [Hsub Hrun Hok].
  destruct Hstep as [connect id Hid|id|id Hid|item Hr|Hr|id]; [|by apply unsub_inv|by apply unsub_inv|..].
  - unfold Subscribe. destruct (is_err _); [done|]. split; simpl.
    + intros i. destruct (decide (i = id)) as [->|]; [by rewrite lookup_insert_eq|].
      rewrite lookup_insert_ne by done. set_solver.
    + done.
    + intros i s. destruct (decide (i = id)) as [->|Hne].
      * rewrite lookup_insert_eq. intros [= <-]. split; simpl; try done; [set_solver|lia].
      * rewrite lookup_insert_ne by done. intros Hs. destruct (Hok i s Hs). split; simpl; auto. set_solver.
  - split; simpl.
    + intros i Hi. rewrite map_lookup_imap. destruct (Hsub i Hi) as [s ->]. by eexists.
    + congruence.
    + intros i s. rewrite map_lookup_imap. destruct (chans b !! i) as [s0|] eqn:Hs; [|done]. simpl.
      intros [= <-]. case_decide as Hi; [by apply send_one_ok, Hok|].
      destruct (Hok i s0 Hs) as [Ho Hc Ha Hl Hd]. split; simpl; auto.
      intros Hm. destruct (Hd Hm); [auto|right; set_solver].
  - split; simpl.
    + set_solver.
    + done.
    + intros i s. rewrite map_lookup_imap. destruct (chans b !! i) as [s0|] eqn:Hs; [|done]. simpl.
      intros [= <-]. destruct (Hok i s0 Hs) as [Ho Hc Ha Hl Hd].
      case_decide as Hi; (split; simpl; [|done|done|done|auto]); [set_solver|].
      split; [set_solver|tauto].
  - split; simpl.
    + intros i Hi. destruct (Hsub i Hi) as [s Hs]. destruct (decide (i = id)) as [->|].
      * rewrite lookup_alter_eq, Hs. by eexists.
      * rewrite lookup_alter_ne by done. by rewrite Hs; eexists.
    + done.
    + intros i s. destruct (decide (i = id)) as [->|Hne].
      * rewrite lookup_alter_eq. intros (s0 & Hs & ->)%fmap_Some_1. by eapply recv_ok; [..|apply Hok].
      * rewrite lookup_alter_ne by done. intros Hs. by destruct (Hok i s Hs); split.
Qed.

Lemma b_reachable_inv b : b_reachable b -> b_inv b.
Proof.
  assert (Hgen : forall b0 b, rtc bstep b0 b -> b_inv b0 -> b_inv b).
  { induction 1; [done|]. eauto using bstep_inv. }
  intros Hr. eapply Hgen; [exact Hr|apply b_init_inv].
Qed.

(** In every reachable state, for every subscriber: its channel is open
    exactly while it is subscribed (so no item is sent to a closed channel and
    none is closed twice), never holds more than its capacity, and what its
    reader took followed by what is buffered are batches broadcast since it
    subscribed, in order and none twice; all of them, unless one was dropped,
    and then the subscriber is closed or about to be. *)
Theorem broadcast_in_order b id s :
  b_reachable b -> chans b !! id = Some s ->
  (id ∈ subs b <-> closed s = false) /\ (length (buffer s) <= sub_cap)%nat /\
  sublist (taken s ++ buffer s) (wanted s) /\ (missed s = false -> taken s ++ buffer s = wanted s) /\
  (missed s = true -> closed s = true \/ id ∈ dropping b).
Proof.
  intros Hr Hs. destruct (bi_sub _ (b_reachable_inv _ Hr) id s Hs). by split_and!.
Qed.
End broadcaster.
Arguments sub : clear implicits.
Arguments Broadcaster : clear implicits.

Definition broadcast_all {A} (l : list A) (b : Broadcaster A) : Broadcaster A :=
  fold_left (fun b x => stream_item x b) l b.

Lemma broadcast_all_running {A} (l : list A) b : running (broadcast_all l b) = running b.
Proof. revert b. induction l as [|x l IH]; intros b; [done|]. unfold broadcast_all in *. simpl. by rewrite IH. Qed.

Lemma broadcast_all_steps {A} (l : list A) b : running b = true -> rtc bstep b (broadcast_all l b).
Proof.
  revert b. induction l as [|x l IH]; intros b Hr; [apply rtc_refl|].
  eapply rtc_l; [by apply (B_item _ x)|]. by apply IH.
Qed.

Lemma pause_reachable {A} (l1 l2 : list A) :
  b_reachable (broadcast_all l2 (recv 0 (broadcast_all l1 (Subscribe None 0%nat b_init).2))).
Proof.
  unfold b_reachable. eapply rtc_l; [apply (B_subscribe _ None 0%nat); apply lookup_empty|].
  etrans; [apply (broadcast_all_steps l1); reflexivity|].
  eapply rtc_l; [apply (B_recv _ 0%nat)|]. apply (broadcast_all_steps l2).
  cbn [running recv]. by rewrite broadcast_all_running.
Qed.

(** A subscriber that reads nothing for 101 batches, then one, before its
    dropper runs. *)
Definition slow_reader : Broadcaster nat :=
  broadcast_all [101%nat] (recv 0 (broadcast_all (seq 0 101) (Subscribe None 0%nat b_init).2)).

Lemma broadcast_all_chan {A} (l : list A) b id s : id ∈ subs b -> chans b !! id = Some s ->
  subs (broadcast_all l b) = subs b /\
  chans (broadcast_all l b) !! id = Some (fold_left (fun s x => send_one x s) l s).
Proof.
  revert b s. induction l as [|x l IH]; intros b s Hin Hs; [done|].
  unfold broadcast_all in *. cbn [fold_left]. apply (IH (stream_item x b)); [done|].
  simpl. by rewrite map_lookup_imap, Hs; simpl; rewrite decide_True.
Qed.

Definition send_all {A} (l : list A) (s : sub A) : sub A := fold_left (fun s x => send_one x s) l s.

Lemma pause_sub {A} (l1 l2 : list A) :
  let b := broadcast_all l2 (recv 0 (broadcast_all l1 (Subscribe None 0%nat b_init).2)) in
  0%nat ∈ subs b /\ chans b !! 0%nat = Some (send_all l2 (recv_sub (send_all l1 (MkSub [] [] false false [])))).
Proof.
  set (b0 := (Subscribe None 0%nat b_init).2).
  assert (Hin : 0%nat ∈ subs b0) by (simpl; set_solver).
  destruct (broadcast_all_chan l1 b0 0%nat (MkSub [] [] false false []) Hin) as [Hs1 Hc1];
    [apply lookup_insert_eq|].
  assert (Hc2 : chans (recv 0 (broadcast_all l1 b0)) !! 0%nat
                = Some (recv_sub (send_all l1 (MkSub [] [] false false [])))).
  { simpl. by rewrite lookup_alter_eq, Hc1. }
  destruct (broadcast_all_chan l2 (recv 0 (broadcast_all l1 b0)) 0%nat _ ltac:(simpl; rewrite Hs1; exact Hin) Hc2)
    as [Hs3 Hc3]. cbn zeta. rewrite Hs3, Hc3. split; [simpl; by rewrite Hs1|done].
Qed.

Definition slow_sub : sub nat := MkSub (seq 1 99 ++ [101%nat]) [0%nat] false true (seq 0 102).

Lemma slow_reader_sub : 0%nat ∈ subs slow_reader /\ chans slow_reader !! 0%nat = Some slow_sub.
Proof.
  destruct (pause_sub (seq 0 101) [101%nat]) as [Hin Hs]. fold slow_reader in Hin, Hs. split; [exact Hin|].
  rewrite Hs. reflexivity.
Qed.

(** Until the goroutine that drops a slow subscriber gets the lock, the
    subscriber is still served: there is a reachable state in which a
    subscriber that was too slow for one batch then took the next one, so that
    what it has is not a prefix of what was broadcast. *)
Theorem broadcast_gap :
  exists (b : Broadcaster nat) id s, b_reachable b /\ chans b !! id = Some s /\ id ∈ subs b /\
    taken s ++ buffer s = seq 0 100 ++ [101%nat] /\ wanted s = seq 0 102.
Proof.
  exists slow_reader, 0%nat, slow_sub. destruct slow_reader_sub as [Hin Hs].
  split_and!; [apply pause_reachable|done|done|done|done].
Qed.

Lemma broadcast_in_order_witness : (length (buffer slow_sub) <= sub_cap)%nat.
Proof.
  apply (broadcast_in_order slow_reader 0%nat); [apply pause_reachable|apply slow_reader_sub].
Defined.
