(* ===== verification/Transaction.v ===== *)
(** * The transaction wrapper (pkg/drivers/transaction/transaction.go)

    A backend in front of another one that turns the creation of a key under
    [/harikube/transaction/] into several writes inside a database
    transaction.  The decoder of Kubernetes objects is third-party code: a
    parameter.  The methods that only hand their arguments through are the
    calls themselves. *)
From S2P Require Import Prelude Types GoStrings Prog Backend.

(** Values of Go's [interface{}] that a decoded object can be asked for. *)
Inductive goval : Type :=
  | GNil
  | GBool (b : bool)
  | GInt (n : Z)
  | GFloat (digits : string)
  | GString (s : string)
  | GSlice (l : list goval)
  | GMap (m : list (string * goval))
  | GBytesMap (m : list (string * string)).

Abbreviation gomap := (list (string * goval)).

Fixpoint index {V} (m : list (string * V)) (k : string) : option V :=
  match m with [] => None | (k', v) :: m => if String.eqb k' k then Some v else index m k end.

(** The calls it makes: of the wrapped backend, and of the transaction the
    context carries. *)
Inductive xop : Type -> Type :=
  | XB {R} (o : bop R) : xop R
  | XTransaction : xop gerr
  | XCommit : xop gerr
  | XRollback : xop gerr.

Definition ErrMissingValue : err := ErrOther "missing value".
Definition ErrMissingSpecs : err := ErrOther "missing specs".
Definition ErrMissingResources : err := ErrOther "missing resources".
Definition ErrMissingMetadata : err := ErrOther "missing metadata".
Definition ErrMissingResourceVersion : err := ErrOther "missing resourceVersion".
Definition ErrGRPCTooManyOps : err := ErrOther "rpctypes.ErrGRPCTooManyOps".
Definition ErrGRPCKeyNotFound : err := ErrOther "rpctypes.ErrGRPCKeyNotFound".

(** [errors.Join] drops nil errors. *)
Definition errors_Join (l : list gerr) : gerr :=
  match omap id l with [] => None | es => Some (ErrJoin es) end.

Definition transactionPrefix : string := "/harikube/transaction/".

Section transaction.
Variable Decode : string -> gomap + err.

(** One resource of the transaction. *)
Definition apply_resource (key value : string) (lease : Z) : prog xop (Z * gerr) :=
  match Decode value with
  | inr _ => Ret (0, Some ErrGRPCTooManyOps)
  | inl object =>
      match index object "metadata" with
      | None => Ret (0, errors_Join [Some ErrMissingMetadata; Some ErrGRPCTooManyOps])
      | Some (GMap metadata) =>
          match index metadata "resourceVersion" with
          | None => Ret (0, errors_Join [Some ErrMissingResourceVersion; Some ErrGRPCTooManyOps])
          | Some (GString resourceVersion) =>
              let (revision, bad) := ParseInt resourceVersion in
              if bad then Ret (0, errors_Join [Some ErrMissingResourceVersion; Some ErrGRPCTooManyOps])
              else
                match Split key "#" with
                | [k; action] =>
                    if String.eqb action "create" then
                      '(r, err) <-! call (XB (BCreate k value lease));; Ret (r, err)
                    else if String.eqb action "update" then
                      '(r, _, _, err) <-! call (XB (BUpdate k value revision lease));; Ret (r, err)
                    else if String.eqb action "delete" then
                      '(r, _, _, err) <-! call (XB (BDelete k revision));; Ret (r, err)
                    else Ret (0, Some ErrNotSupported)
                | _ => Ret (0, Some ErrGRPCKeyNotFound)
                end
          | Some _ => Panic
          end
      | Some _ => Panic
      end
  end.

(** [LOOP]; the list is the order in which [range] visits the map. *)
Fixpoint apply_resources (raw : list (string * string)) (lease maxRev : Z) : prog xop (Z * gerr) :=
  match raw with
  | [] => Ret (maxRev, None)
  | (key, value) :: raw =>
      '(r, err) <-! apply_resource key value lease;;
      if is_err err then Ret (maxRev, err) else apply_resources raw lease (Z.max maxRev r)
  end.

(** The end of [Create]. *)
Definition finish (currRev maxRev : Z) (txErr : gerr) : prog xop (Z * gerr) :=
  match txErr with
  | None =>
      err <-! call XRollback;;
      if is_err err then Ret (currRev, errors_Join [txErr; err; Some ErrGRPCTooManyOps])
      else Ret (currRev, errors_Join [txErr; Some ErrGRPCTooManyOps])
  | Some _ =>
      err <-! call XCommit;;
      if is_err err then Ret (currRev, errors_Join [err; Some ErrGRPCTooManyOps]) else Ret (maxRev, None)
  end.

Definition Create (key value : string) (lease : Z) : prog xop (Z * gerr) :=
  if negb (HasPrefix key transactionPrefix) then call (XB (BCreate key value lease))
  else if String.eqb value "" then Ret (0, errors_Join [Some ErrMissingValue; Some ErrNotSupported])
  else
    '(currRev, err) <-! call (XB BCurrentRevision);;
    if is_err err then Ret (0, errors_Join [err; Some ErrGRPCUnhealthy])
    else
      match Decode value with
      | inr e => Ret (0, errors_Join [Some e; Some ErrNotSupported])
      | inl object =>
          match index object "specs" with
          | None => Ret (currRev, errors_Join [Some ErrMissingSpecs; Some ErrNotSupported])
          | Some (GMap specs) =>
              match index specs "resources" with
              | None => Ret (currRev, errors_Join [Some ErrMissingResources; Some ErrNotSupported])
              | Some (GBytesMap rawResources) =>
                  err <-! call XTransaction;;
                  if is_err err then Ret (currRev, errors_Join [err; Some ErrGRPCUnhealthy])
                  else
                    '(maxRev, txErr) <-! apply_resources rawResources lease currRev;;
                    finish currRev maxRev txErr
              | Some _ => Ret (currRev, errors_Join [Some ErrMissingResources; Some ErrNotSupported])
              end
          | Some _ => Panic
          end
      end.

(** What the decoder documents: a decoded object is made of the values JSON
    has; it holds no map of byte slices. *)
Fixpoint json_value (v : goval) : bool :=
  match v with
  | GBytesMap _ => false
  | GMap m => forallb (fun kv => json_value kv.2) m
  | GSlice l => forallb json_value l
  | _ => true
  end.

Definition json_object (m : gomap) : bool := forallb (fun kv => json_value kv.2) m.

Lemma index_forallb (m : gomap) k v : json_object m = true -> index m k = Some v -> json_value v = true.
Proof.
  unfold json_object. induction m as [|[k' v'] m IH]; simpl; [done|]. intros [Hv Hm]%andb_true_iff.
  case_match; [by intros [= <-]|auto].
Qed.

Section handler.
Context {S : Type} `{Handler xop S}.

(** With a decoder that returns JSON values, the creation of a transaction
    key never does what it is for: it opens no transaction and writes nothing,
    and answers an error (or panics, when [specs] is not an object), because
    the resources of a decoded object are never a map of byte slices. *)
Theorem transaction_never_applies key value lease s :
  (forall v m, Decode v = inl m -> json_object m = true) ->
  HasPrefix key transactionPrefix = true ->
  (h_do (XB BCurrentRevision) s).2 = s ->
  (run (Create key value lease) s).2 = s /\
  forall n e, (run (Create key value lease) s).1 = Some (n, e) -> is_err e = true.
Proof.
  intros Hdec Hp Hs. unfold Create. rewrite Hp. cbn [negb].
  destruct (String.eqb value ""); [split; [done|by intros ? ? [= <- <-]]|].
  cbn [pbind call run]. destruct (h_do (XB BCurrentRevision) s) as [[rv er] s1]. cbn [snd] in Hs. subst s1.
  destruct (is_err er) eqn:Her; [destruct er; [split; [done|by intros ? ? [= <- <-]]|done]|].
  destruct (Decode value) as [m|e0] eqn:Hd; [|split; [done|by intros ? ? [= <- <-]]].
  specialize (Hdec _ _ Hd). destruct (index m "specs") as [v|] eqn:Hi; [|split; [done|by intros ? ? [= <- <-]]].
  pose proof (index_forallb _ _ _ Hdec Hi) as Hv. destruct v as [| | | | | |sp|]; try done.
  destruct (index sp "resources") as [v|] eqn:Hi2; [|split; [done|by intros ? ? [= <- <-]]].
  pose proof (index_forallb _ _ _ Hv Hi2) as Hv2.
  destruct v; try done; (split; [done|by intros ? ? [= <- <-]]).
Qed.

(** The end of a transaction is the wrong way round: given resources to
    apply, when every one of them succeeds the database transaction is rolled
    back and the client gets an error; when one fails, what the others wrote
    is committed and the client is told it succeeded. *)
Theorem transaction_commit_inverted key value lease s m sp raw n s1 s2 s3 maxRev txErr :
  HasPrefix key transactionPrefix = true -> value <> "" ->
  Decode value = inl m -> index m "specs" = Some (GMap sp) -> index sp "resources" = Some (GBytesMap raw) ->
  h_do (XB BCurrentRevision) s = ((n, None), s1) -> h_do XTransaction s1 = (None, s2) ->
  run (apply_resources raw lease n) s2 = (Some (maxRev, txErr), s3) ->
  run (Create key value lease) s =
    match txErr with
    | None => (Some (n, errors_Join [(h_do XRollback s3).1; Some ErrGRPCTooManyOps]), (h_do XRollback s3).2)
    | Some _ => (Some (if is_err (h_do XCommit s3).1
                       then (n, errors_Join [(h_do XCommit s3).1; Some ErrGRPCTooManyOps]) else (maxRev, None)),
                 (h_do XCommit s3).2)
    end.
Proof.
  intros Hp Hne Hd Hi Hi2 Hc Ht Hl. unfold Create. rewrite Hp. cbn [negb].
  destruct (String.eqb_spec value ""); [done|].
  cbn [pbind call run]. rewrite Hc. cbn [is_err]. rewrite Hd, Hi, Hi2.
  cbn [pbind call run]. rewrite Ht. cbn [is_err]. rewrite run_bind, Hl. cbn [fst snd].
  unfold finish. destruct txErr as [e|]; cbn [pbind call run].
  - destruct (h_do XCommit s3) as [er s4]. cbn [fst snd]. by destruct (is_err er).
  - destruct (h_do XRollback s3) as [[er|] s4]; cbn [fst snd is_err run]; reflexivity.
Qed.
End handler.
End transaction.

(** ** Witnesses: a counter of writes with a snapshot *)
Definition w_do {R} (o : xop R) : ST (nat * nat) R :=
  match o with
  | XB o => match o in bop R return ST (nat * nat) R with
            | BGet _ r _ => fun s => ((r, None, None), s)
            | BCreate _ _ _ => fun s => ((Z.of_nat (Datatypes.S s.1), None), (Datatypes.S s.1, s.2))
            | BDelete _ _ => fun s => ((Z.of_nat s.1, None, false, None), s)
            | BList _ _ _ r _ _ _ => fun s => ((r, [], None), s)
            | BCount _ _ r _ _ => fun s => ((r, 0, None), s)
            | BUpdate _ _ _ _ => fun s => ((Z.of_nat s.1, None, false, None), s)
            | BDbSize => fun s => ((0, None), s)
            | BCurrentRevision => fun s => ((Z.of_nat s.1, None), s)
            | BCompact _ => fun s => ((0, None), s)
            end
  | XTransaction => fun s => (None, (s.1, s.1))
  | XCommit => fun s => (None, s)
  | XRollback => fun s => (None, (s.2, s.2))
  end.

#[local] Instance w_handler : Handler xop (nat * nat) := { h_do R := w_do; h_room _ := True }.

Definition w_key : string := "/harikube/transaction/t".

Lemma transaction_never_applies_witness :
  (run (Create (fun _ => inl [("specs", GMap [])]) w_key "x" 0) (3%nat, 3%nat)).2 = (3%nat, 3%nat).
Proof.
  apply (transaction_never_applies (fun _ => inl [("specs", GMap [])]) w_key "x" 0 (3%nat, 3%nat));
    [|reflexivity|reflexivity]. intros v m [= <-]. reflexivity.
Defined.

Definition w_decode (v : string) : gomap + err :=
  if String.eqb v "T" then inl [("specs", GMap [("resources", GBytesMap [("a#create", "O"); ("b#drop", "O")])])]
  else inl [("metadata", GMap [("resourceVersion", GString "0")])].

(** The second resource is refused; the first stays written. *)
Lemma transaction_commit_inverted_witness :
  run (Create w_decode w_key "T" 0) (3%nat, 3%nat) = (Some (4, None), (4%nat, 3%nat)).
Proof.
  rewrite (transaction_commit_inverted w_decode w_key "T" 0 (3%nat, 3%nat)
    [("specs", GMap [("resources", GBytesMap [("a#create", "O"); ("b#drop", "O")])])]
    [("resources", GBytesMap [("a#create", "O"); ("b#drop", "O")])] [("a#create", "O"); ("b#drop", "O")]
    3 (3%nat, 3%nat) (3%nat, 3%nat) (4%nat, 3%nat) 4 (Some ErrNotSupported));
    [reflexivity|reflexivity|discriminate|reflexivity|reflexivity|reflexivity|reflexivity|reflexivity|reflexivity].
Defined.
