(* ===== verification/T4.v ===== *)
(** * The t4 driver (pkg/drivers/t4/backend.go, t4.go)

    The backend over a node of the t4 database, which is third-party code: its
    methods are the calls [nop].  The expiry goroutine that [Start] runs at its
    end is that of [Ttl]; opening the driver and the attempts of [Start] come
    at the end of the file.  Walking the data directory is left out. *)
From S2P Require Import Prelude Types GoStrings Prog.
From Stdlib Require Import Ascii.

(** [t4.KeyValue], [t4.Event] and the errors the driver tells apart. *)
Record T4KV := MkT4KV { Key : string; Value : string; Revision : Z; CreateRevision : Z; Lease : Z }.

Record T4Event := MkT4Event { t4Delete : bool; t4KV : option T4KV; t4PrevKV : option T4KV }.

Inductive t4err : Type :=
  | T4KeyExists | T4NoLeader | T4Compacted | T4FutureRevision | T4Closed | T4Other (msg : string).

Record ReadOpts := MkReadOpts { WithRevision : option Z; WithFromKey : option string; WithLimit : option Z }.

Inductive nop : Type -> Type :=
  | NCreate (key value : string) (lease : Z) : nop (Z * option t4err)
  | NUpdate (key value : string) (revision lease : Z) : nop (Z * option T4KV * bool * option t4err)
  | NDeleteIfRevision (key : string) (revision : Z) : nop (Z * option T4KV * bool * option t4err)
  | NCurrentRevision : nop Z
  | NCompactRevision : nop Z
  | NLinearizableGet (key : string) (opts : ReadOpts) : nop (option T4KV * option t4err)
  | NLinearizableList (prefix : string) (opts : ReadOpts) : nop (list T4KV * option t4err)
  | NLinearizableCount (prefix : string) (opts : ReadOpts) : nop (Z * option t4err)
  | NCompact (revision : Z) : nop (option t4err)
  | NWatch (prefix : string) (revision : Z) : nop (option t4err).

Abbreviation nprog := (prog nop).

(** ** Helpers *)
Definition translateErr (e : option t4err) : gerr :=
  match e with
  | None => None
  | Some T4NoLeader => Some ErrNoLeader
  | Some T4Compacted => Some ErrCompacted
  | Some T4FutureRevision => Some ErrFutureRev
  | Some T4KeyExists => Some (ErrOther "t4: key exists")
  | Some T4Closed => Some (ErrOther "t4: closed")
  | Some (T4Other m) => Some (ErrOther m)
  end.

Definition readOpts (revision : Z) : ReadOpts :=
  MkReadOpts (if revision <=? 0 then None else Some revision) None None.

Definition toServerKV (kv : option T4KV) (keysOnly : bool) : option KeyValue :=
  match kv with
  | None => None
  | Some kv => Some (MkKeyValue (Key kv) (if keysOnly then "" else Value kv) 0 (CreateRevision kv)
                       (Revision kv) (Lease kv))
  end.

Definition toServerEvent (ev : T4Event) : Event :=
  MkEvent (t4Delete ev) (negb (t4Delete ev) && match t4PrevKV ev with None => true | Some _ => false end)
    (toServerKV (t4KV ev) false) (toServerKV (t4PrevKV ev) false).

Definition translateRange (key end_ : string) : string * string :=
  if negb (String.eqb end_ "") && (String.length end_ <? String.length key)%nat
  then (take_str (String.length end_) key, key)
  else (key, "").

(** ** Methods *)
Definition CurrentRevisionM : nprog (Z * gerr) := r <-! call NCurrentRevision;; Ret (r, None).

(** The checks at the head of the reads. *)
Definition check_revision {A} (revision : Z) (refuse : Z -> err -> nprog A) (k : Z -> nprog A) : nprog A :=
  curRev <-! call NCurrentRevision;;
  if (revision >? 0) && (revision >? curRev) then refuse curRev ErrFutureRev
  else if revision >? 0 then
    compactRev <-! call NCompactRevision;;
    if revision <? compactRev then refuse curRev ErrCompacted else k curRev
  else k curRev.

Definition Get (key : string) (revision : Z) (keysOnly : bool) : nprog (Z * option KeyValue * gerr) :=
  check_revision revision (fun curRev e => Ret (curRev, None, Some e)) (fun curRev =>
    '(kv, err) <-! call (NLinearizableGet key (readOpts revision));;
    match err with
    | Some _ => Ret (curRev, None, translateErr err)
    | None => Ret (curRev, toServerKV kv keysOnly, None)
    end).

Definition Create (key value : string) (lease : Z) : nprog (Z * gerr) :=
  '(rev, err) <-! call (NCreate key value lease);;
  match err with
  | Some T4KeyExists => Ret (0, Some ErrKeyExists)
  | _ => Ret (rev, translateErr err)
  end.

Definition Delete (key : string) (revision : Z) : nprog (Z * option KeyValue * bool * gerr) :=
  '(newRev, oldKV, deleted, err) <-! call (NDeleteIfRevision key revision);;
  match err with
  | Some _ => Ret (0, None, false, translateErr err)
  | None => Ret (newRev, toServerKV oldKV false, deleted, None)
  end.

Definition List (key end_ : string) (limit revision : Z) (keysOnly : bool)
  : nprog (Z * list KeyValue * gerr) :=
  check_revision revision (fun curRev e => Ret (curRev, [], Some e)) (fun curRev =>
    let (prefix, startKey) := translateRange key end_ in
    let opts := MkReadOpts (WithRevision (readOpts revision))
                  (if String.eqb startKey "" then None else Some startKey)
                  (if limit >? 0 then Some limit else None) in
    '(kvs, err) <-! call (NLinearizableList prefix opts);;
    match err with
    | Some _ => Ret (curRev, [], translateErr err)
    | None => Ret (curRev, omap (fun kv => toServerKV (Some kv) keysOnly) kvs, None)
    end).

Definition Count (key end_ : string) (revision : Z) : nprog (Z * Z * gerr) :=
  check_revision revision (fun curRev e => Ret (curRev, 0, Some e)) (fun curRev =>
    let (prefix, startKey) := translateRange key end_ in
    let opts := MkReadOpts (WithRevision (readOpts revision))
                  (if String.eqb key "" then None else Some startKey) None in
    '(count, err) <-! call (NLinearizableCount prefix opts);;
    match err with
    | Some _ => Ret (curRev, 0, translateErr err)
    | None => Ret (curRev, count, None)
    end).

Definition Update (key value : string) (revision lease : Z) : nprog (Z * option KeyValue * bool * gerr) :=
  '(newRev, oldKV, updated, err) <-! call (NUpdate key value revision lease);;
  match err with
  | Some _ => Ret (0, None, false, translateErr err)
  | None => Ret (newRev, toServerKV oldKV false, updated, None)
  end.

Definition Compact (revision : Z) : nprog (Z * gerr) :=
  err <-! call (NCompact revision);;
  match err with Some _ => Ret (0, translateErr err) | None => Ret (revision, None) end.

Definition refreshHealthKey : nprog (option t4err) :=
  '(kv, err) <-! call (NLinearizableGet HealthKey (readOpts 0));;
  match err with
  | Some _ => Ret err
  | None =>
      match kv with
      | None => Ret (Some (T4Other "health key disappeared"))
      | Some kv => '(_, _, _, err) <-! call (NUpdate HealthKey HealthVal (Revision kv) 0);; Ret err
      end
  end.

(** One attempt of [Start]: done, give up, or wait and try again. *)
Inductive start_outcome : Type := Started | GiveUp (e : t4err) | RetryLater (e : option t4err).

Definition Start_attempt : nprog start_outcome :=
  '(_, err) <-! call (NCreate HealthKey HealthVal 0);;
  match err with
  | None | Some T4KeyExists =>
      err <-! refreshHealthKey;;
      match err with
      | None => Ret Started
      | Some T4Closed => Ret (GiveUp T4Closed)
      | Some _ => Ret (RetryLater err)
      end
  | Some T4Closed => Ret (GiveUp T4Closed)
  | Some _ => Ret (RetryLater err)
  end.

(** ** Watch *)
Record WatchResult := MkWatchResult { wrCurrent : Z; wrCompact : Z; wrErr : gerr }.

Definition Watch (key end_ : string) (revision : Z) : nprog WatchResult :=
  curRev <-! call NCurrentRevision;;
  compactRev <-! call NCompactRevision;;
  if (revision >? 0) && (revision <=? compactRev) then Ret (MkWatchResult curRev compactRev (Some ErrCompacted))
  else
    err <-! call (NWatch (translateRange key end_).1 revision);;
    Ret (MkWatchResult curRev 0 (translateErr err)).

Definition maxBatch : nat := 64.

(** The batches sent for a stream of events, where [ready] says how many more
    events are in the channel at each drain. *)
Fixpoint watch_batches (ready : list nat) (evs : list T4Event) : list (list Event) :=
  match ready, evs with
  | _, [] | [], _ => []
  | n :: ready, ev :: evs =>
      let m := (n `min` (maxBatch - 1))%nat in
      (toServerEvent ev :: (toServerEvent <$> take m evs)) :: watch_batches ready (drop m evs)
  end.

(** ** Which keys a range asks the node for *)
Definition asked (key end_ k : string) : bool :=
  let (prefix, startKey) := translateRange key end_ in HasPrefix k prefix && negb (String.ltb k startKey).

(** The end of the range of all keys with a prefix: its last byte plus one. *)
Fixpoint PrefixEnd (p : string) : string :=
  match p with
  | "" => ""
  | String c "" => String (ascii_of_N (N_of_ascii c + 1)) ""
  | String c p => String c (PrefixEnd p)
  end.

Lemma length_PrefixEnd p : String.length (PrefixEnd p) = String.length p.
Proof. induction p as [|c [|d p] IH]; [done|done|]. change (S (String.length (PrefixEnd (String d p))) = S (String.length (String d p))). by rewrite IH. Qed.

Fixpoint last_ok (p : string) : bool :=
  match p with "" => false | String c "" => (N_of_ascii c <? 255)%N | String _ p => last_ok p end.

Lemma ltb_cons c d s t : String.ltb (String c s) (String d t) =
  if Ascii.eqb c d then String.ltb s t else (N_of_ascii c <? N_of_ascii d)%N.
Proof.
  unfold String.ltb. simpl. unfold Ascii.compare. destruct (Ascii.eqb_spec c d) as [->|Hne].
  - by rewrite N.compare_refl.
  - destruct (N.compare_spec (N_of_ascii c) (N_of_ascii d)) as [E|E|E].
    + exfalso. apply Hne. rewrite <- (ascii_N_embedding c), <- (ascii_N_embedding d). by rewrite E.
    + symmetry. by apply N.ltb_lt.
    + symmetry. apply N.ltb_ge. lia.
Qed.

Lemma ltb_nil_r s : String.ltb s "" = false.
Proof. by destruct s. Qed.

(** The keys with a prefix are one range. *)
Lemma prefix_range p k : last_ok p = true ->
  HasPrefix k p = negb (String.ltb k p) && String.ltb k (PrefixEnd p).
Proof.
  unfold HasPrefix. revert k. induction p as [|c p IH]; intros k Hp; [done|]. destruct k as [|d k].
  { by destruct p. }
  destruct p as [|c' p'].
  - cbn [last_ok PrefixEnd] in *. rewrite !ltb_cons, ltb_nil_r. simpl. apply N.ltb_lt in Hp.
    assert (Hs : N_of_ascii (ascii_of_N (N_of_ascii c + 1)) = (N_of_ascii c + 1)%N) by (apply N_ascii_embedding; lia).
    destruct (ascii_dec c d) as [<-|Hne].
    + rewrite Ascii.eqb_refl. destruct (Ascii.eqb_spec c (ascii_of_N (N_of_ascii c + 1))) as [E|_].
      * exfalso. rewrite <- E in Hs at 1. lia.
      * rewrite Hs. simpl. destruct k; symmetry; apply N.ltb_lt; lia.
    + assert (Hdc : Ascii.eqb d c = false) by (apply Ascii.eqb_neq; congruence). rewrite Hdc.
      assert (Hn : N_of_ascii c <> N_of_ascii d).
      { intros E. apply Hne. by rewrite <- (ascii_N_embedding c), <- (ascii_N_embedding d), E. }
      destruct (Ascii.eqb_spec d (ascii_of_N (N_of_ascii c + 1))) as [E|_].
      * by rewrite andb_false_r.
      * rewrite Hs. symmetry. apply andb_false_iff. rewrite negb_false_iff, N.ltb_lt, N.ltb_ge. lia.
  - change (PrefixEnd (String c (String c' p'))) with (String c (PrefixEnd (String c' p'))).
    rewrite !ltb_cons. change (last_ok (String c (String c' p'))) with (last_ok (String c' p')) in Hp.
    specialize (IH k Hp). cbn [String.prefix]. destruct (ascii_dec c d) as [<-|Hne].
    + rewrite Ascii.eqb_refl. exact IH.
    + assert (Hdc : Ascii.eqb d c = false) by (apply Ascii.eqb_neq; congruence). rewrite Hdc.
      destruct (N_of_ascii d <? N_of_ascii c)%N; done.
Qed.

(** For the ranges Kubernetes asks for (every key with a prefix, from its
    beginning or from a key inside it on), the prefix and start key that
    [translateRange] hands to the node select exactly the keys of the range. *)
Theorem translateRange_exact p rest k : last_ok p = true ->
  asked (p +:+ rest) (PrefixEnd p) k
  = negb (String.ltb k (p +:+ rest)) && String.ltb k (PrefixEnd p).
Proof.
  intros Hp. unfold asked, translateRange. rewrite length_PrefixEnd, length_app_str.
  assert (Hne : String.eqb (PrefixEnd p) "" = false) by (destruct p as [|c [|d p]]; [done|done|done]).
  rewrite Hne. cbn [negb andb]. destruct rest as [|c rest].
  - rewrite string_app_nil_r. simpl. rewrite (proj2 (Nat.ltb_ge _ _)) by lia.
    rewrite ltb_nil_r. simpl. rewrite andb_true_r. by apply prefix_range.
  - rewrite (proj2 (Nat.ltb_lt _ _)) by (simpl; lia). rewrite take_str_app, prefix_range by done.
    destruct (String.ltb k (p +:+ String c rest)) eqn:E; [by rewrite !andb_false_r|].
    rewrite andb_true_r. cbn [negb andb]. destruct (String.ltb k p) eqn:E2; [|done]. exfalso.
    assert (Hlt : str_lt p (p +:+ String c rest)).
    { clear. unfold str_lt. induction p as [|d p IH]; [done|]. change (String d p +:+ String c rest) with (String d (p +:+ String c rest)).
      rewrite ltb_cons, Ascii.eqb_refl. exact IH. }
    by rewrite (str_lt_trans _ _ _ E2 Hlt) in E.
Qed.

(** For other ranges they do not: a list of the single key ["/a"] asks the
    node for every key it is a prefix of, and a range from ["a"] to ["c"] for
    the keys that start with ["a"] only. *)
Theorem translateRange_not_exact :
  asked "/a" "" "/ab" = true /\ key_in_range "/ab" "/a" "" = false /\
  asked "a" "c" "b" = false /\ key_in_range "b" "a" "c" = true.
Proof. by vm_compute. Qed.

Lemma translateRange_exact_witness :
  asked ("/registry/pods/" +:+ "x") (PrefixEnd "/registry/pods/") "/registry/pods/z" = true.
Proof.
  rewrite (translateRange_exact "/registry/pods/" "x" "/registry/pods/z"); reflexivity.
Defined.

(** ** Opening and starting the t4 driver (drivers/t4/t4.go, backend.go)

    [New] as the trace of what it does, and the loop of [Start] over its
    attempts ([T4.Start_attempt]), whose outcomes are given together with the
    time each takes and whether the wait after it ends with the context. *)

(** ** [New] *)
Inductive t4_action : Type := NodeContext | OpenNode | CancelNodeContext | CloseAtDone.

(** The configuration of the node, and the error of opening it; the result says
    whether Kubernetes components should elect leaders. *)
Definition New {Config : Type} (parsed : Config + err) (Open_ : gerr) : ST (list t4_action) (bool + err) :=
  _ <- emit NodeContext;;
  match parsed with
  | inr e => _ <- emit CancelNodeContext;; st_ret (inr (wrapped "t4 driver: parse DSN" e))
  | inl _ =>
      _ <- emit OpenNode;;
      match Open_ with
      | Some e => _ <- emit CancelNodeContext;; st_ret (inr (wrapped "t4 driver: open node" e))
      | None => _ <- emit CloseAtDone;; st_ret (inl true)
      end
  end.

(** The node's own context ends on every path: at once when the driver does not
    open, with the node otherwise. *)
Lemma t4_new_outcome {Config : Type} (parsed : Config + err) (Open_ : gerr) :
  match New parsed Open_ [] with
  | (inl le, tr) => le = true /\ Open_ = None /\ tr = [NodeContext; OpenNode; CloseAtDone]
  | (inr _, tr) => last tr = Some CancelNodeContext /\ CloseAtDone ∉ tr
  end.
Proof. destruct parsed, Open_; cbn; (split; [done|]); try done; set_solver. Qed.

(** ** [Start] *)
Definition retryInterval : Z := 500000000.
Definition retryTimeout : Z := 60000000000.

Inductive started : Type := Running | Closed (e : t4err) | NotReady (e : option t4err) | CtxErr.

Section start.
Context (attempt : nat -> start_outcome) (took : nat -> Z) (ends : nat -> bool).

Fixpoint start_loop (n i : nat) (now : Z) : option started :=
  match n with
  | O => None
  | S n =>
      let now := now + took i in
      match attempt i with
      | Started => Some Running
      | GiveUp e => Some (Closed e)
      | RetryLater e =>
          if now >? retryTimeout then Some (NotReady e)
          else if ends i then Some CtxErr
          else start_loop n (S i) (now + retryInterval)
      end
  end.

Local Abbreviation retried i := (exists e, attempt i = RetryLater e).

Lemma start_loop_outcome (m : nat) : forall i now, (forall i, 0 <= took i) -> Z.of_nat i * retryInterval <= now -> (i <= 121 < i + m)%nat ->
  exists r a, (forall d, start_loop (m + d) i now = Some r) /\ (i <= a)%nat /\ (forall j, (i <= j < a)%nat -> retried j /\ ends j = false) /\
  match r with
  | Running => attempt a = Started
  | Closed e => attempt a = GiveUp e
  | NotReady e => attempt a = RetryLater e /\ exists t, retryTimeout < t
  | CtxErr => retried a /\ ends a = true
  end.
Proof using Type.
  induction m as [|m IH]; intros i now Ht Hi Hm; [lia|]. cbn [Nat.add start_loop].
  destruct (attempt i) as [|e|e] eqn:Ha; [exists Running, i|exists (Closed e), i|].
  1,2: split; [done|]; split; [lia|]; split; [lia|done].
  destruct (Z.gtb_spec (now + took i) retryTimeout) as [Hlt|Hge].
  { exists (NotReady e), i. split; [done|]. split; [lia|]. split; [lia|eauto]. }
  destruct (ends i) eqn:He; [exists CtxErr, i; split; [done|]; split; [lia|]; split; [lia|eauto]|].
  specialize (Ht i) as Hti. unfold retryInterval, retryTimeout in *.
  destruct (IH (S i) (now + took i + 500000000) Ht) as (r&a&Hr&Hia&Hj&Ho); [lia|lia|].
  exists r, a. split; [done|]. split; [lia|]. split; [|done]. intros j Hj'. destruct (decide (j = i)) as [->|]; [eauto|]. apply Hj. lia.
Qed.

(** The start of the t4 driver ends: the attempts are half a second apart, so
    that 122 are more than a minute's worth.  It succeeds with the first attempt
    that does, and otherwise ends with a node that is closed, with the context,
    or when a minute is over. *)
Theorem t4_start_ends : (forall i, 0 <= took i) ->
  exists r a, (forall n, (122 <= n)%nat -> start_loop n 0 0 = Some r) /\ (forall j, (j < a)%nat -> retried j /\ ends j = false) /\
  match r with
  | Running => attempt a = Started
  | Closed e => attempt a = GiveUp e
  | NotReady e => attempt a = RetryLater e
  | CtxErr => retried a /\ ends a = true
  end.
Proof using Type.
  intros Ht. destruct (start_loop_outcome 122 0 0 Ht) as (r&a&Hr&_&Hj&Ho); [by unfold retryInterval|lia|].
  exists r, a. split; [|split; [intros j Hlt; apply Hj; lia|by destruct r; naive_solver]].
  intros n Hn. replace n with (122 + (n - 122))%nat by lia. apply Hr.
Qed.
End start.

(** A node that becomes ready at the third attempt. *)
Lemma t4_start_ends_witness : start_loop (fun i => if (i =? 2)%nat then Started else RetryLater None) (fun _ => 1) (fun _ => false) 200 0 0 = Some Running.
Proof.
  destruct (t4_start_ends (fun i => if (i =? 2)%nat then Started else RetryLater None) (fun _ => 1) (fun _ => false)) as (r&a&Hr&_&_).
  - intros i. lia.
  - rewrite (Hr 200%nat) by lia. specialize (Hr 122%nat ltac:(lia)). vm_compute in Hr. rewrite <- Hr. reflexivity.
Defined.
