(* ===== verification/NatsCodec.v ===== *)
(** * Keys of the NATS driver (pkg/drivers/nats/codec.go)

    Keys become subjects: the parts between slashes in Base58, joined with
    dots.  Base58 is third-party code: [encode58] and [decode58], with the
    documented facts that decoding undoes encoding and that the alphabet has
    no dot. *)
From S2P Require Import Prelude GoStrings.
From Stdlib Require Import Ascii.

Definition noRootPrefix : string := "meta".
Definition slash : ascii := "/"%char.
Definition dot : ascii := "."%char.

Section codec.
Variable encode58 : string -> string.
Variable decode58 : string -> option string.

Definition ErrInvalidKey : err := ErrOther "nats: invalid key".
Definition errBase58 : err := ErrOther "base58: illegal character".

Definition encode_part (part : string) : string := encode58 (if String.eqb part "" then "/" else part).

Definition Encode (key : string) : string * gerr :=
  if String.eqb key "" || String.eqb key "/" then ("", Some ErrInvalidKey)
  else
    let hasRootPrefix := HasPrefix key "/" in
    let key := TrimPrefix key "/" in
    let parts := (if hasRootPrefix then [] else [noRootPrefix]) ++ (encode_part <$> Split key "/") in
    match parts with [] => ("", Some ErrInvalidKey) | _ => (Join parts ".", None) end.

Definition EncodeRange (prefix : string) : string * gerr :=
  if String.eqb prefix "/" then (">", None)
  else if String.eqb prefix noRootPrefix then (noRootPrefix +:+ ".>", None)
  else
    let (ek, err) := Encode (TrimSuffix prefix "/") in
    if is_err err then ("", err) else (ek +:+ ".>", None).

Fixpoint decode_parts (l : list string) : list string + err :=
  match l with
  | [] => inl []
  | s :: l =>
      if String.eqb s noRootPrefix then decode_parts l
      else
        match decode58 s with
        | None => inr errBase58
        | Some part =>
            match decode_parts l with
            | inl parts => inl ((if String.eqb part "/" then "" else part) :: parts)
            | inr e => inr e
            end
        end
  end.

Definition Decode (key : string) : string * gerr :=
  let hasRootPrefix := negb (HasPrefix key noRootPrefix) in
  match decode_parts (Split key ".") with
  | inr e => ("", Some e)
  | inl [] => ("", Some ErrInvalidKey)
  | inl parts =>
      let dk := Join parts "/" in
      (if hasRootPrefix then "/" +:+ dk else dk, None)
  end.

(** ** Prefixes of joined parts *)
Lemma HasPrefix_stop x c y p : no_char c p = true -> HasPrefix (x +:+ String c y) p = HasPrefix x p.
Proof.
  unfold HasPrefix. revert x. induction p as [|a p IH]; intros x Hp; [by destruct x|].
  simpl in Hp. apply andb_true_iff in Hp as [Ha Hp]. apply negb_true_iff, Ascii.eqb_neq in Ha.
  destruct x as [|b x]; simpl.
  - by destruct (ascii_dec a c) as [->|].
  - destruct (ascii_dec a b) as [->|]; [by apply IH|done].
Qed.

Lemma HasPrefix_Join x l c p : no_char c p = true -> HasPrefix (Join (x :: l) (String c "")) p = HasPrefix x p.
Proof. intros Hp. destruct l as [|y l]; [done|]. by apply HasPrefix_stop. Qed.

(** ** Round trip *)
Hypothesis decode_encode : forall p, p <> "" -> decode58 (encode58 p) = Some p.
Hypothesis encode_no_dot : forall p, no_char dot (encode58 p) = true.

Lemma decode_part_encode p : no_char slash p = true ->
  match decode58 (encode_part p) with
  | Some part => Some (if String.eqb part "/" then "" else part)
  | None => None
  end = Some p.
Proof using decode_encode.
  intros Hp. unfold encode_part. destruct (String.eqb_spec p "") as [->|Hne].
  - by rewrite decode_encode.
  - rewrite decode_encode by done. simpl. destruct (String.eqb_spec p "/") as [->|]; done.
Qed.

Lemma decode_encode_parts l : Forall (fun p => no_char slash p = true) l ->
  Forall (fun p => encode_part p <> noRootPrefix) l -> decode_parts (encode_part <$> l) = inl l.
Proof using decode_encode.
  induction 1 as [|p l Hp _ IH]; intros Hm; [done|]. inversion Hm; subst.
  cbn [fmap list_fmap decode_parts]. destruct (String.eqb_spec (encode_part p) noRootPrefix); [done|].
  pose proof (decode_part_encode p Hp) as Hd. destruct (decode58 (encode_part p)) as [part|]; [|done].
  simpl in Hd. injection Hd as Hd. rewrite IH by done. by rewrite Hd.
Qed.

Lemma encode_parts_no_dot l : Forall (fun x => no_char dot x = true) (encode_part <$> l).
Proof using encode_no_dot. apply Forall_forall. intros x (p & -> & _)%list_elem_of_fmap. apply encode_no_dot. Qed.

(** No part whose encoding begins with the marker of keys without a root. *)
Definition no_meta (key : string) : Prop :=
  Forall (fun p => HasPrefix (encode_part p) noRootPrefix = false) (Split (TrimPrefix key "/") "/").

Lemma HasPrefix_refl p : HasPrefix p p = true.
Proof. rewrite <- (string_app_nil_r p) at 1. apply HasPrefix_app. Qed.

Lemma HasPrefix_slash key : HasPrefix key "/" = true -> key = "/" +:+ TrimPrefix key "/".
Proof. intros Hp. unfold TrimPrefix. rewrite Hp. by apply HasPrefix_inv in Hp. Qed.

(** C40. Decoding a subject gives back the key that was encoded, with or
    without a leading slash and with empty parts, for every key no part of
    which encodes to something that begins with the marker [meta]. *)
Theorem nats_key_roundtrip key :
  key <> "" -> key <> "/" -> no_meta key ->
  exists s, Encode key = (s, None) /\ Decode s = (key, None).
Proof using decode_encode encode_no_dot.
  intros H1 H2 Hm. unfold Encode. destruct (String.eqb_spec key ""); [done|].
  destruct (String.eqb_spec key "/"); [done|]. cbn [orb]. set (k := TrimPrefix key "/").
  destruct (Join_Split k slash) as (Hj & Hns & Hne). change (String slash "") with "/" in *.
  set (l := Split k "/") in *. unfold no_meta in Hm. fold k l in Hm.
  assert (Hm' : Forall (fun p => encode_part p <> noRootPrefix) l).
  { eapply Forall_impl; [exact Hm|]. intros p Hp Heq. simpl in Hp. rewrite Heq in Hp.
    by rewrite HasPrefix_refl in Hp. }
  pose proof (decode_encode_parts l Hns Hm') as Hd.
  assert (Hne' : encode_part <$> l <> []) by (by destruct l).
  destruct (HasPrefix key "/") eqn:Hroot; cbn [app].
  - exists (Join (encode_part <$> l) "."). split; [by destruct (encode_part <$> l)|].
    unfold Decode. rewrite (Split_Join _ dot) by (done || apply encode_parts_no_dot). rewrite Hd.
    assert (Hp : HasPrefix (Join (encode_part <$> l) ".") noRootPrefix = false).
    { destruct l as [|p l']; [done|]. inversion Hm; subst. cbn [fmap list_fmap].
      rewrite (HasPrefix_Join _ _ dot) by done. done. }
    rewrite Hp. cbn [negb]. destruct l as [|p l'] eqn:El; [done|]. rewrite <- El in *. rewrite Hj.
    do 1 f_equal. unfold k. symmetry. by apply HasPrefix_slash.
  - exists (Join (noRootPrefix :: (encode_part <$> l)) "."). split; [done|].
    unfold Decode. rewrite (Split_Join _ dot); [|done|constructor; [done|apply encode_parts_no_dot]].
    cbn [decode_parts String.eqb]. rewrite String.eqb_refl, Hd, (HasPrefix_Join _ _ dot) by done.
    rewrite HasPrefix_refl. cbn [negb]. destruct l as [|p l'] eqn:El; [done|]. rewrite <- El in *. rewrite Hj.
    unfold k, TrimPrefix. by rewrite Hroot.
Qed.

(** The marker is a legal Base58 text, so the round trip does fail where
    it is excluded above: a key [/p] whose part encodes to something that
    begins with [meta] is not given back by the decoder. *)
Theorem nats_key_meta_collision p :
  p <> "" -> no_char slash p = true -> HasPrefix (encode58 p) noRootPrefix = true ->
  exists s, Encode ("/" +:+ p) = (s, None) /\ (Decode s).1 <> "/" +:+ p.
Proof using decode_encode encode_no_dot.
  intros Hp Hns Hm. exists (encode58 p).
  assert (Hsplit : Split p "/" = [p]) by (apply (Split_Join [p] slash); [done|by repeat constructor]).
  assert (Hne : String.eqb p "" = false) by by apply String.eqb_neq.
  assert (Htrim : TrimPrefix ("/" +:+ p) "/" = p) by (unfold TrimPrefix; rewrite HasPrefix_app; apply drop_str_app).
  split.
  - unfold Encode. rewrite Htrim, Hsplit, HasPrefix_app. unfold encode_part. simpl.
    rewrite Hne. by destruct p.
  - unfold Decode. rewrite Hm. cbn [negb].
    replace (Split (encode58 p) ".") with [encode58 p].
    2:{ symmetry. apply (Split_Join [encode58 p] dot); [done|]. repeat constructor. apply encode_no_dot. }
    cbn [decode_parts]. destruct (String.eqb (encode58 p) noRootPrefix); [done|]. rewrite decode_encode by done.
    assert (Hsl : String.eqb p "/" = false) by (apply String.eqb_neq; by intros ->).
    rewrite Hsl. simpl. intros Heq. apply (f_equal String.length) in Heq. rewrite length_app_str in Heq. simpl in Heq. lia.
Qed.

Lemma Join_app l1 l2 c : l1 <> [] -> l2 <> [] ->
  Join (l1 ++ l2) (String c "") = Join l1 (String c "") +:+ String c (Join l2 (String c "")).
Proof.
  intros H1 H2. induction l1 as [|x l1 IH]; [done|]. destruct l1 as [|y l1].
  - by destruct l2.
  - change (Join ((x :: y :: l1) ++ l2) (String c "")) with (x +:+ String c (Join ((y :: l1) ++ l2) (String c ""))).
    rewrite IH by done. change (Join (x :: y :: l1) (String c "")) with (x +:+ String c (Join (y :: l1) (String c ""))).
    by rewrite string_app_assoc.
Qed.

Lemma Split_app a b c : Split (a +:+ String c b) (String c "") = Split a (String c "") ++ Split b (String c "").
Proof.
  destruct (Join_Split a c) as (Ha & Hna & Hnea), (Join_Split b c) as (Hb & Hnb & Hneb).
  rewrite <- Ha at 1. rewrite <- Hb at 1. rewrite <- Join_app by done. apply Split_Join.
  - by destruct (Split a (String c "")).
  - by apply Forall_app.
Qed.

(** The subjects under a directory all begin with its own, and a dot. *)
Definition dir_subject (a : string) : string := Join (encode_part <$> Split a "/") ".".

Lemma Encode_root b : b <> "" -> Encode ("/" +:+ b) = (dir_subject b, None).
Proof using Type.
  intros Hb. unfold Encode.
  assert (Hbs : String.eqb ("/" +:+ b) "/" = false) by (apply String.eqb_neq; by destruct b).
  rewrite Hbs. cbn [orb String.eqb String.append]. change (String.append "/" b) with ("/" +:+ b).
  unfold TrimPrefix. rewrite HasPrefix_app. cbn [app].
  change (String.length "/") with 1%nat. change (drop_str 1 ("/" +:+ b)) with b. unfold dir_subject.
  destruct (Join_Split b slash) as (_ & _ & Hne). change (String slash "") with "/" in Hne.
  by destruct (Split b "/").
Qed.

Lemma EncodeRange_dir a : a <> "" -> EncodeRange ("/" +:+ a +:+ "/") = (dir_subject a +:+ ".>", None).
Proof using Type.
  intros Ha. unfold EncodeRange. rewrite <- string_app_assoc.
  assert (H1 : String.eqb (("/" +:+ a) +:+ "/") "/" = false) by (apply String.eqb_neq; by destruct a).
  assert (H2 : String.eqb (("/" +:+ a) +:+ "/") noRootPrefix = false) by (by apply String.eqb_neq).
  by rewrite H1, H2, (TrimSuffix_char _ slash), Encode_root by done.
Qed.

Lemma Encode_under a rest : a <> "" ->
  Encode ("/" +:+ a +:+ "/" +:+ rest) = (dir_subject a +:+ "." +:+ dir_subject rest, None).
Proof using Type.
  intros Ha. rewrite Encode_root by (by destruct a). unfold dir_subject.
  change (a +:+ "/" +:+ rest) with (a +:+ String slash rest). change "/" with (String slash "").
  rewrite Split_app, fmap_app, (Join_app _ _ dot); [done| |].
  - destruct (Join_Split a slash) as (_ & _ & Hne). intros Hn%fmap_nil_inv. done.
  - destruct (Join_Split rest slash) as (_ & _ & Hne). intros Hn%fmap_nil_inv. done.
Qed.

Lemma encode_part_inj l1 l2 : Forall (fun p => no_char slash p = true) l1 -> Forall (fun p => no_char slash p = true) l2 ->
  encode_part <$> l1 = encode_part <$> l2 -> l1 = l2.
Proof using decode_encode.
  intros H1. revert l2. induction H1 as [|p l1 Hp _ IH]; intros l2 H2 Heq; destruct H2 as [|q l2 Hq H2]; [done..|].
  rewrite !fmap_cons in Heq. injection Heq as Hpq Heq. f_equal; [|by apply IH].
  pose proof (decode_part_encode _ Hp) as Hd. rewrite Hpq, (decode_part_encode _ Hq) in Hd. by injection Hd.
Qed.

(** Conversely a subject under that of a directory encodes a key under it. *)
Lemma Encode_under_inv a k rest : HasPrefix (dir_subject a) noRootPrefix = false ->
  Encode k = (dir_subject a +:+ "." +:+ rest, None) -> HasPrefix k ("/" +:+ a +:+ "/") = true.
Proof using decode_encode encode_no_dot.
  intros Hm HE. unfold Encode in HE. destruct (_ || _); [done|]. set (b := TrimPrefix k "/") in HE.
  destruct (Join_Split a slash) as (Ha & Hna & Hnea), (Join_Split b slash) as (Hb & Hnb & Hneb).
  change (String slash "") with "/" in *.
  assert (Hs : forall l, l <> [] -> Forall (fun x => no_char dot x = true) l -> Join l "." = dir_subject a +:+ "." +:+ rest ->
    l = (encode_part <$> Split a "/") ++ Split rest ".").
  { intros l Hl Hd Hj. apply (f_equal (fun x => Split x ".")) in Hj. change "." with (String dot "") in Hj.
    rewrite Split_Join in Hj by done. change (String dot "" +:+ rest) with (String dot rest) in Hj.
    rewrite Split_app in Hj. unfold dir_subject in Hj. change "." with (String dot "") in Hj.
    rewrite Split_Join in Hj; [done| |apply encode_parts_no_dot]. by intros ?%fmap_nil_inv. }
  destruct (HasPrefix k "/") eqn:Hk.
  - cbn [app] in HE. assert (HE' : Join (encode_part <$> Split b "/") "." = dir_subject a +:+ "." +:+ rest)
      by by destruct (encode_part <$> Split b "/"); injection HE.
    apply Hs in HE'; [|by intros ?%fmap_nil_inv|apply encode_parts_no_dot].
    apply fmap_app_inv in HE' as (l1 & l2 & El1 & El2 & Esp). rewrite Esp in Hnb. apply Forall_app in Hnb as [Hn1 _].
    apply encode_part_inj in El1; [|done..]. subst l1.
    assert (Hl2 : l2 <> []) by (intros ->; destruct (Join_Split rest dot) as (_ & _ & Hr); by destruct (Hr El2)).
    rewrite (HasPrefix_slash _ Hk). fold b. rewrite <- Hb, Esp. change "/" with (String slash "") at 3.
    rewrite Join_app by done. change (String slash "") with "/". rewrite Ha.
    pose proof (HasPrefix_app ("/" +:+ a +:+ "/") (Join l2 "/")) as Hp. by rewrite !string_app_assoc in Hp.
  - exfalso. cbn [app] in HE. assert (HE' : Join (noRootPrefix :: (encode_part <$> Split b "/")) "." = dir_subject a +:+ "." +:+ rest)
      by by injection HE.
    apply Hs in HE'; [|done|constructor; [done|apply encode_parts_no_dot]]. unfold dir_subject in Hm.
    destruct (Split a "/") as [|p l]; [done|]. injection HE' as Hp _. cbn [fmap list_fmap] in Hm.
    rewrite (HasPrefix_Join _ _ dot), <- Hp, HasPrefix_refl in Hm; done.
Qed.
End codec.

(** ** Witnesses: a letter for each half of a byte stands in for Base58 *)
Definition half (n : N) : ascii := ascii_of_N (65 + n).
Definition unhalf (c : ascii) : N := (N_of_ascii c - 65)%N.

Fixpoint w_encode (s : string) : string :=
  match s with
  | "" => ""
  | String c s => String (half (N_of_ascii c / 16)) (String (half (N_of_ascii c mod 16)) (w_encode s))
  end.
Fixpoint w_decode (s : string) : option string :=
  match s with
  | "" => Some ""
  | String a (String b s) => String (ascii_of_N (16 * unhalf a + unhalf b)) <$> w_decode s
  | _ => None
  end.

Lemma w_decode_encode s : w_decode (w_encode s) = Some s.
Proof.
  induction s as [|c s IH]; [done|]. cbn [w_encode w_decode]. rewrite IH. simpl. do 2 f_equal.
  clear. destruct c as [[] [] [] [] [] [] [] []]; reflexivity.
Qed.

Lemma w_encode_no_dot s : no_char dot (w_encode s) = true.
Proof.
  induction s as [|c s IH]; [done|]. cbn [w_encode no_char]. rewrite IH, andb_true_r.
  clear. destruct c as [[] [] [] [] [] [] [] []]; reflexivity.
Qed.

Lemma nats_key_roundtrip_witness : exists s, Encode w_encode "/a//b" = (s, None) /\ Decode w_decode s = ("/a//b", None).
Proof.
  apply (nats_key_roundtrip w_encode w_decode); [intros p _; apply w_decode_encode|apply w_encode_no_dot|
    discriminate|discriminate|]. repeat constructor.
Defined.

(** With the marker itself as the code of one part. *)
Definition m_encode (s : string) : string := if String.eqb s "x" then "meta" else "E" +:+ w_encode s.
Definition m_decode (s : string) : option string :=
  if String.eqb s "meta" then Some "x" else match s with String _ s => w_decode s | "" => None end.

Lemma nats_key_meta_collision_witness : exists s, Encode m_encode "/x" = (s, None) /\ (Decode m_decode s).1 <> "/x".
Proof.
  apply (nats_key_meta_collision m_encode m_decode); [| |discriminate|reflexivity|reflexivity].
  - intros p _. unfold m_encode. destruct (String.eqb_spec p "x") as [->|]; [reflexivity|].
    unfold m_decode. simpl. apply w_decode_encode.
  - intros p. unfold m_encode. destruct (String.eqb p "x"); [reflexivity|]. apply w_encode_no_dot.
Defined.
