(* ===== verification/ExpireHeap.v ===== *)
(** * Expiry of leased keys in the NATS driver (pkg/drivers/nats/expire_watcher.go)

    A binary heap of entries ordered by expiry, with the algorithms of Go's
    [container/heap] it is used through, and the loop that hands the expired
    ones to the delete function.  Times are in nanoseconds.  The channel that
    wakes the loop and its timer are the outcomes of one turn; [ExpireWatch]
    models them. *)
From S2P Require Import Prelude.

Record ExpireEntry := MkExpireEntry { ee_key : string; ee_seq : Z; ee_expires : Z }.

Abbreviation ExpireHeap := (list ExpireEntry).

(** ** The methods [container/heap] calls *)
Definition Len (h : ExpireHeap) : nat := length h.

(** An index out of range would panic; none is ever passed. *)
Definition Less (h : ExpireHeap) (i j : nat) : bool :=
  match h !! i, h !! j with Some a, Some b => ee_expires a <? ee_expires b | _, _ => false end.

Definition Swap (h : ExpireHeap) (i j : nat) : ExpireHeap :=
  match h !! i, h !! j with Some a, Some b => <[j:=a]> (<[i:=b]> h) | _, _ => h end.

Definition Push (h : ExpireHeap) (x : ExpireEntry) : ExpireHeap := h ++ [x].

Definition Pop (h : ExpireHeap) : option ExpireEntry * ExpireHeap := (last h, take (length h - 1) h).

(** ** [container/heap]; the fuel bounds the depth. *)
Fixpoint up (fuel j : nat) (h : ExpireHeap) : ExpireHeap :=
  match fuel with
  | O => h
  | S fuel =>
      let i := ((j - 1) / 2)%nat in
      if (i =? j)%nat || negb (Less h j i) then h else up fuel i (Swap h i j)
  end.

Fixpoint down (fuel i n : nat) (h : ExpireHeap) : ExpireHeap :=
  match fuel with
  | O => h
  | S fuel =>
      let j1 := (2 * i + 1)%nat in
      if (n <=? j1)%nat then h
      else
        let j := if (j1 + 1 <? n)%nat && Less h (j1 + 1) j1 then (j1 + 1)%nat else j1 in
        if negb (Less h j i) then h else down fuel j n (Swap h i j)
  end.

(** [for i := n/2 - 1; i >= 0; i--]: [k] is [i + 1]. *)
Fixpoint Init_loop (k n : nat) (h : ExpireHeap) : ExpireHeap :=
  match k with O => h | S i => Init_loop i n (down n i n h) end.
Definition heap_Init (h : ExpireHeap) : ExpireHeap := Init_loop (Len h / 2) (Len h) h.

Definition heap_Push (h : ExpireHeap) (x : ExpireEntry) : ExpireHeap :=
  let h := Push h x in up (Len h) (Len h - 1) h.

Definition heap_Pop (h : ExpireHeap) : option ExpireEntry * ExpireHeap :=
  let n := (Len h - 1)%nat in Pop (down n 0 n (Swap h 0 n)).

(** ** [ExpireHeap]'s own operations, each under its lock *)
Definition Add (entry : ExpireEntry) (h : ExpireHeap) : ExpireHeap := heap_Push h entry.

Definition Remove (h : ExpireHeap) : option ExpireEntry * ExpireHeap :=
  if (Len h =? 0)%nat then (None, h) else heap_Pop h.

Definition Peek (h : ExpireHeap) : option ExpireEntry := if (Len h =? 0)%nat then None else h !! 0%nat.

Definition Next (expired : Z) (h : ExpireHeap) : option ExpireEntry * ExpireHeap :=
  match h !! 0%nat with
  | None => (None, h)
  | Some next => if ee_expires next >? expired then (None, h) else heap_Pop h
  end.

Definition RemoveByKey (key : string) (h : ExpireHeap) : list ExpireEntry * ExpireHeap :=
  let removed := filter (fun e => ee_key e = key) h in
  let remaining := filter (fun e => ee_key e <> key) h in
  match removed with [] => (removed, h) | _ => (removed, heap_Init remaining) end.

(** ** The watcher *)
(** The entries handed to the delete function, in order. *)
Fixpoint processExpired (fuel : nat) (now : Z) (h : ExpireHeap) : list ExpireEntry * ExpireHeap :=
  match fuel with
  | O => ([], h)
  | S fuel =>
      match Next now h with
      | (None, h) => ([], h)
      | (Some entry, h) =>
          if ee_expires entry >? now then ([], h)
          else let (called, h) := processExpired fuel now h in (entry :: called, h)
      end
  end.

(** One turn of the loop of [Start]: what it does with the head of the heap. *)
Inductive turn : Type := WaitWake | Process | WaitTimer (wait : Z).
Definition watch_turn (now : Z) (h : ExpireHeap) : turn :=
  match Peek h with
  | None => WaitWake
  | Some next => let wait := ee_expires next - now in if wait <=? 0 then Process else WaitTimer wait
  end.

(** ** Heap order *)
Definition ex (h : ExpireHeap) (k : nat) : Z := match h !! k with Some e => ee_expires e | None => 0 end.

Definition ordered_at (h : ExpireHeap) (n p : nat) : Prop :=
  ((2 * p + 1 < n)%nat -> ex h p <= ex h (2 * p + 1)) /\ ((2 * p + 2 < n)%nat -> ex h p <= ex h (2 * p + 2)).
Definition heap_from (lo n : nat) (h : ExpireHeap) : Prop := forall p, (lo <= p)%nat -> ordered_at h n p.
Definition is_heap (h : ExpireHeap) : Prop := heap_from 0 (length h) h.

Lemma length_Swap h i j : length (Swap h i j) = length h.
Proof. unfold Swap. repeat case_match; by rewrite ?length_insert. Qed.

Lemma Swap_perm h i j : Swap h i j ≡ₚ h.
Proof. unfold Swap. repeat case_match; [by apply Permutation_insert_swap|done|done]. Qed.

Lemma Less_ex h i j : (i < length h)%nat -> (j < length h)%nat -> Less h i j = (ex h i <? ex h j).
Proof.
  intros [a Ha]%lookup_lt_is_Some_2 [b Hb]%lookup_lt_is_Some_2. unfold Less, ex. by rewrite Ha, Hb.
Qed.

Lemma ex_Swap h i j k : (i < length h)%nat -> (j < length h)%nat ->
  ex (Swap h i j) k = if decide (k = j) then ex h i else if decide (k = i) then ex h j else ex h k.
Proof.
  intros Hi Hj. destruct (lookup_lt_is_Some_2 _ _ Hi) as [a Ha], (lookup_lt_is_Some_2 _ _ Hj) as [b Hb].
  unfold Swap, ex. rewrite Ha, Hb. destruct (decide (k = j)) as [->|Hkj].
  - rewrite list_lookup_insert_eq by (by rewrite length_insert). done.
  - rewrite list_lookup_insert_ne by done. destruct (decide (k = i)) as [->|Hki].
    + by rewrite list_lookup_insert_eq.
    + by rewrite list_lookup_insert_ne.
Qed.

Lemma Swap_drop h i j n : (i < n)%nat -> (j < n)%nat -> drop n (Swap h i j) = drop n h.
Proof.
  intros Hi Hj. unfold Swap. repeat case_match; [|done|done]. by rewrite !drop_insert_lt by lia.
Qed.

(** Every comparison of heap values after a swap is a case split on indices. *)
Ltac heap_ex := unfold ordered_at in *; intros; rewrite ?ex_Swap in * by lia; repeat case_decide; subst; try lia.

Lemma down_ok lo n fuel i h : (n <= length h)%nat -> (n <= fuel + i)%nat -> (lo <= i)%nat ->
  (forall p, (lo <= p)%nat -> p <> i -> ordered_at h n p) ->
  (forall p, (lo <= p)%nat -> (i = 2 * p + 1 \/ i = 2 * p + 2)%nat ->
     ((2 * i + 1 < n)%nat -> ex h p <= ex h (2 * i + 1)) /\ ((2 * i + 2 < n)%nat -> ex h p <= ex h (2 * i + 2))) ->
  heap_from lo n (down fuel i n h) /\ down fuel i n h ≡ₚ h /\ drop n (down fuel i n h) = drop n h.
Proof.
  revert i h. induction fuel as [|fuel IH]; intros i h Hn Hf Hlo Hord Hgp; cbn [down].
  { split; [|done]. intros p Hp. destruct (decide (p = i)) as [->|]; [|by apply Hord]. split; lia. }
  destruct (Nat.leb_spec n (2 * i + 1)) as [Hle|Hlt].
  { split; [|done]. intros p Hp. destruct (decide (p = i)) as [->|]; [|by apply Hord]. split; lia. }
  set (j := if (2 * i + 1 + 1 <? n)%nat && Less h (2 * i + 1 + 1) (2 * i + 1) then (2 * i + 1 + 1)%nat else (2 * i + 1)%nat).
  assert (Hj : (j = 2 * i + 1 \/ j = 2 * i + 2)%nat /\ (j < n)%nat /\
    ex h j <= ex h (2 * i + 1) /\ ((2 * i + 2 < n)%nat -> ex h j <= ex h (2 * i + 2))).
  { subst j. replace (2 * i + 1 + 1)%nat with (2 * i + 2)%nat by lia. destruct (Nat.ltb_spec (2 * i + 2) n); cbn [andb]; [|lia].
    rewrite Less_ex by lia. destruct (Z.ltb_spec (ex h (2 * i + 2)) (ex h (2 * i + 1))); cbn iota; lia. }
  clearbody j. destruct Hj as (Hj & Hjn & Hj1 & Hj2). rewrite Less_ex by lia.
  destruct (Z.ltb_spec (ex h j) (ex h i)) as [Hless|Hge]; cbn [negb].
  - destruct (IH j (Swap h i j)) as (H1 & H2 & H3); rewrite ?length_Swap; [lia..| | |].
    + intros p Hp Hpj. destruct (decide (p = i)) as [->|Hpi]; [heap_ex|].
      pose proof (Hord p Hp Hpi) as Ho. pose proof (Hgp p Hp) as Hg. destruct Hj as [-> | ->]; heap_ex.
    + intros p Hp Hpj. assert (p = i) as -> by lia. pose proof (Hord j ltac:(lia) ltac:(lia)). heap_ex.
    + split; [done|]. split; [by rewrite H2, Swap_perm|]. by rewrite H3, Swap_drop by lia.
  - split; [|done]. intros p Hp. destruct (decide (p = i)) as [->|]; [|by apply Hord]. split; lia.
Qed.

Lemma parent_spec j : ((j - 1) / 2 = 0 /\ j = 0)%nat \/
  (j = 2 * ((j - 1) / 2) + 1 \/ j = 2 * ((j - 1) / 2) + 2)%nat.
Proof. pose proof (Nat.div_mod_eq (j - 1) 2). pose proof (Nat.mod_upper_bound (j - 1) 2). lia. Qed.

Lemma up_ok fuel j h : (j < length h)%nat -> (j < fuel)%nat ->
  (forall p, ((2 * p + 1 < length h)%nat -> (2 * p + 1)%nat <> j -> ex h p <= ex h (2 * p + 1)) /\
             ((2 * p + 2 < length h)%nat -> (2 * p + 2)%nat <> j -> ex h p <= ex h (2 * p + 2))) ->
  (forall p, (j = 2 * p + 1 \/ j = 2 * p + 2)%nat ->
     ((2 * j + 1 < length h)%nat -> ex h p <= ex h (2 * j + 1)) /\
     ((2 * j + 2 < length h)%nat -> ex h p <= ex h (2 * j + 2))) ->
  is_heap (up fuel j h) /\ up fuel j h ≡ₚ h.
Proof.
  revert j h. induction fuel as [|fuel IH]; intros j h Hj Hf Hord Hgp; [lia|]. cbn [up].
  pose proof (parent_spec j) as Hi. set (i := ((j - 1) / 2)%nat) in *. clearbody i. destruct (Nat.eqb_spec i j) as [->|Hij]; cbn [orb].
  { split; [|done]. intros p _. pose proof (Hord p). split; intros; lia. }
  rewrite Less_ex by lia. destruct (Z.ltb_spec (ex h j) (ex h i)) as [Hless|Hge]; cbn [negb].
  - destruct (IH i (Swap h i j)) as [H1 H2]; rewrite ?length_Swap; [lia..| | |].
    + intros p. pose proof (Hord p) as Ho. pose proof (Hgp i) as Hg. split; intros H1 H2.
      * destruct Hi as [?|[-> | ->]]; heap_ex.
      * destruct Hi as [?|[-> | ->]]; heap_ex.
    + intros p Hp. pose proof (Hord p) as Ho. pose proof (Hord i) as Ho'.
      destruct Hi as [?|[-> | ->]], Hp as [-> | ->]; heap_ex.
    + split; [done|]. by rewrite H2, Swap_perm.
  - split; [|done]. intros p _. pose proof (Hord p) as Ho. split; intros Hp.
    + destruct (decide (2 * p + 1 = j)%nat) as [<-|]; [assert (p = i) as -> by lia; done|by apply Ho].
    + destruct (decide (2 * p + 2 = j)%nat) as [<-|]; [assert (p = i) as -> by lia; done|by apply Ho].
Qed.

Lemma is_heap_head h e : is_heap h -> h !! 0%nat = Some e -> Forall (fun x => ee_expires e <= ee_expires x) h.
Proof.
  intros Hh H0. apply Forall_lookup. intros i x Hx.
  assert (Hle : forall k, (k < length h)%nat -> ex h 0 <= ex h k).
  { intros k. induction k as [k IH] using lt_wf_ind. intros Hk. destruct (decide (k = 0%nat)) as [->|]; [lia|].
    pose proof (parent_spec k) as Hk'. set (i' := ((k - 1) / 2)%nat) in *. clearbody i'.
    pose proof (Hh i' ltac:(lia)) as [Hl Hr]. pose proof (IH i' ltac:(lia) ltac:(lia)).
    destruct Hk' as [?|[-> | ->]]; [lia|specialize (Hl ltac:(lia))|specialize (Hr ltac:(lia))]; lia. }
  specialize (Hle i (lookup_lt_Some _ _ _ Hx)). unfold ex in Hle. by rewrite H0, Hx in Hle.
Qed.

Lemma Init_loop_ok k n h : n = length h -> heap_from k n h -> is_heap (Init_loop k n h) /\ Init_loop k n h ≡ₚ h.
Proof.
  revert h. induction k as [|i IH]; intros h Hn Hh; cbn [Init_loop]; [by subst|].
  destruct (down_ok i n n i h) as (H1 & H2 & _); [lia..| |lia|].
  - intros p Hp Hpi. apply Hh. lia.
  - destruct (IH (down n i n h)) as [H3 H4]; [by rewrite H2|done|]. split; [done|]. by rewrite H4.
Qed.

Lemma heap_Init_ok h : is_heap (heap_Init h) /\ heap_Init h ≡ₚ h.
Proof.
  apply Init_loop_ok; [done|]. unfold Len. pose proof (Nat.div_mod_eq (length h) 2).
  pose proof (Nat.mod_upper_bound (length h) 2). intros p Hp. split; lia.
Qed.

Lemma Add_ok e h : is_heap h -> is_heap (Add e h) /\ Add e h ≡ₚ e :: h.
Proof.
  intros Hh. unfold Add, heap_Push, Push, Len. set (h' := h ++ [e]).
  assert (Hl : length h' = S (length h)) by (subst h'; rewrite length_app; simpl; lia).
  assert (Hex : forall k, (k < length h)%nat -> ex h' k = ex h k) by (intros k Hk; unfold ex, h'; by rewrite lookup_app_l).
  destruct (up_ok (length h') (length h' - 1) h') as [H1 H2]; [lia..| | |].
  - intros p. destruct (Hh p) as [Hp1 Hp2]; [lia|]. split; intros; rewrite !Hex by lia; [apply Hp1|apply Hp2]; lia.
  - intros p Hp. lia.
  - split; [done|]. rewrite H2. unfold h'. by rewrite Permutation_app_comm.
Qed.

Lemma heap_Pop_ok h e : is_heap h -> h !! 0%nat = Some e ->
  exists h', heap_Pop h = (Some e, h') /\ is_heap h' /\ h ≡ₚ e :: h'.
Proof.
  intros Hh H0. unfold heap_Pop, Len. pose proof (lookup_lt_Some _ _ _ H0) as Hlen.
  set (n := (length h - 1)%nat). set (s := Swap h 0 n).
  assert (Hls : length s = length h) by apply length_Swap.
  destruct (down_ok 0 n n 0 s) as (H1 & H2 & H3); [lia..| | |].
  - intros p _ Hp. pose proof (Hh p ltac:(lia)). subst s. heap_ex.
  - lia.
  - set (d := down n 0 n s) in *. pose proof (Permutation_length H2) as Hld.
    assert (Hn : d !! n = Some e).
    { assert (Hs : s !! n = Some e).
      { unfold s, Swap. rewrite H0. destruct (lookup_lt_is_Some_2 h n ltac:(lia)) as [x Hx]. rewrite Hx.
        rewrite list_lookup_insert_eq; [done|]. rewrite length_insert. lia. }
      pose proof (lookup_drop d n 0) as E1. pose proof (lookup_drop s n 0) as E2.
      rewrite Nat.add_0_r in E1, E2. by rewrite <- E1, H3, E2. }
    assert (Hd : d = take n d ++ [e]).
    { rewrite <- (take_drop n d) at 1. f_equal. rewrite (drop_S _ e) by done. by rewrite drop_ge by lia. }
    exists (take n d). unfold Pop. replace (length d - 1)%nat with n by lia. rewrite last_lookup.
    replace (pred (length d)) with n by lia. rewrite Hn. split; [done|]. split.
    + intros p _. destruct (H1 p) as [Hp1 Hp2]; [lia|]. rewrite <- (length_take_le d n) in Hp1, Hp2 by lia.
      unfold ordered_at, ex in *. rewrite length_take_le in * by lia.
      split; intros; rewrite !lookup_take_lt by lia; [apply Hp1|apply Hp2]; lia.
    + rewrite <- (Swap_perm h 0 n). fold s. rewrite <- H2, Hd at 1. by rewrite Permutation_app_comm.
Qed.

Lemma is_heap_nil : is_heap [].
Proof. intros p _. split; simpl; lia. Qed.

Lemma Next_ok now h : is_heap h ->
  match Next now h with
  | (None, h') => h' = h /\ Forall (fun e => now < ee_expires e) h
  | (Some e, h') => is_heap h' /\ h ≡ₚ e :: h' /\ ee_expires e <= now /\
      Forall (fun x => ee_expires e <= ee_expires x) h'
  end.
Proof.
  intros Hh. unfold Next. destruct (h !! 0%nat) as [e|] eqn:H0; [|by destruct h].
  pose proof (is_heap_head _ _ Hh H0) as Hmin. destruct (Z.gtb_spec (ee_expires e) now).
  - split; [done|]. eapply Forall_impl; [exact Hmin|]. simpl; lia.
  - destruct (heap_Pop_ok _ _ Hh H0) as (h' & -> & Hh' & Hp). split; [done|]. split; [done|]. split; [lia|].
    rewrite Hp in Hmin. by inversion Hmin.
Qed.

Lemma processExpired_ok fuel now h : is_heap h -> (length h <= fuel)%nat ->
  let x := processExpired fuel now h in
  is_heap x.2 /\ h ≡ₚ x.1 ++ x.2 /\ StronglySorted (fun a b => ee_expires a <= ee_expires b) x.1 /\
  Forall (fun e => ee_expires e <= now) x.1 /\ Forall (fun e => now < ee_expires e) x.2.
Proof.
  revert h. induction fuel as [|fuel IH]; intros h Hh Hf; cbn [processExpired].
  { destruct h; [|simpl in Hf; lia]. split; [apply is_heap_nil|]. repeat (split; [constructor|]). constructor. }
  pose proof (Next_ok now h Hh) as HN. destruct (Next now h) as [[e|] h1].
  - destruct HN as (Hh1 & Hp & He & Hmin). destruct (Z.gtb_spec (ee_expires e) now); [lia|].
    specialize (IH h1 Hh1). rewrite Hp in Hf. specialize (IH ltac:(simpl in Hf; lia)).
    destruct (processExpired fuel now h1) as [called h2]. simpl in *. destruct IH as (H1 & H2 & H3 & H4 & H5).
    split; [done|]. split; [by rewrite Hp, H2|]. split; [|by split; [constructor|]]. constructor; [done|].
    rewrite H2 in Hmin. by apply Forall_app in Hmin as [Hmin _].
  - destruct HN as [-> HN]. simpl. split; [done|]. split; [done|]. split; [constructor|]. by split; [constructor|].
Qed.

Lemma RemoveByKey_ok key h : is_heap h ->
  is_heap (RemoveByKey key h).2 /\ (RemoveByKey key h).2 ≡ₚ filter (fun e => ee_key e <> key) h /\
  (RemoveByKey key h).1 = filter (fun e => ee_key e = key) h.
Proof.
  intros Hh. unfold RemoveByKey. destruct (filter (fun e => ee_key e = key) h) as [|x l] eqn:E; simpl.
  - split; [done|]. split; [|done]. rewrite filter_all; [done|]. intros e He Hk.
    assert (Hin : e ∈ filter (fun e => ee_key e = key) h) by by apply list_elem_of_filter. rewrite E in Hin. set_solver.
  - destruct (heap_Init_ok (filter (fun e => ee_key e <> key) h)) as [H1 H2]. done.
Qed.

(** ** The heap of a running watcher *)
Inductive hop : Type :=
  | HAdd (e : ExpireEntry) | HRemoveKey (key : string) | HRemove | HProcess (now : Z).

Definition hrun1 (h : ExpireHeap) (o : hop) : list ExpireEntry * ExpireHeap :=
  match o with
  | HAdd e => ([], Add e h)
  | HRemoveKey key => RemoveByKey key h
  | HRemove => let (e, h) := Remove h in (option_list e, h)
  | HProcess now => processExpired (length h) now h
  end.

Definition hrun (l : list hop) (h : ExpireHeap) : ExpireHeap := fold_left (fun h o => (hrun1 h o).2) l h.

Definition added (l : list hop) : list ExpireEntry := omap (fun o => match o with HAdd e => Some e | _ => None end) l.

(** What has been taken out on the way. *)
Fixpoint taken (l : list hop) (h : ExpireHeap) : list ExpireEntry :=
  match l with [] => [] | o :: l => (hrun1 h o).1 ++ taken l (hrun1 h o).2 end.

Lemma hrun1_ok h o : is_heap h -> is_heap (hrun1 h o).2 /\ added [o] ++ h ≡ₚ (hrun1 h o).1 ++ (hrun1 h o).2.
Proof.
  intros Hh. destruct o as [e|key| |now]; simpl.
  - destruct (Add_ok e h Hh) as [H1 H2]. split; [done|]. by rewrite H2.
  - destruct (RemoveByKey_ok key h Hh) as (H1 & H2 & H3). split; [done|]. rewrite H2, H3.
    by rewrite filter_app_complement.
  - unfold Remove, Len. destruct h as [|e h']; [done|]. simpl (_ =? _)%nat. cbn iota.
    destruct (heap_Pop_ok (e :: h') e Hh eq_refl) as (h2 & -> & H1 & H2). by split.
  - destruct (processExpired_ok (length h) now h Hh (le_n _)) as (H1 & H2 & _). by split.
Qed.

(** Whatever is added to and removed from the expiry heap, the entry at
    its top expires first, and nothing is lost or duplicated: what is in it,
    with what was taken out, is what was added. *)
Theorem expire_heap_invariant l :
  let h := hrun l [] in
  (forall e, Peek h = Some e -> Forall (fun x => ee_expires e <= ee_expires x) h) /\ (Peek h = None -> h = []) /\
  taken l [] ++ h ≡ₚ added l.
Proof.
  assert (Hgen : forall h, is_heap h -> is_heap (hrun l h) /\ taken l h ++ hrun l h ≡ₚ added l ++ h).
  { induction l as [|o l IH]; intros h Hh; [done|]. destruct (hrun1_ok h o Hh) as [H1 H2].
    destruct (IH _ H1) as [H3 H4]. split; [done|]. cbn [taken hrun fold_left]. rewrite <- app_assoc.
    change (fold_left _ l (hrun1 h o).2) with (hrun l (hrun1 h o).2). rewrite H4.
    change (added (o :: l)) with (omap (fun o => match o with HAdd e => Some e | _ => None end) ([o] ++ l)).
    rewrite omap_app. fold (added [o]) (added l). rewrite app_assoc, (Permutation_app_comm (hrun1 h o).1), <- app_assoc, <- H2.
    rewrite !app_assoc. by rewrite (Permutation_app_comm (added l)). }
  destruct (Hgen [] is_heap_nil) as [Hh Hp]. rewrite app_nil_r in Hp. split; [|split; [|done]].
  - intros e. unfold Peek, Len. case_match; [done|]. by apply is_heap_head.
  - unfold Peek, Len. destruct (hrun l []); [done|]. simpl. done.
Qed.

(** One pass over the expired entries hands over exactly those whose time
    has come, the earliest first, keeps the others, and ends; after it the
    loop waits for a wake-up only when nothing is left, and else sets its
    timer to the next expiry, so nothing expires unseen. *)
Theorem expire_pass_exact l now :
  let h := hrun l [] in
  let (called, h') := processExpired (length h) now h in
  h ≡ₚ called ++ h' /\ StronglySorted (fun a b => ee_expires a <= ee_expires b) called /\
  Forall (fun e => ee_expires e <= now) called /\ Forall (fun e => now < ee_expires e) h' /\
  match watch_turn now h' with
  | WaitWake => h' = []
  | Process => False
  | WaitTimer wait => 0 < wait /\ Forall (fun e => now + wait <= ee_expires e) h' /\
      Exists (fun e => ee_expires e = now + wait) h'
  end.
Proof.
  assert (Hh : is_heap (hrun l [])).
  { generalize is_heap_nil. generalize (@nil ExpireEntry). induction l as [|o l IH]; intros h Hh; [done|].
    apply IH, hrun1_ok, Hh. }
  cbv zeta. pose proof (processExpired_ok _ now _ Hh (le_n _)) as Hx.
  destruct (processExpired (length (hrun l [])) now (hrun l [])) as [called h']. simpl in Hx.
  destruct Hx as (Hh' & Hp & Hs & Hc & Hl). do 4 (split; [done|]). unfold watch_turn, Peek, Len.
  destruct h' as [|e h'']; [done|]. simpl (_ =? _)%nat. cbn iota. simpl (_ !! _).
  pose proof (is_heap_head _ e Hh' eq_refl) as Hmin. inversion Hl as [|? ? He _]; subst.
  cbv beta iota zeta. destruct (Z.leb_spec (ee_expires e - now) 0); [lia|]. split; [lia|]. split.
  - eapply Forall_impl; [exact Hmin|]. simpl; lia.
  - constructor. lia.
Qed.
