(* ===== verification/ExpireWatch.v ===== *)
(** * The goroutine that deletes expired keys (drivers/nats/expire_watcher.go)

    [ExpireWatcher.Start] as a step relation, with the goroutines that add and
    remove entries and the clock between any two of its steps: the channel
    [wakeCh], of one place, that they signal after they have changed the heap,
    and the timer.  A timer that is stopped or set anew delivers nothing of its
    earlier setting, as in the version of Go the module asks for. *)
From S2P Require Import Prelude ExpireHeap.

(** The program points of the loop; [EProcess] is the loop of [processExpired]
    with its [now], [ECall] holds the entry that is handed to the delete
    function. *)
Inductive ephase : Type :=
  | ETop
  | EPeeked (next : option ExpireEntry)
  | EProcess (now : Z)
  | ECall (now : Z) (entry : ExpireEntry)
  | EWait
  | EDone.

Record estate := MkEState {
  x_heap : ExpireHeap;
  x_now : Z;
  x_wakeCh : bool;
  x_signals : nat;                            (* goroutines that have changed the heap and are about to signal *)
  x_timer : option Z;                         (* when it fires *)
  x_phase : ephase;
  x_called : list ExpireEntry                 (* what the delete function was called with *)
}.

(** ** The goroutine *)
Definition goto (p : ephase) (s : estate) : estate :=
  MkEState (x_heap s) (x_now s) (x_wakeCh s) (x_signals s) (x_timer s) p (x_called s).
Definition set_timer (t : option Z) (s : estate) : estate :=
  MkEState (x_heap s) (x_now s) (x_wakeCh s) (x_signals s) t (x_phase s) (x_called s).

(** What is done with the head of the heap. *)
Definition turn_step (next : option ExpireEntry) (s : estate) : estate :=
  match next with
  | None => goto EWait (set_timer None s)
  | Some next =>
      let wait := ee_expires next - x_now s in
      if wait <=? 0 then goto (EProcess (x_now s)) s else goto EWait (set_timer (Some (x_now s + wait)) s)
  end.

Definition process_step (now : Z) (s : estate) : estate :=
  match Next now (x_heap s) with
  | (None, h) => MkEState h (x_now s) (x_wakeCh s) (x_signals s) (x_timer s) ETop (x_called s)
  | (Some entry, h) =>
      MkEState h (x_now s) (x_wakeCh s) (x_signals s) (x_timer s) (if ee_expires entry >? now then ETop else ECall now entry) (x_called s)
  end.

Definition call_fn (now : Z) (entry : ExpireEntry) (s : estate) : estate :=
  MkEState (x_heap s) (x_now s) (x_wakeCh s) (x_signals s) (x_timer s) (EProcess now) (x_called s ++ [entry]).

Definition take_wake (s : estate) : estate :=
  MkEState (x_heap s) (x_now s) false (x_signals s) (x_timer s) ETop (x_called s).

Inductive gstep (s : estate) : estate -> Prop :=
  | g_peek : x_phase s = ETop -> gstep s (goto (EPeeked (Peek (x_heap s))) s)
  | g_turn next : x_phase s = EPeeked next -> gstep s (turn_step next s)
  | g_next now : x_phase s = EProcess now -> gstep s (process_step now s)
  | g_call now entry : x_phase s = ECall now entry -> gstep s (call_fn now entry s)
  | g_wake : x_phase s = EWait -> x_wakeCh s = true -> gstep s (take_wake s)
  | g_timer t : x_phase s = EWait -> x_timer s = Some t -> t <= x_now s -> gstep s (goto (EProcess (x_now s)) (set_timer None s)).

(** ** Its surroundings *)
Definition set_heap (h : ExpireHeap) (more : nat) (s : estate) : estate :=
  MkEState h (x_now s) (x_wakeCh s) (x_signals s + more) (x_timer s) (x_phase s) (x_called s).

(** [Add] up to its signal, [RemoveKey] up to its signal if there is one, and
    the signal, which does not block. *)
Definition add (e : ExpireEntry) (s : estate) : estate := set_heap (Add e (x_heap s)) 1 s.
Definition remove_key (key : string) (s : estate) : estate :=
  let (removed, h) := RemoveByKey key (x_heap s) in set_heap h (if decide (removed = []) then 0 else 1)%nat s.
Definition signal (s : estate) : estate :=
  MkEState (x_heap s) (x_now s) true (x_signals s - 1) (x_timer s) (x_phase s) (x_called s).
Definition tick (t : Z) (s : estate) : estate :=
  MkEState (x_heap s) t (x_wakeCh s) (x_signals s) (x_timer s) (x_phase s) (x_called s).

(** Every step, with what it adds to the heap and what it takes out of it
    other than for the delete function. *)
Inductive estep (s : estate) : list ExpireEntry -> list ExpireEntry -> estate -> Prop :=
  | e_go s' : gstep s s' -> estep s [] [] s'
  | e_done : x_phase s = EWait -> estep s [] [] (goto EDone (set_timer None s))
  | e_add e : estep s [e] [] (add e s)
  | e_remove key : estep s [] (RemoveByKey key (x_heap s)).1 (remove_key key s)
  | e_signal : (0 < x_signals s)%nat -> estep s [] [] (signal s)
  | e_tick t : x_now s <= t -> estep s [] [] (tick t s).

Inductive esteps (s : estate) : list ExpireEntry -> list ExpireEntry -> estate -> Prop :=
  | es_nil : esteps s [] [] s
  | es_snoc added removed s1 a r s2 : esteps s added removed s1 -> estep s1 a r s2 -> esteps s (added ++ a) (removed ++ r) s2.

Definition e_init (now : Z) : estate := MkEState [] now false 0 None ETop [].

Definition in_hand (p : ephase) : list ExpireEntry := match p with ECall _ e => [e] | _ => [] end.
Definition not_before (t : Z) (h : ExpireHeap) : Prop := Forall (fun e => t <= ee_expires e) h.

(** ** The invariant *)
(** Somebody is about to wake the goroutine, or has. *)
Definition woken (s : estate) : Prop := x_wakeCh s = true \/ (0 < x_signals s)%nat.

Record einv (s : estate) : Prop := {
  ei_heap : is_heap (x_heap s);
  ei_called : Forall (fun e => ee_expires e <= x_now s) (x_called s ++ in_hand (x_phase s));
  ei_phase : match x_phase s with
             | EProcess now | ECall now _ => now <= x_now s
             | EPeeked None => woken s \/ x_heap s = []
             | EPeeked (Some e) => woken s \/ not_before (ee_expires e) (x_heap s)
             | EWait => woken s \/ match x_timer s with Some t => not_before t (x_heap s) | None => x_heap s = [] end
             | ETop | EDone => True
             end
}.

Lemma peek_head (h : ExpireHeap) : is_heap h ->
  match Peek h with Some e => not_before (ee_expires e) h | None => h = [] end.
Proof.
  intros Hh. unfold Peek, Len. destruct h as [|e h]; [done|]. cbn. by apply (is_heap_head (e :: h) e).
Qed.

Lemma einv_step (s : estate) (a r : list ExpireEntry) (s' : estate) : estep s a r s' -> einv s ->
  einv s' /\ a ++ x_heap s ++ in_hand (x_phase s) ++ x_called s ≡ₚ r ++ x_heap s' ++ in_hand (x_phase s') ++ x_called s'.
Proof.
  intros Hst [Hh Hc Hp]. destruct Hst as [s' Hg|Hw|e|key|Hs|t Ht].
  - destruct Hg as [Hp'|next Hp'|now Hp'|now entry Hp'|Hp' Hw|t Hp' Htm Hle]; rewrite Hp' in *; cbn.
    + split; [|done]. constructor; cbn; [done|done|]. pose proof (peek_head _ Hh) as H. destruct (Peek (x_heap s)); auto.
    + unfold turn_step. destruct next as [e|]; [|split; [|done]; constructor; cbn; auto].
      destruct (Z.leb_spec (ee_expires e - x_now s) 0); (split; [|done]); constructor; cbn; auto; [lia|].
      destruct Hp as [Hp|Hp]; [by left|right]. by replace (x_now s + (ee_expires e - x_now s)) with (ee_expires e) by lia.
    + unfold process_step. pose proof (Next_ok now (x_heap s) Hh) as HN. destruct (Next now (x_heap s)) as [[e|] h]; cbn.
      * destruct HN as (Hh'&Hpm&He&_). destruct (Z.gtb_spec (ee_expires e) now); [lia|].
        split; [|rewrite Hpm; solve_Permutation]. cbn in Hc. rewrite app_nil_r in Hc. constructor; cbn; [done| |lia].
        apply Forall_app. split; [done|]. repeat constructor. lia.
      * destruct HN as [-> _]. split; [|done]. by constructor.
    + split; [|solve_Permutation]. constructor; cbn; [done|by rewrite app_nil_r|done].
    + split; [|done]. by constructor.
    + split; [|done]. constructor; cbn; [done|done|lia].
  - rewrite Hw in *. split; [|done]. by constructor.
  - cbn. destruct (Add_ok e _ Hh) as [Hh' Hpm]. split; [|by rewrite Hpm].
    constructor; cbn; [done|done|]. unfold woken in *. cbn. destruct (x_phase s) as [|[]| | | |]; auto; left; right; lia.
  - unfold remove_key. destruct (RemoveByKey_ok key _ Hh) as (Hh'&Hpm&Hr). destruct (RemoveByKey key (x_heap s)) as [removed h]. cbn [fst snd] in *. cbn.
    split.
    + assert (Hsub : forall P, Forall P (x_heap s) -> Forall P h).
      { intros P HP. rewrite Hpm. rewrite Forall_forall in *. intros x [_ Hx]%list_elem_of_filter. auto. }
      constructor; cbn; [done|done|]. unfold woken, not_before in *. cbn. destruct (x_phase s) as [|[]| | | |]; auto.
      * destruct Hp as [[?|?]|?]; [auto|left; right; lia|auto].
      * destruct Hp as [[?|?]|He]; [auto|left; right; lia|]. right. rewrite He in Hpm. cbn in Hpm. by apply Permutation_nil_r in Hpm.
      * destruct Hp as [[?|?]|He]; [auto|left; right; lia|]. right. destruct (x_timer s); [auto|]. rewrite He in Hpm. cbn in Hpm. by apply Permutation_nil_r in Hpm.
    + rewrite Hpm, Hr. rewrite !app_assoc. do 2 f_equiv.
      clear. induction (x_heap s) as [|x l IH]; [done|]. rewrite !filter_cons. destruct (decide (ee_key x = key)).
      * rewrite decide_False by auto. cbn. by constructor.
      * rewrite decide_True by auto. rewrite IH at 1. solve_Permutation.
  - split; [|done]. constructor; cbn; [done|done|]. unfold woken. cbn. destruct (x_phase s) as [|[]| | | |]; auto.
  - split; [|done]. constructor; cbn; [done| |].
    + eapply Forall_impl; [exact Hc|]. cbn. lia.
    + destruct (x_phase s) as [|[]| | | |]; auto; lia.
Qed.

Lemma esteps_inv (now : Z) (added removed : list ExpireEntry) (s : estate) : esteps (e_init now) added removed s ->
  einv s /\ added ≡ₚ removed ++ x_heap s ++ in_hand (x_phase s) ++ x_called s.
Proof.
  induction 1 as [|added removed s1 a r s2 _ [IHi IHp] Hst]; [split; [|done]; constructor; cbn; [apply is_heap_nil|done|done]|].
  destruct (einv_step _ _ _ _ Hst IHi) as [Hi Hp]. split; [done|]. rewrite <- app_assoc, <- Hp, IHp. solve_Permutation.
Qed.

(** ** What the goroutine guarantees *)

(** No expiry is slept through.  However the steps of the goroutine are mixed
    with entries being added and removed, whenever it waits while an entry has
    expired, something wakes it: its channel has been signalled, a goroutine
    that changed the heap is about to signal, or its timer has fired.  And when
    nothing has changed, the timer is set for the entry that expires first. *)
Theorem expire_no_lost_wakeup (now : Z) (added removed : list ExpireEntry) (s : estate) (e : ExpireEntry) :
  esteps (e_init now) added removed s -> x_phase s = EWait -> e ∈ x_heap s ->
  (woken s \/ exists t, x_timer s = Some t /\ t <= ee_expires e) /\
  (ee_expires e <= x_now s -> (exists s', gstep s s') \/ (0 < x_signals s)%nat).
Proof.
  intros Hs Hw He. destruct (esteps_inv _ _ _ _ Hs) as [[_ _ Hp] _]. rewrite Hw in Hp.
  assert (Hwt : woken s \/ exists t, x_timer s = Some t /\ t <= ee_expires e).
  { destruct Hp as [Hp|Hp]; [by left|right]. destruct (x_timer s) as [t|]; [|rewrite Hp in He; by apply elem_of_nil in He].
    exists t. split; [done|]. unfold not_before in Hp. rewrite Forall_forall in Hp. by apply Hp. }
  split; [done|]. intros Hx. destruct Hwt as [[Hk|Hk]|(t&Ht&Hle)]; [|by right|]; left; eexists.
  - by apply g_wake.
  - apply (g_timer s t); [done|done|lia].
Qed.

(** C31. The delete function is called for entries that have expired, and no
    entry is lost or handed to it twice: what was added is what was removed,
    what still waits, what is in hand and what it was called with. *)
Theorem expire_calls_exact (now : Z) (added removed : list ExpireEntry) (s : estate) :
  esteps (e_init now) added removed s ->
  added ≡ₚ removed ++ x_heap s ++ in_hand (x_phase s) ++ x_called s /\ Forall (fun e => ee_expires e <= x_now s) (x_called s).
Proof.
  intros Hs. destruct (esteps_inv _ _ _ _ Hs) as [[_ Hc _] Hp]. split; [done|]. by apply Forall_app in Hc as [? _].
Qed.

(** The steps that are already due: those of the goroutine and the signals. *)
Inductive due (s : estate) : estate -> Prop :=
  | due_go s' : gstep s s' -> due s s'
  | due_signal : (0 < x_signals s)%nat -> due s (signal s).

Lemma due_inv (s s' : estate) : einv s -> rtc due s s' -> einv s' /\ x_now s' = x_now s.
Proof.
  intros Hi Hr. induction Hr as [|s1 s2 s3 H12 _ IH]; [done|].
  assert (He : exists a r, estep s1 a r s2) by (destruct H12; eexists _, _; [by apply e_go|by apply e_signal]). destruct He as (a&r&He).
  destruct (einv_step _ _ _ _ He Hi) as [Hi2 _]. destruct (IH Hi2) as [? ->]. split; [done|].
  destruct H12 as [s' Hg|]; [|done]. destruct Hg; cbn; try done; unfold turn_step, process_step; repeat case_match; done.
Qed.

(** A pass calls the delete function for everything that has expired by its
    [now], and ends. *)
Lemma pass_ends (n : nat) (now : Z) (e : ExpireEntry) : forall s, length (x_heap s) = n -> x_phase s = EProcess now -> einv s ->
  e ∈ x_heap s -> exists s', rtc due s s' /\ (e ∈ x_called s' \/ x_phase s' = ETop /\ e ∈ x_heap s' /\ now < ee_expires e).
Proof.
  induction n as [|n IH]; intros s Hn Hp Hi He; [by apply length_zero_iff_nil in Hn; rewrite Hn in He; apply elem_of_nil in He|].
  pose proof (Next_ok now (x_heap s) (ei_heap s Hi)) as HN.
  assert (Hst : due s (process_step now s)) by (by apply due_go, g_next).
  destruct (Next now (x_heap s)) as [[x|] h] eqn:E.
  - destruct HN as (_&Hpm&Hle&_). set (s1 := process_step now s) in *. set (s2 := call_fn now x s1).
    assert (Hs1 : s1 = MkEState h (x_now s) (x_wakeCh s) (x_signals s) (x_timer s) (ECall now x) (x_called s)).
    { subst s1. unfold process_step. rewrite E. destruct (Z.gtb_spec (ee_expires x) now); [lia|done]. }
    assert (H12 : rtc due s s2). { eapply rtc_l; [exact Hst|]. apply rtc_once, due_go, g_call. by rewrite Hs1. }
    destruct (due_inv _ _ Hi H12) as [Hi2 _]. rewrite Hpm in He. apply elem_of_cons in He as [->|He].
    + exists s2. split; [done|]. left. subst s2. cbn. apply elem_of_app. right. by apply list_elem_of_singleton.
    + destruct (IH s2) as (s3&H23&H3); [|done|done| |].
      * subst s2. rewrite Hs1. cbn. rewrite Hpm in Hn. by injection Hn.
      * subst s2. by rewrite Hs1.
      * exists s3. split; [by trans s2|done].
  - destruct HN as [-> HN]. rewrite Forall_forall in HN. specialize (HN e He). exists (process_step now s).
    split; [by apply rtc_once|]. right. unfold process_step. by rewrite E.
Qed.

(** The goroutine at the top of its loop with an expired entry gets to it. *)
Lemma top_calls (s : estate) (e : ExpireEntry) : x_phase s = ETop -> einv s -> e ∈ x_heap s -> ee_expires e <= x_now s ->
  exists s', rtc due s s' /\ e ∈ x_called s'.
Proof.
  intros Hp Hi He Hx. set (s1 := goto (EPeeked (Peek (x_heap s))) s).
  assert (H01 : rtc due s s1) by (by apply rtc_once, due_go, g_peek).
  pose proof (peek_head _ (ei_heap s Hi)) as Hhd. destruct (Peek (x_heap s)) as [x|] eqn:Epk; [|rewrite Hhd in He; by apply elem_of_nil in He].
  unfold not_before in Hhd. rewrite Forall_forall in Hhd. specialize (Hhd e He). cbn in Hhd.
  set (s2 := turn_step (Some x) s1). assert (Hs2 : s2 = goto (EProcess (x_now s)) s).
  { subst s2 s1. unfold turn_step. cbn. by rewrite (proj2 (Z.leb_le _ _)) by lia. }
  assert (H02 : rtc due s s2) by (eapply rtc_r; [exact H01|]; by apply due_go, g_turn).
  destruct (due_inv _ _ Hi H02) as [Hi2 _].
  destruct (pass_ends (length (x_heap s2)) (x_now s) e s2) as (s3&H23&[H3|(_&_&Hlt)]); [done|by rewrite Hs2|done|by rewrite Hs2| |lia].
  exists s3. split; [by trans s2|done].
Qed.

(** What is due leads from a pass, a call or a wake-up to the top of the loop,
    unless the entry has been handed over on the way. *)
Lemma due_top (s : estate) (e : ExpireEntry) : einv s -> x_phase s <> EDone -> e ∈ x_heap s -> ee_expires e <= x_now s ->
  exists s', rtc due s s' /\ (e ∈ x_called s' \/ x_phase s' = ETop /\ e ∈ x_heap s').
Proof.
  intros Hi Hd He Hx.
  assert (Hpass : forall s1 now, rtc due s s1 -> x_phase s1 = EProcess now -> e ∈ x_heap s1 ->
    exists s', rtc due s s' /\ (e ∈ x_called s' \/ x_phase s' = ETop /\ e ∈ x_heap s')).
  { intros s1 now Hr Hp1 He1. destruct (due_inv _ _ Hi Hr) as [Hi1 _].
    destruct (pass_ends (length (x_heap s1)) now e s1 eq_refl Hp1 Hi1 He1) as (s2&H12&H2). exists s2. split; [by trans s1|naive_solver]. }
  assert (Hwait : forall s1, rtc due s s1 -> x_phase s1 = EWait -> e ∈ x_heap s1 ->
    exists s', rtc due s s' /\ (e ∈ x_called s' \/ x_phase s' = ETop /\ e ∈ x_heap s')).
  { intros s1 Hr Hp1 He1. destruct (due_inv _ _ Hi Hr) as [[_ _ Hw] Hnow]. rewrite Hp1 in Hw. destruct Hw as [[Hk|Hk]|Hk].
    - exists (take_wake s1). split; [|by right]. eapply rtc_r; [exact Hr|]. by apply due_go, g_wake.
    - exists (take_wake (signal s1)). split; [|by right]. eapply rtc_r; [eapply rtc_r; [exact Hr|by apply due_signal]|]. by apply due_go, g_wake.
    - destruct (x_timer s1) as [t|] eqn:Ht; [|rewrite Hk in He1; by apply elem_of_nil in He1].
      unfold not_before in Hk. rewrite Forall_forall in Hk. specialize (Hk e He1). cbn in Hk.
      apply (Hpass (goto (EProcess (x_now s1)) (set_timer None s1)) (x_now s1)); [|done|done].
      eapply rtc_r; [exact Hr|]. apply due_go, (g_timer s1 t); [done|done|lia]. }
  destruct (x_phase s) as [|next|now|now x| |] eqn:Hp; [| | | | |done].
  - exists s. split; [done|by right].
  - assert (Hr : rtc due s (turn_step next s)) by (by apply rtc_once, due_go, g_turn).
    destruct next as [x|]; [|by apply (Hwait _ Hr)]. revert Hr. unfold turn_step. cbv zeta.
    destruct (ee_expires x - x_now s <=? 0); intros Hr; [by apply (Hpass _ (x_now s) Hr)|by apply (Hwait _ Hr)].
  - by apply (Hpass s now).
  - apply (Hpass (call_fn now x s) now); [|done|done]. by apply rtc_once, due_go, g_call.
  - by apply (Hwait s).
Qed.

(** C30. Every entry that has expired is handed to the delete function: from any
    state of a running watcher the steps that are already due get to it, without
    the clock or a later change of the heap having to help. *)
Theorem expire_gets_called (now : Z) (added removed : list ExpireEntry) (s : estate) (e : ExpireEntry) :
  esteps (e_init now) added removed s -> x_phase s <> EDone -> e ∈ x_heap s -> ee_expires e <= x_now s ->
  exists s', rtc due s s' /\ e ∈ x_called s'.
Proof.
  intros Hs Hd He Hx. destruct (esteps_inv _ _ _ _ Hs) as [Hi _].
  destruct (due_top s e Hi Hd He Hx) as (s1&Hr&[Hc|[Ht He1]]); [by exists s1|].
  destruct (due_inv _ _ Hi Hr) as [Hi1 Hn]. destruct (top_calls s1 e Ht Hi1 He1) as (s2&H12&H2); [by rewrite Hn|].
  exists s2. split; [by trans s1|done].
Qed.

(** ** At work: an entry added while the goroutine waits for a later one *)
Definition late : ExpireEntry := MkExpireEntry "/r/b" 2 9.
Definition soon : ExpireEntry := MkExpireEntry "/r/a" 1 4.
Definition s_late : estate := turn_step (Some late) (goto (EPeeked (Some late)) (signal (add late (e_init 0)))).
Definition s_soon : estate := tick 5 (add soon s_late).

Lemma s_soon_reach : esteps (e_init 0) [late; soon] [] s_soon.
Proof.
  unfold s_soon. eapply (es_snoc _ [late; soon] [] _ [] []); [|apply e_tick; by vm_compute].
  eapply (es_snoc _ [late] [] _ [soon] []); [|apply e_add].
  eapply (es_snoc _ [late] [] _ [] []); [|apply e_go, g_turn; by vm_compute].
  eapply (es_snoc _ [late] [] (signal (add late (e_init 0))) [] []).
  - eapply (es_snoc _ [late] [] (add late (e_init 0)) [] []); [|apply e_signal; by vm_compute; lia].
    eapply (es_snoc _ [] [] (e_init 0) [late] []); [apply es_nil|apply e_add].
  - apply e_go. apply (g_peek (signal (add late (e_init 0)))). reflexivity.
Qed.

Lemma expire_no_lost_wakeup_witness : (exists s', gstep s_soon s') \/ (0 < x_signals s_soon)%nat.
Proof.
  destruct (expire_no_lost_wakeup 0 [late; soon] [] s_soon soon s_soon_reach) as [_ H].
  - reflexivity.
  - vm_compute. by left.
  - apply H. by vm_compute.
Defined.

Lemma expire_calls_exact_witness : Forall (fun e => ee_expires e <= 5) (x_called s_soon).
Proof. exact (proj2 (expire_calls_exact 0 [late; soon] [] s_soon s_soon_reach)). Defined.

Lemma expire_gets_called_witness : exists s', rtc due s_soon s' /\ soon ∈ x_called s'.
Proof.
  apply (expire_gets_called 0 [late; soon] [] s_soon soon s_soon_reach).
  - discriminate.
  - vm_compute. by left.
  - by vm_compute.
Defined.
