(* ===== verification/NatsKv.v ===== *)
(** * The key-value store of the NATS driver (pkg/drivers/nats/kv.go)

    The bucket is a stream of messages kept by a JetStream server, which is
    third-party code: its requests are the calls [J...] of [kop], and [JetStream]
    states the documented behaviour the driver relies on.  The buckets the
    driver opens are read directly from any server that holds a replica (new.go),
    so on more than one replica a read may miss the latest messages: what a read
    finds is then some message of the key, and only with one replica
    ([js_replicas], the default) the last one.  The driver keeps an
    index of the operations on every key, filled by one goroutine that reads
    the stream ([btree_event]); reading and waiting on it are the calls [I...].
    JSON, the s2 compression and Base58 are parameters ([NatsEnv]).  Sequence
    numbers stay far below 2^63, so the conversions between [uint64] and
    [int64] are identities; logging and context cancellation are left out. *)
From S2P Require Import Prelude Types GoStrings Prog OrderedMap NatsCodec ExpireHeap.

(** What one message stores (backend.go). *)
Record natsData := MkND {
  ndKV : option KeyValue; ndPrevRevision : Z; ndCreate : bool; ndDelete : bool; ndCreateTime : Z
}.
Definition zeroND : natsData := MkND None 0 false false 0.

Class NatsEnv := {
  encode58 : string -> string;
  decode58 : string -> option string;
  bytes : Type;
  text : Type;
  json_Marshal : natsData -> text + err;
  json_Unmarshal : text -> natsData + err;
  s2_Encode : text -> bytes + err;
  s2_Decode : bytes -> option text
}.

Inductive kvop : Type := KeyValuePut | KeyValueDelete | KeyValuePurge.
#[export] Instance kvop_eq_dec : EqDecision kvop.
Proof. solve_decision. Defined.

Record seqOp := MkSeqOp { so_seq : Z; so_op : kvop; so_ex : Z }.

Definition ErrKeyNotFound : err := ErrOther "nats: key not found".
Definition jsWrongLastSeqErr : err := ErrOther "nats: wrong last sequence".

(** [errors.Is] for an error of the client library. *)
Definition is_nats (e : err) (want : err) : bool :=
  match e, want with ErrOther a, ErrOther b => String.eqb a b | _, _ => false end.

Section kv.
Context `{NatsEnv}.

(** A message of the stream: an entry of the bucket, its key encoded. *)
Record jentry := MkJEntry { je_key : string; je_value : bytes; je_revision : Z; je_created : Z; je_op : kvop }.

Inductive kop : Type -> Type :=
  | JCreate (ek : string) (v : bytes) : kop (Z * gerr)
  | JUpdate (ek : string) (v : bytes) (last : Z) : kop (Z * gerr)
  | JDelete (ek : string) (last : Z) : kop gerr
  | JGet (ek : string) : kop (jentry + err)
  | JGetRevision (ek : string) (revision : Z) : kop (jentry + err)
  | JHistory (ek : string) : kop (list (kvop * Z) * gerr)
  | JBytes : kop (Z * gerr)
  | IGet (key : string) : kop (option (list seqOp))
  | IIter (key : string) : kop (option (list (string * list seqOp)))
  | IRevision : kop Z
  | ICompactRev : kop Z
  | ICompareAndSwap (old new : Z) : kop bool
  | IWait (seq : Z) : kop gerr
  | EAdd (key : string) (seq lease : Z) : kop unit.

Local Abbreviation kprog := (prog kop).

(** ** Entries *)
Definition Key (e : jentry) : string :=
  let (dk, err) := Decode decode58 (je_key e) in if is_err err then "" else dk.

(** [None] when nothing could be decompressed: an empty buffer. *)
Definition Value (e : jentry) : option text := s2_Decode (je_value e).

(** [natsData.Decode]; [None] is the panic on data without a key-value. *)
Definition nd_Decode (e : jentry) : option (natsData + err) :=
  match Value e with
  | None => Some (inl zeroND)
  | Some t =>
      match json_Unmarshal t with
      | inr e => Some (inr e)
      | inl d =>
          match ndKV d with
          | None => None
          | Some kv =>
              let cr := if kvCreateRevision kv =? 0 then je_revision e else kvCreateRevision kv in
              Some (inl (MkND (Some (MkKeyValue (kvKey kv) (kvValue kv) (kvVersion kv) cr (je_revision e) (kvLease kv)))
                           (ndPrevRevision d) (ndCreate d) (ndDelete d) (je_created e)))
          end
      end
  end.

(** ** Operations on the index *)
Fixpoint getSeqOp_loop (val : list seqOp) (revision : Z) (allowDeleted : bool) : option seqOp :=
  match val with
  | [] => None
  | op :: val =>
      if (revision <=? 0) || (so_seq op <=? revision) then
        if bool_decide (so_op op <> KeyValuePut) && negb allowDeleted then None else Some op
      else getSeqOp_loop val revision allowDeleted
  end.

(** From the newest operation back. *)
Definition getSeqOp (val : list seqOp) (revision : Z) (allowDeleted : bool) : option seqOp :=
  getSeqOp_loop (reverse val) revision allowDeleted.

Definition getRevisionOp (key : string) (revision : Z) (allowDeleted : bool) : kprog (seqOp + err) :=
  val <-! call (IGet key);;
  match val with
  | None => Ret (inr ErrKeyNotFound)
  | Some val =>
      match getSeqOp val revision allowDeleted with
      | None => Ret (inr ErrKeyNotFound)
      | Some op => Ret (inl op)
      end
  end.

Definition BucketRevision : kprog Z := call IRevision.

Definition checkRevision (key : string) (revision : Z) : kprog gerr :=
  missing <-! (if String.eqb key "" then Ret false
               else val <-! call (IGet key);; Ret (match val with None => true | Some _ => false end));;
  if missing : bool then Ret (Some ErrKeyNotFound)
  else if revision >? 0 then
    currRev <-! BucketRevision;;
    if revision >? currRev then Ret (Some ErrFutureRev)
    else
      compactRev <-! call ICompactRev;;
      if revision <? compactRev then Ret (Some ErrCompacted) else Ret None
  else Ret None.

(** ** Reads *)
Definition getRevision (key : string) (revision : Z) : kprog (jentry + err) :=
  match Encode encode58 key with
  | (_, Some e) => Ret (inr e)
  | (ek, None) => if revision <=? 0 then call (JGet ek) else call (JGetRevision ek revision)
  end.

Definition GetRevision (key : string) (revision : Z) (check : bool) : kprog (jentry + err) :=
  let revision := if revision <? 0 then 0 else revision in
  err <-! (if check then checkRevision key revision else Ret None);;
  match err with
  | Some e => Ret (inr e)
  | None =>
      op <-! getRevisionOp key revision false;;
      match op with
      | inr e => Ret (inr e)
      | inl op => getRevision key (if revision >? 0 then so_seq op else revision)
      end
  end.

(** The scan of the index: keys and the sequence of their operation. *)
Fixpoint list_loop (key end_ : string) (limit revision : Z) (items : list (string * list seqOp))
  (matches : list (string * Z)) : list (string * Z) :=
  match items with
  | [] => matches
  | (k, v) :: items =>
      if (String.eqb end_ "" && negb (String.eqb k key)) || (negb (String.eqb end_ "") && negb (String.ltb k end_))
      then matches
      else
        let matches := match getSeqOp v revision false with
                       | Some op => matches ++ [(k, so_seq op)]
                       | None => matches
                       end in
        if (limit >? 0) && (Z.of_nat (length matches) >=? limit) then matches
        else list_loop key end_ limit revision items matches
  end.

Fixpoint list_entries (matches : list (string * Z)) : kprog (list jentry * gerr) :=
  match matches with
  | [] => Ret ([], None)
  | (k, seq) :: matches =>
      e <-! getRevision k seq;;
      match e with
      | inr e => if is_nats e ErrKeyNotFound then list_entries matches else Ret ([], Some e)
      | inl entry =>
          '(entries, err) <-! list_entries matches;;
          Ret (if is_err err then ([], err) else (entry :: entries, None))
      end
  end.

Definition List (key end_ : string) (limit revision : Z) : kprog (list jentry * gerr) :=
  err <-! checkRevision "" revision;;
  if is_err err then Ret ([], err)
  else
    it <-! call (IIter key);;
    match it with
    | None => Ret ([], None)
    | Some items => list_entries (list_loop key end_ limit revision items [])
    end.

Definition getListOps (key end_ : string) (revision : Z) : kprog (list (string * Z) * gerr) :=
  err <-! checkRevision "" revision;;
  if is_err err then Ret ([], err)
  else
    it <-! call (IIter key);;
    match it with
    | None => Ret ([], None)
    | Some items => Ret (list_loop key end_ 0 revision items [], None)
    end.

Definition Count (key end_ : string) (revision : Z) : kprog (Z * gerr) :=
  '(matches, err) <-! getListOps key end_ revision;;
  if is_err err then Ret (0, err) else Ret (Z.of_nat (length matches), None).

(** ** Writes: each waits for the index, and goes on when that times out *)
Definition Create (key : string) (value : text) : kprog (Z * gerr) :=
  match Encode encode58 key with
  | (_, Some e) => Ret (0, Some e)
  | (ek, None) =>
      match s2_Encode value with
      | inr e => Ret (0, Some e)
      | inl buf =>
          '(rev, err) <-! call (JCreate ek buf);;
          if is_err err then Ret (rev, err) else _ <-! call (IWait rev);; Ret (rev, None)
      end
  end.

Definition Update (key : string) (value : text) (last : Z) : kprog (Z * gerr) :=
  match Encode encode58 key with
  | (_, Some e) => Ret (0, Some e)
  | (ek, None) =>
      match s2_Encode value with
      | inr e => Ret (0, Some e)
      | inl buf =>
          '(rev, err) <-! call (JUpdate ek buf last);;
          if is_err err then Ret (rev, err) else _ <-! call (IWait rev);; Ret (rev, None)
      end
  end.

Definition Delete (key : string) (lastRevision : Z) : kprog gerr :=
  match Encode encode58 key with
  | (_, Some e) => Ret (Some e)
  | (ek, None) =>
      err <-! call (JDelete ek lastRevision);;
      if is_err err then Ret err
      else
        '(kvs, _) <-! call (JHistory ek);;
        match last kvs with
        | Some (op, rev) =>
            if bool_decide (op = KeyValueDelete) then _ <-! call (IWait rev);; Ret None else Ret None
        | None => Ret None
        end
  end.

Definition BucketSize : kprog (Z * gerr) := call JBytes.

(** ** Watches *)
Fixpoint LastIndexSlash (s : string) : option nat :=
  match s with
  | "" => None
  | String c s =>
      match LastIndexSlash s with
      | Some n => Some (S n)
      | None => if Ascii.eqb c slash then Some O else None
      end
  end.

(** The subjects a watch subscribes to; the bucket's prefix is left out. *)
Definition watch_filter (key : string) : string * gerr :=
  let filter :=
    if negb (String.eqb key "/") && HasSuffix key "/" then TrimSuffix key "/"
    else match LastIndexSlash key with Some idx => take_str (idx + 1) key | None => noRootPrefix end in
  if String.eqb filter "" then ("", None) else EncodeRange encode58 filter.

(** The handler of one delivered message: the update passed on, if any. *)
Definition watch_handler (compactRev : Z) (key end_ : string) (msg : jentry) : option jentry :=
  if je_revision msg <? compactRev then None
  else
    let skey := je_key msg in
    let drop :=
      if String.eqb skey "" then false
      else
        let (dkey, err) := Decode decode58 (TrimPrefix skey ".") in
        is_err err || (String.eqb key "" && String.ltb dkey key) || (negb (String.eqb end_ "") && negb (String.ltb dkey end_)) in
    if drop then None else Some msg.

(** ** The goroutine that fills the index *)
Definition lease_time (lease : Z) : Z := wrap64 (lease * 1000000000).

(** One entry of the index: the operation a message stands for.  [None] is a
    panic, [Some None] a message that is passed over. *)
Definition index_op (x : jentry) : option (option seqOp) :=
  if bool_decide (je_op x = KeyValuePut) then
    match nd_Decode x with
    | None => None
    | Some (inr _) => Some None
    | Some (inl nd) =>
        if ndDelete nd then Some (Some (MkSeqOp (je_revision x) KeyValueDelete 0))
        else
          match ndKV nd with
          | None => None
          | Some kv => Some (Some (MkSeqOp (je_revision x) KeyValuePut
                               (if kvLease kv >? 0 then ndCreateTime nd + lease_time (kvLease kv) else 0)))
          end
    end
  else Some (Some (MkSeqOp (je_revision x) (je_op x) 0)).

Context {M : Type -> Type} `{OrderedMap M}.

(** Appending to a slice made with capacity [hsize]: a full one loses its
    oldest operation first. *)
Definition push_op (hsize : nat) (val : list seqOp) (op : seqOp) : option (list seqOp) :=
  if (length val =? hsize)%nat then match val with [] => None | _ :: val => Some (val ++ [op]) end
  else Some (val ++ [op]).

Record index := MkIndex { bt : M (list seqOp); lastSeq : Z }.

Definition btree_event (hsize : nat) (x : jentry) (st : index) : option index :=
  match index_op x with
  | None => None
  | Some None => Some st
  | Some (Some op) =>
      match push_op hsize (default [] (om_Get (bt st) (Key x))) op with
      | None => None
      | Some val => Some (MkIndex (om_Set (Key x) val (bt st)) (so_seq op))
      end
  end.

(** ** A JetStream bucket, and the state of the driver over it *)
Definition last_of (ek : string) (log : list jentry) : option jentry :=
  last (filter (fun m => je_key m = ek) log).
Definition seq_of (m : option jentry) : Z := default 0 (je_revision <$> m).

Class JetStream (J : Type) := {
  js_replicas : Z;
  js_create : string -> bytes -> J -> (Z * gerr) * J;
  js_update : string -> bytes -> Z -> J -> (Z * gerr) * J;
  js_delete : string -> Z -> J -> gerr * J;
  js_get : string -> J -> jentry + err;
  js_get_revision : string -> Z -> J -> jentry + err;
  js_history : string -> J -> list (kvop * Z) * gerr;
  js_size : J -> Z * gerr;
  js_log : J -> list jentry
}.

(** The message [m] was added to the stream. *)
Definition stored {J} `{JetStream J} (j : J) (m : jentry) (j' : J) : Prop :=
  js_log j' = js_log j ++ [m] /\ Forall (fun x => je_revision x < je_revision m) (js_log j) /\ 0 < je_revision m.

Class JetStreamLaws (J : Type) `{JetStream J} : Prop := {
  js_sorted : forall j, StronglySorted (fun a b => je_revision a < je_revision b) (js_log j);
  js_positive : forall j, Forall (fun m => 0 < je_revision m) (js_log j);
  js_create_law : forall ek v j,
    match js_create ek v j with
    | ((n, None), j') =>
        (forall m, last_of ek (js_log j) = Some m -> je_op m <> KeyValuePut) /\
        exists t, stored j (MkJEntry ek v n t KeyValuePut) j'
    | ((_, Some e), j') =>
        if is_nats e jsWrongLastSeqErr
        then js_log j' = js_log j /\ is_Some (last_of ek (js_log j))
        else (exists msg, e = ErrOther msg) /\
             (js_log j' = js_log j \/
              ((forall m, last_of ek (js_log j) = Some m -> je_op m <> KeyValuePut) /\
               exists n t, stored j (MkJEntry ek v n t KeyValuePut) j'))
    end;
  js_update_law : forall ek v r j,
    match js_update ek v r j with
    | ((n, None), j') => seq_of (last_of ek (js_log j)) = r /\ exists t, stored j (MkJEntry ek v n t KeyValuePut) j'
    | ((_, Some e), j') =>
        if is_nats e jsWrongLastSeqErr then js_log j' = js_log j /\ seq_of (last_of ek (js_log j)) <> r
        else (exists msg, e = ErrOther msg) /\
             (js_log j' = js_log j \/
              (seq_of (last_of ek (js_log j)) = r /\ exists n t, stored j (MkJEntry ek v n t KeyValuePut) j'))
    end;
  js_delete_law : forall ek r j,
    match js_delete ek r j with
    | (None, j') =>
        (r <> 0 -> seq_of (last_of ek (js_log j)) = r) /\ exists v n t, stored j (MkJEntry ek v n t KeyValueDelete) j'
    | (Some e, j') =>
        if is_nats e jsWrongLastSeqErr then js_log j' = js_log j /\ seq_of (last_of ek (js_log j)) <> r
        else js_log j' = js_log j \/
             ((r <> 0 -> seq_of (last_of ek (js_log j)) = r) /\ exists v n t, stored j (MkJEntry ek v n t KeyValueDelete) j')
    end;
  js_get_law : forall ek j,
    match js_get ek j with
    | inl m => m ∈ js_log j /\ je_key m = ek /\ je_op m = KeyValuePut /\
        (js_replicas = 1 -> last_of ek (js_log j) = Some m)
    | inr e => js_replicas = 1 -> is_nats e ErrKeyNotFound = true ->
        forall m, last_of ek (js_log j) = Some m -> je_op m <> KeyValuePut
    end;
  js_get_revision_law : forall ek r j m, js_get_revision ek r j = inl m ->
    m ∈ js_log j /\ je_key m = ek /\ je_revision m = r /\ je_op m = KeyValuePut
}.

(** The bucket keeps the last [hsize] messages of every key; with one replica
    a read finds them. *)
Class JetStreamKeeps (J : Type) `{JetStream J} (hsize : nat) : Prop := {
  js_keeps : js_replicas (J:=J) = 1 -> forall j l1 m l2, js_log j = l1 ++ m :: l2 -> je_op m = KeyValuePut ->
    (length (filter (fun x => je_key x = je_key m) l2) < hsize)%nat ->
    js_get_revision (je_key m) (je_revision m) j = inl m \/
    exists e, js_get_revision (je_key m) (je_revision m) j = inr e /\ is_nats e ErrKeyNotFound = false
}.

Context {J : Type} `{JetStream J}.

Record kstate := MkKState {
  k_js : J; k_index : index; k_compact : Z; k_expire : ExpireHeap; k_now : Z
}.
Definition set_js (j : J) (s : kstate) : kstate :=
  MkKState j (k_index s) (k_compact s) (k_expire s) (k_now s).

(** [Seek] or, for the empty key, an iterator that has not been positioned:
    its key is empty and [Next] moves to the first item. *)
Definition iter_items (st : index) (key : string) : option (list (string * list seqOp)) :=
  if String.eqb key "" then Some (("", []) :: om_Items (bt st))
  else match om_Seek (bt st) key with [] => None | items => Some items end.

Definition kop_do {R} (o : kop R) : ST kstate R :=
  match o with
  | JCreate ek v => fun s => let (r, j) := js_create ek v (k_js s) in (r, set_js j s)
  | JUpdate ek v r => fun s => let (r, j) := js_update ek v r (k_js s) in (r, set_js j s)
  | JDelete ek r => fun s => let (r, j) := js_delete ek r (k_js s) in (r, set_js j s)
  | JGet ek => fun s => (js_get ek (k_js s), s)
  | JGetRevision ek r => fun s => (js_get_revision ek r (k_js s), s)
  | JHistory ek => fun s => (js_history ek (k_js s), s)
  | JBytes => fun s => (js_size (k_js s), s)
  | IGet key => fun s => (om_Get (bt (k_index s)) key, s)
  | IIter key => fun s => (iter_items (k_index s) key, s)
  | IRevision => fun s => (lastSeq (k_index s), s)
  | ICompactRev => fun s => (k_compact s, s)
  | ICompareAndSwap old new => fun s =>
      if k_compact s =? old then (true, MkKState (k_js s) (k_index s) new (k_expire s) (k_now s)) else (false, s)
  | IWait seq => fun s =>
      (if lastSeq (k_index s) >=? seq then None else Some (ErrOther "timeout waiting for sequence"), s)
  | EAdd key seq lease => fun s =>
      (tt, MkKState (k_js s) (k_index s) (k_compact s)
             (Add (MkExpireEntry key seq (k_now s + lease_time lease)) (k_expire s)) (k_now s))
  end.

#[export] Instance kop_handler : Handler kop kstate := { h_do R o := kop_do o; h_room s := True }.
End kv.

Abbreviation kprog := (prog kop).
