(* ===== verification/NatsBackend.v ===== *)
(** * The NATS backend (pkg/drivers/nats/backend.go)

    The methods of [server.Backend] over the key-value store of [NatsKv], each
    a tree of its calls.  A nil pointer that is dereferenced is a panic.  The
    tickers, the retries of a failed subscription and logging are left out. *)
From S2P Require Import Prelude Types GoStrings Prog NatsKv Server.

Definition compactRevAPI : string := "compact_rev_key_apiserver".

Section backend.
Context `{NatsEnv}.

(** A pointer that is dereferenced. *)
Definition deref {A B} (p : option A) (k : A -> kprog B) : kprog B :=
  match p with Some a => k a | None => Panic end.

Definition set_revs (rev : Z) (kv : KeyValue) : KeyValue :=
  MkKeyValue (kvKey kv) (kvValue kv) (kvVersion kv) rev rev (kvLease kv).

(** What [get] makes of a created entry. *)
Definition own_revs (rev : Z) (nd : natsData) : natsData :=
  if ndCreate nd
  then MkND (set_revs rev <$> ndKV nd) (ndPrevRevision nd) (ndCreate nd) (ndDelete nd) (ndCreateTime nd)
  else nd.

Definition get (key : string) (revision : Z) (allowDeletes check : bool) : kprog (Z * option natsData * gerr) :=
  entry <-! GetRevision key revision check;;
  match entry with
  | inr err => r <-! BucketRevision;; Ret (r, None, Some err)
  | inl entry =>
      let rev := je_revision entry in
      deref (nd_Decode entry) (fun nd =>
        match nd with
        | inr err => r <-! BucketRevision;; Ret (r, None, Some err)
        | inl nd =>
            let nd := own_revs rev nd in
            if ndDelete nd && negb allowDeletes then r <-! BucketRevision;; Ret (r, None, None)
            else Ret (rev, Some nd, None)
        end)
  end.

Definition DbSize : kprog (Z * gerr) := BucketSize.
Definition CurrentRevision : kprog (Z * gerr) := r <-! BucketRevision;; Ret (r, None).

Definition Count (key end_ : string) (revision : Z) : kprog (Z * Z * gerr) :=
  '(count, err) <-! NatsKv.Count key end_ revision;;
  if is_err err then r <-! BucketRevision;; Ret (r, 0, err)
  else if revision >? 0 then Ret (revision, count, None)
  else r <-! BucketRevision;; Ret (r, count, None).

Fixpoint decode_all (matches : list jentry) : kprog (list (option KeyValue) * gerr) :=
  match matches with
  | [] => Ret ([], None)
  | e :: matches =>
      deref (nd_Decode e) (fun nd =>
        match nd with
        | inr err => Ret ([], Some err)
        | inl nd =>
            '(kvs, err) <-! decode_all matches;;
            Ret (if is_err err then ([], err) else (ndKV nd :: kvs, None))
        end)
  end.

Definition List (key end_ : string) (limit maxRevision : Z) (keysOnly : bool)
  : kprog (Z * list (option KeyValue) * gerr) :=
  '(matches, err) <-! NatsKv.List key end_ limit maxRevision;;
  if is_err err then r <-! BucketRevision;; Ret (r, [], err)
  else
    '(kvs, err) <-! decode_all matches;;
    if is_err err then r <-! BucketRevision;; Ret (r, [], err)
    else if maxRevision >? 0 then Ret (maxRevision, kvs, None)
    else r <-! BucketRevision;; Ret (r, kvs, None).

Definition Get (key : string) (revision : Z) (keysOnly : bool) : kprog (Z * option KeyValue * gerr) :=
  '(rev, kvs, err) <-! List key "" 1 revision keysOnly;;
  Ret (if is_err err then (rev, None, err)
       else match kvs with [] => (rev, None, None) | kv :: _ => (rev, kv, None) end).

Definition add_expiry (key : string) (seq lease : Z) : kprog unit :=
  if lease >? 0 then call (EAdd key seq lease) else Ret tt.

Definition Create (key value : string) (lease : Z) : kprog (Z * gerr) :=
  '(rev, pnd, err) <-! get key 0 true true;;
  if is_err err && negb (match err with Some e => is_nats e ErrKeyNotFound | None => false end)
  then r <-! BucketRevision;; Ret (r, err)
  else
    let nd prev := MkND (Some (MkKeyValue key value 0 0 0 lease)) prev true false 0 in
    let store nd seq :=
      match json_Marshal nd with
      | inr e => r <-! BucketRevision;; Ret (r, Some e)
      | inl data =>
          '(seq, err) <-! (match seq with Some rev => NatsKv.Update key data rev | None => NatsKv.Create key data end);;
          match err with
          | Some e => r <-! BucketRevision;; Ret (r, Some (if is_nats e jsWrongLastSeqErr then ErrKeyExists else e))
          | None => _ <-! add_expiry key seq lease;; Ret (seq, None)
          end
      end in
    match pnd with
    | None => store (nd 0) None
    | Some pnd =>
        if negb (ndDelete pnd) then Ret (rev, Some ErrKeyExists)
        else deref (ndKV pnd) (fun kv => store (nd (kvModRevision kv)) (Some rev))
    end.

(** What [Delete] and [Update] answer after losing a race. *)
Definition conflict (key : string) (gone : Z -> kprog Z) : kprog (Z * option KeyValue * bool * gerr) :=
  '(rev, pnd, err) <-! get key 0 false true;;
  if match err with Some e => is_nats e ErrKeyNotFound | None => false end
  then r <-! gone rev;; Ret (r, None, false, None)
  else Ret (rev, match pnd with Some pnd => ndKV pnd | None => None end, false, err).

Definition Delete (key : string) (revision : Z) : kprog (Z * option KeyValue * bool * gerr) :=
  '(rev, pnd, err) <-! get key 0 false true;;
  match err with
  | Some e => Ret (rev, None, false, if is_nats e ErrKeyNotFound then None else err)
  | None =>
      match pnd with
      | None => Ret (rev, None, true, None)
      | Some pnd =>
          if ndDelete pnd then Ret (rev, None, false, None)
          else
            let refused := negb (revision =? 0) in
            stale <-! (if refused then deref (ndKV pnd) (fun kv => Ret (negb (kvModRevision kv =? revision))) else Ret false);;
            if stale : bool then Ret (rev, ndKV pnd, false, None)
            else
              match json_Marshal (MkND (ndKV pnd) rev false true 0) with
              | inr e => Ret (rev, None, false, Some e)
              | inl data =>
                  '(drev, err) <-! NatsKv.Update key data rev;;
                  match err with
                  | Some e =>
                      if is_nats e jsWrongLastSeqErr then conflict key Ret else Ret (rev, ndKV pnd, false, None)
                  | None =>
                      err <-! NatsKv.Delete key drev;;
                      match err with
                      | Some e =>
                          if is_nats e jsWrongLastSeqErr then r <-! BucketRevision;; Ret (r, None, false, None)
                          else Ret (rev, ndKV pnd, false, None)
                      | None => Ret (drev, ndKV pnd, true, None)
                      end
                  end
              end
      end
  end.

Definition Update (key value : string) (revision lease : Z) : kprog (Z * option KeyValue * bool * gerr) :=
  '(rev, pnd, err) <-! get key 0 false true;;
  match err with
  | Some e => r <-! BucketRevision;; Ret (r, None, false, if is_nats e ErrKeyNotFound then None else err)
  | None =>
      match pnd with
      | None => r <-! BucketRevision;; Ret (r, None, false, None)
      | Some pnd =>
          deref (ndKV pnd) (fun kv =>
            if negb (kvModRevision kv =? revision) then Ret (rev, Some kv, false, None)
            else
              let cr := if kvCreateRevision kv =? 0 then rev else kvCreateRevision kv in
              match json_Marshal (MkND (Some (MkKeyValue key value 0 cr 0 lease)) (kvModRevision kv) false false 0) with
              | inr e => r <-! BucketRevision;; Ret (r, None, false, Some e)
              | inl data =>
                  '(seq, err) <-! NatsKv.Update key data revision;;
                  match err with
                  | Some e =>
                      if is_nats e jsWrongLastSeqErr then conflict key (fun _ => BucketRevision)
                      else r <-! BucketRevision;; Ret (r, None, false, Some e)
                  | None =>
                      _ <-! add_expiry key seq lease;; Ret (seq, Some (MkKeyValue key value 0 cr seq lease), true, None)
                  end
              end)
      end
  end.

(** ** Watch *)
(** The answer at once: the current and the compact revision; [true] when the
    watch is not started because its start is compacted. *)
Definition watch_open (startRevision : Z) : kprog (Z * Z * bool) :=
  compacted <-! (if startRevision >? 0 then c <-! call ICompactRev;; Ret (startRevision <=? c) else Ret false);;
  if compacted : bool then
    rev <-! BucketRevision;;
    compact <-! call ICompactRev;;
    Ret (rev, compact, true)
  else if startRevision =? 0 then rev <-! BucketRevision;; Ret (rev, 0, false)
  else Ret (startRevision, 0, false).

(** One update: the event sent, if any. *)
Definition watch_event (e : jentry) : kprog (option Event) :=
  if bool_decide (je_op e <> KeyValuePut) then Ret None
  else
    deref (nd_Decode e) (fun nd =>
      match nd with
      | inr _ => Ret None
      | inl nd =>
          let prev0 := MkKeyValue "" "" 0 0 (ndPrevRevision nd) 0 in
          prev <-! (if ndPrevRevision nd >? 0 then
                      '(_, pnd, err) <-! get (Key e) (ndPrevRevision nd) false false;;
                      Ret (match err, pnd with None, Some pnd => ndKV pnd | _, _ => Some prev0 end)
                    else Ret (Some prev0));;
          Ret (Some (MkEvent (ndDelete nd) (ndCreate nd) (ndKV nd) prev))
      end).

Fixpoint watch_events (updates : list jentry) : kprog (list Event) :=
  match updates with
  | [] => Ret []
  | e :: updates =>
      ev <-! watch_event e;;
      evs <-! watch_events updates;;
      Ret (option_list ev ++ evs)
  end.

(** The loop [outer]: every time the subscription fails a new one is opened
    with the arguments of the first. *)
Fixpoint watch_loop (sessions : list (list jentry)) : kprog (list Event) :=
  match sessions with
  | [] => Ret []
  | updates :: sessions =>
      evs <-! watch_events updates;;
      evs' <-! watch_loop sessions;;
      Ret (evs ++ evs')
  end.

(** What a subscription opened by [KeyValue.Watch] delivers of a stream. *)
Definition subject_match (filter subject : string) : bool :=
  HasSuffix filter ">" && HasPrefix subject (TrimSuffix filter ">").

Definition subscription (log : list jentry) (compactRev : Z) (key end_ : string) (startRev : Z) : list jentry :=
  let (f, _) := watch_filter key in
  omap (watch_handler compactRev key end_)
    (filter (fun m => subject_match f (je_key m) = true /\ (startRev <= 0 \/ startRev <= je_revision m)) log).

(** ** Compaction *)
Definition decodeCompactValue (value : string) : Z * Z :=
  let (vers, revB) := DecodeVersion value in (vers, (ParseInt revB).1).

Definition Compact (revision compactMinRetain : Z) : kprog (Z * gerr) :=
  currRev <-! BucketRevision;;
  k <-! getRevision compactRevAPI 0;;
  k <-! (match k with
         | inl k => Ret (inl k)
         | inr e =>
             if is_nats e ErrKeyNotFound then
               '(_, err) <-! Create compactRevAPI (EncodeVersion 1 (FormatInt 0)) 0;;
               match err with Some e => Ret (inr e) | None => getRevision compactRevAPI 0 end
             else Ret (inr e)
         end);;
  match k with
  | inr e => r <-! BucketRevision;; Ret (r, Some e)
  | inl k =>
      '(_, nd, err) <-! get compactRevAPI (je_revision k) false true;;
      if is_err err then r <-! BucketRevision;; Ret (r, err)
      else
        deref nd (fun nd => deref (ndKV nd) (fun kv =>
          let (compactVers, compactRev) := decodeCompactValue (kvValue kv) in
          let targetCompactRev := wrap64 (currRev - compactMinRetain) in
          let targetCompactRev := if revision >? 1 then revision else targetCompactRev in
          let targetCompactRev := if targetCompactRev <? 0 then 0 else targetCompactRev in
          if targetCompactRev >? wrap64 (compactRev + 1) then
            let compactValue := EncodeVersion (wrap64 (compactVers + 1)) (FormatInt targetCompactRev) in
            '(_, _, _, err) <-! Update compactRevAPI compactValue (kvModRevision kv) 0;;
            Ret (currRev, err)
          else Ret (currRev, None)))
  end.

(** One tick of the compactor. *)
Definition compactor_tick (compactMinRetain : Z) : kprog (Z * gerr) :=
  r <-! BucketRevision;; Compact r compactMinRetain.

(** One update seen by the compaction watcher. *)
Definition compactWatcher_event (e : jentry) : kprog unit :=
  if bool_decide (je_op e <> KeyValuePut) then Ret tt
  else
    deref (nd_Decode e) (fun nd =>
      match nd with
      | inr _ => Ret tt
      | inl nd =>
          match ndKV nd with
          | None => Ret tt
          | Some kv =>
              let (_, rev) := decodeCompactValue (kvValue kv) in
              old <-! call ICompactRev;;
              if rev >? 0 then _ <-! call (ICompareAndSwap old rev);; Ret tt else Ret tt
          end
      end).

(** [Start] after the index is ready, up to the goroutines it starts. *)
Definition Start : kprog gerr :=
  '(rev, err) <-! Create HealthKey HealthVal 0;;
  if is_err err && negb (err_eq err ErrKeyExists) then Ret err
  else '(_, _, _, err) <-! Update HealthKey HealthVal rev 0;; Ret err.
End backend.
