(* ===== verification/NatsIndex.v ===== *)
(** * The index of the NATS driver: what it remembers

    The index keeps the last [hsize] operations of every key.  A lookup in it
    is compared with the lookup in all the messages of the stream. *)
From S2P Require Import Prelude Types OrderedMap ExpireHeap NatsKv.

(** The last [n] elements. *)
Definition recent {A} (n : nat) (l : list A) : list A := drop (length l - n) l.

Lemma recent_short {A} n (l : list A) : (length l <= n)%nat -> recent n l = l.
Proof. intros Hn. unfold recent. by replace (length l - n)%nat with 0%nat by lia. Qed.

Lemma length_recent {A} n (l : list A) : length (recent n l) = Nat.min n (length l).
Proof. unfold recent. rewrite length_drop. lia. Qed.

Lemma recent_snoc {A} n (l : list A) x : (0 < n)%nat ->
  recent n (l ++ [x]) = (if decide (length l < n)%nat then l else drop 1 (recent n l)) ++ [x].
Proof.
  intros Hn. unfold recent. rewrite length_app. simpl. case_decide.
  - by replace (length l + 1 - n)%nat with 0%nat by lia.
  - rewrite drop_drop, drop_app_le by lia. do 2 f_equal. lia.
Qed.

Lemma recent_app {A} n (l1 l2 : list A) : (length l2 <= n)%nat -> recent n (l1 ++ l2) = recent (n - length l2) l1 ++ l2.
Proof.
  intros Hn. unfold recent. rewrite length_app, drop_app_le by lia. do 2 f_equal. lia.
Qed.

(** What the index holds for a key with the operations [ops]. *)
Definition window {A} (n : nat) (ops : list A) : option (list A) :=
  match ops with [] => None | _ => Some (recent n ops) end.

Lemma default_window {A} n (ops : list A) : default [] (window n ops) = recent n ops.
Proof. by destruct ops. Qed.

Section index.
Context `{NatsEnv} {M : Type -> Type} `{OrderedMapLaws M}.

Definition op_of (key : string) (x : jentry) : option seqOp :=
  if String.eqb (Key x) key then match index_op x with Some o => o | None => None end else None.

(** Every operation of a key, and the last one up to a revision ([<= 0]: of all). *)
Definition ops_of (key : string) (L : list jentry) : list seqOp := omap (op_of key) L.

Definition up_to (r : Z) (ops : list seqOp) : list seqOp := filter (fun o => r <= 0 \/ so_seq o <= r) ops.
Definition newer (r : Z) (ops : list seqOp) : list seqOp := filter (fun o => 0 < r < so_seq o) ops.

Definition lookup_op (r : Z) (ops : list seqOp) : option seqOp :=
  match last (up_to r ops) with
  | Some o => if bool_decide (so_op o = KeyValuePut) then Some o else None
  | None => None
  end.

Fixpoint replay (hsize : nat) (L : list jentry) (st : index) : option index :=
  match L with
  | [] => Some st
  | x :: L => match btree_event (M:=M) hsize x st with Some st => replay hsize L st | None => None end
  end.

Definition empty_index : index := MkIndex om_empty 0.

(** The index stands for the messages [L]. *)
Definition indexes (hsize : nat) (st : index (M:=M)) (L : list jentry) : Prop :=
  (forall key, om_Get (bt st) key = window hsize (ops_of key L)) /\
  lastSeq st = default 0 (so_seq <$> last (omap (fun x => op_of (Key x) x) L)).

Lemma index_op_seq x o : index_op x = Some (Some o) -> so_seq o = je_revision x.
Proof. unfold index_op. intros Hx. repeat case_match; simplify_eq; done. Qed.

Lemma push_op_recent hsize ops op : (0 < hsize)%nat ->
  push_op hsize (recent hsize ops) op = Some (recent hsize (ops ++ [op])).
Proof.
  intros Hh. unfold push_op. rewrite length_recent, recent_snoc by done.
  destruct (Nat.eqb_spec (Nat.min hsize (length ops)) hsize) as [He|Hn].
  - rewrite decide_False by lia. pose proof (length_recent hsize ops) as Hl.
    destruct (recent hsize ops) as [|o l]; [simpl in Hl; lia|]. by rewrite skipn_cons, drop_0.
  - rewrite decide_True by lia. by rewrite recent_short by lia.
Qed.

Lemma ops_of_snoc key L x : ops_of key (L ++ [x]) = ops_of key L ++ option_list (op_of key x).
Proof. unfold ops_of. rewrite omap_app. simpl. by destruct (op_of key x). Qed.

Lemma btree_event_indexes hsize x st st' L : (0 < hsize)%nat -> indexes hsize st L ->
  btree_event hsize x st = Some st' -> indexes hsize st' (L ++ [x]).
Proof.
  intros Hh [Hb Hl]. unfold btree_event. destruct (index_op x) as [[op|]|] eqn:Eop; [| |done].
  - rewrite Hb. rewrite default_window, push_op_recent by done. intros [= <-]. split; simpl.
    + intros key. rewrite om_Get_Set, ops_of_snoc. unfold op_of. rewrite Eop. case_decide as Hk.
      * subst key. rewrite String.eqb_refl. simpl. by destruct (ops_of (Key x) L).
      * assert (String.eqb (Key x) key = false) as -> by by apply String.eqb_neq. simpl. by rewrite app_nil_r.
    + rewrite omap_app. simpl. unfold op_of at 2. rewrite String.eqb_refl, Eop. by rewrite last_snoc.
  - intros [= <-]. split.
    + intros key. rewrite ops_of_snoc. unfold op_of. rewrite Eop. rewrite Hb. case_match; simpl; by rewrite app_nil_r.
    + rewrite omap_app. simpl. unfold op_of at 2. rewrite Eop, String.eqb_refl. simpl. by rewrite app_nil_r.
Qed.

Lemma replay_indexes hsize L0 L st st' : (0 < hsize)%nat -> indexes hsize st L0 ->
  replay hsize L st = Some st' -> indexes hsize st' (L0 ++ L).
Proof.
  intros Hh. revert L0 st. induction L as [|x L IH]; intros L0 st Hi; simpl.
  - intros [= <-]. by rewrite app_nil_r.
  - destruct (btree_event hsize x st) as [st1|] eqn:E; [|done]. intros Hr.
    rewrite cons_middle, app_assoc. eapply IH; [|done]. by eapply btree_event_indexes.
Qed.

Lemma empty_indexes hsize : indexes hsize empty_index [].
Proof. split; [|done]. intros key. simpl. by rewrite om_Get_empty. Qed.

Lemma ops_sorted key L : StronglySorted (fun a b => je_revision a < je_revision b) L ->
  StronglySorted (fun a b => so_seq a < so_seq b) (ops_of key L) /\
  Forall (fun o => exists x, x ∈ L /\ op_of key x = Some o /\ so_seq o = je_revision x) (ops_of key L).
Proof.
  assert (Hop : forall x o, op_of key x = Some o -> so_seq o = je_revision x).
  { intros x o. unfold op_of. case_match; [|done]. destruct (index_op x) as [[?|]|] eqn:E; intros; simplify_eq.
    by apply index_op_seq. }
  assert (Hall : forall L, Forall (fun o => exists x, x ∈ L /\ op_of key x = Some o /\ so_seq o = je_revision x) (ops_of key L)).
  { intros L'. apply Forall_forall. intros o (x & Hx & Ho)%list_elem_of_omap. eauto. }
  intros Hs. split; [|apply Hall]. induction Hs as [|x L Hs IH Hx]; [constructor|].
  unfold ops_of in *. simpl. destruct (op_of key x) as [o|] eqn:E; [|done]. constructor; [done|].
  eapply Forall_impl; [apply Hall|]. intros o' (x' & Hin & _ & ->). rewrite (Hop _ _ E).
  rewrite Forall_forall in Hx. by apply Hx.
Qed.

Lemma ops_split r ops : StronglySorted (fun a b => so_seq a < so_seq b) ops -> ops = up_to r ops ++ newer r ops.
Proof.
  unfold up_to, newer. induction 1 as [|o ops Hs IH Ho]; [done|]. rewrite !filter_cons.
  destruct (decide (r <= 0 \/ so_seq o <= r)) as [Hr|Hr].
  - rewrite (decide_False (P:=0 < r < so_seq o)) by lia. simpl. by f_equal.
  - rewrite decide_True by lia. rewrite (filter_none _ ops); simpl.
    + f_equal. rewrite filter_all; [done|]. intros o' Ho'. rewrite Forall_forall in Ho. specialize (Ho o' Ho'). lia.
    + intros o' Ho'. rewrite Forall_forall in Ho. specialize (Ho o' Ho'). lia.
Qed.

Lemma getSeqOp_snoc l o r : getSeqOp (l ++ [o]) r false =
  if decide (r <= 0 \/ so_seq o <= r) then if bool_decide (so_op o = KeyValuePut) then Some o else None
  else getSeqOp l r false.
Proof.
  unfold getSeqOp. rewrite reverse_snoc. cbn [getSeqOp_loop]. case_decide as Hd.
  - assert ((r <=? 0) || (so_seq o <=? r) = true) as -> by (apply orb_true_iff; rewrite !Z.leb_le; lia).
    rewrite andb_true_r, bool_decide_not. by destruct (bool_decide _).
  - assert ((r <=? 0) || (so_seq o <=? r) = false) as -> by (apply orb_false_iff; rewrite !Z.leb_gt; lia). done.
Qed.

Lemma getSeqOp_split r l1 l2 : Forall (fun o => r <= 0 \/ so_seq o <= r) l1 -> Forall (fun o => 0 < r < so_seq o) l2 ->
  getSeqOp (l1 ++ l2) r false =
  match last l1 with Some o => if bool_decide (so_op o = KeyValuePut) then Some o else None | None => None end.
Proof.
  intros Hold. induction l2 as [|o l2 IH] using rev_ind; intros Hnew.
  - rewrite app_nil_r. destruct l1 as [|o l1 _] using rev_ind; [done|]. rewrite getSeqOp_snoc, last_snoc.
    apply Forall_app in Hold as [_ Hold]. inversion Hold; subst. by rewrite decide_True.
  - apply Forall_app in Hnew as [Hnew Ho]. inversion Ho; subst. rewrite app_assoc, getSeqOp_snoc, decide_False by lia. by apply IH.
Qed.

Lemma window_lookup hsize r ops : (0 < hsize)%nat -> StronglySorted (fun a b => so_seq a < so_seq b) ops ->
  getSeqOp (recent hsize ops) r false = if decide (length (newer r ops) < hsize)%nat then lookup_op r ops else None.
Proof.
  intros Hh Hs. pose proof (ops_split r ops Hs) as Hsp. unfold lookup_op.
  assert (Hold : Forall (fun o => r <= 0 \/ so_seq o <= r) (up_to r ops)) by (apply Forall_forall; intros o [Ho _]%list_elem_of_filter; exact Ho).
  assert (Hnew : Forall (fun o => 0 < r < so_seq o) (newer r ops)) by (apply Forall_forall; intros o [Ho _]%list_elem_of_filter; exact Ho).
  rewrite Hsp at 1. case_decide as Hd.
  - rewrite recent_app by lia. rewrite getSeqOp_split; [|by apply Forall_drop|done].
    destruct (up_to r ops) as [|o l _] using rev_ind; [done|].
    rewrite recent_snoc by lia. by rewrite !last_snoc.
  - unfold recent. rewrite length_app. rewrite drop_app_ge by lia.
    rewrite <- (app_nil_l (drop _ _)), getSeqOp_split; [done|constructor|]. by apply Forall_drop.
Qed.

(** A lookup in the index, which keeps the last [hsize] operations of a
    key, gives what the whole stream read so far gives: the last operation of
    the key up to the revision when it is a put, as long as the key has fewer
    than [hsize] newer operations; after that the key is not found at that
    revision, although it may have had a value. *)
Theorem nats_index_lookup hsize L st key r :
  (0 < hsize)%nat -> StronglySorted (fun a b => je_revision a < je_revision b) L ->
  replay hsize L empty_index = Some st ->
  (length (default [] (om_Get (bt st) key)) <= hsize)%nat /\
  getSeqOp (default [] (om_Get (bt st) key)) r false =
  if decide (length (newer r (ops_of key L)) < hsize)%nat then lookup_op r (ops_of key L) else None.
Proof.
  intros Hh Hs Hr. destruct (replay_indexes hsize [] L _ _ Hh (empty_indexes hsize) Hr) as [Hb _].
  simpl in Hb. rewrite Hb, default_window. split; [rewrite length_recent; lia|]. apply window_lookup; [done|]. by apply ops_sorted.
Qed.
End index.
