(* ===== verification/NatsProofs.v ===== *)
(** * The NATS backend under concurrent writers (proofs)

    The other clients, and the goroutine that fills the index, are any steps
    that only add well-formed messages to the stream.  [cur] reads the value
    of a key off the stream.  A step is [calm] when it is theirs or leaves the
    stream alone, so a [calm] run shows that nothing of one's own was added.
    What a read finds is [found]: a value the key had, and its current one when
    the bucket has one replica. *)
From S2P Require Import Prelude Types GoStrings Prog OrderedMap NatsCodec ExpireHeap NatsKv NatsBackend.

(** A key-value that was encoded and decoded again: its key has become valid
    UTF-8. *)
Definition json_kv (kv : KeyValue) : KeyValue :=
  MkKeyValue (json_string (kvKey kv)) (kvValue kv) (kvVersion kv) (kvCreateRevision kv) (kvModRevision kv) (kvLease kv).

Class NatsEnvLaws `{NatsEnv} : Prop := {
  json_law : forall d t, json_Marshal d = inl t ->
    json_Unmarshal t = inl (MkND (json_kv <$> ndKV d) (ndPrevRevision d) (ndCreate d) (ndDelete d) 0);
  s2_law : forall t b, s2_Encode t = inl b -> s2_Decode b = Some t
}.

Section proofs.
Context `{HN : NatsEnv} `{HNL : !NatsEnvLaws}.
Context {M : Type -> Type} `{HM : OrderedMap M}.
Context {J : Type} `{HJ : !JetStream J} `{HJL : !JetStreamLaws J}.
Local Abbreviation kstate := (kstate (M:=M) (J:=J)).

Definition log (s : kstate) : list jentry := js_log (k_js s).

(** Every put holds a key-value of a key its subject encodes. *)
Definition wf_msg (m : jentry) : Prop :=
  je_op m = KeyValuePut ->
  exists nd kv k, nd_Decode m = Some (inl nd) /\ ndKV nd = Some kv /\
    Encode encode58 k = (je_key m, None) /\ kvKey kv = json_string k.

Definition kgrow (s s' : kstate) : Prop := exists l, log s' = log s ++ l /\ Forall wf_msg l.

#[export] Instance kgrow_refl : Reflexive kgrow.
Proof. intros s. exists []. by rewrite app_nil_r. Qed.
#[export] Instance kgrow_trans : Transitive kgrow.
Proof.
  intros s1 s2 s3 (l1 & E1 & H1) (l2 & E2 & H2). exists (l1 ++ l2). rewrite E2, E1, app_assoc.
  split; [done|]. by apply Forall_app.
Qed.

(** The value of a key in a stream. *)
Definition msg_value (m : jentry) : option KeyValue :=
  if bool_decide (je_op m = KeyValuePut) then
    match nd_Decode m with
    | Some (inl nd) => if ndDelete nd then None else ndKV (own_revs (je_revision m) nd)
    | _ => None
    end
  else None.
Definition cur (ek : string) (L : list jentry) : option KeyValue := last_of ek L ≫= msg_value.

Lemma last_of_snoc ek L m : last_of ek (L ++ [m]) = if decide (je_key m = ek) then Some m else last_of ek L.
Proof.
  unfold last_of. rewrite filter_app, filter_cons, filter_nil. case_decide; [by rewrite last_snoc|by rewrite app_nil_r].
Qed.

Lemma last_of_in ek L m : last_of ek L = Some m -> m ∈ L /\ je_key m = ek.
Proof. intros Hl%last_Some_elem_of. apply list_elem_of_filter in Hl as [? ?]. done. Qed.

(** Sequence numbers name messages. *)
Lemma log_unique (s : kstate) m m' : m ∈ log s -> m' ∈ log s -> je_revision m = je_revision m' -> m = m'.
Proof using HJL.
  unfold log. generalize (js_sorted (k_js s)). generalize (js_log (k_js s)). intros L Hs.
  induction Hs as [|x L Hs IH Hx]; [by intros ?%not_elem_of_nil|]. rewrite Forall_forall in Hx.
  intros [->|Hm]%elem_of_cons [->|Hm']%elem_of_cons Heq; [done| | |by apply IH].
  - specialize (Hx _ Hm'). lia.
  - specialize (Hx _ Hm). lia.
Qed.

Lemma log_pos (s : kstate) m : m ∈ log s -> 0 < je_revision m.
Proof using HJL. intros Hm. pose proof (js_positive (k_js s)) as Hp. rewrite Forall_forall in Hp. by apply Hp. Qed.

Lemma nd_Decode_mod m nd kv : nd_Decode m = Some (inl nd) -> ndKV (own_revs (je_revision m) nd) = Some kv ->
  kvModRevision kv = je_revision m.
Proof. unfold nd_Decode, own_revs. intros Hd Hk. repeat case_match; simplify_eq/=; done. Qed.

Lemma nd_Decode_cr m nd kv : nd_Decode m = Some (inl nd) -> ndKV (own_revs (je_revision m) nd) = Some kv ->
  0 < je_revision m -> kvCreateRevision kv <> 0.
Proof. unfold nd_Decode, own_revs. intros Hd Hk Hp. repeat case_match; simplify_eq/=; b2p; lia. Qed.

Lemma own_revs_Delete rev nd : ndDelete (own_revs rev nd) = ndDelete nd.
Proof. unfold own_revs. by destruct (ndCreate nd). Qed.

(** What a message written with [d] holds. *)
Lemma written_decode d t b ek n tm kv : json_Marshal d = inl t -> s2_Encode t = inl b -> ndKV d = Some kv ->
  nd_Decode (MkJEntry ek b n tm KeyValuePut) = Some (inl
    (MkND (Some (MkKeyValue (json_string (kvKey kv)) (kvValue kv) (kvVersion kv)
                   (if kvCreateRevision kv =? 0 then n else kvCreateRevision kv) n (kvLease kv)))
       (ndPrevRevision d) (ndCreate d) (ndDelete d) tm)).
Proof using HNL. intros Ht Hb Hkv. unfold nd_Decode, Value. simpl. by rewrite (s2_law _ _ Hb), (json_law _ _ Ht), Hkv. Qed.

Lemma cur_of_last ek L m nd0 kv : last_of ek L = Some m -> je_op m = KeyValuePut -> nd_Decode m = Some (inl nd0) ->
  ndDelete nd0 = false -> ndKV (own_revs (je_revision m) nd0) = Some kv -> cur ek L = Some kv.
Proof.
  intros Hl Hop Hd Hdel Hkv. unfold cur. rewrite Hl. cbn [mbind option_bind]. unfold msg_value.
  by rewrite bool_decide_true, Hd, Hdel, Hkv.
Qed.

Lemma cur_deleted ek L m nd0 : last_of ek L = Some m -> nd_Decode m = Some (inl nd0) -> ndDelete nd0 = true -> cur ek L = None.
Proof.
  intros Hl Hd Hdel. unfold cur. rewrite Hl. cbn [mbind option_bind]. unfold msg_value. case_bool_decide; [|done].
  by rewrite Hd, Hdel.
Qed.

(** The key had the value [v] after some message of it in the stream. *)
Definition held (ek : string) (v : option KeyValue) (L : list jentry) : Prop :=
  exists L1 m L2, L = L1 ++ m :: L2 /\ je_key m = ek /\ cur ek (L1 ++ [m]) = v.

(** What a read that finds [m], and so the value [v], says of the stream: the
    last message of the key when there is one replica. *)
Definition finds (ek : string) (m : jentry) (s : kstate) : Prop :=
  m ∈ log s /\ je_key m = ek /\ (js_replicas (J:=J) = 1 -> last_of ek (log s) = Some m).
Definition found (ek : string) (v : option KeyValue) (s : kstate) : Prop :=
  held ek v (log s) /\ (js_replicas (J:=J) = 1 -> cur ek (log s) = v).

Lemma finds_found ek m v s : finds ek m s -> (forall L, last_of ek L = Some m -> cur ek L = v) -> found ek v s.
Proof.
  intros (Hin & Hk & Hone) Hv. split; [|auto]. apply list_elem_of_split in Hin as (L1 & L2 & ->). exists L1, m, L2.
  split; [done|]. split; [done|]. apply Hv. rewrite last_of_snoc. by rewrite decide_True.
Qed.

Lemma own_revs_KV rev nd kv : ndKV nd = Some kv -> is_Some (ndKV (own_revs rev nd)).
Proof. intros Hk. unfold own_revs. destruct (ndCreate nd); simpl; by rewrite Hk. Qed.

(** A compare-and-swap on the stream that was accepted replaced what was read,
    however old. *)
Lemma same_last ek s1 s2 m : kgrow s1 s2 -> m ∈ log s1 ->
  seq_of (last_of ek (log s2)) = je_revision m -> last_of ek (log s2) = Some m.
Proof using HJL.
  intros (l & El & _) Hin Hseq.
  assert (Hin2 : m ∈ log s2) by (rewrite El; apply elem_of_app; by left).
  destruct (last_of ek (log s2)) as [m'|] eqn:E; simpl in Hseq.
  - f_equal. apply last_of_in in E as [Hin' _]. by apply (log_unique s2).
  - pose proof (log_pos _ _ Hin). unfold seq_of in Hseq. simpl in Hseq. lia.
Qed.

Lemma wf_grow s s' : kgrow s s' -> Forall wf_msg (log s) -> Forall wf_msg (log s').
Proof. intros (l & -> & Hl) Hs. by apply Forall_app. Qed.

Section env.
Variable env : kstate -> kstate -> Prop.
Hypothesis env_ok : forall s s', env s s' -> kgrow s s'.

Definition calm (s s' : kstate) : Prop := env s s' \/ log s = log s'.

Lemma rtc_env_grow s s' : rtc env s s' -> kgrow s s'.
Proof using env_ok. induction 1; [done|]. etrans; [by apply env_ok|done]. Qed.

Lemma rtc_env_calm s s' : rtc env s s' -> rtc calm s s'.
Proof using Type. induction 1; [done|]. eapply rtc_l; [|done]. by left. Qed.

Lemma calm_log s s' : log s = log s' -> rtc calm s s'.
Proof using Type. intros Hj. apply rtc_once. by right. Qed.

Lemma rtc_calm_grow s s' : rtc calm s s' -> kgrow s s'.
Proof using env_ok.
  induction 1 as [|s1 s2 s3 [Hs|Hj] _ IH]; [done|etrans; [by apply env_ok|done]|].
  etrans; [|done]. exists []. by rewrite Hj, app_nil_r.
Qed.

(** Programs that only read, and never panic. *)
Fixpoint reads {A} (p : kprog A) : Prop :=
  match p with
  | Ret _ => True
  | Panic => False
  | Call o k => (forall s : kstate, (kop_do o s).2 = s) /\ forall r, reads (k r)
  end.

Lemma reads_bind {A B} (p : kprog A) (f : A -> kprog B) : reads p -> (forall a, reads (f a)) -> reads (pbind p f).
Proof using Type. induction p as [a| |R o k IH]; simpl; [auto|done|]. intros [H1 H2] Hf. split; [done|]. intros r. by apply IH. Qed.

Lemma reads_exec {A} (p : kprog A) s x s' : reads p -> exec_in env p s x s' -> rtc env s s' /\ is_Some x.
Proof using Type.
  revert s. induction p as [a| |R o k IH]; intros s Hr Hex.
  - apply exec_Ret_inv in Hex as [-> ->]. by split.
  - done.
  - destruct Hr as [H1 H2]. apply exec_inv in Hex as (s1 & Henv & _ & Hex). simpl in Hex. rewrite H1 in Hex.
    apply IH in Hex as [Hs Hx]; [|done]. split; [by etrans|done].
Qed.

Lemma reads_checkRevision key r : reads (checkRevision key r).
Proof using Type. unfold checkRevision, BucketRevision. repeat (case_match; simpl; repeat split; intros; simpl); repeat case_match; simpl; done. Qed.

Lemma reads_getRevisionOp key r b : reads (getRevisionOp key r b).
Proof using Type. unfold getRevisionOp. simpl. split; [done|]. intros r0. repeat case_match; done. Qed.

(** Reading the latest entry: at one moment the bucket holds what was found. *)
Lemma get_exec key ek allow check s x s' : Encode encode58 key = (ek, None) -> Forall wf_msg (log s) ->
  exec_in env (get key 0 allow check) s x s' ->
  rtc env s s' /\ exists rev nd err, x = Some (rev, nd, err) /\
  match err with
  | Some _ => nd = None
  | None => exists s1 m nd0 kv, rtc env s s1 /\ rtc env s1 s' /\ finds ek m s1 /\ je_op m = KeyValuePut /\
      nd_Decode m = Some (inl nd0) /\ ndKV nd0 = Some kv /\
      match nd with
      | Some nd => nd = own_revs (je_revision m) nd0 /\ rev = je_revision m /\ (ndDelete nd0 = true -> allow = true)
      | None => ndDelete nd0 = true
      end
  end.
Proof using env_ok HJL.
  intros HE Hwf Hex. unfold get in Hex. apply exec_bind_inv in Hex as [(r & s2 & Hg & Hex)|[Hg ->]].
  2:{ exfalso. unfold GetRevision in Hg. cbn -[checkRevision getRevisionOp] in Hg.
      apply reads_exec in Hg as [_ [? Hg]]; [discriminate Hg|]. apply reads_bind; [destruct check; [apply reads_checkRevision|exact I]|].
      intros [e|]; [done|]. apply reads_bind; [apply reads_getRevisionOp|]. intros [op|e]; [|done].
      unfold getRevision. rewrite HE. by split. }
  assert (Hr : rtc env s s2 /\ match r with inr _ => True | inl m =>
    exists s1, rtc env s s1 /\ rtc env s1 s2 /\ finds ek m s1 /\ je_op m = KeyValuePut end).
  { unfold GetRevision in Hg. cbn -[checkRevision getRevisionOp] in Hg.
    apply exec_bind_inv in Hg as [(e & s3 & Hc & Hg)|[_ ?]]; [|done].
    apply reads_exec in Hc as [Hc _]; [|destruct check; [apply reads_checkRevision|done]].
    destruct e as [e|]; [apply exec_Ret_inv in Hg as [[= ->] ->]; done|].
    apply exec_bind_inv in Hg as [(op & s4 & Ho & Hg)|[_ ?]]; [|done].
    apply reads_exec in Ho as [Ho _]; [|apply reads_getRevisionOp].
    destruct op as [op|e]; [|apply exec_Ret_inv in Hg as [[= ->] ->]; split; [by etrans|done]].
    unfold getRevision in Hg. rewrite HE in Hg. apply exec_inv in Hg as (s5 & H5 & _ & Hg). simpl in Hg.
    apply exec_Ret_inv in Hg as [[= ->] ->]. split; [etrans; [done|by etrans]|].
    pose proof (js_get_law ek (k_js s5)) as Hl. destruct (js_get ek (k_js s5)) as [m|e]; [|done].
    destruct Hl as (Hin & Hk & Hop & Hone). exists s5. split; [etrans; [done|by etrans]|]. done. }
  destruct Hr as [Hs2 Hr]. destruct r as [m|e].
  - destruct Hr as (s1 & Hs1 & Hs12 & Hl & Hop).
    assert (Hm : wf_msg m).
    { pose proof (rtc_env_grow _ _ Hs1) as (l & El & Hwl). destruct Hl as [Hin _].
      rewrite El in Hin. rewrite Forall_forall in Hwf, Hwl. apply elem_of_app in Hin as [Hin|Hin]; auto. }
    destruct (Hm Hop) as (nd0 & kv & _ & Hd & Hkv & _). rewrite Hd in Hex. cbn [deref] in Hex.
    rewrite own_revs_Delete in Hex. destruct (ndDelete nd0 && negb allow) eqn:Eb.
    + apply exec_inv in Hex as (s3 & H3 & _ & Hex). simpl in Hex. apply exec_Ret_inv in Hex as [-> ->].
      split; [by trans s2|]. do 3 eexists. split; [done|]. exists s1, m, nd0, kv.
      split; [done|]. split; [by trans s2|]. apply andb_true_iff in Eb as [? _]. done.
    + apply exec_Ret_inv in Hex as [-> ->]. split; [done|]. do 3 eexists. split; [done|]. exists s1, m, nd0, kv.
      do 6 (split; [done|]). split; [done|]. split; [done|]. intros Hnd. rewrite Hnd in Eb. by destruct allow.
  - apply exec_inv in Hex as (s3 & H3 & _ & Hex). simpl in Hex. apply exec_Ret_inv in Hex as [-> ->].
    split; [by trans s2|]. do 3 eexists. split; [done|]. done.
Qed.

(** The answer after a lost race is a value found after it. *)
Lemma conflict_exec key ek gone s x s' : Encode encode58 key = (ek, None) -> Forall wf_msg (log s) ->
  (forall r, reads (gone r)) -> exec_in env (conflict key gone) s x s' ->
  rtc env s s' /\ exists n okv err, x = Some (n, okv, false, err) /\
  forall kv, err = None -> okv = Some kv -> exists s1, rtc env s s1 /\ rtc env s1 s' /\ found ek (Some kv) s1.
Proof using env_ok HJL.
  intros HE Hwf Hg Hex. apply exec_bind_inv in Hex as [([[rev nd] err] & s2 & Hget & Hex)|[Hget ->]];
    apply (get_exec _ _ _ _ _ _ _ HE Hwf) in Hget as (Hs2 & rev' & nd' & err' & [= <- <- <-] & Hres).
  destruct err as [e|].
  - subst nd. destruct (is_nats e ErrKeyNotFound).
    + apply exec_bind_inv in Hex as [(r & s3 & Hr & Hex)|[Hr ->]].
      * apply reads_exec in Hr as [Hr _]; [|apply Hg]. apply exec_Ret_inv in Hex as [-> ->].
        split; [by trans s2|]. do 3 eexists. split; [done|]. done.
      * apply reads_exec in Hr as [_ [? ?]]; [done|apply Hg].
    + apply exec_Ret_inv in Hex as [-> ->]. split; [done|]. do 3 eexists. split; [done|]. done.
  - apply exec_Ret_inv in Hex as [-> ->]. split; [done|]. do 3 eexists. split; [done|]. intros kv _ Hkv.
    destruct Hres as (s1 & m & nd0 & kv0 & H1 & H2 & Hl & Hop & Hd & Hkv0 & Hnd). destruct nd as [nd|]; [|done].
    destruct Hnd as (-> & _ & Hdel). exists s1. split; [done|]. split; [done|].
    eapply finds_found; [done|]. intros L HL. eapply cur_of_last; [done..| |done].
    destruct (ndDelete nd0); [|done]. by specialize (Hdel eq_refl).
Qed.

(** The calls after a write that was accepted only wait. *)
Lemma finish_exec {A} seq key lease (a : A) s x s' :
  exec_in env (_ <-! call (IWait seq);; _ <-! add_expiry key seq lease;; Ret a) s x s' -> x = Some a /\ rtc calm s s'.
Proof using Type.
  intros Hex. apply exec_inv in Hex as (s1 & H1 & _ & Hex). simpl in Hex. unfold add_expiry in Hex.
  destruct (lease >? 0).
  - apply exec_inv in Hex as (s2 & H2 & _ & Hex). simpl in Hex. apply exec_Ret_inv in Hex as [-> ->]. split; [done|].
    trans s1; [by apply rtc_env_calm|]. trans s2; [by apply rtc_env_calm|]. by apply calm_log.
  - apply exec_Ret_inv in Hex as [-> ->]. split; [done|]. by apply rtc_env_calm.
Qed.

(** The two conditional writes of the store: one call, then a wait. *)
Lemma write_exec (mk : bytes -> kop (Z * gerr)) data s x s' :
  exec_in env (match s2_Encode data with
               | inr e => Ret (0, Some e)
               | inl buf => '(rev, err) <-! call (mk buf);;
                            if is_err err then Ret (rev, err) else _ <-! call (IWait rev);; Ret (rev, None)
               end) s x s' ->
  (s' = s /\ exists e, x = Some (0, Some e)) \/
  exists buf s1 n err s2, s2_Encode data = inl buf /\ rtc env s s1 /\ kop_do (mk buf) s1 = ((n, err), s2) /\
    x = Some (n, err) /\ rtc env s2 s'.
Proof using Type.
  destruct (s2_Encode data) as [buf|e]; intros Hex; [right|left].
  2:{ apply exec_Ret_inv in Hex as [-> ->]. split; [done|]. by exists e. }
  apply exec_inv in Hex as (s1 & H1 & _ & Hex). simpl in Hex.
  destruct (kop_do (mk buf) s1) as [[n err] s2] eqn:E. simpl in Hex. exists buf, s1, n, err, s2.
  do 3 (split; [done|]). destruct err as [e|]; simpl in Hex.
  - apply exec_Ret_inv in Hex as [-> ->]. done.
  - apply exec_inv in Hex as (s3 & H3 & _ & Hex). simpl in Hex. apply exec_Ret_inv in Hex as [-> ->]. done.
Qed.

Lemma nats_update_exec key ek data r s x s' : Encode encode58 key = (ek, None) ->
  exec_in env (NatsKv.Update key data r) s x s' ->
  (s' = s /\ exists e, x = Some (0, Some e)) \/
  exists buf s1 n err s2, s2_Encode data = inl buf /\ rtc env s s1 /\ x = Some (n, err) /\ rtc env s2 s' /\
  match err with
  | None => seq_of (last_of ek (log s1)) = r /\ exists t, log s2 = log s1 ++ [MkJEntry ek buf n t KeyValuePut] /\ 0 < n
  | Some e => if is_nats e jsWrongLastSeqErr then log s2 = log s1 /\ seq_of (last_of ek (log s1)) <> r
              else exists msg, e = ErrOther msg
  end.
Proof using HJL.
  intros HE Hex. unfold NatsKv.Update in Hex. rewrite HE in Hex.
  apply write_exec in Hex as [Hex|(buf & s1 & n & err & s2 & Hb & H1 & Hdo & -> & H2)]; [by left|right].
  exists buf, s1, n, err, s2. do 4 (split; [done|]). simpl in Hdo.
  pose proof (js_update_law ek buf r (k_js s1)) as Hl. unfold log in *.
  destruct (js_update ek buf r (k_js s1)) as [[n' err'] j']. injection Hdo as <- <- <-. simpl.
  destruct err' as [e|].
  - destruct (is_nats e jsWrongLastSeqErr); [done|]. by destruct Hl as [Hl _].
  - destruct Hl as (Hl & t & Hs & _ & Hn). split; [done|]. by exists t.
Qed.

Lemma nats_create_exec key ek data s x s' : Encode encode58 key = (ek, None) ->
  exec_in env (NatsKv.Create key data) s x s' ->
  (s' = s /\ exists e, x = Some (0, Some e)) \/
  exists buf s1 n err s2, s2_Encode data = inl buf /\ rtc env s s1 /\ x = Some (n, err) /\ rtc env s2 s' /\
  match err with
  | None => (forall m, last_of ek (log s1) = Some m -> je_op m <> KeyValuePut) /\
            exists t, log s2 = log s1 ++ [MkJEntry ek buf n t KeyValuePut] /\ 0 < n
  | Some e => if is_nats e jsWrongLastSeqErr then log s2 = log s1 /\ is_Some (last_of ek (log s1))
              else exists msg, e = ErrOther msg
  end.
Proof using HJL.
  intros HE Hex. unfold NatsKv.Create in Hex. rewrite HE in Hex.
  apply write_exec in Hex as [Hex|(buf & s1 & n & err & s2 & Hb & H1 & Hdo & -> & H2)]; [by left|right].
  exists buf, s1, n, err, s2. do 4 (split; [done|]). simpl in Hdo.
  pose proof (js_create_law ek buf (k_js s1)) as Hl. unfold log in *.
  destruct (js_create ek buf (k_js s1)) as [[n' err'] j']. injection Hdo as <- <- <-. simpl.
  destruct err' as [e|].
  - destruct (is_nats e jsWrongLastSeqErr); [|by destruct Hl as [Hl _]]. exact Hl.
  - destruct Hl as (Hl & t & Hs & _ & Hn). split; [done|]. by exists t.
Qed.

(** The delete marker. *)
Lemma nats_delete_exec key ek r s x s' : Encode encode58 key = (ek, None) -> exec_in env (NatsKv.Delete key r) s x s' ->
  exists err, x = Some err /\
  match err with
  | Some _ => True
  | None => exists s1 s2 v n t, rtc env s s1 /\ rtc env s2 s' /\ (r <> 0 -> seq_of (last_of ek (log s1)) = r) /\
      log s2 = log s1 ++ [MkJEntry ek v n t KeyValueDelete]
  end.
Proof using HJL.
  intros HE Hex. unfold NatsKv.Delete in Hex. rewrite HE in Hex.
  apply exec_inv in Hex as (s1 & H1 & _ & Hex). simpl in Hex.
  pose proof (js_delete_law ek r (k_js s1)) as Hl. destruct (js_delete ek r (k_js s1)) as [err j'] eqn:E. simpl in Hex.
  destruct err as [e|]; simpl in Hex.
  { apply exec_Ret_inv in Hex as [-> ->]. by exists (Some e). }
  destruct Hl as (Hseq & v & n & t & Hst & _).
  assert (Hfin : x = Some None /\ rtc env (set_js j' s1) s').
  { apply exec_inv in Hex as (s3 & H3 & _ & Hex). simpl in Hex. destruct (js_history ek (k_js s3)) as [kvs herr]. simpl in Hex.
    destruct (last kvs) as [[op rv]|].
    - destruct (bool_decide (op = KeyValueDelete)).
      + apply exec_inv in Hex as (s4 & H4 & _ & Hex). simpl in Hex. apply exec_Ret_inv in Hex as [-> ->]. split; [done|]. by trans s3.
      + apply exec_Ret_inv in Hex as [-> ->]. done.
    - apply exec_Ret_inv in Hex as [-> ->]. done. }
  destruct Hfin as [-> Hs]. exists None. split; [done|]. exists s1, (set_js j' s1), v, n, t. done.
Qed.

(** A conditional update and what its callers do with the outcomes: it was
    stored, it lost a race and the key is read again, or it failed. *)
Lemma cas_exec key ek data r (gone : Z -> kprog Z) (failed : err -> kprog (Z * option KeyValue * bool * gerr))
  (ok : Z -> kprog (Z * option KeyValue * bool * gerr)) s x s' :
  Encode encode58 key = (ek, None) -> Forall wf_msg (log s) -> (forall r, reads (gone r)) ->
  exec_in env ('(seq, err) <-! NatsKv.Update key data r;;
               match err with
               | Some e => if is_nats e jsWrongLastSeqErr then conflict key gone else failed e
               | None => ok seq
               end) s x s' ->
  (exists buf s1 s2 s3 n t, s2_Encode data = inl buf /\ rtc env s s1 /\ seq_of (last_of ek (log s1)) = r /\
     log s2 = log s1 ++ [MkJEntry ek buf n t KeyValuePut] /\ 0 < n /\ rtc env s2 s3 /\ exec_in env (ok n) s3 x s') \/
  (rtc calm s s' /\ exists n okv err, x = Some (n, okv, false, err) /\
     forall kv, err = None -> okv = Some kv -> exists s1, rtc calm s s1 /\ rtc calm s1 s' /\ found ek (Some kv) s1) \/
  exists s1 e, exec_in env (failed e) s1 x s'.
Proof using env_ok HJL.
  intros HE Hwf Hgone Hex. apply exec_bind_inv in Hex as [([n err] & s3 & Hup & Hex)|[Hup ->]];
    apply (nats_update_exec _ _ _ _ _ _ _ HE) in Hup as [(-> & e & [= ])|(buf & s4 & n' & err' & s5 & Hb & H4 & [= ] & H5 & Hlaw)].
  - subst. right. destruct (is_nats e jsWrongLastSeqErr); [left|right; eauto].
    apply (conflict_exec _ _ _ _ _ _ HE) in Hex as (Hs & n & okv & er & -> & Hv); [|done|done].
    split; [by apply rtc_env_calm|]. do 3 eexists. split; [done|]. intros kv He Hk.
    destruct (Hv _ He Hk) as (s6 & H6 & H7 & Hc). exists s6. split; [by apply rtc_env_calm|]. split; [by apply rtc_env_calm|done].
  - subst n' err'. destruct err as [e|].
    + right. destruct (is_nats e jsWrongLastSeqErr); [left|right; eauto]. destruct Hlaw as [Hlog _].
      assert (Hs3 : rtc calm s s3).
      { trans s4; [by apply rtc_env_calm|]. trans s5; [by apply calm_log|by apply rtc_env_calm]. }
      assert (Hwf3 : Forall wf_msg (log s3)) by (eapply wf_grow; [by apply rtc_calm_grow|done]).
      apply (conflict_exec _ _ _ _ _ _ HE) in Hex as (Hs & n' & okv & er & -> & Hv); [|done|done].
      split; [trans s3; [done|by apply rtc_env_calm]|]. do 3 eexists. split; [done|]. intros kv He Hk.
      destruct (Hv _ He Hk) as (s6 & H6 & H7 & Hc). exists s6. split; [trans s3; [done|by apply rtc_env_calm]|].
      split; [by apply rtc_env_calm|done].
    + left. destruct Hlaw as (Hseq & t & Hlog & Hn). by exists buf, s4, s5, s3, n, t.
Qed.

(** The entry that was read is the last one at any later moment whose last
    sequence is its own; and what replaces it is then the value. *)
Lemma get_value ek s m nd0 kv0 : finds ek m s -> je_op m = KeyValuePut ->
  nd_Decode m = Some (inl nd0) -> ndKV nd0 = Some kv0 -> ndDelete nd0 = false ->
  exists kv, ndKV (own_revs (je_revision m) nd0) = Some kv /\ kvModRevision kv = je_revision m /\
    (kvCreateRevision kv =? 0) = false /\ found ek (Some kv) s /\
    forall s', kgrow s s' -> seq_of (last_of ek (log s')) = je_revision m -> cur ek (log s') = Some kv.
Proof using HJL.
  intros Hl Hop Hd Hkv0 Hdel. destruct (own_revs_KV (je_revision m) nd0 kv0 Hkv0) as [kv Hkv]. exists kv.
  split; [done|]. split; [by eapply nd_Decode_mod|].
  pose proof (log_pos _ _ (proj1 Hl)) as Hpos.
  split; [apply Z.eqb_neq; by eapply nd_Decode_cr|].
  split; [eapply finds_found; [done|]; intros L HL; by eapply cur_of_last|].
  intros s' Hg Hseq. destruct Hl as [Hin _]. eapply cur_of_last; [by eapply same_last|done..].
Qed.

(** The same for a caller that did not allow deletions. *)
Lemma read_live key ek s x s' : Encode encode58 key = (ek, None) -> Forall wf_msg (log s) ->
  exec_in env (get key 0 false true) s x s' ->
  rtc env s s' /\ exists rev nd err, x = Some (rev, nd, err) /\
  match err, nd with
  | Some _, _ => nd = None
  | None, None => exists s1, rtc calm s s1 /\ rtc env s1 s' /\ found ek None s1
  | None, Some nd => ndDelete nd = false /\ exists kv s1, ndKV nd = Some kv /\ kvModRevision kv = rev /\
      (kvCreateRevision kv =? 0) = false /\ rtc env s s1 /\ rtc env s1 s' /\ found ek (Some kv) s1 /\
      forall s2, kgrow s1 s2 -> seq_of (last_of ek (log s2)) = rev -> cur ek (log s2) = Some kv
  end.
Proof using env_ok HJL.
  intros HE Hwf Hget. apply (get_exec _ _ _ _ _ _ _ HE Hwf) in Hget as (Hs & rev & nd & err & -> & Hres).
  split; [done|]. do 3 eexists. split; [done|]. destruct err as [e|]; [done|].
  destruct Hres as (s1 & m & nd0 & kv0 & H1 & H2 & Hl & Hop & Hd & Hkv0 & Hnd). destruct nd as [nd|].
  - destruct Hnd as (-> & -> & Hdel). assert (Hdel0 : ndDelete nd0 = false) by (destruct (ndDelete nd0); [by specialize (Hdel eq_refl)|done]).
    split; [by rewrite own_revs_Delete|]. destruct (get_value ek s1 m nd0 kv0) as (kv & Hkv & Hm & Hc & Hcur & Hlater); [done..|].
    exists kv, s1. done.
  - exists s1. split; [by apply rtc_env_calm|]. split; [done|]. eapply finds_found; [done|]. intros L HL. by eapply cur_deleted.
Qed.
End env.
End proofs.
