(* ===== verification/NatsBucket.v ===== *)
(** * A bucket in memory

    An instance of everything the NATS driver is given: a stream that numbers
    its messages from 1 and forgets none, data stored as it is, and the codes
    of [NatsCodec] for Base58.  It shows that the hypotheses of the theorems
    hold together, and runs the driver on concrete inputs. *)
From S2P Require Import Prelude Types GoStrings Prog OrderedMap NatsCodec ExpireHeap NatsKv NatsBackend NatsProofs.

Definition no_time (d : natsData) : natsData := MkND (json_kv <$> ndKV d) (ndPrevRevision d) (ndCreate d) (ndDelete d) 0.

#[export] Instance mem_env : NatsEnv := {
  encode58 := w_encode;
  decode58 := w_decode;
  bytes := natsData;
  text := natsData;
  json_Marshal d := inl (no_time d);
  json_Unmarshal t := inl t;
  s2_Encode t := inl t;
  s2_Decode b := Some b
}.

#[export] Instance mem_env_laws : NatsEnvLaws.
Proof. split; [by intros d t [= <-]|by intros t b [= <-]]. Qed.

Record message := MkMsg { m_key : string; m_value : natsData; m_op : kvop }.

Fixpoint stamp (n : Z) (l : list message) : list jentry :=
  match l with
  | [] => []
  | m :: l => MkJEntry (m_key m) (m_value m) n 0 (m_op m) :: stamp (n + 1) l
  end.

Abbreviation stream := (list message).
Definition s_log (j : stream) : list jentry := stamp 1 j.
Definition s_next (j : stream) : Z := Z.of_nat (length j) + 1.
Definition s_last (ek : string) (j : stream) : option jentry := last_of ek (s_log j).
Definition s_put (ek : string) (v : natsData) (op : kvop) (j : stream) : (Z * gerr) * stream :=
  ((s_next j, None), j ++ [MkMsg ek v op]).

#[export] Instance mem_stream : JetStream stream := {
  js_replicas := 1;
  js_create ek v j :=
    match s_last ek j with
    | Some m => if bool_decide (je_op m = KeyValuePut) then ((0, Some jsWrongLastSeqErr), j) else s_put ek v KeyValuePut j
    | None => s_put ek v KeyValuePut j
    end;
  js_update ek v r j :=
    if seq_of (s_last ek j) =? r then s_put ek v KeyValuePut j else ((0, Some jsWrongLastSeqErr), j);
  js_delete ek r j :=
    if seq_of (s_last ek j) =? r then (None, (s_put ek zeroND KeyValueDelete j).2) else (Some jsWrongLastSeqErr, j);
  js_get ek j :=
    match s_last ek j with
    | Some m => if bool_decide (je_op m = KeyValuePut) then inl m else inr ErrKeyNotFound
    | None => inr ErrKeyNotFound
    end;
  js_get_revision ek r j :=
    match list_find (fun m => je_revision m = r /\ je_key m = ek /\ je_op m = KeyValuePut) (s_log j) with
    | Some (_, m) => inl m
    | None => inr ErrKeyNotFound
    end;
  js_history ek j := ((fun m => (je_op m, je_revision m)) <$> filter (fun m => je_key m = ek) (s_log j), None);
  js_size j := (Z.of_nat (length j), None);
  js_log := s_log
}.

Lemma stamp_app n l1 l2 : stamp n (l1 ++ l2) = stamp n l1 ++ stamp (n + Z.of_nat (length l1)) l2.
Proof.
  revert n. induction l1 as [|m l1 IH]; intros n; simpl.
  - by rewrite Z.add_0_r.
  - rewrite IH. do 3 f_equal. lia.
Qed.

Lemma stamp_bounds n l : Forall (fun m => n <= je_revision m < n + Z.of_nat (length l)) (stamp n l).
Proof.
  revert n. induction l as [|m l IH]; intros n; simpl; [constructor|]. constructor; [simpl; lia|].
  eapply Forall_impl; [apply IH|]. simpl. lia.
Qed.

Lemma stamp_sorted n l : StronglySorted (fun a b => je_revision a < je_revision b) (stamp n l).
Proof.
  revert n. induction l as [|m l IH]; intros n; simpl; [constructor|]. constructor; [done|].
  eapply Forall_impl; [apply stamp_bounds|]. simpl. lia.
Qed.

Lemma s_put_stored ek v op (j : stream) :
  js_log (s_put ek v op j).2 = js_log j ++ [MkJEntry ek v (s_next j) 0 op] /\
  Forall (fun x => je_revision x < s_next j) (js_log j) /\ 0 < s_next j.
Proof.
  simpl. unfold s_log, s_next. rewrite stamp_app. simpl. split; [by rewrite Z.add_comm|]. split; [|lia].
  eapply Forall_impl; [apply stamp_bounds|]. simpl. lia.
Qed.

#[export] Instance mem_stream_laws : JetStreamLaws stream.
Proof.
  split.
  - intros j. apply stamp_sorted.
  - intros j. eapply Forall_impl; [apply stamp_bounds|]. simpl. lia.
  - intros ek v j. cbn [js_create mem_stream]. pose proof (s_put_stored ek v KeyValuePut j) as Hst.
    unfold s_last. simpl js_log in *. destruct (last_of ek (s_log j)) as [m|] eqn:E.
    + case_bool_decide.
      * simpl. split; [done|]. by eexists.
      * split; [intros m' [= <-]; done|]. by exists 0.
    + split; [done|]. by exists 0.
  - intros ek v r j. cbn [js_update mem_stream]. pose proof (s_put_stored ek v KeyValuePut j) as Hst.
    unfold s_last. simpl js_log in *. destruct (Z.eqb_spec (seq_of (last_of ek (s_log j))) r); [by split; [|exists 0]|].
    done.
  - intros ek r j. cbn [js_delete mem_stream]. pose proof (s_put_stored ek zeroND KeyValueDelete j) as Hst.
    unfold s_last. simpl js_log in *. destruct (Z.eqb_spec (seq_of (last_of ek (s_log j))) r); [|done].
    split; [done|]. by exists zeroND, (s_next j), 0.
  - intros ek j. cbn [js_get mem_stream]. unfold s_last. simpl js_log. destruct (last_of ek (s_log j)) as [m|] eqn:E; [|done].
    case_bool_decide; [|by intros _ _ m' [= <-]]. apply last_of_in in E as [Hin Hk]. by split_and!.
  - intros ek r j m. cbn [js_get_revision mem_stream]. destruct (list_find _ _) as [[i m']|] eqn:E; [|done].
    intros [= <-]. apply list_find_Some in E as (Hi & (? & ? & ?) & _). apply list_elem_of_lookup_2 in Hi. done.
Qed.

Lemma mem_stream_keeps hsize : JetStreamKeeps stream hsize.
Proof.
  constructor. intros _ j l1 m l2 Hj Hop _. left. cbn [js_get_revision mem_stream].
  assert (Hin : m ∈ s_log j) by (change (s_log j) with (js_log j); rewrite Hj; set_solver).
  destruct (list_find _ _) as [[i m']|] eqn:E.
  - apply list_find_Some in E as (Hi & (Hr & _ & _) & _). f_equal. apply list_elem_of_lookup_2 in Hi.
    clear -Hi Hin Hr. pose proof (stamp_sorted 1 j) as Hs. unfold s_log in *. revert Hin Hi. generalize Hr.
    induction Hs as [|x L Hs IH Hx]; [by intros _ ?%not_elem_of_nil|]. rewrite Forall_forall in Hx.
    intros _ [->|Hm]%elem_of_cons [->|Hm']%elem_of_cons; [done| | |by apply IH].
    + specialize (Hx _ Hm'). lia.
    + specialize (Hx _ Hm). lia.
  - exfalso. apply list_find_None in E. rewrite Forall_forall in E. by apply (E m Hin).
Qed.

(** ** Running the driver *)
Abbreviation mstate := (kstate (M:=samap) (J:=stream)).
Definition m_init : mstate := MkKState [] (MkIndex om_empty 0) 0 [] 0.

(** The index catches up with the stream. *)
Definition catch_up (s : mstate) : mstate :=
  let idx := fold_left (fun i m => if je_revision m <=? lastSeq i then i
                                   else default i (btree_event 10 m i)) (s_log (k_js s)) (k_index s) in
  MkKState (k_js s) idx (k_compact s) (k_expire s) (k_now s).

(** A step of the environment: another client's calls, then the index. *)
Definition other {A} (p : kprog A) (s s' : mstate) : Prop := s' = catch_up (run p s).2.
