(* ===== verification/NatsList.v ===== *)
(** * Listing with the NATS driver

    A listing reads the index once and then fetches every value from the
    bucket, while other clients go on writing. *)
From S2P Require Import Prelude Types GoStrings Prog OrderedMap Mvcc NatsCodec ExpireHeap NatsKv NatsBackend NatsIndex NatsProofs.

Section list.
Context `{HN : NatsEnv}.
Context {M : Type -> Type} `{HM : OrderedMap M} `{HML : !OrderedMapLaws M}.
Context {J : Type} `{HJ : !JetStream J} `{HJL : !JetStreamLaws J}.
Local Abbreviation kstate := (kstate (M:=M) (J:=J)).

(** Every message belongs to the key its subject encodes. *)
Definition keyed (m : jentry) : Prop :=
  Encode encode58 (Key m) = (je_key m, None) /\
  (je_op m = KeyValuePut -> exists nd kv, nd_Decode m = Some (inl nd) /\ ndKV nd = Some kv /\ kvKey kv = Key m).

(** The value a message stores, and the value of a key at a revision. *)
Definition stored_value (m : jentry) : option KeyValue :=
  if bool_decide (je_op m = KeyValuePut) then
    match nd_Decode m with Some (inl nd) => if ndDelete nd then None else ndKV nd | _ => None end
  else None.
Definition msg_at (k : string) (r : Z) (L : list jentry) : option jentry :=
  last (filter (fun m => Key m = k /\ je_revision m <= r) L).
Definition value_at (k : string) (r : Z) (L : list jentry) : option KeyValue := msg_at k r L ≫= stored_value.

(** The index of a state stands for a prefix of its stream. *)
Definition views (hsize : nat) (s : kstate) (L : list jentry) : Prop :=
  (exists L2, log s = L ++ L2) /\ indexes hsize (k_index s) L.

Lemma keyed_op m : keyed m -> exists o, op_of (Key m) m = Some o /\ so_seq o = je_revision m /\
  (so_op o = KeyValuePut <-> is_Some (stored_value m)).
Proof.
  intros [_ Hput]. unfold op_of. rewrite String.eqb_refl. unfold index_op, stored_value.
  case_bool_decide as Hop.
  - destruct (Hput Hop) as (nd & kv & -> & -> & _). destruct (ndDelete nd); eexists; (split; [done|]); (split; [done|]); simpl.
    + split; [done|]. by intros [? ?].
    + split; [|done]. by eexists.
  - eexists. split; [done|]. split; [done|]. simpl. split; [done|]. by intros [? ?].
Qed.

Lemma op_of_other k m : Key m <> k -> op_of k m = None.
Proof. intros Hk. unfold op_of. by apply String.eqb_neq in Hk as ->. Qed.

Lemma last_up_to k r L : 0 < r -> Forall keyed L -> last (up_to r (ops_of k L)) = msg_at k r L ≫= op_of k.
Proof.
  intros Hr. unfold msg_at. induction L as [|m L IH] using rev_ind; intros Hk; [done|].
  apply Forall_app in Hk as [HL Hm]. inversion Hm as [|?? Hkm _]; subst. specialize (IH HL).
  rewrite ops_of_snoc. unfold up_to in *. rewrite !filter_app. destruct (decide (Key m = k)) as [<-|Hne].
  - destruct (keyed_op m Hkm) as (o & Ho & Hseq & _). rewrite Ho. change (option_list (Some o)) with [o]. rewrite !filter_cons, !filter_nil.
    destruct (decide (je_revision m <= r)).
    + rewrite !decide_True by (first [lia|by split]). by rewrite !last_snoc.
    + rewrite !decide_False by lia. by rewrite !app_nil_r.
  - rewrite (op_of_other _ _ Hne). change (option_list (@None seqOp)) with (@nil seqOp). rewrite !filter_cons, !filter_nil, decide_False by tauto. by rewrite !app_nil_r.
Qed.

Lemma newer_le k r L : 0 < r -> Forall keyed L ->
  length (newer r (ops_of k L)) = length (filter (fun m => Key m = k /\ r < je_revision m) L).
Proof.
  intros Hr. induction L as [|m L IH] using rev_ind; intros Hk; [done|].
  apply Forall_app in Hk as [HL Hm]. inversion Hm as [|?? Hkm _]; subst. specialize (IH HL).
  rewrite ops_of_snoc. unfold newer in *. rewrite !filter_app, !length_app, IH. f_equal. destruct (decide (Key m = k)) as [<-|Hne].
  - destruct (keyed_op m Hkm) as (o & Ho & Hseq & _). rewrite Ho. change (option_list (Some o)) with [o]. rewrite !filter_cons, !filter_nil.
    destruct (decide (r < je_revision m)); [rewrite !decide_True by (first [lia|by split])|rewrite !decide_False by lia]; done.
  - rewrite (op_of_other _ _ Hne). change (option_list (@None seqOp)) with (@nil seqOp). rewrite !filter_cons, !filter_nil. by rewrite decide_False by tauto.
Qed.

Lemma all_indexed hsize st L : Forall keyed L -> indexes hsize st L -> lastSeq st = default 0 (je_revision <$> last L).
Proof.
  intros Hk [_ ->]. f_equal. destruct L as [|m L _] using rev_ind; [done|]. apply Forall_app in Hk as [_ Hm].
  inversion Hm as [|?? Hkm _]; subst. destruct (keyed_op m Hkm) as (o & Ho & Hseq & _).
  rewrite omap_app. simpl. rewrite Ho, !last_snoc. simpl. by rewrite Hseq.
Qed.

(** What the index sees at a revision it has reached is what the stream holds. *)
Lemma msg_at_prefix (s : kstate) L L2 k r : log s = L ++ L2 -> Forall keyed L -> 0 < r ->
  r <= default 0 (je_revision <$> last L) -> msg_at k r (log s) = msg_at k r L.
Proof using HJL.
  intros Hlog Hk Hr Hle. unfold msg_at. rewrite Hlog, filter_app. rewrite (filter_none _ L2); [by rewrite app_nil_r|].
  intros m Hm [_ Hmr]. destruct L as [|m0 L _] using rev_ind; [simpl in Hle; lia|]. rewrite last_snoc in Hle. simpl in Hle.
  pose proof (js_sorted (k_js s)) as Hs. fold (log s) in Hs. rewrite Hlog, <- app_assoc in Hs.
  apply StronglySorted_app_1_r in Hs. inversion Hs as [|?? _ Hall]; subst.
  rewrite Forall_forall in Hall. specialize (Hall m). simpl in Hall. assert (je_revision m0 < je_revision m) by (by apply Hall). lia.
Qed.

(** One item of the index, as the scan looks at it. *)
Definition item_op (r : Z) (k : string) (v : list seqOp) : option (string * Z) :=
  (fun o => (k, so_seq o)) <$> getSeqOp v r false.
Definition live_at (L : list jentry) (r : Z) (k : string) : option jentry :=
  m ← msg_at k r L; _ ← stored_value m; Some m.

Lemma list_loop_scan key e limit r items acc :
  list_loop key e limit r items acc = scan_loop (item_op r) key e limit items acc.
Proof.
  revert acc. induction items as [|[k v] items IH]; intros acc; [done|]. cbn [list_loop scan_loop].
  assert (Hi : item_op r k v = (fun o => (k, so_seq o)) <$> getSeqOp v r false) by done. rewrite Hi.
  fold (stop key e k). destruct (stop key e k); [done|]. destruct (getSeqOp v r false); cbn [fmap option_fmap option_map]; by rewrite IH.
Qed.

Lemma item_op_live hsize (s : kstate) L L2 r k v : (0 < hsize)%nat -> log s = L ++ L2 -> Forall keyed (log s) ->
  indexes hsize (k_index s) L -> 0 < r -> (length (filter (fun m => Key m = k /\ (r < je_revision m)%Z) L) < hsize)%nat ->
  om_Get (bt (k_index s)) k = Some v -> item_op r k v = (fun m => (Key m, je_revision m)) <$> live_at L r k.
Proof using HJL HML.
  intros Hh Hlog Hk Hi Hr Hret Hv. assert (HkL : Forall keyed L) by (rewrite Hlog in Hk; by apply Forall_app in Hk as [? _]).
  destruct Hi as [Hb _]. rewrite Hb in Hv.
  assert (Hv' : v = recent hsize (ops_of k L)) by (rewrite <- default_window, Hv; done). subst v.
  assert (HsL : StronglySorted (fun a b => je_revision a < je_revision b) L).
  { pose proof (js_sorted (k_js s)) as Hs. fold (log s) in Hs. rewrite Hlog in Hs. by apply StronglySorted_app_1_l in Hs. }
  unfold item_op, live_at. rewrite window_lookup; [|done|by apply ops_sorted]. rewrite newer_le, decide_True by done.
  unfold lookup_op. rewrite last_up_to by done. destruct (msg_at k r L) as [m|] eqn:Em; [|done]. simpl.
  unfold msg_at in Em. apply last_Some_elem_of, list_elem_of_filter in Em as [[Hkm _] Hin]. subst k.
  rewrite Forall_forall in HkL. destruct (keyed_op m (HkL _ Hin)) as (o & Ho & Hseq & Hlive). rewrite Ho.
  case_bool_decide as Hop; destruct (stored_value m) as [kv|]; simpl.
  - by rewrite Hseq.
  - apply Hlive in Hop as [? ?]. done.
  - exfalso. apply Hop, Hlive. by eexists.
  - done.
Qed.

(** What a prefix of the stream reached lies in it. *)
Lemma reached_in (Lf L rest : list jentry) m r : Lf = L ++ rest ->
  StronglySorted (fun a b => je_revision a < je_revision b) Lf -> 0 < r -> r <= default 0 (je_revision <$> last L) ->
  m ∈ Lf -> je_revision m <= r -> m ∈ L.
Proof using Type.
  intros Hf Hs Hr Hreach Hm Hmr. rewrite Hf in Hm. apply elem_of_app in Hm as [Hm|Hm]; [done|].
  destruct L as [|m0 L _] using rev_ind; [simpl in Hreach; lia|]. rewrite last_snoc in Hreach. simpl in Hreach.
  rewrite Hf in Hs. pose proof (StronglySorted_app_1_elem_of (fun a b => je_revision a < je_revision b)
    (L ++ [m0]) rest m0 m Hs ltac:(apply elem_of_app; right; by apply list_elem_of_singleton) Hm). simpl in *. lia.
Qed.

Section env.
Variable hsize : nat.
Hypothesis hsize_pos : (0 < hsize)%nat.
Hypothesis keeps : JetStreamKeeps J hsize.
Hypothesis one_replica : js_replicas (J:=J) = 1.
Variable env : kstate -> kstate -> Prop.
Hypothesis env_ok : forall s s' L, env s s' -> views hsize s L -> Forall keyed (log s) ->
  (exists l, log s' = log s ++ l) /\ Forall keyed (log s') /\ exists l, views hsize s' (L ++ l).

Lemma rtc_views s s' L : rtc env s s' -> views hsize s L -> Forall keyed (log s) ->
  (exists l, log s' = log s ++ l) /\ Forall keyed (log s') /\ exists l, views hsize s' (L ++ l).
Proof using env_ok.
  intros Hrtc. revert L. induction Hrtc as [s|s s1 s2 Hs _ IH]; intros L Hv Hk.
  - split; [exists []; by rewrite app_nil_r|]. split; [done|]. exists []. by rewrite app_nil_r.
  - destruct (env_ok _ _ _ Hs Hv Hk) as ((l1 & E1) & Hk1 & l2 & Hv1).
    destruct (IH _ Hv1 Hk1) as ((l3 & E3) & Hk2 & l4 & Hv2). split; [exists (l1 ++ l3); by rewrite E3, E1, app_assoc|].
    split; [done|]. exists (l2 ++ l4). by rewrite app_assoc.
Qed.

Lemma reads_list_entries ms : reads (list_entries ms).
Proof using Type.
  induction ms as [|[k seq] ms IH]; [done|]. cbn [list_entries]. apply reads_bind.
  - unfold getRevision. destruct (Encode encode58 k) as [ek [?|]]; [done|]. by destruct (seq <=? 0).
  - intros [entry|e]; [|by destruct (is_nats e ErrKeyNotFound)]. apply reads_bind; [done|]. by intros [? ?].
Qed.

(** Fetching the entries: every one is still kept, so the answer is all of
    them or an error. *)
Definition kept (Lf : list jentry) (m : jentry) : Prop :=
  m ∈ Lf /\ je_op m = KeyValuePut /\ Encode encode58 (Key m) = (je_key m, None) /\
  forall l1 l2 l3, Lf = (l1 ++ m :: l2) ++ l3 -> (length (filter (fun x => je_key x = je_key m) l2) < hsize)%nat.

Lemma list_entries_exec ms s L x s' : views hsize s L -> Forall keyed (log s) ->
  Forall (fun m => m ∈ log s /\ 0 < je_revision m /\ kept (log s') m) ms ->
  exec_in env (list_entries ((fun m => (Key m, je_revision m)) <$> ms)) s x s' ->
  rtc env s s' /\ (x = Some (ms, None) \/ exists e, x = Some ([], Some e)).
Proof using env_ok keeps one_replica hsize_pos.
  revert s L x. induction ms as [|m ms IH]; intros s L x Hv Hk Hms Hex.
  { apply exec_Ret_inv in Hex as [-> ->]. split; [done|]. by left. }
  rewrite fmap_cons in Hex. cbn [list_entries] in Hex. inversion Hms as [|?? (Hin & Hpos & Hm) Hms']; subst.
  destruct Hm as (HinF & Hop & HE & Hkeep).
  unfold getRevision in Hex. rewrite HE in Hex. destruct (Z.leb_spec (je_revision m) 0); [lia|].
  apply exec_inv in Hex as (s1 & H1 & _ & Hex). simpl in Hex.
  destruct (rtc_views _ _ _ H1 Hv Hk) as ((l1 & E1) & Hk1 & l2 & Hv1).
  assert (Hin1 : m ∈ log s1) by (rewrite E1; apply elem_of_app; by left).
  apply list_elem_of_split in Hin1 as (a & b & Hab).
  assert (Hs1 : rtc env s1 s').
  { eapply reads_exec; [|exact Hex]. destruct (js_get_revision _ _ _) as [m'|e].
    - apply reads_bind; [apply reads_list_entries|]. intros [? ?]. done.
    - destruct (is_nats e ErrKeyNotFound); [apply reads_list_entries|done]. }
  destruct (rtc_views _ _ _ Hs1 Hv1 Hk1) as ((l3 & E3) & _).
  assert (Hcount : (length (filter (fun x => je_key x = je_key m) b) < hsize)%nat) by (eapply (Hkeep a b l3); by rewrite E3, Hab).
  destruct (js_keeps one_replica (k_js s1) a m b Hab Hop Hcount) as [Hg|(e & Hg & He)]; rewrite Hg in Hex.
  - assert (Hms1 : Forall (fun m => m ∈ log s1 /\ 0 < je_revision m /\ kept (log s') m) ms).
    { eapply Forall_impl; [exact Hms'|]. intros x0 (Hx & Hx'). split; [|done]. rewrite E1. apply elem_of_app. by left. }
    split; [by trans s1|]. apply exec_bind_inv in Hex as [([ms' err] & s2 & Hl & Hex)|[Hl ->]].
    + apply exec_Ret_inv in Hex as [-> ->]. apply (IH _ _ _ Hv1 Hk1 Hms1) in Hl as [_ [[= -> ->]|(e & [= -> ->])]]; [by left|].
      right. by exists e.
    + apply (IH _ _ _ Hv1 Hk1 Hms1) in Hl as [_ [[= ]|(e & [= ])]].
  - rewrite He in Hex. apply exec_Ret_inv in Hex as [-> ->]. split; [done|]. right. by exists e.
Qed.

Lemma decode_all_live ms : Forall (fun m => is_Some (stored_value m)) ms ->
  decode_all ms = Ret (stored_value <$> ms, None).
Proof using Type.
  induction 1 as [|m ms [kv Hm] _ IH]; [done|]. cbn [decode_all]. rewrite IH, fmap_cons, Hm. unfold stored_value in Hm.
  case_bool_decide; [|done]. destruct (nd_Decode m) as [[nd|]|]; [|done|done]. destruct (ndDelete nd); [done|]. simpl. by rewrite Hm.
Qed.

Lemma decode_all_same ms s x s' : exec_in env (decode_all ms) s x s' -> s' = s.
Proof using Type.
  revert x s'. induction ms as [|m ms IH]; intros x s' Hex; [by apply exec_Ret_inv in Hex as [_ ->]|].
  cbn [decode_all] in Hex. destruct (nd_Decode m) as [[nd|er]|]; cbn [deref] in Hex.
  - apply exec_bind_inv in Hex as [([kvs err] & s1 & Hd & Hex)|[Hd _]]; apply IH in Hd as ->; [|done].
    by apply exec_Ret_inv in Hex as [_ ->].
  - by apply exec_Ret_inv in Hex as [_ ->].
  - by apply exec_inv in Hex as [_ ->].
Qed.

Lemma live_at_spec L r k m : Forall keyed L -> live_at L r k = Some m ->
  m ∈ L /\ Key m = k /\ msg_at k r L = Some m /\ je_op m = KeyValuePut /\
  exists kv, stored_value m = Some kv /\ kvKey kv = k /\ value_at k r L = Some kv.
Proof using Type.
  intros Hk Hl. unfold live_at in Hl. apply bind_Some in Hl as (m' & Hm & Hl). apply bind_Some in Hl as (kv & Hkv & [= ->]).
  pose proof Hm as Hm2. unfold msg_at in Hm2. apply last_Some_elem_of, list_elem_of_filter in Hm2 as [[Hkey _] Hin].
  rewrite Forall_forall in Hk. destruct (Hk _ Hin) as [_ Hput].
  assert (Hop : je_op m = KeyValuePut) by (unfold stored_value in Hkv; by case_bool_decide).
  do 4 (split; [done|]). exists kv. split; [done|]. split; [|unfold value_at; rewrite Hm; done].
  destruct (Hput Hop) as (nd & kv' & Hd & Hnd & Hkk). unfold stored_value in Hkv. rewrite Hd, Hnd in Hkv.
  case_bool_decide; [|done]. destruct (ndDelete nd); [done|]. simplify_eq. done.
Qed.

(** A message that is the last of its key up to [r] is kept while the key has
    fewer than [hsize] messages after [r]. *)
Lemma kept_last (s : kstate) r k m : Forall keyed (log s) -> 0 < r -> live_at (log s) r k = Some m ->
  (length (filter (fun m => Key m = k /\ (r < je_revision m)%Z) (log s)) < hsize)%nat -> kept (log s) m.
Proof using All.
  intros Hk Hr Hl Hret. destruct (live_at_spec _ _ _ _ Hk Hl) as (Hin & <- & Hat & Hop & _).
  split; [done|]. split; [done|]. pose proof Hk as Hk'. rewrite Forall_forall in Hk'. split; [apply Hk', Hin|].
  intros l1 l2 l3 Hsplit. eapply Nat.le_lt_trans; [|exact Hret]. rewrite Hsplit, !filter_app, !length_app.
  pose proof (js_sorted (k_js s)) as Hs. fold (log s) in Hs. rewrite Hsplit in Hs.
  assert (Heq : filter (fun x => je_key x = je_key m) l2 = filter (fun x => Key x = Key m /\ r < je_revision x) l2).
  { apply filter_agree. intros x Hx. assert (Hxin : x ∈ log s) by (rewrite Hsplit; set_solver).
    split.
    - intros Hkey. assert (HKey : Key x = Key m) by (unfold Key; by rewrite Hkey). split; [done|].
      destruct (Z.lt_ge_cases r (je_revision x)) as [|Hle]; [done|]. exfalso.
      assert (Hlt : je_revision m < je_revision x).
      { apply StronglySorted_app_1_l, StronglySorted_app_1_r in Hs. inversion Hs as [|?? _ Hall]; subst.
        rewrite Forall_forall in Hall. by apply Hall. }
      unfold msg_at in Hat. rewrite Hsplit in Hat.
      replace ((l1 ++ m :: l2) ++ l3) with ((l1 ++ [m]) ++ (l2 ++ l3)) in Hat by (by rewrite <- !app_assoc).
      rewrite filter_app in Hat. set (tl := filter _ (l2 ++ l3)) in Hat.
      assert (Hne : x ∈ tl) by (apply list_elem_of_filter; split; [done|set_solver]).
      rewrite last_app_or in Hat. destruct (last tl) as [y|] eqn:El; [|by apply last_None in El; rewrite El in Hne; apply not_elem_of_nil in Hne].
      injection Hat as ->. apply last_Some_elem_of, list_elem_of_filter in El as [_ Hy].
      assert (Hlt2 : je_revision m < je_revision m); [|lia].
      rewrite <- app_assoc in Hs. simpl in Hs. apply StronglySorted_app_1_r in Hs. inversion Hs as [|?? _ Hall]; subst.
      rewrite Forall_forall in Hall. by apply Hall.
    - intros [HKey _]. destruct (Hk' _ Hxin) as [Hx1 _], (Hk' _ Hin) as [Hm1 _]. congruence. }
  rewrite Heq, filter_cons. case_decide; simpl; lia.
Qed.

(** The scan of an index that has reached [r] finds the live messages. *)
Lemma scanned_live (s : kstate) L r key e Lf l3 : views hsize s L -> Forall keyed Lf -> Lf = log s ++ l3 ->
  StronglySorted (fun a b => je_revision a < je_revision b) Lf ->
  0 < r -> r <= lastSeq (k_index s) ->
  (forall k, (length (filter (fun m => Key m = k /\ (r < je_revision m)%Z) Lf) < hsize)%nat) ->
  let ms := omap (fun p => live_at Lf r p.1) (filter (fun p => in_list_range p.1 key e) (om_Seek (bt (k_index s)) key)) in
  scanned (item_op r) key e (om_Seek (bt (k_index s)) key) = (fun m => (Key m, je_revision m)) <$> ms.
Proof using All.
  intros [(L2 & Hlog) Hi] Hk Hf Hs Hr Hreach Hret. cbv zeta. unfold scanned.
  assert (HkL : Forall keyed (log s)) by (rewrite Hf in Hk; by apply Forall_app in Hk as [? _]).
  assert (HkL1 : Forall keyed L) by (rewrite Hlog in HkL; by apply Forall_app in HkL as [? _]).
  assert (Hat : forall k, msg_at k r Lf = msg_at k r L).
  { intros k. unfold msg_at. rewrite Hf, Hlog, <- app_assoc, filter_app, (filter_none _ (L2 ++ l3)); [by rewrite app_nil_r|].
    rewrite (all_indexed _ _ _ HkL1 Hi) in Hreach. intros m Hm [_ Hmr].
    destruct L as [|m0 L _] using rev_ind; [simpl in Hreach; lia|]. rewrite last_snoc in Hreach. simpl in Hreach.
    assert (je_revision m0 < je_revision m); [|lia]. rewrite Hf, Hlog, <- app_assoc in Hs.
    refine (StronglySorted_app_1_elem_of (fun a b => je_revision a < je_revision b) (L ++ [m0]) (L2 ++ l3) m0 m Hs _ Hm). set_solver. }
  rewrite list_fmap_omap. apply list_omap_ext, Forall_Forall2_diag, Forall_forall. intros [k v] [_ [_ Hin]%list_elem_of_filter]%list_elem_of_filter.
  apply om_Items_Get in Hin. simpl. rewrite (item_op_live hsize s L L2 r k v); [|done..| |done].
  - f_equal. unfold live_at. by rewrite Hat.
  - eapply Nat.le_lt_trans; [|exact (Hret k)]. rewrite Hf, Hlog, <- app_assoc, (filter_app _ L), length_app. lia.
Qed.

Lemma run_checkRevision r s x s' : 0 < r -> exec_in env (checkRevision "" r) s x s' ->
  rtc env s s' /\ exists err, x = Some err /\ (err = None -> exists s1, rtc env s s1 /\ rtc env s1 s' /\ r <= lastSeq (k_index s1)).
Proof using All.
  intros Hr Hex. unfold checkRevision in Hex. cbn [String.eqb pbind] in Hex. rewrite (proj2 (Z.gtb_lt r 0)) in Hex by lia.
  apply exec_inv in Hex as (s1 & H1 & _ & Hex). simpl in Hex. destruct (Z.gtb_spec r (lastSeq (k_index s1))).
  { apply exec_Ret_inv in Hex as [-> ->]. split; [done|]. by eexists. }
  apply exec_inv in Hex as (s2 & H2 & _ & Hex). simpl in Hex.
  assert (Hx : exists err, x = Some err /\ s' = s2) by (destruct (r <? k_compact s2); apply exec_Ret_inv in Hex as [-> ->]; eauto).
  destruct Hx as (err & -> & ->). split; [by trans s1|]. exists err. split; [done|]. intros _. by exists s1.
Qed.

Lemma reach_mono s1 s2 L r : views hsize s1 L -> Forall keyed (log s1) -> rtc env s1 s2 -> 0 < r ->
  r <= lastSeq (k_index s1) -> exists L', views hsize s2 L' /\ r <= lastSeq (k_index s2).
Proof using All.
  intros Hv Hk H12 Hr Hreach. destruct (rtc_views _ _ _ H12 Hv Hk) as (_ & Hk2 & l & Hv2). exists (L ++ l). split; [done|].
  destruct Hv as [[l1 E1] Hi1], Hv2 as [[l2 E2] Hi2].
  rewrite E1 in Hk. apply Forall_app in Hk as [Hk _]. rewrite E2 in Hk2. apply Forall_app in Hk2 as [Hk2 _].
  rewrite (all_indexed _ _ _ Hk Hi1) in Hreach. rewrite (all_indexed _ _ _ Hk2 Hi2).
  destruct L as [|m0 L _] using rev_ind; [simpl in Hreach; lia|]. rewrite last_snoc in Hreach. simpl in Hreach.
  rewrite last_app. destruct (last l) as [m|] eqn:El; [|rewrite last_snoc; simpl; lia]. simpl.
  pose proof (js_sorted (k_js s2)) as Hs. fold (log s2) in Hs. rewrite E2, <- app_assoc in Hs.
  pose proof (StronglySorted_app_1_elem_of (fun a b => je_revision a < je_revision b) (L ++ [m0]) (l ++ l2) m0 m Hs
    ltac:(apply elem_of_app; right; by apply list_elem_of_singleton)
    ltac:(apply elem_of_app; left; by apply last_Some_elem_of)). simpl in *. lia.
Qed.

(** The live messages of the range in a stream, listed from an index that has
    reached [r]. *)
Definition live_listing (st : index (M:=M)) (Lf : list jentry) (r : Z) (key e : string) : list jentry :=
  omap (fun p => live_at Lf r p.1) (filter (fun p => in_list_range p.1 key e) (om_Seek (bt st) key)).
Definition value (m : jentry) : KeyValue := default zeroKV (stored_value m).

Lemma live_listing_in (s : kstate) L r key e Lf rest m : indexes hsize (k_index s) L -> Forall keyed Lf -> Lf = L ++ rest ->
  StronglySorted (fun a b => je_revision a < je_revision b) Lf -> 0 < r -> r <= lastSeq (k_index s) ->
  m ∈ live_listing (k_index s) Lf r key e <-> in_list_range (Key m) key e /\ live_at Lf r (Key m) = Some m.
Proof using HML.
  intros Hi Hk Hf Hs Hr Hreach. unfold live_listing. rewrite list_elem_of_omap.
  assert (HkL : Forall keyed L) by (rewrite Hf in Hk; by apply Forall_app in Hk as [? _]).
  rewrite (all_indexed _ _ _ HkL Hi) in Hreach. split.
  - intros ([k v] & [Hrg Hin]%list_elem_of_filter & Hl). simpl in *.
    destruct (live_at_spec _ _ _ _ Hk Hl) as (_ & -> & _). done.
  - intros [Hrg Hl]. destruct (live_at_spec _ _ _ _ Hk Hl) as (Hin & _ & Hat & _).
    assert (Hmr : je_revision m <= r) by (unfold msg_at in Hat; by apply last_Some_elem_of, list_elem_of_filter in Hat as [[_ ?] _]).
    assert (HmL : m ∈ L) by by eapply reached_in.
    destruct Hi as [Hb _]. assert (Hget : is_Some (om_Get (bt (k_index s)) (Key m))).
    { rewrite Hb. rewrite Forall_forall in HkL. destruct (keyed_op m (HkL _ HmL)) as (o & Ho & _).
      assert (Ho' : o ∈ ops_of (Key m) L) by (apply list_elem_of_omap; eauto).
      destruct (ops_of (Key m) L); [by apply not_elem_of_nil in Ho'|]. by eexists. }
    destruct Hget as [v Hv]. exists (Key m, v). split; [|done]. apply list_elem_of_filter. split; [done|].
    apply list_elem_of_filter. split; [by eapply in_list_range_ge|]. by apply om_Items_Get.
Qed.

Lemma live_listing_sorted st Lf r key e : Forall keyed Lf -> StronglySorted str_lt (Key <$> live_listing st Lf r key e).
Proof using HML.
  intros Hk. unfold live_listing, om_Seek.
  set (its := filter _ _).
  assert (Heq : omap (fun p => live_at Lf r p.1) its = omap (live_at Lf r) (its.*1)).
  { clearbody its. induction its as [|p its IH]; [done|]. simpl. destruct (live_at Lf r p.1); [f_equal|]; exact IH. }
  rewrite Heq. apply omap_keys_sorted.
  - intros k m Hm. by apply (live_at_spec _ _ _ _ Hk) in Hm as (_ & ? & _).
  - apply keys_sorted_filter, keys_sorted_filter, om_Items_sorted.
Qed.

(** The store's own listing at a revision. *)
Lemma list_exec key e limit r s L x s' : 0 < r -> key <> "" -> views hsize s L -> Forall keyed (log s) ->
  exec_in env (NatsKv.List key e limit r) s x s' ->
  rtc env s s' /\
  ((forall k, (length (filter (fun m => Key m = k /\ (r < je_revision m)%Z) (log s')) < hsize)%nat) ->
   exists ms err, x = Some (ms, err) /\ (err = None ->
     exists s1 L1, rtc env s s1 /\ rtc env s1 s' /\ views hsize s1 L1 /\ r <= lastSeq (k_index s1) /\
       ms = limited limit (live_listing (k_index s1) (log s') r key e))).
Proof using All.
  intros Hr Hkey Hv Hk Hl. apply exec_bind_inv in Hl as [(err' & s2 & Hc & Hl)|[Hc ->]];
     apply (run_checkRevision _ _ _ _ Hr) in Hc as [H2 (err2 & [= <-] & Hreach)].
  destruct err' as [er|]; cbn [is_err] in Hl.
  { apply exec_Ret_inv in Hl as [-> ->]. split; [done|]. by do 2 eexists. }
  destruct (Hreach eq_refl) as (s1 & H1 & H12 & Hle).
  destruct (rtc_views _ _ _ H1 Hv Hk) as (_ & Hk1 & l1 & Hv1).
  apply exec_inv in Hl as (s3 & H3 & _ & Hl). simpl in Hl.
  assert (H13 : rtc env s1 s3) by by trans s2.
  destruct (reach_mono _ _ _ _ Hv1 Hk1 H13 Hr Hle) as (L3 & Hv3 & Hle3).
  destruct (rtc_views _ _ _ H13 Hv1 Hk1) as (_ & Hk3 & _).
  unfold iter_items in Hl. rewrite (proj2 (String.eqb_neq key "")) in Hl by done.
  assert (Hl' : exec_in env (list_entries (list_loop key e limit r (om_Seek (bt (k_index s3)) key) [])) s3 x s')
    by by destruct (om_Seek (bt (k_index s3)) key).
  clear Hl. pose proof (reads_exec _ _ _ _ _ (reads_list_entries _) Hl') as [H3' _].
  split; [etrans; [done|by etrans]|]. intros Hret.
  destruct (rtc_views _ _ _ H3' Hv3 Hk3) as ((l4 & E4) & Hk4 & _).
  pose proof (js_sorted (k_js s')) as Hsort. fold (log s') in Hsort.
  rewrite list_loop_scan, scan_spec in Hl'; [|apply om_Seek_sorted|apply om_Seek_ge|simpl; lia].
  rewrite (scanned_live s3 L3 r key e (log s') l4), app_nil_l, limited_fmap in Hl' by done.
  fold (live_listing (k_index s3) (log s') r key e) in Hl'.
  eapply list_entries_exec in Hl' as (_ & [->|(er & ->)]); [| |exact Hv3|done|].
  - do 2 eexists. split; [done|]. intros _. exists s3, L3. split; [by trans s1|]. done.
  - by do 2 eexists.
  - apply Forall_limited, Forall_forall. intros m Hm. destruct Hv3 as [(rest & E3) Hi3].
    apply (live_listing_in s3 L3 r key e (log s') (rest ++ l4)) in Hm as [_ Hm]; [|done|done|by rewrite E4, E3, app_assoc|done..].
    destruct (live_at_spec _ _ _ _ Hk4 Hm) as (Hin & _ & Hat & _).
    split; [|split; [|by eapply kept_last]].
    + rewrite E3. apply elem_of_app. left. rewrite E3 in Hk3. apply Forall_app in Hk3 as [Hk3 _].
      rewrite (all_indexed _ _ _ Hk3 Hi3) in Hle3.
      apply (reached_in (log s') L3 (rest ++ l4) m r); [by rewrite E4, E3, app_assoc|done..|].
      unfold msg_at in Hat. by apply last_Some_elem_of, list_elem_of_filter in Hat as [[_ ?] _].
    + pose proof (js_positive (k_js s')) as Hp. fold (log s') in Hp. rewrite Forall_forall in Hp. by apply Hp.
Qed.

(** C12. A list at a revision on a bucket with one replica (the default), while
    other clients write and the index catches up with them: it always answers;
    without an error the answer is, at that revision, the live values of the
    range in key order, cut at the limit, given that no key of the store has
    [hsize] or more messages after the revision when the list ends, and that
    every value is stored under the key its subject stands for (as it is for
    keys that are valid UTF-8).  On more replicas the bucket's direct reads may
    be answered by a server that lags behind and finds nothing, and then the
    list leaves the key out. *)
Theorem nats_list_snapshot key e limit r keysOnly s L x s' :
  0 < r -> key <> "" -> views hsize s L -> Forall keyed (log s) ->
  exec_in env (NatsBackend.List key e limit r keysOnly) s x s' ->
  (forall k, (length (filter (fun m => Key m = k /\ (r < je_revision m)%Z) (log s')) < hsize)%nat) ->
  exists n kvs err, x = Some (n, kvs, err) /\ (err = None ->
    n = r /\ exists l, StronglySorted str_lt (kvKey <$> l) /\
    (forall kv, kv ∈ l <-> in_list_range (kvKey kv) key e /\ value_at (kvKey kv) r (log s') = Some kv) /\
    kvs = Some <$> limited limit l).
Proof using All.
  intros Hr Hkey Hv Hk Hex Hret.
  assert (Hret' : forall s1, rtc env s s1 -> rtc env s1 s' ->
    forall k, (length (filter (fun m => Key m = k /\ (r < je_revision m)%Z) (log s1)) < hsize)%nat).
  { intros s1 H1 H1' k. destruct (rtc_views _ _ _ H1 Hv Hk) as (_ & Hk1 & l1 & Hv1).
    destruct (rtc_views _ _ _ H1' Hv1 Hk1) as ((l2 & E2) & _). eapply Nat.le_lt_trans; [|exact (Hret k)].
    rewrite E2, filter_app, length_app. lia. }
  apply exec_bind_inv in Hex as [([ms err] & s1 & Hl & Hex)|[Hl ->]];
    apply (list_exec _ _ _ _ _ _ _ _ Hr Hkey Hv Hk) in Hl as [H1 Hl].
  2:{ by destruct (Hl Hret) as (? & ? & ? & _). }
  destruct err as [er|]; cbn [is_err] in Hex.
  { apply exec_inv in Hex as (s2 & _ & _ & Hex). apply exec_Ret_inv in Hex as [-> ->]. by do 3 eexists. }
  rewrite (proj2 (Z.gtb_lt r 0)) in Hex by lia.
  assert (H1' : rtc env s1 s').
  { apply exec_bind_inv in Hex as [([kvs [er|]] & s2 & Hd & Hex)|[Hd ->]]; apply decode_all_same in Hd as ->; [| |done].
    - apply exec_inv in Hex as (s3 & H3 & _ & Hex). by apply exec_Ret_inv in Hex as [_ ->].
    - by apply exec_Ret_inv in Hex as [_ ->]. }
  destruct (Hl (Hret' _ H1 H1')) as (ms' & err' & [= <- <-] & Hms).
  destruct (Hms eq_refl) as (s2 & L2 & H2 & H21 & Hv2 & Hle & ->).
  destruct (rtc_views _ _ _ H2 Hv Hk) as (_ & Hk2 & _).
  destruct (rtc_views _ _ _ H21 Hv2 Hk2) as ((l3 & E3) & Hk1 & _).
  pose proof (js_sorted (k_js s1)) as Hsort. fold (log s1) in Hsort. destruct Hv2 as [(l2 & E2) Hi2].
  pose proof (fun m => live_listing_in s2 L2 r key e (log s1) (l2 ++ l3) m Hi2 Hk1
    ltac:(by rewrite E3, E2, app_assoc) Hsort Hr Hle) as Hin.
  assert (Hlive : Forall (fun m => exists kv, stored_value m = Some kv /\ kvKey kv = Key m /\ value_at (Key m) r (log s1) = Some kv)
    (live_listing (k_index s2) (log s1) r key e)).
  { apply Forall_forall. intros m [_ Hm]%Hin. by apply (live_at_spec _ _ _ _ Hk1) in Hm as (_ & _ & _ & _ & Hm). }
  rewrite decode_all_live in Hex.
  2:{ apply Forall_limited. eapply Forall_impl; [exact Hlive|]. intros m (kv & -> & _). by eexists. }
  cbn [pbind is_err] in Hex. apply exec_Ret_inv in Hex as [-> ->]. do 3 eexists. split; [done|]. intros _. split; [done|].
  exists (value <$> live_listing (k_index s2) (log s1) r key e). rewrite Forall_forall in Hlive. split; [|split].
  - rewrite <- list_fmap_compose. erewrite list_fmap_ext; [by apply (live_listing_sorted (k_index s2) (log s1) r key e)|].
    intros i m Hm%list_elem_of_lookup_2. destruct (Hlive _ Hm) as (kv & Hkv & Hkey' & _). unfold value. simpl. by rewrite Hkv.
  - intros kv. rewrite list_elem_of_fmap. split.
    + intros (m & -> & Hm). destruct (Hlive _ Hm) as (kv & Hkv & Hkey' & Hval). apply Hin in Hm as [Hrg _].
      unfold value. rewrite Hkv. simpl. by rewrite Hkey'.
    + intros [Hrg Hval]. unfold value_at in Hval. apply bind_Some in Hval as (m & Hm & Hkv). exists m.
      unfold value. rewrite Hkv. split; [done|]. apply Hin.
      assert (Hkey' : Key m = kvKey kv) by (unfold msg_at in Hm; by apply last_Some_elem_of, list_elem_of_filter in Hm as [[? _] _]).
      rewrite Hkey'. split; [done|]. unfold live_at. rewrite Hm. simpl. by rewrite Hkv.
  - rewrite limited_fmap, <- list_fmap_compose. apply Forall_fmap_ext_1, Forall_limited, Forall_forall.
    intros m Hm. destruct (Hlive _ Hm) as (kv & Hkv & _). unfold value. simpl. by rewrite Hkv.
Qed.
End env.
End list.
