(* ===== verification/NatsWait.v ===== *)
(** * Waiting for the index (pkg/drivers/nats/kv.go, [waitForSequence])

    The caller, the goroutine it starts and the goroutine that fills the index
    take turns at any point.  [sync.Cond] is modelled by the order of its
    steps: [Wait] joins the list of waiters, releases the lock, sleeps and
    takes the lock again; [Broadcast] wakes those in the list and needs no
    lock.  The index goroutine stores a sequence number and then broadcasts. *)
From S2P Require Import Prelude.

(** Where the goroutine is. *)
Inductive gpc : Type := GLock | GCheck | GSelect | GWait | GSleep | GEnd.
#[export] Instance gpc_eq_dec : EqDecision gpc.
Proof. solve_decision. Defined.

(** Where the caller is: at the [select], between [close(stop)] and
    [Broadcast], or returned. *)
Inductive mpc : Type := MSelect | MStop | MRet (timeout : bool).

Record wstate := MkWait {
  w_lastSeq : Z; w_pending : bool; w_locked : bool; w_done : bool; w_stop : bool; w_g : gpc; w_m : mpc
}.

(** The start: the fast path, or the goroutine is started. *)
Definition wait_init (seq lastSeq : Z) : wstate :=
  if lastSeq >=? seq then MkWait lastSeq false false false false GEnd (MRet false)
  else MkWait lastSeq false false false false GLock MSelect.

Definition set_g (g : gpc) (locked : bool) (s : wstate) : wstate :=
  MkWait (w_lastSeq s) (w_pending s) locked (w_done s) (w_stop s) g (w_m s).
Definition set_m (m : mpc) (s : wstate) : wstate :=
  MkWait (w_lastSeq s) (w_pending s) (w_locked s) (w_done s) (w_stop s) (w_g s) m.

(** A woken goroutine takes the lock before it goes on. *)
Definition Broadcast (s : wstate) : wstate :=
  if bool_decide (w_g s = GSleep) then set_g GLock (w_locked s) s else s.

Inductive wait_step (seq : Z) (s : wstate) : wstate -> Prop :=
  | g_lock : w_g s = GLock -> w_locked s = false -> wait_step seq s (set_g GCheck true s)
  | g_reached : w_g s = GCheck -> seq <= w_lastSeq s ->
      wait_step seq s (MkWait (w_lastSeq s) (w_pending s) false true (w_stop s) GEnd (w_m s))
  | g_check : w_g s = GCheck -> w_lastSeq s < seq -> wait_step seq s (set_g GSelect true s)
  | g_stopped : w_g s = GSelect -> w_stop s = true -> wait_step seq s (set_g GEnd false s)
  | g_default : w_g s = GSelect -> w_stop s = false -> wait_step seq s (set_g GWait true s)
  | g_wait : w_g s = GWait -> wait_step seq s (set_g GSleep false s)
  | m_done : w_m s = MSelect -> w_done s = true -> wait_step seq s (set_m (MRet false) s)
  | m_timeout : w_m s = MSelect ->
      wait_step seq s (MkWait (w_lastSeq s) (w_pending s) (w_locked s) (w_done s) true (w_g s) MStop)
  | m_broadcast : w_m s = MStop -> wait_step seq s (set_m (MRet true) (Broadcast s))
  | i_store n : w_pending s = false -> w_lastSeq s < n ->
      wait_step seq s (MkWait n true (w_locked s) (w_done s) (w_stop s) (w_g s) (w_m s))
  | i_broadcast : w_pending s = true ->
      wait_step seq s (let s := Broadcast s in MkWait (w_lastSeq s) false (w_locked s) (w_done s) (w_stop s) (w_g s) (w_m s)).

Definition wait_reach (seq lastSeq : Z) (s : wstate) : Prop := rtc (wait_step seq) (wait_init seq lastSeq) s.

(** What holds at every point. *)
Record wait_inv (seq : Z) (s : wstate) : Prop := {
  wi_done : w_done s = true -> seq <= w_lastSeq s;
  wi_ret : w_m s = MRet false -> seq <= w_lastSeq s;
  wi_lock : w_locked s = bool_decide (w_g s = GCheck \/ w_g s = GSelect \/ w_g s = GWait);
  wi_select : w_m s = MSelect -> w_stop s = false /\ (w_g s = GEnd -> w_done s = true)
}.

Lemma wait_inv_broadcast seq s : wait_inv seq s -> wait_inv seq (Broadcast s).
Proof.
  intros Hi. unfold Broadcast. case_bool_decide as Hg; [|done]. destruct Hi as [H1 H2 H3 H4]. constructor; simpl; [exact H1|exact H2| |].
  - by rewrite H3, Hg.
  - intros Hm. split; [by apply H4|done].
Qed.

Lemma wait_inv_step seq s s' : wait_inv seq s -> wait_step seq s s' -> wait_inv seq s'.
Proof.
  intros Hi Hst. pose proof Hi as [H1 H2 H3 H4].
  destruct Hst as [Hg Hl|Hg Hs|Hg Hs|Hg Hs|Hg Hs|Hg|Hm Hd|Hm|Hm|n Hp Hn|Hp];
    try (apply wait_inv_broadcast in Hi as [? ? ? ?]; constructor; simpl; solve [auto|done]);
    constructor; simpl; rewrite ?Hg in *; auto; try done; try (intros Hm'; destruct (H4 Hm') as [Hs1 Hs2]; split; congruence).
  - intros Hd. specialize (H1 Hd). lia.
  - intros Hm. specialize (H2 Hm). lia.
Qed.

Lemma wait_reach_inv seq lastSeq s : wait_reach seq lastSeq s -> wait_inv seq s.
Proof.
  intros Hr. assert (Hi : wait_inv seq (wait_init seq lastSeq)).
  { unfold wait_init. destruct (Z.geb_spec lastSeq seq); by constructor. }
  unfold wait_reach in Hr. induction Hr as [s|s1 s2 s3 Hst _ IH]; [done|]. apply IH. by eapply wait_inv_step.
Qed.

(** Waiting for the index, at every interleaving: when the wait reports
    success the index has reached the sequence; the lock is held exactly
    between the goroutine's check and its sleep; and once the sequence is
    reached a goroutine that has not yet looked at it ends the wait with
    success. *)
Theorem nats_wait_sound seq lastSeq s : wait_reach seq lastSeq s ->
  (w_m s = MRet false -> seq <= w_lastSeq s) /\
  (w_locked s = true <-> w_g s = GCheck \/ w_g s = GSelect \/ w_g s = GWait) /\
  (w_m s = MSelect -> seq <= w_lastSeq s -> w_g s = GLock \/ w_g s = GCheck \/ w_g s = GEnd ->
   exists s', rtc (wait_step seq) s s' /\ w_m s' = MRet false).
Proof.
  intros [H1 H2 H3 H4]%wait_reach_inv. split; [done|]. split; [rewrite H3; apply bool_decide_eq_true|].
  intros Hm Hs Hg.
  assert (Hend : forall s, w_m s = MSelect -> w_done s = true -> exists s', rtc (wait_step seq) s s' /\ w_m s' = MRet false).
  { intros s0 Hm0 Hd0. eexists. split; [by apply rtc_once, m_done|done]. }
  assert (Hcheck : forall s, w_m s = MSelect -> seq <= w_lastSeq s -> w_g s = GCheck ->
    exists s', rtc (wait_step seq) s s' /\ w_m s' = MRet false).
  { intros s0 Hm0 Hs0 Hg0. edestruct Hend as (s' & Hr & Hret); [| |exists s'; split; [|done]].
    3: eapply rtc_l; [by apply g_reached|exact Hr]. all: done. }
  destruct Hg as [Hg|[Hg|Hg]]; [|by apply Hcheck|apply Hend; [done|by apply H4]].
  destruct (Hcheck (set_g GCheck true s)) as (s' & Hr & Hret); [done..|]. exists s'. split; [|done].
  eapply rtc_l; [|exact Hr]. apply g_lock; [done|]. rewrite H3, Hg. done.
Qed.

Lemma nats_wait_sound_witness : exists s, wait_reach 5 3 s /\ w_m s = MSelect /\
  exists s', rtc (wait_step 5) s s' /\ w_m s' = MRet false.
Proof.
  set (s := MkWait 5 true false false false GLock MSelect). exists s.
  assert (Hr : wait_reach 5 3 s) by (apply rtc_once; by apply (i_store 5 (wait_init 5 3) 5)).
  split; [done|]. split; [done|]. destruct (nats_wait_sound 5 3 s Hr) as (_ & _ & H). by apply H; [|simpl; lia|left].
Defined.

(** The lost wakeup: the index may reach the sequence, and broadcast it,
    between the goroutine's check and its sleep, because the broadcast does
    not take the lock.  The goroutine then sleeps although the sequence is
    reached, and only a further sequence or the timer ends the wait: every
    step that neither stores a sequence nor lets the timer fire is gone. *)
Theorem nats_wait_lost_wakeup : exists s, wait_reach 5 3 s /\ 5 <= w_lastSeq s /\ w_g s = GSleep /\ w_m s = MSelect /\
  forall s', wait_step 5 s s' -> w_stop s' = true \/ w_lastSeq s < w_lastSeq s'.
Proof.
  exists (MkWait 5 false false false false GSleep MSelect). split; [|split; [simpl; lia|split; [done|split; [done|]]]].
  - eapply rtc_l; [by apply g_lock|]. eapply rtc_l; [by apply g_check|]. eapply rtc_l; [by apply g_default|].
    eapply rtc_l; [by apply (i_store 5 _ 5)|]. eapply rtc_l; [by apply i_broadcast|]. by apply rtc_once, g_wait.
  - intros s' Hst. inversion Hst; subst; simpl in *; try done; auto.
Qed.
