(* ===== verification/NatsTheorems.v ===== *)
(** * The NATS backend: what it guarantees, and where it does not *)
From S2P Require Import Prelude Types GoStrings Prog OrderedMap NatsCodec ExpireHeap NatsKv NatsBackend NatsProofs.

Section theorems.
Context `{HN : NatsEnv} `{HNL : !NatsEnvLaws}.
Context {M : Type -> Type} `{HM : OrderedMap M}.
Context {J : Type} `{HJ : !JetStream J} `{HJL : !JetStreamLaws J}.
Local Abbreviation kstate := (kstate (M:=M) (J:=J)).

Section env.
Variable env : kstate -> kstate -> Prop.
Hypothesis env_ok : forall s s', env s s' -> kgrow s s'.

Lemma expiry_exec {A} key seq lease (a : A) s x s' :
  exec_in env (_ <-! add_expiry key seq lease;; Ret a) s x s' -> x = Some a /\ rtc (calm env) s s'.
Proof using Type.
  unfold add_expiry. destruct (lease >? 0); intros Hex.
  - apply exec_inv in Hex as (s2 & H2 & _ & Hex). simpl in Hex. apply exec_Ret_inv in Hex as [-> ->]. split; [done|].
    trans s2; [by apply rtc_env_calm|]. by apply calm_log.
  - apply exec_Ret_inv in Hex as [-> ->]. done.
Qed.

Lemma revision_exec {A} (f : Z -> A) s x s' :
  exec_in env (r <-! BucketRevision;; Ret (f r)) s x s' -> rtc env s s' /\ exists r, x = Some (f r).
Proof using Type.
  intros Hex. apply exec_inv in Hex as (s2 & H2 & _ & Hex). simpl in Hex. apply exec_Ret_inv in Hex as [-> ->]. eauto.
Qed.

Lemma update_linear key ek v rev lease s x s' :
  Encode encode58 key = (ek, None) -> Forall wf_msg (log s) -> exec_in env (Update key v rev lease) s x s' ->
  exists n okv ok err, x = Some (n, okv, ok, err) /\
  if ok : bool then
    err = None /\ exists s1 s2 kv0 m, rtc (calm env) s s1 /\ rtc (calm env) s2 s' /\
    cur ek (log s1) = Some kv0 /\ kvModRevision kv0 = rev /\ je_key m = ek /\ log s2 = log s1 ++ [m] /\
    okv = Some (MkKeyValue key v 0 (kvCreateRevision kv0) n lease) /\ cur ek (log s2) = json_kv <$> okv
  else err = None -> rtc (calm env) s s' /\
    forall kv, okv = Some kv -> exists s1, rtc (calm env) s s1 /\ rtc (calm env) s1 s' /\ found ek (Some kv) s1.
Proof using env_ok HJL HNL.
  intros HE Hwf Hex. apply exec_bind_inv in Hex as [([[rv nd] err] & s2 & Hget & Hex)|[Hget ->]];
    apply (read_live _ env_ok _ _ _ _ _ HE Hwf) in Hget as (Hs2 & rev' & nd' & err' & [= <- <- <-] & Hres).
  assert (Hc2 : rtc (calm env) s s2) by by apply rtc_env_calm.
  assert (Hquiet : forall s3, rtc env s2 s3 -> rtc (calm env) s s3) by (intros s3 H3; trans s2; [done|by apply rtc_env_calm]).
  destruct err as [e|].
  { apply revision_exec in Hex as (Hs & r & ->). do 4 eexists. split; [done|]. simpl. intros _. split; [by apply Hquiet|done]. }
  destruct nd as [nd|].
  2:{ apply revision_exec in Hex as (Hs & r & ->). do 4 eexists. split; [done|]. simpl. intros _. split; [by apply Hquiet|done]. }
  destruct Hres as (_ & kv & s1 & Hkv & Hmod & Hcr & H1 & H12 & Hcur & Hlater). rewrite Hkv in Hex. cbn [deref] in Hex.
  destruct (Z.eqb_spec (kvModRevision kv) rev) as [Hrev|Hrev]; cbn [negb] in Hex.
  2:{ apply exec_Ret_inv in Hex as [-> ->]. do 4 eexists. split; [done|]. simpl. intros _. split; [done|].
      intros kv' [= <-]. exists s1. split; [by apply rtc_env_calm|]. split; [by apply rtc_env_calm|done]. }
  rewrite Hcr in Hex. set (d := MkND _ _ _ _ _) in Hex.
  destruct (json_Marshal d) as [data|e] eqn:Ej.
  2:{ apply revision_exec in Hex as (Hs & r & ->). do 4 eexists. split; [done|]. simpl. discriminate. }
  apply (cas_exec _ env_ok _ _ _ _ _ _ _ _ _ _ HE) in Hex as
    [(buf & s4 & s5 & s3 & n & t & Hb & H4 & Hseq & Hlog & Hn & H5 & Hex)|[(Hq & n & okv & er & -> & Hv)|(s4 & e & Hex)]];
    [| | | |by intros r; simpl].
  - apply expiry_exec in Hex as [-> Hs]. do 4 eexists. split; [done|]. split; [done|].
    exists s4, s5, kv, (MkJEntry ek buf n t KeyValuePut). split; [by apply Hquiet|].
    split; [trans s3; [by apply rtc_env_calm|done]|]. split; [|split; [done|split; [done|split; [done|split; [done|]]]]].
    + apply Hlater; [etrans; by eapply rtc_env_grow|]. by rewrite Hseq, <- Hmod.
    + pose proof (written_decode d data buf ek n t _ Ej Hb eq_refl) as Hdec. simpl in Hdec. rewrite Hcr in Hdec.
      eapply cur_of_last; [rewrite Hlog, last_of_snoc; simpl; by rewrite decide_True|done|exact Hdec|done|done].
  - do 4 eexists. split; [done|]. simpl. intros ->. split; [by trans s2|]. intros kv' Hk.
    destruct (Hv _ eq_refl Hk) as (s6 & H6 & H7 & Hc). exists s6. split; [by trans s2|done].
  - apply revision_exec in Hex as (Hs & r & ->). do 4 eexists. split; [done|]. simpl. discriminate.
  - exact (wf_grow _ _ (rtc_env_grow env env_ok _ _ Hs2) Hwf).
Qed.

(** C9. Conditional update, interleaved with any other clients of the bucket
    and with an index that lags behind: it always answers; when it succeeds
    it replaced, at one moment, the value with the mod revision given by the
    new one, which keeps the create revision (and whose key is stored as JSON
    strings are: bytes that are not UTF-8 replaced); when it reports a conflict
    nothing was added to the stream, and the value it answers with, if any, is
    one the key had, and on a bucket with one replica, the default, its value
    at a moment of the call: with more replicas the bucket's direct reads may
    be answered by a server that lags behind. *)
Theorem nats_update_linearizable key ek v rev lease s x s' :
  Encode encode58 key = (ek, None) -> Forall wf_msg (log s) -> exec_in env (Update key v rev lease) s x s' ->
  exists n okv ok err, x = Some (n, okv, ok, err) /\
  if ok : bool then
    err = None /\ exists s1 s2 kv0 m, rtc (calm env) s s1 /\ rtc (calm env) s2 s' /\
    cur ek (log s1) = Some kv0 /\ kvModRevision kv0 = rev /\ je_key m = ek /\ log s2 = log s1 ++ [m] /\
    okv = Some (MkKeyValue key v 0 (kvCreateRevision kv0) n lease) /\ cur ek (log s2) = json_kv <$> okv
  else err = None -> rtc (calm env) s s' /\
    forall kv, okv = Some kv -> exists s1, rtc (calm env) s s1 /\ rtc (calm env) s1 s' /\ found ek (Some kv) s1.
Proof using env_ok HJL HNL. by apply update_linear. Qed.

Lemma delete_linear key ek rev s x s' :
  Encode encode58 key = (ek, None) -> Forall wf_msg (log s) -> exec_in env (Delete key rev) s x s' ->
  exists n okv ok err, x = Some (n, okv, ok, err) /\
  match ok, okv with
  | true, Some kv => err = None /\ (rev = 0 \/ kvModRevision kv = rev) /\
      exists s1 s2 s3 s4 m m', rtc (calm env) s s1 /\ cur ek (log s1) = Some kv /\
      je_key m = ek /\ log s2 = log s1 ++ [m] /\ je_revision m = n /\ cur ek (log s2) = None /\
      rtc (calm env) s2 s3 /\ cur ek (log s3) = None /\ je_key m' = ek /\ log s4 = log s3 ++ [m'] /\ cur ek (log s4) = None /\
      rtc (calm env) s4 s'
  | true, None => err = None /\ rtc (calm env) s s' /\ exists s1, rtc (calm env) s s1 /\ rtc (calm env) s1 s' /\ found ek None s1
  | false, Some kv => err = None -> exists s1, rtc (calm env) s s1 /\ found ek (Some kv) s1
  | false, None => True
  end.
Proof using env_ok HJL HNL.
  intros HE Hwf Hex. apply exec_bind_inv in Hex as [([[rv nd] err] & s2 & Hget & Hex)|[Hget ->]];
    apply (read_live _ env_ok _ _ _ _ _ HE Hwf) in Hget as (Hs2 & rev' & nd' & err' & [= <- <- <-] & Hres).
  assert (Hc2 : rtc (calm env) s s2) by by apply rtc_env_calm.
  destruct err as [e|]; [apply exec_Ret_inv in Hex as [-> ->]; do 4 eexists; split; done|].
  destruct nd as [nd|].
  2:{ destruct Hres as (s1 & H1 & H12 & Hn). apply exec_Ret_inv in Hex as [-> ->]. do 4 eexists. split; [done|]. simpl.
      split; [done|]. split; [done|]. exists s1. split; [done|]. split; [by apply rtc_env_calm|done]. }
  destruct Hres as (Hdel & kv & s1 & Hkv & Hmod & Hcr & H1 & H12 & Hcur & Hlater). rewrite Hdel, Hkv in Hex.
  assert (Hval : exists s1, rtc (calm env) s s1 /\ found ek (Some kv) s1) by (exists s1; split; [by apply rtc_env_calm|done]).
  apply exec_bind_inv in Hex as [(stale & s3 & Hst & Hex)|[Hst ->]];
    [|destruct (negb (rev =? 0)); apply exec_Ret_inv in Hst as [? ?]; done].
  assert (Hst' : s3 = s2 /\ stale = (negb (rev =? 0) && negb (kvModRevision kv =? rev))).
  { destruct (negb (rev =? 0)); apply exec_Ret_inv in Hst as [[= ->] ->]; done. }
  destruct Hst' as [-> ->]. clear Hst. destruct (negb (rev =? 0) && negb (kvModRevision kv =? rev)) eqn:Est.
  { apply exec_Ret_inv in Hex as [-> ->]. do 4 eexists. split; [done|]. simpl. auto. }
  set (d := MkND _ _ _ _ _) in Hex. destruct (json_Marshal d) as [data|e] eqn:Ej.
  2:{ apply exec_Ret_inv in Hex as [-> ->]. do 4 eexists; split; done. }
  apply (cas_exec _ env_ok _ _ _ _ _ _ _ _ _ _ HE) in Hex as
    [(buf & s4 & s5 & s6 & n & t & Hb & H4 & Hseq & Hlog & Hn & H5 & Hex)|[(Hq & n & okv & er & -> & Hv)|(s4 & e & Hex)]];
    [| | |exact (wf_grow _ _ (rtc_env_grow env env_ok _ _ Hs2) Hwf)|done].
  - set (m := MkJEntry ek buf n t KeyValuePut) in *.
    assert (Hl5 : last_of ek (log s5) = Some m) by (rewrite Hlog, last_of_snoc; simpl; by rewrite decide_True).
    pose proof (written_decode d data buf ek n t _ Ej Hb eq_refl) as Hdec.
    assert (Hgone : cur ek (log s5) = None) by by eapply cur_deleted.
    apply exec_bind_inv in Hex as [(derr & s7 & Hd & Hex)|[Hd ->]];
      apply (nats_delete_exec _ _ _ _ _ _ _ HE) in Hd as (derr' & [= <-] & Hlaw).
    destruct derr as [e|].
    { destruct (is_nats e jsWrongLastSeqErr).
      - apply revision_exec in Hex as (Hs & r & ->). do 4 eexists; split; done.
      - apply exec_Ret_inv in Hex as [-> ->]. do 4 eexists. split; [done|]. simpl. auto. }
    destruct Hlaw as (s8 & s9 & v' & n' & t' & H8 & H9 & Hseq8 & Hlog9).
    apply exec_Ret_inv in Hex as [-> ->]. do 4 eexists. split; [done|]. simpl. split; [done|].
    split; [apply andb_false_iff in Est as [Est|Est]; apply negb_false_iff, Z.eqb_eq in Est; auto|].
    assert (Hl8 : last_of ek (log s8) = Some m).
    { eapply same_last; [|exact (proj1 (last_of_in _ _ _ Hl5))|apply Hseq8; lia]. etrans; by eapply rtc_env_grow. }
    exists s4, s5, s8, s9, m, (MkJEntry ek v' n' t' KeyValueDelete).
    split; [trans s2; [done|by apply rtc_env_calm]|].
    split; [apply Hlater; [etrans; by eapply rtc_env_grow|done]|].
    do 4 (split; [done|]). split; [trans s6; by apply rtc_env_calm|].
    split; [by eapply cur_deleted|]. split; [done|]. split; [done|]. split; [|by apply rtc_env_calm].
    unfold cur. rewrite Hlog9, last_of_snoc, decide_True by done. done.
  - do 4 eexists. split; [done|]. destruct okv as [kv'|]; [|done]. intros ->.
    destruct (Hv _ eq_refl eq_refl) as (s6 & H6 & H7 & Hc). exists s6. split; [by trans s2|done].
  - apply exec_Ret_inv in Hex as [-> ->]. do 4 eexists. split; [done|]. simpl. auto.
Qed.

(** C11. Deletion, interleaved with any other clients of the bucket: it always
    answers; when it reports a value deleted, that was the key's value at one
    moment, at the revision given (or none was given), and the tombstone it
    added at that moment leaves the key without a value, as does the delete
    marker it adds later, while the tombstone is still the last message of the
    key; when it reports a deletion without a value it added nothing and found
    a tombstone of the key; a value reported as not deleted is one the key had.
    On a bucket with one replica, the default, what was found was current at a
    moment of the call: with more replicas the bucket's direct reads may be
    answered by a server that lags behind. *)
Theorem nats_delete_linearizable key ek rev s x s' :
  Encode encode58 key = (ek, None) -> Forall wf_msg (log s) -> exec_in env (Delete key rev) s x s' ->
  exists n okv ok err, x = Some (n, okv, ok, err) /\
  match ok, okv with
  | true, Some kv => err = None /\ (rev = 0 \/ kvModRevision kv = rev) /\
      exists s1 s2 s3 s4 m m', rtc (calm env) s s1 /\ cur ek (log s1) = Some kv /\
      je_key m = ek /\ log s2 = log s1 ++ [m] /\ je_revision m = n /\ cur ek (log s2) = None /\
      rtc (calm env) s2 s3 /\ cur ek (log s3) = None /\ je_key m' = ek /\ log s4 = log s3 ++ [m'] /\ cur ek (log s4) = None /\
      rtc (calm env) s4 s'
  | true, None => err = None /\ rtc (calm env) s s' /\ exists s1, rtc (calm env) s s1 /\ rtc (calm env) s1 s' /\ found ek None s1
  | false, Some kv => err = None -> exists s1, rtc (calm env) s s1 /\ found ek (Some kv) s1
  | false, None => True
  end.
Proof using env_ok HJL HNL. by apply delete_linear. Qed.

(** The write of a creation and what follows it, for either way to write. *)
Lemma store_exec (W : kprog (Z * gerr)) (P : kstate -> Prop) ek data key lease s x s' :
  (forall y s3, exec_in env W s y s3 ->
     (s3 = s /\ exists e, y = Some (0, Some e)) \/
     exists buf s4 n err s5, s2_Encode data = inl buf /\ rtc env s s4 /\ y = Some (n, err) /\ rtc env s5 s3 /\
     match err with
     | None => P s4 /\ exists t, log s5 = log s4 ++ [MkJEntry ek buf n t KeyValuePut] /\ 0 < n
     | Some e => if is_nats e jsWrongLastSeqErr then log s5 = log s4 else exists msg, e = ErrOther msg
     end) ->
  exec_in env ('(seq, err) <-! W;;
               match err with
               | Some e => r <-! BucketRevision;; Ret (r, Some (if is_nats e jsWrongLastSeqErr then ErrKeyExists else e))
               | None => _ <-! add_expiry key seq lease;; Ret (seq, None)
               end) s x s' ->
  exists n err, x = Some (n, err) /\
  match err with
  | None => exists buf s4 s5 t, s2_Encode data = inl buf /\ rtc env s s4 /\ rtc (calm env) s5 s' /\ P s4 /\
      log s5 = log s4 ++ [MkJEntry ek buf n t KeyValuePut] /\ 0 < n
  | Some e => e = ErrKeyExists -> rtc (calm env) s s'
  end.
Proof using Type.
  intros HW Hex. apply exec_bind_inv in Hex as [([n er] & s3 & Hup & Hex)|[Hup ->]];
    apply HW in Hup as [(-> & e & [= ])|(buf & s4 & n' & err' & s5 & Hb & H4 & [= ] & H5 & Hlaw)]; subst.
  - apply revision_exec in Hex as (Hs & r & ->). do 2 eexists. split; [done|]. intros _. by apply rtc_env_calm.
  - destruct err' as [e|].
    + apply revision_exec in Hex as (Hs & r & ->). do 2 eexists. split; [done|].
      destruct (is_nats e jsWrongLastSeqErr); [|by destruct Hlaw as [msg ->]]. intros _.
      trans s4; [by apply rtc_env_calm|]. trans s5; [by apply calm_log|]. apply rtc_env_calm. by trans s3.
    + destruct Hlaw as (HP & t & Hlog & Hn). apply expiry_exec in Hex as [-> Hs]. do 2 eexists. split; [done|].
      exists buf, s4, s5, t. do 2 (split; [done|]). split; [trans s3; [by apply rtc_env_calm|done]|]. done.
Qed.

Lemma create_linear key ek v lease s x s' :
  Encode encode58 key = (ek, None) -> Forall wf_msg (log s) -> exec_in env (Create key v lease) s x s' ->
  exists n err, x = Some (n, err) /\
  match err with
  | None => exists s1 s2 m, rtc (calm env) s s1 /\ rtc (calm env) s2 s' /\ cur ek (log s1) = None /\
      je_key m = ek /\ log s2 = log s1 ++ [m] /\ cur ek (log s2) = Some (MkKeyValue (json_string key) v 0 n n lease)
  | Some e => e = ErrKeyExists -> rtc (calm env) s s'
  end.
Proof using env_ok HJL HNL.
  intros HE Hwf Hex. apply exec_bind_inv in Hex as [([[rv nd] err] & s2 & Hget & Hex)|[Hget ->]];
    apply (get_exec _ env_ok _ _ _ _ _ _ _ HE Hwf) in Hget as (Hs2 & rev' & nd' & err' & [= <- <- <-] & Hres).
  assert (Hquiet : forall s3, rtc env s2 s3 -> rtc (calm env) s s3) by (intros s3 H3; apply rtc_env_calm; by trans s2).
  destruct (is_err err && negb _) eqn:Eerr.
  { apply revision_exec in Hex as (Hs & r & ->). do 2 eexists. split; [done|]. destruct err as [e|]; [|done]. auto. }
  assert (Hend : forall d data (P : kstate -> Prop), json_Marshal d = inl data ->
    ndKV d = Some (MkKeyValue key v 0 0 0 lease) -> ndDelete d = false -> ndCreate d = true ->
    (forall s4, rtc env s2 s4 -> P s4 -> cur ek (log s4) = None) ->
    (exists n err, x = Some (n, err) /\
     match err with
     | None => exists buf s4 s5 t, s2_Encode data = inl buf /\ rtc env s2 s4 /\ rtc (calm env) s5 s' /\ P s4 /\
         log s5 = log s4 ++ [MkJEntry ek buf n t KeyValuePut] /\ 0 < n
     | Some e => e = ErrKeyExists -> rtc (calm env) s2 s'
     end) ->
    exists n err, x = Some (n, err) /\
    match err with
    | None => exists s1 s3 m, rtc (calm env) s s1 /\ rtc (calm env) s3 s' /\ cur ek (log s1) = None /\ je_key m = ek /\
        log s3 = log s1 ++ [m] /\ cur ek (log s3) = Some (MkKeyValue (json_string key) v 0 n n lease)
    | Some e => e = ErrKeyExists -> rtc (calm env) s s'
    end).
  { intros d data P Ej Hkv Hdel Hc HP (n & er & -> & Hr). do 2 eexists. split; [done|]. destruct er as [e|].
    - intros He. trans s2; [by apply Hquiet|by apply Hr].
    - destruct Hr as (buf & s4 & s5 & t & Hb & H4 & H5 & Hp & Hlog & Hn).
      exists s4, s5, (MkJEntry ek buf n t KeyValuePut). split; [by apply Hquiet|]. split; [done|].
      split; [by apply HP|]. split; [done|]. split; [done|].
      pose proof (written_decode d data buf ek n t _ Ej Hb Hkv) as Hdec. rewrite Hdel, Hc in Hdec. simpl in Hdec.
      eapply cur_of_last; [rewrite Hlog, last_of_snoc; simpl; by rewrite decide_True|done|exact Hdec|done|done]. }
  destruct nd as [nd|]; cbv beta zeta in Hex.
  - destruct err as [e|]; [done|]. destruct Hres as (s1 & m & nd0 & kv0 & H1 & H12 & Hl & Hop & Hd & Hkv0 & -> & -> & _).
    rewrite own_revs_Delete in Hex. destruct (ndDelete nd0) eqn:Edel; cbn [negb] in Hex.
    2:{ apply exec_Ret_inv in Hex as [-> ->]. do 2 eexists. split; [done|]. intros _. by apply Hquiet. }
    destruct (own_revs_KV (je_revision m) nd0 kv0 Hkv0) as [kv Hkv]. rewrite Hkv in Hex. cbn [deref] in Hex.
    destruct (json_Marshal _) as [data|e] eqn:Ej in Hex.
    2:{ apply revision_exec in Hex as (Hs & r & ->). do 2 eexists. split; [done|]. intros _. by apply Hquiet. }
    eapply (Hend _ data (fun s4 => seq_of (last_of ek (log s4)) = je_revision m)); [exact Ej|done..| |].
    + intros s4 H4 Hseq. eapply cur_deleted; [|done..]. eapply same_last; [|exact (proj1 Hl)|done]. etrans; by eapply rtc_env_grow.
    + eapply store_exec; [|exact Hex]. intros y s3 HW.
      apply (nats_update_exec _ _ _ _ _ _ _ _ HE) in HW as [HW|(buf & s4 & n & er & s5 & Hb & H4 & Hy & H5 & Hlaw)]; [by left|right].
      exists buf, s4, n, er, s5. do 4 (split; [done|]). destruct er as [e|]; [|done].
      destruct (is_nats e jsWrongLastSeqErr); [by destruct Hlaw|done].
  - destruct (json_Marshal _) as [data|e] eqn:Ej in Hex.
    2:{ apply revision_exec in Hex as (Hs & r & ->). do 2 eexists. split; [done|]. intros _. by apply Hquiet. }
    eapply (Hend _ data (fun s4 => forall m, last_of ek (log s4) = Some m -> je_op m <> KeyValuePut)); [exact Ej|done..| |].
    + intros s4 _ Hnone. unfold cur. destruct (last_of ek (log s4)) as [m|] eqn:El; [|done]. simpl. unfold msg_value.
      rewrite bool_decide_false; [done|]. by apply Hnone.
    + eapply store_exec; [|exact Hex]. intros y s3 HW.
      apply (nats_create_exec _ _ _ _ _ _ _ HE) in HW as [HW|(buf & s4 & n & er & s5 & Hb & H4 & Hy & H5 & Hlaw)]; [by left|right].
      exists buf, s4, n, er, s5. do 4 (split; [done|]). destruct er as [e|]; [|done].
      destruct (is_nats e jsWrongLastSeqErr); [by destruct Hlaw|done].
Qed.

(** C10. Creation, interleaved with any other clients of the bucket: it always
    answers; when it succeeds the key had no value at one moment, at which
    the one message it added gives it the new value, created and modified at
    the revision returned, under the key as JSON stores it (itself when it is
    valid UTF-8); when it answers that the key exists it added
    nothing. *)
Theorem nats_create_linearizable key ek v lease s x s' :
  Encode encode58 key = (ek, None) -> Forall wf_msg (log s) -> exec_in env (Create key v lease) s x s' ->
  exists n err, x = Some (n, err) /\
  match err with
  | None => exists s1 s2 m, rtc (calm env) s s1 /\ rtc (calm env) s2 s' /\ cur ek (log s1) = None /\
      je_key m = ek /\ log s2 = log s1 ++ [m] /\ cur ek (log s2) = Some (MkKeyValue (json_string key) v 0 n n lease)
  | Some e => e = ErrKeyExists -> rtc (calm env) s s'
  end.
Proof using env_ok HJL HNL. by apply create_linear. Qed.
End env.

(** What a creation finds when the key's last message is a tombstone and the
    index knows it. *)
Definition half_deleted (key ek : string) (s : kstate) : Prop :=
  (exists m, last_of ek (log s) = Some m /\ je_op m = KeyValuePut) /\
  exists ops o, om_Get (bt (k_index s)) key = Some (ops ++ [o]) /\ so_op o <> KeyValuePut.

(** A deletion that stops between its two writes leaves a tombstone and no
    delete marker; while nobody else writes the key, no creation of it ever
    succeeds from then on, although the key has no value. *)
Theorem nats_half_deleted_stuck (env : kstate -> kstate -> Prop) key ek v lease s x s' :
  (forall s s', env s s' -> half_deleted key ek s -> half_deleted key ek s') ->
  Encode encode58 key = (ek, None) -> half_deleted key ek s -> exec_in env (Create key v lease) s x s' ->
  half_deleted key ek s' /\ exists n e, x = Some (n, Some e).
Proof using HJL.
  intros Henv HE Hs Hex.
  assert (Hrtc : forall s s', rtc env s s' -> half_deleted key ek s -> half_deleted key ek s') by (induction 1; eauto).
  assert (Hkey : String.eqb key "" = false) by (apply String.eqb_neq; by intros ->).
  assert (Hput : forall d s x s', half_deleted key ek s -> exec_in env (
      match json_Marshal d with
      | inr e => r <-! BucketRevision;; Ret (r, Some e)
      | inl data => '(seq, err) <-! NatsKv.Create key data;;
          match err with
          | Some e => r <-! BucketRevision;; Ret (r, Some (if is_nats e jsWrongLastSeqErr then ErrKeyExists else e))
          | None => _ <-! add_expiry key seq lease;; Ret (seq, None)
          end
      end) s x s' -> half_deleted key ek s' /\ exists n e, x = Some (n, Some e)).
  { clear -Hrtc HE HJL. intros d s x s' Hs Hex. destruct (json_Marshal d) as [data|e].
    2:{ apply exec_inv in Hex as (s1 & H1 & _ & Hex). apply exec_Ret_inv in Hex as [-> ->]. split; [by eapply Hrtc|eauto]. }
    unfold NatsKv.Create in Hex. rewrite HE in Hex. destruct (s2_Encode data) as [buf|e].
    2:{ apply exec_inv in Hex as (s1 & H1 & _ & Hex). apply exec_Ret_inv in Hex as [-> ->]. split; [by eapply Hrtc|eauto]. }
    apply exec_inv in Hex as (s1 & H1 & _ & Hex). apply (Hrtc _ _ H1) in Hs. simpl in Hex.
    pose proof (js_create_law ek buf (k_js s1)) as Hl. destruct (js_create ek buf (k_js s1)) as [[n [e|]] j'].
    - simpl in Hex. apply exec_inv in Hex as (s2 & H2 & _ & Hex). apply exec_Ret_inv in Hex as [-> ->]. split; [|eauto].
      eapply Hrtc; [exact H2|]. destruct Hs as [(m & Hm & Hop) Ho]. split; [|done]. exists m. split; [|done].
      unfold log. simpl. destruct (is_nats e jsWrongLastSeqErr); [by destruct Hl as [-> _]|].
      destruct Hl as [_ [->|[Hno _]]]; [done|]. by destruct (Hno _ Hm).
    - exfalso. destruct Hs as [(m & Hm & Hop) _], Hl as [Hno _]. by apply (Hno _ Hm). }
  unfold Create, get, GetRevision, checkRevision in Hex. cbn -[NatsKv.Create] in Hex. rewrite Hkey in Hex.
  apply exec_inv in Hex as (s1 & H1 & _ & Hex). apply (Hrtc _ _ H1) in Hs. simpl in Hex.
  pose proof Hs as [_ (ops & o & Hg & Ho)]. rewrite Hg in Hex. cbn -[NatsKv.Create] in Hex.
  apply exec_inv in Hex as (s2 & H2 & _ & Hex). apply (Hrtc _ _ H2) in Hs. simpl in Hex. clear ops o Hg Ho.
  pose proof Hs as [_ (ops & o & Hg & Ho)]. rewrite Hg in Hex. unfold getSeqOp in Hex. rewrite reverse_snoc in Hex.
  cbn -[NatsKv.Create] in Hex. rewrite bool_decide_true in Hex by done. cbn -[NatsKv.Create] in Hex.
  apply exec_inv in Hex as (s3 & H3 & _ & Hex). apply (Hrtc _ _ H3) in Hs. by apply Hput in Hex.
Qed.

(** The compactor's retention is never applied: from revision 2 on a tick
    does the same whatever number of revisions is to be retained, because it
    passes the current revision, which replaces the computed target. *)
Theorem nats_compact_ignores_retain (s : kstate) retain1 retain2 :
  1 < lastSeq (k_index s) -> run (compactor_tick retain1) s = run (compactor_tick retain2) s.
Proof using Type.
  intros Hs. unfold compactor_tick. cbn -[Compact]. unfold Compact. apply run_bind_ext. intros c s1.
  apply run_bind_ext. intros k s2. apply run_bind_ext. intros [k'|e] s3; [|reflexivity].
  apply run_bind_ext. intros [[rv nd] err] s4. destruct (is_err err); [reflexivity|]. destruct nd as [nd|]; cbn [deref]; [|reflexivity].
  destruct (ndKV nd) as [kv|]; cbn [deref]; [|reflexivity]. destruct (decodeCompactValue (kvValue kv)) as [vers rev].
  by rewrite (proj2 (Z.gtb_lt (lastSeq (k_index s)) 1)).
Qed.
End theorems.
