(* ===== verification/NatsWatch.v ===== *)
(** * What a watch of the NATS driver delivers

    A watch subscribes to the subjects under the last slash of its first key
    and filters what is delivered by the end of the range.  Compared with the
    range that was asked for, the lower bound is never applied. *)
From S2P Require Import Prelude Types GoStrings Prog OrderedMap NatsCodec ExpireHeap NatsKv NatsBackend NatsProofs NatsList.
From Stdlib Require Import Ascii.

Lemma app_char_inj x t y c : no_char c t = true -> t <> "" -> x +:+ t <> y +:+ String c "".
Proof.
  intros Ht Hne. revert y. induction x as [|a x IH]; intros y Heq.
  - rewrite (Heq : t = _), no_char_app in Ht. apply andb_true_iff in Ht as [_ Ht]. simpl in Ht. by rewrite Ascii.eqb_refl in Ht.
  - destruct y as [|b y]; simpl in Heq; injection Heq as -> Heq; [by destruct x, t|]. by apply IH in Heq.
Qed.

Lemma HasSuffix_inv s p : HasSuffix s p = true -> exists x, s = x +:+ p.
Proof.
  unfold HasSuffix. intros [Hl Hd]%andb_true_iff. apply String.eqb_eq in Hd. apply Nat.leb_le in Hl.
  exists (take_str (String.length s - String.length p) s). rewrite <- Hd at 2. clear.
  generalize (String.length s - String.length p)%nat as n. intros n. revert n.
  induction s as [|a s IH]; intros [|n]; simpl; try done. exact (f_equal (String a) (IH n)).
Qed.

Lemma HasSuffix_app x p : HasSuffix (x +:+ p) p = true.
Proof.
  unfold HasSuffix. rewrite length_app_str.
  replace (String.length x + String.length p - String.length p)%nat with (String.length x) by lia.
  rewrite drop_str_app, String.eqb_refl, andb_true_r. apply Nat.leb_le. lia.
Qed.

Lemma LastIndexSlash_none t : no_char slash t = true -> LastIndexSlash t = None.
Proof.
  induction t as [|a t IH]; [done|]. intros [Ha Ht]%andb_true_iff. cbn [LastIndexSlash]. rewrite IH by done.
  apply negb_true_iff, Ascii.eqb_neq in Ha. destruct (Ascii.eqb_spec a slash); congruence.
Qed.

Lemma LastIndexSlash_app x t : no_char slash t = true -> LastIndexSlash (x +:+ String slash t) = Some (String.length x).
Proof.
  intros Ht. induction x as [|a x IH].
  - simpl. by rewrite LastIndexSlash_none.
  - change (LastIndexSlash (String a (x +:+ String slash t)) = Some (S (String.length x))). cbn [LastIndexSlash]. by rewrite IH.
Qed.

Section watch.
Context `{HN : NatsEnv}.

(** The subscription of a watch on a key of the directory [a]. *)
Lemma watch_filter_dir a t : a <> "" -> HasSuffix a "/" = false -> no_char slash t = true ->
  watch_filter ("/" +:+ a +:+ "/" +:+ t) = (dir_subject encode58 a +:+ ".>", None).
Proof.
  intros Ha Hsa Ht. unfold watch_filter.
  assert (Hroot : String.eqb ("/" +:+ a +:+ "/" +:+ t) "/" = false) by (apply String.eqb_neq; by destruct a).
  rewrite Hroot. cbn [negb andb]. destruct (decide (t = "")) as [->|Hne].
  - rewrite string_app_nil_r, <- string_app_assoc, HasSuffix_app, (TrimSuffix_char _ slash).
    assert (He : String.eqb ("/" +:+ a) "" = false) by done. rewrite He.
    unfold EncodeRange. assert (H1 : String.eqb ("/" +:+ a) "/" = false) by (apply String.eqb_neq; by destruct a).
    assert (H2 : String.eqb ("/" +:+ a) noRootPrefix = false) by done. rewrite H1, H2.
    assert (Hs : HasSuffix ("/" +:+ a) "/" = false).
    { apply not_true_is_false. intros [x Hx]%HasSuffix_inv. destruct x as [|b x]; [by destruct a|].
      injection Hx as _ Hx. change (a = x +:+ "/") in Hx. by rewrite Hx, HasSuffix_app in Hsa. }
    unfold TrimSuffix. rewrite Hs. by rewrite Encode_root.
  - assert (Hs : HasSuffix ("/" +:+ a +:+ "/" +:+ t) "/" = false).
    { apply not_true_is_false. intros [x Hx]%HasSuffix_inv.
      rewrite <- !string_app_assoc in Hx. by apply (app_char_inj _ t x slash) in Hx. }
    rewrite Hs. change ("/" +:+ t) with (String slash t). rewrite <- string_app_assoc, LastIndexSlash_app by done.
    assert (Htake : take_str (String.length ("/" +:+ a) + 1) (("/" +:+ a) +:+ String slash t) = "/" +:+ a +:+ "/").
    { change (String slash t) with ("/" +:+ t). rewrite <- string_app_assoc, (string_app_assoc "/" a "/").
      replace (String.length ("/" +:+ a) + 1)%nat with (String.length ("/" +:+ a +:+ "/")) by (rewrite !length_app_str; simpl; lia).
      apply take_str_app. }
    rewrite Htake. assert (He : String.eqb ("/" +:+ a +:+ "/") "" = false) by done. rewrite He. by apply EncodeRange_dir.
Qed.

Hypothesis decode_encode : forall p, p <> "" -> decode58 (encode58 p) = Some p.
Hypothesis encode_no_dot : forall p, no_char dot (encode58 p) = true.
Hypothesis encode_ne : forall p, p <> "" -> encode58 p <> "".

Lemma dir_subject_head a rest : HasPrefix (dir_subject encode58 a +:+ "." +:+ rest) "." = false.
Proof using encode_no_dot encode_ne.
  unfold dir_subject. destruct (Join_Split a slash) as (_ & _ & Hne). change (String slash "") with "/" in Hne.
  destruct (Split a "/") as [|p l]; [done|]. rewrite fmap_cons.
  assert (Hp : encode_part encode58 p <> "" /\ no_char dot (encode_part encode58 p) = true).
  { unfold encode_part. split; [|apply encode_no_dot]. destruct (String.eqb_spec p ""); by apply encode_ne. }
  destruct Hp as [Hp Hd]. destruct (encode_part encode58 p) as [|c w]; [done|]. simpl in Hd. apply andb_true_iff in Hd as [Hc _].
  apply negb_true_iff in Hc. destruct (encode_part encode58 <$> l) as [|y ys].
  - change (HasPrefix (String c (w +:+ "." +:+ rest)) (String dot "") = false). by rewrite HasPrefix_char.
  - change (HasPrefix (String c ((w +:+ "." +:+ Join (y :: ys) ".") +:+ "." +:+ rest)) (String dot "") = false).
    by rewrite HasPrefix_char.
Qed.

(** A message the subscription of the directory [a] matches is one of a key
    under it. *)
Lemma match_dir a m : a <> "" -> HasPrefix (dir_subject encode58 a) noRootPrefix = false -> keyed m ->
  subject_match (dir_subject encode58 a +:+ ".>") (je_key m) = true <-> HasPrefix (Key m) ("/" +:+ a +:+ "/") = true.
Proof using decode_encode encode_no_dot.
  intros Ha Hmeta [HE _]. unfold subject_match. change ".>" with ("." +:+ ">").
  rewrite <- string_app_assoc, HasSuffix_app. change ">" with (String ">"%char "").
  rewrite TrimSuffix_char. cbn [andb]. split.
  - intros Hp%HasPrefix_inv. rewrite string_app_assoc in Hp. rewrite Hp in HE. by eapply Encode_under_inv.
  - intros Hp%HasPrefix_inv. rewrite Hp, !string_app_assoc, Encode_under in HE by done. injection HE as <-.
    rewrite <- string_app_assoc. apply HasPrefix_app.
Qed.

(** C24. A watch whose first key lies in the directory [/a/] (the directory
    itself, one key, or the start of a range) is delivered exactly those
    messages of the stream whose key is under that directory, that are not
    older than its start and the compact revision and, when it has an end, lie
    below it: no message of the range is missed and none of another directory
    is delivered, but the keys below the first one are delivered too, as are
    all the siblings of a single key.  (For messages whose subject decodes to a
    key that encodes to it, and a directory whose encoding does not begin with
    the marker [meta] of keys without a root.) *)
Theorem nats_watch_delivers a t e start compactRev L m :
  a <> "" -> HasSuffix a "/" = false -> no_char slash t = true -> HasPrefix (dir_subject encode58 a) noRootPrefix = false ->
  keyed m ->
  m ∈ subscription L compactRev ("/" +:+ a +:+ "/" +:+ t) e start <->
  m ∈ L /\ HasPrefix (Key m) ("/" +:+ a +:+ "/") = true /\ (start <= 0 \/ start <= je_revision m) /\
  compactRev <= je_revision m /\ (e = "" \/ str_lt (Key m) e).
Proof using decode_encode encode_no_dot encode_ne.
  intros Ha Hsa Ht Hmeta Hk. unfold subscription. rewrite watch_filter_dir by done.
  assert (Hhandler : HasPrefix (Key m) ("/" +:+ a +:+ "/") = true ->
    watch_handler compactRev ("/" +:+ a +:+ "/" +:+ t) e m = Some m <->
    compactRev <= je_revision m /\ (e = "" \/ str_lt (Key m) e)).
  { intros HKey%HasPrefix_inv. destruct Hk as [HE _].
    assert (Hdec : Decode decode58 (je_key m) = (Key m, None)).
    { unfold Key in *. destruct (Decode decode58 (je_key m)) as [dk [er|]]; [|done]. by destruct a. }
    assert (Hsub : exists rest, je_key m = dir_subject encode58 a +:+ "." +:+ rest).
    { rewrite HKey, !string_app_assoc, Encode_under in HE by done. injection HE as <-. by eexists. }
    destruct Hsub as [rest Hsub]. unfold watch_handler. destruct (Z.ltb_spec (je_revision m) compactRev); [split; [done|lia]|].
    assert (Hne : String.eqb (je_key m) "" = false).
    { apply String.eqb_neq. rewrite Hsub. by destruct (dir_subject encode58 a). }
    rewrite Hne. unfold TrimPrefix at 1. rewrite Hsub at 1. rewrite dir_subject_head, Hdec. cbn [is_err orb].
    assert (Hk : String.eqb ("/" +:+ a +:+ "/" +:+ t) "" = false) by done. rewrite Hk. cbn [andb orb].
    unfold str_lt. destruct (String.eqb_spec e "") as [->|He]; cbn [negb andb]; [by split; auto|].
    destruct (String.ltb (Key m) e); cbn [negb]; (split; [intros ?; try done; auto|by intros [_ [?|?]]]). }
  rewrite list_elem_of_omap. split.
  - intros (m' & [[Hm Hst] Hin]%list_elem_of_filter & Hw). assert (m' = m) as ->.
    { unfold watch_handler in Hw. destruct (je_revision m' <? compactRev); [done|].
      destruct (String.eqb (je_key m') ""); [by injection Hw|]. cbv zeta in Hw. revert Hw. by case_match; [|intros [= ->]]. }
    apply match_dir in Hm; [|done..]. by rewrite (Hhandler Hm) in Hw.
  - intros (Hin & Hm & Hst & Hc & He). exists m. split; [|by apply Hhandler]. apply list_elem_of_filter.
    split; [|done]. split; [by apply match_dir|done].
Qed.
End watch.
