(* ===== verification/NatsRuns.v ===== *)
(** * Runs of the NATS driver on the bucket in memory

    The theorems of [NatsIndex], [NatsTheorems] and [NatsList] at concrete
    inputs, with the most general environments they allow. *)
From S2P Require Import Prelude Types GoStrings Prog OrderedMap NatsCodec ExpireHeap NatsKv Server NatsBackend NatsIndex NatsProofs NatsBucket NatsList NatsTheorems NatsWatch.

Definition encodes (key ek : string) : bool :=
  let (ek', err) := Encode encode58 key in String.eqb ek' ek && negb (is_err err).

Lemma encodes_spec key ek : encodes key ek = true -> Encode encode58 key = (ek, None).
Proof. unfold encodes. destruct (Encode encode58 key) as [ek' [e|]]; simpl; intros [Hk ?]%andb_true_iff; [done|]. by apply String.eqb_eq in Hk as ->. Qed.

Definition wf_ok (m : jentry) : bool :=
  if bool_decide (je_op m = KeyValuePut) then
    match nd_Decode m with
    | Some (inl nd) => match ndKV nd with
                       | Some kv => encodes (kvKey kv) (je_key m) && String.eqb (Key m) (kvKey kv) && String.eqb (json_string (kvKey kv)) (kvKey kv)
                       | None => false
                       end
    | _ => false
    end
  else encodes (Key m) (je_key m).

Lemma wf_ok_wf l : forallb wf_ok l = true -> Forall wf_msg l.
Proof.
  rewrite forallb_forall, Forall_forall. intros Hl m Hm Hop. apply list_elem_of_In, Hl in Hm. unfold wf_ok in Hm.
  rewrite bool_decide_true in Hm by done. destruct (nd_Decode m) as [[nd|]|]; [|done|done].
  destruct (ndKV nd) as [kv|] eqn:E; [|done]. apply andb_true_iff in Hm as [[Hm%encodes_spec _]%andb_true_iff Hv%String.eqb_eq]. by exists nd, kv, (kvKey kv).
Qed.

Lemma wf_ok_keyed l : forallb wf_ok l = true -> Forall keyed l.
Proof.
  rewrite forallb_forall, Forall_forall. intros Hl m Hm. apply list_elem_of_In, Hl in Hm. unfold wf_ok, keyed in *.
  case_bool_decide as Hop.
  - destruct (nd_Decode m) as [[nd|]|]; [|done|done]. destruct (ndKV nd) as [kv|] eqn:E; [|done].
    apply andb_true_iff in Hm as [[Hm Hk]%andb_true_iff _]. apply encodes_spec in Hm. apply String.eqb_eq in Hk. rewrite Hk.
    split; [done|]. intros _. by exists nd, kv.
  - apply encodes_spec in Hm. split; [done|]. by intros ?.
Qed.

Definition step {A} (p : kprog A) (s : mstate) : mstate := catch_up (run p s).2.
Definition room : mstate -> bool := fun _ => true.

(** Two keys, the first of them updated. *)
Definition s_two : mstate :=
  step (Update "/r/a" "w" 1 0) (step (Create "/r/b" "x" 0) (step (Create "/r/a" "v" 0) m_init)).

Lemma run_kgrow {A} (p : kprog A) s : run_ok room p s = true -> exec_in kgrow p s (run p s).1 (run p s).2.
Proof. by apply run_exec. Qed.

Lemma nats_update_linearizable_witness : exists n okv, (run (Update "/r/a" "z" 3 0) s_two).1 = Some (n, okv, true, None) /\
  exists (s1 s2 : mstate) kv0 m, cur (Encode w_encode "/r/a").1 (log s1) = Some kv0 /\ kvModRevision kv0 = 3 /\ log s2 = log s1 ++ [m] /\
  cur (Encode w_encode "/r/a").1 (log s2) = json_kv <$> okv.
Proof.
  destruct (nats_update_linearizable kgrow (fun _ _ H => H) "/r/a" (Encode w_encode "/r/a").1 "z" 3 0 s_two
    (run (Update "/r/a" "z" 3 0) s_two).1 (run (Update "/r/a" "z" 3 0) s_two).2) as (n & okv & ok & err & Hx & Hres).
  - by vm_compute.
  - apply wf_ok_wf. by vm_compute.
  - apply run_kgrow. by vm_compute.
  - assert (ok = true) as -> by (vm_compute in Hx; congruence).
    destruct Hres as (-> & s1 & s2 & kv0 & m & _ & _ & H1 & H2 & _ & H3 & _ & H4). exists n, okv. split; [exact Hx|].
    exists s1, s2, kv0, m. repeat split; assumption.
Defined.

Lemma nats_delete_linearizable_witness : exists n kv, (run (Delete "/r/a" 3) s_two).1 = Some (n, Some kv, true, None) /\
  exists (s1 s2 : mstate) m, cur (Encode w_encode "/r/a").1 (log s1) = Some kv /\ log s2 = log s1 ++ [m] /\ je_revision m = n /\
  cur (Encode w_encode "/r/a").1 (log s2) = None.
Proof.
  destruct (nats_delete_linearizable kgrow (fun _ _ H => H) "/r/a" (Encode w_encode "/r/a").1 3 s_two
    (run (Delete "/r/a" 3) s_two).1 (run (Delete "/r/a" 3) s_two).2) as (n & okv & ok & err & Hx & Hres).
  - by vm_compute.
  - apply wf_ok_wf. by vm_compute.
  - apply run_kgrow. by vm_compute.
  - assert (ok = true) as -> by (vm_compute in Hx; congruence).
    destruct okv as [kv|]; [|vm_compute in Hx; congruence].
    destruct Hres as (-> & _ & s1 & s2 & s3 & s4 & m & m' & _ & H1 & _ & H2 & H3 & H4 & _). exists n, kv. split; [exact Hx|].
    exists s1, s2, m. repeat split; assumption.
Defined.

Lemma nats_create_linearizable_witness : exists n, (run (Create "/r/c" "z" 0) s_two).1 = Some (n, None) /\
  exists (s1 s2 : mstate) m, cur (Encode w_encode "/r/c").1 (log s1) = None /\ log s2 = log s1 ++ [m] /\
  cur (Encode w_encode "/r/c").1 (log s2) = Some (MkKeyValue "/r/c" "z" 0 n n 0).
Proof.
  destruct (nats_create_linearizable kgrow (fun _ _ H => H) "/r/c" (Encode w_encode "/r/c").1 "z" 0 s_two
    (run (Create "/r/c" "z" 0) s_two).1 (run (Create "/r/c" "z" 0) s_two).2) as (n & err & Hx & Hres).
  - by vm_compute.
  - apply wf_ok_wf. by vm_compute.
  - apply run_kgrow. by vm_compute.
  - assert (err = None) as -> by (vm_compute in Hx; congruence).
    destruct Hres as (s1 & s2 & m & _ & _ & H1 & _ & H2 & H3). exists n. split; [exact Hx|].
    exists s1, s2, m. repeat split; assumption.
Defined.

(** The stream of [s_two], replayed by a goroutine that has just started. *)
Definition replayed (hsize : nat) (j : stream) : index (M:=samap) :=
  default empty_index (replay hsize (s_log j) empty_index).
Definition s_started : mstate := MkKState (k_js s_two) (replayed 10 (k_js s_two)) 0 [] 0.

Definition replays (hsize : nat) (j : stream) : bool :=
  match replay (M:=samap) hsize (s_log j) empty_index with Some _ => true | None => false end.

Lemma replays_Some hsize j : replays hsize j = true -> replay hsize (s_log j) empty_index = Some (replayed hsize j).
Proof. unfold replays, replayed. by destruct (replay hsize (s_log j) empty_index). Qed.

Lemma replayed_indexes hsize j : (0 < hsize)%nat -> replays hsize j = true -> indexes hsize (replayed hsize j) (s_log j).
Proof. intros Hh Hr%replays_Some. exact (replay_indexes hsize [] (s_log j) _ _ Hh (empty_indexes hsize) Hr). Qed.

Lemma nats_index_lookup_witness :
  (length (newer 1 (ops_of "/r/a" (s_log (k_js s_two)))) = 1)%nat /\
  getSeqOp (default [] (om_Get (bt (replayed 2 (k_js s_two))) "/r/a")) 1 false = Some (MkSeqOp 1 KeyValuePut 0) /\
  getSeqOp (default [] (om_Get (bt (replayed 1 (k_js s_two))) "/r/a")) 1 false = None.
Proof.
  split; [by vm_compute|]. split.
  - destruct (nats_index_lookup 2 (s_log (k_js s_two)) (replayed 2 (k_js s_two)) "/r/a" 1) as [_ Hl];
      [lia|apply stamp_sorted|apply replays_Some; by vm_compute|]. etrans; [exact Hl|by vm_compute].
  - destruct (nats_index_lookup 1 (s_log (k_js s_two)) (replayed 1 (k_js s_two)) "/r/a" 1) as [_ Hl];
      [lia|apply stamp_sorted|apply replays_Some; by vm_compute|]. etrans; [exact Hl|by vm_compute].
Defined.

(** The most general environment of a list. *)
Definition grow_views (hsize : nat) (s s' : mstate) : Prop :=
  forall L, views hsize s L -> Forall keyed (log s) ->
  (exists l, log s' = log s ++ l) /\ Forall keyed (log s') /\ exists l, views hsize s' (L ++ l).

Lemma nats_list_snapshot_witness : exists kvs, (run (NatsBackend.List "/r/" "/r0" 0 3 false) s_started).1 = Some (3, kvs, None) /\
  exists l, StronglySorted str_lt (kvKey <$> l) /\ kvs = Some <$> l /\
  forall kv, kv ∈ l <-> in_list_range (kvKey kv) "/r/" "/r0" /\ value_at (kvKey kv) 3 (log s_started) = Some kv.
Proof.
  destruct (nats_list_snapshot 10 ltac:(lia) (mem_stream_keeps 10) eq_refl (grow_views 10) (fun s s' L H => H L)
    "/r/" "/r0" 0 3 false s_started (s_log (k_js s_two))
    (run (NatsBackend.List "/r/" "/r0" 0 3 false) s_started).1 (run (NatsBackend.List "/r/" "/r0" 0 3 false) s_started).2)
    as (n & kvs & err & Hx & Hres).
  - lia.
  - done.
  - split; [exists []; by rewrite app_nil_r|]. apply replayed_indexes; [lia|by vm_compute].
  - apply wf_ok_keyed. by vm_compute.
  - apply (run_exec _ room); [done|by vm_compute].
  - intros k. eapply Nat.le_lt_trans; [apply length_filter|]. vm_compute. lia.
  - assert (err = None) as -> by (vm_compute in Hx; congruence).
    destruct (Hres eq_refl) as (-> & l & H1 & H2 & H3). exists kvs. split; [exact Hx|]. exists l.
    split; [assumption|]. split; [assumption|]. exact H2.
Defined.

(** A deletion stopped after its first write. *)
Definition s_half : mstate :=
  match json_Marshal (MkND (Some (MkKeyValue "/r/a" "w" 0 1 3 0)) 3 false true 0) with
  | inl data => step (NatsKv.Update "/r/a" data 3) s_two
  | inr _ => s_two
  end.

Lemma last_is_put ek (L : list (jentry (H:=mem_env))) :
  match last_of ek L with Some m => bool_decide (je_op m = KeyValuePut) | None => false end = true ->
  exists m, last_of ek L = Some m /\ je_op m = KeyValuePut.
Proof. destruct (last_of ek L) as [m|]; [|done]. intros Hop%bool_decide_eq_true. by exists m. Qed.

Lemma nats_half_deleted_stuck_witness : exists n e,
  (run (Create "/r/a" "again" 0) s_half).1 = Some (n, Some e) /\ cur (Encode w_encode "/r/a").1 (log s_half) = None.
Proof.
  destruct (nats_half_deleted_stuck eq "/r/a" (Encode w_encode "/r/a").1 "again" 0 s_half
    (run (Create "/r/a" "again" 0) s_half).1 (run (Create "/r/a" "again" 0) s_half).2) as (_ & n & e & Hx).
  - by intros s s' <-.
  - by vm_compute.
  - split.
    + apply last_is_put. by vm_compute.
    + exists [MkSeqOp 1 KeyValuePut 0; MkSeqOp 3 KeyValuePut 0], (MkSeqOp 4 KeyValueDelete 0). by vm_compute.
  - apply (run_exec _ room); [done|by vm_compute].
  - exists n, e. split; [exact Hx|by vm_compute].
Defined.

(** The first tick makes the register, the second moves it to the revision it
    read although a thousand are to be retained. *)
Definition s_ticked : mstate := step (compactor_tick 1000) s_two.

Lemma nats_compact_ignores_retain_witness :
  run (compactor_tick 0) s_ticked = run (compactor_tick 1000) s_ticked /\
  (kvValue <$> (cur (Encode w_encode compactRevAPI).1 (log (run (compactor_tick 1000) s_ticked).2))) = Some (EncodeVersion 2 "4").
Proof. split; [apply (nats_compact_ignores_retain s_ticked 0 1000); reflexivity|by vm_compute]. Defined.

(** The message at a place of a stream. *)
Definition nth_message (L : list jentry) (i : nat) : jentry := default (MkJEntry "" zeroND 0 0 KeyValueDelete) (L !! i).

Lemma nth_message_in (L : list (jentry (H:=mem_env))) i : (i <? length L)%nat = true -> nth_message L i ∈ L.
Proof.
  intros Hi%Nat.ltb_lt%lookup_lt_is_Some. unfold nth_message. destruct Hi as [m Hm]. rewrite Hm.
  by eapply list_elem_of_lookup_2.
Qed.

(** A watch on one key is delivered the updates of its sibling. *)
Lemma nats_watch_delivers_witness : exists m, Key m = "/r/b" /\
  m ∈ subscription (log s_two) 0 "/r/a" "" 2.
Proof.
  exists (nth_message (log s_two) 1). split; [by vm_compute|].
  assert (Hne : forall p, p <> "" -> w_encode p <> "") by (intros p Hp; by destruct p).
  assert (Hm : keyed (nth_message (log s_two) 1)) by (apply Forall_singleton, wf_ok_keyed; by vm_compute).
  apply (nats_watch_delivers (HN := mem_env) (fun p _ => w_decode_encode p) w_encode_no_dot Hne "r" "a" "" 2 0 (log s_two));
    [discriminate|reflexivity|reflexivity|reflexivity|exact Hm|].
  split; [apply nth_message_in; by vm_compute|]. split; [by vm_compute|].
  split; [right; by vm_compute|]. split; [by vm_compute|by left].
Defined.

Definition gap_acts : list (mstate -> mstate) := [id; id; id; step (Update "/r/a" "y" 3 0)].

(** The revision a list of the current values answers with is read after
    the values: another client's write in between is not among the values,
    yet its revision is covered by the answer, so that a watch that goes on
    from there never delivers it. *)
Theorem nats_list_watch_gap : exists kvs s' m,
  exec_in (other (Update "/r/a" "y" 3 0)) (NatsBackend.List "/r/" "/r0" 0 0 false) s_two (Some (4, kvs, None)) s' /\
  m ∈ log s' /\ je_revision m = 4 /\ cur (je_key m) (log s') = Some (MkKeyValue "/r/a" "y" 0 1 4 0) /\
  ~ Some (MkKeyValue "/r/a" "y" 0 1 4 0) ∈ kvs /\ ~ m ∈ subscription (log s') 0 "/r/" "/r0" 5.
Proof.
  pose proof (run_with_exec (other (Update "/r/a" "y" 3 0)) gap_acts (NatsBackend.List "/r/" "/r0" 0 0 false) s_two (fun _ => I)) as Hex.
  set (s' := (run_with gap_acts (NatsBackend.List "/r/" "/r0" 0 0 false) s_two).2) in *.
  eexists _, s', (nth_message (log s') 3). split; [|split; [|split; [|split; [|split]]]].
  - refine (eq_rect _ (fun y => exec_in _ _ _ y _) (Hex _) _ _); [|vm_compute; reflexivity].
    repeat constructor; intros s; [done..|]. by apply rtc_once.
  - apply nth_message_in. by vm_compute.
  - by vm_compute.
  - by vm_compute.
  - rewrite !not_elem_of_cons. split; [discriminate|]. split; [discriminate|apply not_elem_of_nil].
  - assert (subscription (log s') 0 "/r/" "/r0" 5 = []) as -> by (apply length_zero_iff_nil; by vm_compute).
    apply not_elem_of_nil.
Qed.
