(* ===== verification/NatsReady.v ===== *)
(** * The start of the index of the NATS driver (pkg/drivers/nats/kv.go)

    [KeyValue.Start] runs one session of [btreeWatcher] after another; a
    session reads the last sequence number of the stream, subscribes and fills
    the index, and the first one marks the index as ready when it has caught
    up.  The backend accepts requests once [waitReady] returns.  The pause
    between sessions is left out. *)
From S2P Require Import Prelude Types OrderedMap NatsCodec ExpireHeap NatsKv NatsIndex NatsBucket.

Section ready.
Context `{NatsEnv} {M : Type -> Type} `{OrderedMapLaws M}.
Variable hsize : nat.

(** Between two sessions, in one, ended for good, and after a panic. *)
Inductive phase : Type := Between | Session (isStartupReplay : bool) (targetSeq : Z) | Stopped | Crashed.

(** [r_goal] is a ghost: the last sequence number of the stream when the session
    that marked the index as ready began; [r_closes] counts the calls that close
    the channel. *)
Record rstate := MkReady {
  r_index : index (M:=M);
  r_ready : bool;
  r_closes : nat;
  r_phase : phase;
  r_goal : Z
}.

Definition set_phase (p : phase) (s : rstate) : rstate := MkReady (r_index s) (r_ready s) (r_closes s) p (r_goal s).
Definition set_index (i : index) (s : rstate) : rstate := MkReady i (r_ready s) (r_closes s) (r_phase s) (r_goal s).

(** [e.ready.Store(true); close(e.readyCh)]: closing twice is a panic. *)
Definition mark_ready (goal : Z) (s : rstate) : rstate :=
  MkReady (r_index s) true (S (r_closes s)) (if (0 <? r_closes s)%nat then Crashed else r_phase s) goal.

(** The session up to its loop; [watch] is the error of the subscription. *)
Definition open_session (targetSeq : Z) (watch : gerr) (s : rstate) : rstate :=
  let br := lastSeq (r_index s) in
  let s := if (br =? 0) && (targetSeq =? 0) then mark_ready targetSeq (set_phase (Session false targetSeq) s)
           else set_phase (Session (br =? 0) targetSeq) s in
  match r_phase s with
  | Crashed => s
  | _ => if is_err watch then set_phase Between s else s
  end.

(** One update in the loop. *)
Definition update (x : jentry) (s : rstate) : rstate :=
  match r_phase s with
  | Session startup targetSeq =>
      match index_op x, btree_event hsize x (r_index s) with
      | Some None, _ => s
      | Some (Some op), Some i =>
          let s := set_index i s in
          if startup && (so_seq op >=? targetSeq) && negb (r_ready s) then mark_ready targetSeq s else s
      | _, _ => set_phase Crashed s
      end
  | _ => s
  end.

(** A session gets the messages from the index's last one on, in order. *)
Inductive rstep (s : rstate) : rstate -> Prop :=
  | r_open targetSeq watch : r_phase s = Between -> 0 <= targetSeq -> rstep s (open_session targetSeq watch s)
  | r_update x st tg : r_phase s = Session st tg -> 0 < je_revision x -> lastSeq (r_index s) <= je_revision x ->
      rstep s (update x s)
  | r_error st tg : r_phase s = Session st tg -> rstep s (set_phase Between s)
  | r_stop : r_phase s <> Crashed -> rstep s (set_phase Stopped s).

Definition r_init : rstate := MkReady empty_index false 0 Between 0.

Lemma ready_op_seq (x : jentry) (op : seqOp) : index_op x = Some (Some op) -> so_seq op = je_revision x.
Proof. unfold index_op. repeat case_match; intros; simplify_eq; done. Qed.

Lemma btree_event_seq (x : jentry) (op : seqOp) (i i' : index (M:=M)) : index_op x = Some (Some op) ->
  btree_event hsize x i = Some i' -> lastSeq i' = je_revision x.
Proof. unfold btree_event. intros Hop. rewrite Hop. case_match; [|done]. intros [= <-]. by apply ready_op_seq. Qed.

Record ready_inv (s : rstate) : Prop := {
  ri_ready : r_ready s = true <-> (0 < r_closes s)%nat;
  ri_once : (r_closes s <= 1)%nat \/ r_closes s = 2%nat /\ r_phase s = Crashed /\ lastSeq (r_index s) = 0;
  ri_goal : r_ready s = true -> r_goal s <= lastSeq (r_index s);
  ri_seq : 0 <= lastSeq (r_index s)
}.

Lemma inv_phase (s : rstate) (p : phase) : r_phase s <> Crashed -> ready_inv s -> ready_inv (set_phase p s).
Proof. intros Hp [? [?|(?&?&?)] ? ?]; [|done]. constructor; cbn; auto. Qed.

Lemma inv_mark (s : rstate) (goal : Z) : ready_inv s -> goal <= lastSeq (r_index s) -> r_phase s <> Crashed ->
  (r_ready s = true -> lastSeq (r_index s) = 0) -> ready_inv (mark_ready goal s).
Proof.
  intros [Hr [Ho|(?&?&?)] ? ?] Hg Hp Hz; [|done]. constructor; cbn; [split; [lia|done]| |done|done].
  destruct (r_closes s) as [|[|n]] eqn:E; [left; lia| |lia]. right. split; [done|]. split; [done|]. apply Hz, Hr. lia.
Qed.

Lemma inv_step (s s' : rstate) : ready_inv s -> rstep s s' -> ready_inv s'.
Proof.
  intros Hi [tg watch Hb Htg|x st tg Hs Hx Hle|st tg Hs|Hc]; [| |by apply inv_phase; [rewrite Hs|]|by apply inv_phase].
  - assert (Hnc : r_phase s <> Crashed) by by rewrite Hb.
    unfold open_session. assert (Hgen : forall s0, ready_inv s0 -> ready_inv (match r_phase s0 with Crashed => s0 | _ => if is_err watch then set_phase Between s0 else s0 end)).
    { intros s0 Hs0. destruct (r_phase s0) eqn:E; [| | |done]; (destruct (is_err watch); [by apply inv_phase; [rewrite E|]|done]). }
    apply Hgen. destruct ((lastSeq (r_index s) =? 0) && (tg =? 0)) eqn:E; [|by apply inv_phase]. b2p.
    apply inv_mark; [by apply inv_phase|cbn; destruct Hi; lia|done|done].
  - assert (Hnc : r_phase s <> Crashed) by by rewrite Hs. unfold update. rewrite Hs.
    destruct (index_op x) as [[op|]|] eqn:Hop; [|done|by apply inv_phase].
    destruct (btree_event hsize x (r_index s)) as [i|] eqn:Hev; [|by apply inv_phase].
    pose proof (btree_event_seq _ _ _ _ Hop Hev) as Hseq. pose proof (ready_op_seq _ _ Hop) as Hos.
    assert (Hset : ready_inv (set_index i s)).
    { destruct Hi as [? [?|(?&?&?)] Hg ?]; [|done]. constructor; cbn; [done|by left| |lia]. intros Hr. specialize (Hg Hr). lia. }
    match goal with |- context [if ?c then _ else _] => destruct c eqn:E end; [|done]. b2p. apply inv_mark; [done|cbn; lia|done|]. cbn in *. congruence.
Qed.

(** ** What can be relied on *)

(** C33. In every run of the sessions of the index it is marked as ready, and
    the channel of the waiting requests closed, only when it has caught up: from
    then on its last sequence number is at least the one the stream had when the
    session that marked it began, so no read of an accepted request sees a state
    older than that.  The channel is closed at most once, but in one case, in
    which the second close is a panic that ends the run: a further session that
    begins while the index is still empty, of an empty stream. *)
Theorem nats_ready_replayed (s : rstate) : rtc rstep r_init s ->
  (r_ready s = true <-> (0 < r_closes s)%nat) /\ (r_ready s = true -> r_goal s <= lastSeq (r_index s)) /\
  ((r_closes s <= 1)%nat \/ r_closes s = 2%nat /\ r_phase s = Crashed /\ lastSeq (r_index s) = 0).
Proof.
  intros Hr. assert (Hi : ready_inv r_init) by (constructor; [split; [done|cbn; lia]|left; cbn; lia|done|done]).
  assert (Hs : ready_inv s) by (induction Hr; [done|eauto using inv_step]). by destruct Hs.
Qed.

(** The messages of a session, one after another. *)
Definition feed (l : list jentry) (s : rstate) : rstate := fold_left (fun s x => update x s) l s.

Lemma feed_replay (l : list jentry) : forall s tg i, r_phase s = Session true tg -> r_ready s = false ->
  (forall x op, x ∈ l -> index_op x = Some (Some op) -> so_seq op < tg) -> replay hsize l (r_index s) = Some i ->
  feed l s = set_index i s.
Proof.
  induction l as [|x l IH]; intros s tg i Hp Hr Hlt Hrep; cbn in Hrep.
  - injection Hrep as <-. by destruct s.
  - destruct (btree_event hsize x (r_index s)) as [i1|] eqn:Hev; [|done].
    assert (Hup : update x s = set_index i1 s).
    { unfold update. rewrite Hp. pose proof Hev as Hev'. unfold btree_event in Hev'.
      destruct (index_op x) as [[op|]|] eqn:Hop; [|injection Hev' as <-; by destruct s|done].
      assert (Hs : (so_seq op >=? tg) = false) by (rewrite Z.geb_leb; apply Z.leb_gt, (Hlt x); [left|done]).
      by rewrite Hev, Hs. }
    change (feed (x :: l) s) with (feed l (update x s)). rewrite Hup, (IH (set_index i1 s) tg i); [by destruct s|done|done| |done].
    intros y op Hy. apply Hlt. by right.
Qed.

(** The start works when nothing fails: a first session over a stream whose
    messages can all be replayed, and whose last one stands for an operation,
    marks the index as ready with the index of the whole stream. *)
Theorem nats_first_session_ready (l : list jentry) (x : jentry) (op : seqOp) (i : index (M:=M)) :
  index_op x = Some (Some op) -> 0 < je_revision x -> (forall y, y ∈ l -> je_revision y < je_revision x) ->
  replay hsize (l ++ [x]) empty_index = Some i ->
  let s := feed (l ++ [x]) (open_session (je_revision x) None r_init) in
  r_ready s = true /\ r_closes s = 1%nat /\ r_index s = i /\ r_phase s = Session true (je_revision x).
Proof.
  intros Hop Hpos Hlt Hrep. set (s0 := open_session (je_revision x) None r_init).
  assert (Hs0 : s0 = MkReady empty_index false 0 (Session true (je_revision x)) 0).
  { subst s0. unfold open_session. cbn. by rewrite (proj2 (Z.eqb_neq (je_revision x) 0)) by lia. }
  assert (Hsplit : exists i1, replay hsize l empty_index = Some i1 /\ btree_event hsize x i1 = Some i).
  { clear -Hrep. revert Hrep. generalize (empty_index (M:=M)). induction l as [|y l IH]; intros i0; cbn.
    - destruct (btree_event hsize x i0) eqn:E; [|done]. intros [= <-]. eauto.
    - destruct (btree_event hsize y i0); [apply IH|done]. }
  destruct Hsplit as (i1&Hi1&Hi2). unfold feed. rewrite fold_left_app. change (fold_left _ l s0) with (feed l s0).
  rewrite (feed_replay l s0 (je_revision x) i1), Hs0; [|by rewrite Hs0|by rewrite Hs0| |by rewrite Hs0].
  2:{ intros y o Hy Ho. rewrite (ready_op_seq _ _ Ho). by apply Hlt. }
  assert (Hu : update x (MkReady i1 false 0 (Session true (je_revision x)) 0)
               = MkReady i true 1 (Session true (je_revision x)) (je_revision x)).
  { unfold update. cbn [r_phase r_index]. rewrite Hop, Hi2, (ready_op_seq _ _ Hop), Z.geb_leb, Z.leb_refl. done. }
  change (fold_left _ [x] _) with (update x (MkReady i1 false 0 (Session true (je_revision x)) 0)). by rewrite Hu.
Qed.

(** A session that ends after its first message and before it has caught up
    leaves an index that is never marked as ready, however long the following
    sessions run: they take it for one that is. *)
Theorem nats_never_ready (s s' : rstate) : r_ready s = false -> 0 < lastSeq (r_index s) -> r_phase s = Between ->
  rtc rstep s s' -> r_ready s' = false /\ r_closes s' = r_closes s.
Proof.
  intros Hr Hl Hp Hst.
  assert (Hinv : forall a b, r_ready a = false /\ 0 < lastSeq (r_index a) /\ (forall tg, r_phase a <> Session true tg) -> rstep a b ->
    (r_ready b = false /\ 0 < lastSeq (r_index b) /\ forall tg, r_phase b <> Session true tg) /\ r_closes b = r_closes a).
  { clear. intros a b (Hr&Hl&Hp) [tg watch Hb Htg|x st tg Hs Hx Hle|st tg Hs|Hc]; [| |by repeat split..].
    - unfold open_session. rewrite (proj2 (Z.eqb_neq (lastSeq (r_index a)) 0)) by lia. cbn. by destruct (is_err watch).
    - unfold update. rewrite Hs. destruct st; [by destruct (Hp tg)|].
      destruct (index_op x) as [[op|]|] eqn:Hop; [|by repeat split|by repeat split].
      destruct (btree_event hsize x (r_index a)) as [i|] eqn:Hev; [|by repeat split]. cbn.
      rewrite (btree_event_seq _ _ _ _ Hop Hev). split; [|done]. split; [done|]. split; [lia|]. by rewrite Hs. }
  assert (H0' : r_ready s = false /\ 0 < lastSeq (r_index s) /\ forall tg, r_phase s <> Session true tg) by (by rewrite Hp).
  clear Hr Hl Hp. induction Hst as [|s1 s2 s3 H12 _ IH]; [by destruct H0'|]. destruct (Hinv _ _ H0' H12) as [Hs2 <-]. by apply IH.
Qed.

(** Two sessions that begin while the stream is empty panic. *)
Theorem nats_empty_restart_panics : exists s, rtc rstep r_init s /\ r_phase s = Crashed.
Proof.
  eexists. split.
  - eapply rtc_l; [by apply (r_open r_init 0 None)|]. eapply rtc_l; [by apply (r_error _ false 0)|].
    apply rtc_once. by apply (r_open _ 0 None).
  - reflexivity.
Qed.

(** Every further session gets the index's last message again: it is added a
    second time and, when the key has its full history, costs it the oldest
    operation. *)
Theorem nats_reconnect_duplicates (s : rstate) (x : jentry) (op : seqOp) (val : list seqOp) (b : bool) (tg : Z) :
  index_op x = Some (Some op) -> om_Get (bt (r_index s)) (Key x) = Some (val ++ [op]) -> length (val ++ [op]) = hsize ->
  je_revision x = lastSeq (r_index s) -> r_phase s = Session b tg -> 0 < je_revision x ->
  exists s', rstep s s' /\ om_Get (bt (r_index s')) (Key x) = Some (tail (val ++ [op]) ++ [op]).
Proof.
  intros Hop Hget Hlen Hrev Hp Hpos. exists (update x s). split; [eapply r_update; [done|done|lia]|].
  unfold update, btree_event. rewrite Hp, Hop, Hget. cbn [default from_option id]. unfold push_op.
  rewrite (proj2 (Nat.eqb_eq _ _) Hlen). destruct (val ++ [op]) as [|o l] eqn:E; [by destruct val|]. cbn [tail].
  case_match; cbn; by rewrite om_Get_Set, decide_True.
Qed.
End ready.

(** ** At work: a stream of two messages *)
Definition put_message (key : string) (n : Z) : jentry :=
  MkJEntry (Encode w_encode key).1 (MkND (Some (MkKeyValue key "v" 0 0 0 0)) 0 true false 0) n 0 KeyValuePut.
Definition m1 : jentry := put_message "/r/a" 1.
Definition m2 : jentry := put_message "/r/b" 2.
Definition two_indexed : index (M:=samap) := default empty_index (replay 10 [m1; m2] empty_index).
Definition r_two : rstate (M:=samap) := feed 10 [m1; m2] (open_session 2 None r_init).

Lemma two_indexed_ok : replay (M:=samap) 10 [m1; m2] empty_index = Some two_indexed.
Proof.
  assert (Hb : match replay (M:=samap) 10 [m1; m2] empty_index with Some _ => true | None => false end = true) by (vm_compute; reflexivity).
  unfold two_indexed. by destruct (replay 10 [m1; m2] empty_index).
Qed.

Lemma nats_first_session_ready_witness : r_ready r_two = true /\ r_index r_two = two_indexed.
Proof.
  destruct (nats_first_session_ready (M:=samap) 10 [m1] m2 (MkSeqOp 2 KeyValuePut 0) two_indexed) as (H1&_&H2&_).
  - vm_compute. reflexivity.
  - reflexivity.
  - intros y Hy. apply list_elem_of_singleton in Hy as ->. reflexivity.
  - exact two_indexed_ok.
  - split; [exact H1|exact H2].
Defined.

Lemma r_two_reach : rtc (rstep 10) r_init r_two.
Proof.
  apply (rtc_l _ _ (open_session 2 None r_init)); [by apply r_open|].
  apply (rtc_l _ _ (update 10 m1 (open_session 2 None r_init))); [by eapply r_update|].
  apply rtc_once. eapply (r_update 10 (update 10 m1 (open_session 2 None r_init)) m2 true 2); [by vm_compute|reflexivity|].
  apply Z.leb_le. by vm_compute.
Qed.

Lemma nats_ready_replayed_witness : r_closes r_two = 1%nat /\ r_goal r_two <= lastSeq (r_index r_two).
Proof.
  destruct (nats_ready_replayed (M:=samap) 10 r_two r_two_reach) as (_ & H & _).
  split; [vm_compute; reflexivity|]. apply H. vm_compute. reflexivity.
Defined.

(** A first session that ended after one of the two messages. *)
Definition r_broken : rstate (M:=samap) := set_phase Between (feed 10 [m1] (open_session 2 None r_init)).

Lemma nats_never_ready_witness : r_ready (feed 10 [m1; m2] (open_session 2 None r_broken)) = false.
Proof.
  apply (nats_never_ready (M:=samap) 10 r_broken).
  - vm_compute. reflexivity.
  - vm_compute. reflexivity.
  - vm_compute. reflexivity.
  - apply (rtc_l _ _ (open_session 2 None r_broken)); [by apply r_open|].
    apply (rtc_l _ _ (update 10 m1 (open_session 2 None r_broken))).
    { apply (r_update 10 _ m1 false 2); [by vm_compute|reflexivity|apply Z.leb_le; by vm_compute]. }
    apply rtc_once. apply (r_update 10 (update 10 m1 (open_session 2 None r_broken)) m2 false 2); [by vm_compute|reflexivity|apply Z.leb_le; by vm_compute].
Defined.
