(* ===== verification/Stack.v ===== *)
(** * The front end in front of a shared store

    The front end's handlers are trees of backend calls ([bop]); the
    log-structured and the NATS backend answer each of these calls with a tree
    of calls of a store that other processes use at the same time.  [inline]
    puts the one into the other.  [SharedBackend] says how a backend answers
    and how its store is read, [SharedBackendLaws] what it promises while other
    clients take steps in between; the transactions of the front end are proved
    against these laws alone. *)
From S2P Require Import Prelude Types GoStrings Prog Backend Server ServerProofs.

(** ** Programs of calls that are programs *)
Fixpoint inline {E F : Type -> Type} (impl : forall R, E R -> prog F R) {A} (p : prog E A) : prog F A :=
  match p with
  | Ret a => Ret a
  | Panic => Panic
  | Call o k => pbind (impl _ o) (fun r => inline impl (k r))
  end.

(** ** The interface *)
(** [sb_slot] is where a key is stored, [sb_cur] the value there, [sb_env] a
    step of the other clients, [sb_reach] what they can do of the store.
    [sb_plain] holds of a key and a value whose write concerns no other key
    (an object may have its dependents collected), [sb_refused] of those the
    backend cannot store.  [sb_exact] holds of a backend whose refusals are
    exact: it never fails otherwise, and a refusal says what is stored. *)
Class SharedBackend (F : Type -> Type) (S : Type) `{Handler F S} := {
  sb_call : forall R, bop R -> prog F R;
  sb_env : S -> S -> Prop;
  sb_reach : S -> S -> Prop;
  sb_ready : S -> Prop;
  sb_slot : string -> option string;
  sb_cur : S -> string -> option KeyValue;
  sb_plain : S -> string -> string -> Prop;
  sb_refused : S -> string -> string -> Prop;
  sb_exact : Prop
}.
Arguments sb_call {F S _ _} {R} o.

Section interface.
Context {F : Type -> Type} {S : Type} `{SharedBackend F S}.

(** Steps of the other clients, and steps that leave every value as it is. *)
Definition quiet : S -> S -> Prop := rtc (fun s s' => sb_env s s' \/ forall p, sb_cur s' p = sb_cur s p).

(** A moment between [s] and [s'] at which [P] is done, with only quiet steps
    before and after; and quiet steps with a moment at which [P] holds. *)
Definition at_moment (s s' : S) (P : S -> S -> Prop) : Prop :=
  exists s1 s2, quiet s s1 /\ P s1 s2 /\ quiet s2 s'.
Definition observed (s s' : S) (P : S -> Prop) : Prop :=
  quiet s s' /\ exists s1, sb_reach s s1 /\ P s1 /\ sb_reach s1 s'.

(** One write: the slot [p] now holds [kv], the others what they held. *)
Definition wrote (p : string) (kv : option KeyValue) (s1 s2 : S) : Prop :=
  sb_cur s2 p = kv /\ forall q, q <> p -> sb_cur s2 q = sb_cur s1 q.

Definition mod_revision (o : option KeyValue) : Z := match o with Some kv => kvModRevision kv | None => 0 end.
End interface.

Class SharedBackendLaws (F : Type -> Type) (S : Type) `{SharedBackend F S} : Prop := {
  sb_create : forall k v l p s x s', sb_ready s -> sb_slot k = Some p -> sb_plain s k v ->
    exec_in sb_env (sb_call (BCreate k v l)) s x s' ->
    exists n e, x = Some (n, e) /\
    match e with
    | None => at_moment s s' (fun s1 s2 => sb_cur s1 p = None /\ wrote p (Some (MkKeyValue k v 0 n n l)) s1 s2)
    | Some e => (sb_exact -> e = ErrKeyExists \/ sb_refused s k v) /\
        (e = ErrKeyExists -> sb_ready s' /\ observed s s' (fun s1 => sb_exact -> mod_revision (sb_cur s1 p) <> 0))
    end;
  sb_update : forall k v r l p s x s', sb_ready s -> sb_slot k = Some p -> sb_plain s k v ->
    exec_in sb_env (sb_call (BUpdate k v r l)) s x s' ->
    exists n kv ok e, x = Some (n, kv, ok, e) /\ (sb_exact -> e = None) /\
    if ok : bool then e = None /\ at_moment s s' (fun s1 s2 => exists kv0, sb_cur s1 p = Some kv0 /\
        kvModRevision kv0 = r /\ wrote p (Some (MkKeyValue k v 0 (kvCreateRevision kv0) n l)) s1 s2)
    else e = None -> observed s s' (fun s1 => (kv = None \/ kv = sb_cur s1 p) /\
        (sb_exact -> kv = sb_cur s1 p /\ ((forall kv0, kv = Some kv0 -> kvModRevision kv0 <> r) \/ sb_refused s k v)));
  sb_delete : forall k r p s x s', sb_ready s -> sb_slot k = Some p ->
    exec_in sb_env (sb_call (BDelete k r)) s x s' ->
    exists n kv ok e, x = Some (n, kv, ok, e) /\ (sb_exact -> e = None) /\
    if ok : bool then e = None /\ at_moment s s' (fun s1 s2 => sb_cur s1 p = kv /\ wrote p None s1 s2 /\
        forall kv0, kv = Some kv0 -> r = 0 \/ kvModRevision kv0 = r)
    else sb_exact -> quiet s s';
  sb_get : forall k r b s x s', sb_exact -> sb_ready s -> exec_in sb_env (sb_call (BGet k r b)) s x s' ->
    is_Some x /\ quiet s s' /\ sb_reach s s'
}.

Section theorems.
Context {F : Type -> Type} {S : Type} `{HL : SharedBackendLaws F S} `{!PreOrder sb_reach}.
Context (reg : string -> gerr).
Implicit Types s : S.

Local Abbreviation stack p := (inline (fun R => sb_call (R:=R)) p).

Lemma exec_call_bind {R A} (o : bop R) (k : R -> prog bop A) s x s' :
  exec_in sb_env (stack (Call o k)) s x s' ->
  (exists r s1, exec_in sb_env (sb_call o) s (Some r) s1 /\ exec_in sb_env (stack (k r)) s1 x s') \/
  exec_in sb_env (sb_call o) s None s'.
Proof using Type. intros [?|[? _]]%exec_bind_inv; auto. Qed.

Lemma observed_after s s1 s' P : observed s s1 P -> quiet s1 s' -> sb_reach s1 s' -> observed s s' P.
Proof using PreOrder0.
  intros [Hq (s2 & H1 & HP & H2)] Hq' Hr. split; [by trans s1|]. exists s2. split_and!; [done|done|by trans s1].
Qed.

Lemma key_exists e : is_sentinel e ErrKeyExists = true -> e = ErrKeyExists.
Proof using Type. by destruct e. Qed.

(** What follows a write of a definition that can be registered. *)
Lemma registered {A} k v (revert : err -> A) (ok : A) : (HasPrefix k crdPrefix = true -> reg v = None) ->
  (if HasPrefix k crdPrefix then match reg v with Some e => revert e | None => ok end else ok) = ok.
Proof using Type. destruct (HasPrefix k crdPrefix); [|done]. by intros ->. Qed.

Definition written (n : Z) : TxnResponse := MkTxnResponse n [ResponsePut (MkPutResponse n None)] true.
Definition answers_value (r : TxnResponse) (kv : option KeyValue) : Prop :=
  txResponses r = [rangeOf (txHeader r) (toKVs [kv])].

Lemma create_through txn put p s out s' :
  sb_ready s -> isCreate txn = Some put -> (HasPrefix (putKey put) crdPrefix = true -> reg (putValue put) = None) ->
  putIgnoreLease put = false -> putIgnoreValue put = false -> putPrevKv put = false ->
  sb_slot (putKey put) = Some p -> sb_plain s (putKey put) (putValue put) -> exec_in sb_env (stack (Txn reg txn)) s out s' ->
  exists r e, out = Some (r, e) /\ (sb_exact -> e = None \/ sb_refused s (putKey put) (putValue put)) /\
  match r, e with
  | Some r, None =>
      if txSucceeded r then r = written (txHeader r) /\ at_moment s s' (fun s1 s2 => sb_cur s1 p = None /\
        wrote p (Some (MkKeyValue (putKey put) (putValue put) 0 (txHeader r) (txHeader r) (putLease put))) s1 s2)
      else observed s s' (fun s1 => sb_exact -> is_Some (sb_cur s1 p))
  | None, Some _ => True
  | _, _ => False
  end.
Proof using HL.
  intros Hr Hc Hcrd H1 H2 H3 Hp Hplain. unfold Txn. rewrite Hc. unfold create. rewrite H1, H2, H3.
  cbn [pbind call]. intros [([n e] & s1 & Hcall & Hex)|Hcall]%exec_call_bind;
    apply (sb_create _ _ _ p) in Hcall as (n' & e' & [= <- <-] & Hres); try done.
  destruct e as [e|]; cbn [is_err err_eq] in Hex.
  - destruct Hres as [Hx Hk]. destruct (is_sentinel e ErrKeyExists) eqn:Hb.
    + apply key_exists in Hb as ->. destruct (Hk eq_refl) as [_ Ho]. apply exec_Ret_inv in Hex as [-> ->]. do 2 eexists. split; [done|]. split; [by left|]. cbn.
      destruct Ho as [Hq (s2 & ? & HP & ?)]. split; [done|]. exists s2. split_and!; [done| |done].
      intros He. specialize (HP He). destruct (sb_cur s2 p); [by eexists|done].
    + apply exec_Ret_inv in Hex as [-> ->]. do 2 eexists. split; [done|].
      split; [intros He; destruct (Hx He) as [->|?]; [done|by right]|done].
  - rewrite registered in Hex by done. apply exec_Ret_inv in Hex as [-> ->]. do 2 eexists. split; [done|]. split; [by left|]. cbn. split; [done|apply Hres].
Qed.

(** C2. Creation through the whole stack, with none of the flags of a put set,
    unless the key has the prefix of custom resource definitions and the value
    cannot be registered as one (its creation is then reverted): a transaction
    of the create shape always answers without panic; when it answers
    [Succeeded], the key had no value at one moment and the value was put there,
    created and modified at the revision of the answer, and nothing else was
    changed; when it answers that it did not succeed nothing was changed, and
    (if the backend is exact) the key had a value.  An exact backend fails only
    on a value it cannot store.  The object is not one by which other objects
    are collected. *)
Theorem stack_create txn put p s out s' :
  sb_ready s -> isCreate txn = Some put -> (HasPrefix (putKey put) crdPrefix = true -> reg (putValue put) = None) ->
  putIgnoreLease put = false -> putIgnoreValue put = false -> putPrevKv put = false ->
  sb_slot (putKey put) = Some p -> sb_plain s (putKey put) (putValue put) -> exec_in sb_env (stack (Txn reg txn)) s out s' ->
  exists r e, out = Some (r, e) /\ (sb_exact -> e = None \/ sb_refused s (putKey put) (putValue put)) /\
  match r, e with
  | Some r, None =>
      if txSucceeded r then r = written (txHeader r) /\ at_moment s s' (fun s1 s2 => sb_cur s1 p = None /\
        wrote p (Some (MkKeyValue (putKey put) (putValue put) 0 (txHeader r) (txHeader r) (putLease put))) s1 s2)
      else observed s s' (fun s1 => sb_exact -> is_Some (sb_cur s1 p))
  | None, Some _ => True
  | _, _ => False
  end.
Proof using HL. apply create_through. Qed.

(** C1. Conditional update through the whole stack, unless the key has the
    prefix of custom resource definitions and the value cannot be registered as
    one (its update is then reverted): a transaction of the update shape always answers; when
    it answers [Succeeded], the mod revision of the key was the one compared (0:
    no value) at one moment, and the value was put there, with the create
    revision it had; when it answers that it did not succeed it changed nothing,
    and (if the backend is exact) the comparison did fail at a moment, whose
    value is the one answered unless the revision compared is 0, or the new value
    is one the backend cannot store: such a value is answered in the same way.
    An exact backend answers with an error at revision 0 at most, for which the
    handler reads the key in a second call; that case is for exact backends
    only.  The object is not one by which other objects are
    collected. *)
Theorem stack_update txn rev key value lease p s out s' :
  sb_ready s -> isUpdate txn = Some (rev, key, value, lease) -> (HasPrefix key crdPrefix = true -> reg value = None) ->
  sb_slot key = Some p -> sb_plain s key value -> (rev = 0 -> sb_exact) -> exec_in sb_env (stack (Txn reg txn)) s out s' ->
  exists r e, out = Some (r, e) /\
  match r, e with
  | Some r, None =>
      if txSucceeded r then r = written (txHeader r) /\ at_moment s s' (fun s1 s2 => mod_revision (sb_cur s1 p) = rev /\
        wrote p (Some (MkKeyValue key value 0 (match sb_cur s1 p with Some kv => kvCreateRevision kv | None => txHeader r end)
                         (txHeader r) lease)) s1 s2)
      else exists kv, answers_value r kv /\ observed s s' (fun s1 =>
        (sb_exact -> rev = 0 -> mod_revision (sb_cur s1 p) <> 0) /\
        (rev <> 0 -> (kv = None \/ kv = sb_cur s1 p) /\ (sb_exact -> kv = sb_cur s1 p /\ (mod_revision kv <> rev \/ sb_refused s key value))))
  | None, Some e => rev <> 0 -> ~ sb_exact
  | _, _ => False
  end.
Proof using HL PreOrder0.
  intros Hr Hu Hcrd Hp Hplain Hz. unfold Txn. destruct (update_shape _ _ Hu) as [-> ->]. rewrite Hu.
  unfold update. destruct (Z.eqb_spec rev 0) as [->|Hrev]; cbn [pbind call].
  - intros [([n e] & s1 & Hcall & Hex)|Hcall]%exec_call_bind;
      apply (sb_create _ _ _ p) in Hcall as (n' & e' & [= <- <-] & Hres); try done.
    destruct e as [e|]; cbn [is_err err_eq pbind] in Hex.
    2:{ rewrite registered in Hex by done. apply exec_Ret_inv in Hex as [-> ->]. do 2 eexists. split; [done|]. cbn. split; [done|].
        destruct Hres as (s2 & s3 & H2 & (Hn & Hw) & H3). exists s2, s3. split; [done|]. split; [|done]. by rewrite Hn. }
    destruct Hres as [Hx Hk]. destruct (is_sentinel e ErrKeyExists) eqn:Hb.
    + apply key_exists in Hb as ->. destruct (Hk eq_refl) as [Hr1 Ho]. cbn [is_sentinel pbind call] in Hex.
      apply exec_call_bind in Hex as [([[n2 kv] e2] & s2 & Hcall & Hex)|Hcall];
        apply sb_get in Hcall as ([? Hsome] & Hq & Hreach); auto; try done.
      pose proof (observed_after _ _ _ _ Ho Hq Hreach) as Ho2.
      destruct e2 as [e2|]; apply exec_Ret_inv in Hex as [-> ->]; do 2 eexists; (split; [done|]); cbn; [done|].
      exists kv. split; [done|]. destruct Ho2 as [Hq2 (s3 & ? & HP & ?)]. split; [done|]. exists s3. split_and!; [done|by auto|done|done].
    + cbn [pbind is_err] in Hex. apply exec_Ret_inv in Hex as [-> ->]. do 2 eexists. split; [done|]. by intros [].
  - intros [([[[n kv] ok] e] & s1 & Hcall & Hex)|Hcall]%exec_call_bind;
      apply (sb_update _ _ _ _ p) in Hcall as (n' & kv' & ok' & e' & [= <- <- <- <-] & Hx & Hres); try done.
    destruct e as [e|]; cbn [is_err] in Hex.
    { apply exec_Ret_inv in Hex as [-> ->]. do 2 eexists. split; [done|]. intros _ He. by specialize (Hx He). }
    destruct ok; [rewrite registered in Hex by done|]; apply exec_Ret_inv in Hex as [-> ->]; do 2 eexists; (split; [done|]); cbn.
    + split; [done|]. destruct Hres as (_ & s2 & s3 & H2 & (kv0 & Hc & Hm & Hw) & H3). exists s2, s3.
      split; [done|]. split; [|done]. by rewrite Hc.
    + exists kv. split; [done|]. destruct (Hres eq_refl) as [Hq (s2 & ? & (Hor & HP) & ?)]. split; [done|].
      exists s2. split_and!; [done|done| |done]. intros _. split; [done|]. intros He. destruct (HP He) as [-> Hm].
      split; [done|]. destruct Hm as [Hm|]; [left|by right]. destruct (sb_cur s2 p) as [kv0|]; cbn; [by apply Hm|done].
Qed.

(** C3. Conditional deletion through the whole stack: when a transaction of
    the delete shape answers [Succeeded], the value it answers with, if any,
    was the key's value at one moment, at the revision compared unless that is
    0, and was removed there, and nothing else was changed; when it answers
    without success, an exact backend has changed nothing. *)
Theorem stack_delete txn rev key p s out s' :
  sb_ready s -> isDelete txn = Some (rev, key) -> sb_slot key = Some p ->
  exec_in sb_env (stack (Txn reg txn)) s out s' ->
  exists r e, out = Some (r, e) /\
  match r, e with
  | Some r, None =>
      if txSucceeded r then exists kv,
        r = MkTxnResponse (txHeader r) [ResponseDeleteRange (MkDeleteRangeResponse (txHeader r) (toKVs [kv])
                                          (Z.of_nat (length (toKVs [kv]))))] true /\
        at_moment s s' (fun s1 s2 => sb_cur s1 p = kv /\ wrote p None s1 s2 /\
          forall kv0, kv = Some kv0 -> rev = 0 \/ kvModRevision kv0 = rev)
      else sb_exact -> quiet s s'
  | None, Some e => ~ sb_exact
  | _, _ => False
  end.
Proof using HL.
  intros Hr Hd Hp. unfold Txn. rewrite (delete_shape _ _ Hd), Hd. unfold delete. cbn [pbind call].
  intros [([[[n kv] ok] e] & s1 & Hcall & Hex)|Hcall]%exec_call_bind;
    apply (sb_delete _ _ p) in Hcall as (n' & kv' & ok' & e' & [= <- <- <- <-] & Hx & Hres); try done.
  destruct e as [e|]; cbn [is_err] in Hex.
  { apply exec_Ret_inv in Hex as [-> ->]. do 2 eexists. split; [done|]. intros He. by specialize (Hx He). }
  destruct ok; cbn [negb] in Hex; apply exec_Ret_inv in Hex as [-> ->]; do 2 eexists; (split; [done|]); cbn; [|done].
  exists kv. split; [done|]. apply Hres.
Qed.
End theorems.
