(* ===== verification/StackSql.v ===== *)
(** * The whole stack on the SQL log

    The backend calls of the front end answered by the log-structured backend
    on the SQL log, while any other clients append rows to the table: the laws
    of [Stack] hold, exactly; a value that cannot be stored is refused. *)
From S2P Require Import Prelude Types GoStrings Prog Backend Server ServerProofs Stack.
From S2P Require Import Mvcc MemoryProofs Sql SqlLog SqlProofs LogStructured LogProofs LogTheorems.

Section sql.
Variables (ci batch mr : Z).
Variable env : world -> world -> Prop.
Hypothesis env_ok : forall w w', env w w' -> lenv w w'.
(** The size of the database, and lists with selectors (see [SelectList]). *)
Variable other : forall R, bop R -> dprog R.
Local Abbreviation L := (sqlLog ci batch mr).

(** An event of the SQL log always carries a value. *)
Definition values (kvs : list (option KeyValue)) (k : list KeyValue -> dprog (Z * list KeyValue * gerr)) :
  dprog (Z * list KeyValue * gerr) :=
  match mapM id kvs with Some kvs => k kvs | None => Panic end.

Definition ls_call {R} (o : bop R) : dprog R :=
  match o with
  | BGet k r ko => Get L k r ko
  | BCreate k v l => Create L k v l
  | BDelete k r => Delete L k r
  | BUpdate k v r l => Update L k v r l
  | BList k e limit r ko ls fs =>
      if String.eqb ls "" && String.eqb fs "" then
        '(rev, kvs, err) <-! List L k e limit r ko;; values kvs (fun kvs => Ret (rev, kvs, err))
      else other _ (BList k e limit r ko ls fs)
  | BCount k e r ls fs =>
      if String.eqb ls "" && String.eqb fs "" then Count L k e r else other _ (BCount k e r ls fs)
  | BCurrentRevision => CurrentRevision L
  | BCompact r => Compact L r
  | BDbSize => other _ BDbSize
  end.

Definition sql_shared : SharedBackend dop world := {|
  sb_call := @ls_call;
  sb_env := env;
  sb_reach := lenv;
  sb_ready := ready;
  sb_slot k := if String.eqb k compact_rev_key then None else Some k;
  sb_cur w p := current (thist (w_table w)) p;
  sb_plain w k v := collects (w_objects w k v) v = false;
  sb_refused w k v := is_Some (refusal (w_objects w k v) v);
  sb_exact := True
|}.
Local Existing Instance sql_shared.

Lemma others_quiet w w' : others env w w' -> quiet w w'.
Proof using Type.
  induction 1 as [|w w1 w' [Hw|[Ht _]] _ IH]; [done|eapply rtc_l; [by left|done]|].
  eapply rtc_l; [|done]. right. intros p. cbn. by rewrite Ht.
Qed.

Lemma moment_at w w' P (Q : world -> world -> Prop) : moment env w w' P ->
  (forall w1 w2, P (w_table w1) (w_table w2) -> Q w1 w2) -> at_moment w w' Q.
Proof using Type. intros (w1 & w2 & H1 & HP & H2) HQ. exists w1, w2. split; [by apply others_quiet|]. split; [by apply HQ|by apply others_quiet]. Qed.

Lemma saw_observed w w' (P : table -> Prop) (Q : world -> Prop) : ready w -> saw env w w' P ->
  (forall w1, chain (w_table w1) -> P (w_table w1) -> Q w1) -> observed w w' Q.
Proof using env_ok.
  intros Hr [Ho (t & H1 & HP & H2)] HQ. split; [by apply others_quiet|]. exists (on_table (fun _ => t) w).
  split; [by split|]. split; [|split; [done|apply (others_lenv _ env_ok _ _ Ho)]].
  apply HQ; [|done]. eapply grows_chain; [apply Hr|done].
Qed.

Lemma current_pos t p kv : chain t -> current (thist t) p = Some kv -> kvModRevision kv <> 0.
Proof using Type.
  clear env_ok env other. intros Hc (r & Hl & _ & ->)%current_some. apply last_row_elem in Hl as [_ Hin]. simpl.
  pose proof (ch_ids _ Hc) as Hi. rewrite Forall_forall in Hi. specialize (Hi r Hin). lia.
Qed.

Lemma wrote_put w1 w2 k w : thist (w_table w2) = thist (w_table w1) ++ [w] -> wKey w = k ->
  wrote k (if wDeleted w then None else Some (wKV w)) w1 w2.
Proof using Type.
  intros Hh Hk. split; [|intros q Hq]; cbn; rewrite Hh, current_snoc; [by rewrite decide_True|].
  rewrite decide_False; [done|congruence].
Qed.

(** Reads only. *)
Lemma exec_List_quiet k e limit rev incl ko w x w' : ready w ->
  exec_in env (SQLLog_List k e limit rev incl ko) w x w' -> others env w w' /\ is_Some x.
Proof using env_ok.
  intros Hr Hex. unfold SQLLog_List in Hex.
  assert (Hcall : exists rows w1, others env w w1 /\ exec_in env
    (let '(rv, compact, result) := RowsToEvents rows (negb ko) false in
     '(rv, compact, err) <-!
       (match result with
        | [] => '(rv, err) <-! SQLLog_CurrentRevision;;
                if is_err err then Ret (0, 0, err)
                else '(compact, err) <-! call DGetCompactRevision;;
                     if is_err err then Ret (0, 0, err) else Ret (rv, compact, None)
        | _ => Ret (rv, compact, None)
        end);;
     if is_err err then Ret (0, [], err)
     else if rev >? rv then Ret (rv, [], Some ErrFutureRev)
     else if (rev >? 0) && (rev <? compact) then Ret (rv, [], Some ErrCompacted)
     else Ret (rv, result, None)) w1 x w').
  { destruct (rev =? 0); apply exec_inv in Hex as (w1 & H1%rtc_env_others & _ & Hex); cbn in Hex; eauto. }
  clear Hex. destruct Hcall as (rows & w1 & H1 & Hex). pose proof (ready_others _ env_ok _ _ Hr H1) as Hr1.
  destruct (RowsToEvents rows (negb ko) false) as [[rv c] result].
  assert (Hend : forall rv c err w2, exec_in env
    (if is_err err then Ret (0, [], err)
     else if rev >? rv then Ret (rv, [], Some ErrFutureRev)
     else if (rev >? 0) && (rev <? c) then Ret (rv, [], Some ErrCompacted)
     else Ret (rv, result, None)) w2 x w' -> w' = w2 /\ is_Some x).
  { intros rv' c' err w2 Hf. repeat case_match; apply exec_Ret_inv in Hf as [-> ->]; eauto. }
  destruct result as [|ev evs]; [|apply Hend in Hex as [-> Hx]; done].
  apply exec_bind_inv in Hex as [([[rv' c'] err] & w2 & Hex & Hf)|[Hex ->]].
  - apply Hend in Hf as [-> Hx]. split; [|done]. trans w1; [done|].
    apply exec_bind_inv in Hex as [([rv1 err1] & w3 & Hcur & Hex)|[_ [=]]].
    apply (exec_CurrentRevision env env_ok) in Hcur as [H3 (r' & [= -> ->] & _)]; [|done]. cbn [is_err] in Hex.
    apply exec_inv in Hex as (w4 & H4%rtc_env_others & _ & Hex). cbn in Hex.
    trans w3; [done|]. trans w4; [done|]. repeat case_match; by apply exec_Ret_inv in Hex as [_ ->].
  - exfalso. apply exec_bind_inv in Hex as [([rv1 err1] & w3 & Hcur & Hex)|[Hcur _]];
      apply (exec_CurrentRevision env env_ok) in Hcur as [H3 (r' & [=] & _)]; try done. subst. cbn [is_err] in Hex.
    apply exec_inv in Hex as (w4 & _ & _ & Hex). cbn in Hex. repeat case_match; by apply exec_Ret_inv in Hex as [? _].
Qed.

Lemma exec_Get_quiet k rev ko w x w' : ready w -> exec_in env (Get L k rev ko) w x w' -> others env w w' /\ is_Some x.
Proof using env_ok.
  intros Hr Hex. unfold Get, get in Hex.
  assert (Hget : forall y w1, exec_in env (get L k rev false ko) w y w1 -> others env w w1 /\ is_Some y).
  { intros y w1 [([[rv evs] err] & w2 & [Hl _]%exec_List_quiet & Hg)|[[_ [? ?]]%exec_List_quiet _]]%exec_bind_inv; [|done..].
    repeat case_match; apply exec_Ret_inv in Hg as [-> ->]; eauto. }
  apply exec_bind_inv in Hex as [([[rv ev] err] & w1 & [Ho _]%Hget & Hex)|[[_ [? ?]]%Hget _]]; [|done].
  apply (then_adjust env env_ok ci batch mr rv (fun r => (r, match ev with None => None | Some e => evKV e end, err))) in Hex
    as [Ho' (rev' & -> & _)]; [|exact (ready_others _ env_ok _ _ Hr Ho)].
  split; [by trans w1|by eexists].
Qed.

Lemma current_nil k h : hist_of k h = [] -> current h k = None.
Proof using Type. unfold current. by intros ->. Qed.

Lemma slot_name k p : sb_slot k = Some p -> p = k /\ k <> compact_rev_key.
Proof using Type. cbn. destruct (String.eqb_spec k compact_rev_key); [done|]. by intros [= <-]. Qed.

#[local] Instance sql_shared_laws : SharedBackendLaws dop world.
Proof using env_ok.
  split.
  - intros k v l p w x w' Hr [-> Hk]%slot_name Hplain Hex.
    apply (create_exec env env_ok) in Hex as (Hr' & n & err & -> & Hres); [|done..]. do 2 eexists. split; [done|].
    destruct err as [e|].
    + destruct Hres as [[-> Hs]|[He _]].
      2:{ split; [right; by eexists|]. intros ->. cbn in He. by destruct (w_objects w k v) as [| |?|?]; cbn in He; repeat case_match. }
      split; [by left|]. intros _. split; [done|]. eapply saw_observed; [done|exact Hs|].
      intros w1 Hc [kv Hkv] _. cbn in *. rewrite Hkv. by eapply current_pos.
    + eapply moment_at; [exact Hres|]. intros w1 w2 (Hc & _ & Hh). split; [done|]. by apply (wrote_put _ _ _ _ Hh).
  - intros k v r l p w x w' Hr [-> Hk]%slot_name Hplain Hex.
    apply (update_exec env env_ok) in Hex as (Hr' & n & kv & ok & -> & Hres); [|done..]. do 4 eexists. split; [done|]. split; [done|].
    destruct ok.
    + split; [done|]. eapply moment_at; [exact Hres|]. intros w1 w2 (_ & kv0 & Hc & Hm & Hh & _). exists kv0.
      split_and!; [done|done|]. by apply (wrote_put _ _ _ _ Hh).
    + intros _. eapply saw_observed; [done|exact Hres|]. intros w1 _ [Hkv Hm]. cbn. auto.
  - intros k r p w x w' Hr [-> Hk]%slot_name Hex.
    apply (delete_exec env env_ok) in Hex as (Hr' & n & kv & ok & -> & Hres); [|done|done]. do 4 eexists. split; [done|]. split; [done|].
    destruct ok.
    + split; [done|]. destruct kv as [kv|].
      * eapply moment_at; [exact Hres|]. intros w1 w2 (_ & Hc & Hm & Hh). split; [done|].
        split; [by apply (wrote_put _ _ _ _ Hh)|]. by intros ? [= <-].
      * eapply moment_at; [exact Hres|]. intros w1 w2 [Ht Hn]. split; [by apply current_nil|].
        split; [|done]. split; [|intros q _]; cbn; rewrite Ht; [by apply current_nil|done].
    + intros _. destruct kv, Hres; by apply others_quiet.
  - intros k r b w x w' _ Hr [Ho Hx]%exec_Get_quiet; [|done]. split; [done|]. split; [by apply others_quiet|by apply (others_lenv _ env_ok)].
Qed.
End sql.
