(* ===== verification/StackList.v ===== *)
(** * Listing through the whole stack on the SQL log

    A list request of the front end makes two calls, and each of them several
    calls of the table, with other clients' writes in between. *)
From S2P Require Import Prelude Types GoStrings Prog Backend Server ServerProofs Stack.
From S2P Require Import OrderedMap Mvcc MemoryProofs Sql SqlLog SqlProofs LogStructured LogProofs LogTheorems SqlTheorems StackSql.

(** What is at a revision stays. *)
Lemma grows_view t t' r k : grows t t' -> r <= seq t -> view (thist t') r k = view (thist t) r k.
Proof.
  induction 1 as [|t t1 t' [x Hx] _ IH]; intros Hr; [done|]. pose proof (ap_seq _ _ _ Hx) as Hs.
  rewrite IH by lia. rewrite (thist_appends _ _ _ Hx). apply view_snoc_past. simpl. rewrite (ap_id _ _ _ Hx). lia.
Qed.

Lemma grows_listing t t' r key e b kvs : grows t t' -> r <= seq t ->
  is_listing (thist t') r key e b kvs -> is_listing (thist t) r key e b kvs.
Proof.
  intros Hg Hr [Hs He]. split; [done|]. intros kv. rewrite He. by setoid_rewrite (grows_view _ _ _ _ Hg Hr).
Qed.

(** The highest revision shows the whole table. *)
Lemma view_current_rev t n k : chain t -> CurrentRevSQL t = Some n -> view (thist t) n k = view (thist t) (seq t) k.
Proof.
  intros Hc Hn. unfold view. f_equal. f_equal. unfold upto. apply filter_agree. intros w Hw%elem_of_hist_of.
  destruct Hw as [_ (r & -> & Hr)%list_elem_of_fmap]. pose proof (CurrentRev_bounds _ _ Hc Hn).
  assert (r_id r <= n) by (eapply sql_max_ub; [exact Hn|]; apply list_elem_of_fmap; eauto). simpl. split; lia.
Qed.

Lemma listing_current_rev t n key e b kvs : chain t -> CurrentRevSQL t = Some n ->
  is_listing (thist t) n key e b kvs <-> is_listing (thist t) (seq t) key e b kvs.
Proof.
  intros Hc Hn. split; intros [Hs He]; (split; [done|]); intros kv; rewrite He; by setoid_rewrite (view_current_rev _ _ _ Hc Hn).
Qed.

Lemma insert_perm r l : insert_by_name r l ≡ₚ r :: l.
Proof.
  induction l as [|x l IH]; simpl; [done|]. destruct (String.ltb _ _); [|done]. rewrite IH. apply Permutation_swap.
Qed.

Lemma order_perm l : order_by_name l ≡ₚ l.
Proof. induction l as [|r l IH]; simpl; [done|]. by rewrite insert_perm, IH. Qed.

Lemma current_rev_mono t t' n n' : grows t t' -> CurrentRevSQL t = Some n -> CurrentRevSQL t' = Some n' -> n <= n'.
Proof.
  intros Hg (r & -> & Hr)%sql_max_elem%list_elem_of_fmap Hn'. eapply sql_max_ub; [exact Hn'|].
  apply list_elem_of_fmap. exists r. split; [done|]. by eapply grows_elem.
Qed.

Section list.
Variables (ci batch mr : Z).
Variable env : world -> world -> Prop.
Hypothesis env_ok : forall w w', env w w' -> lenv w w'.
Variable other : forall R, bop R -> dprog R.
Local Abbreviation L := (sqlLog ci batch mr).

Lemma exec_list_current key e limit ko w x w' : ready w -> exec_in env (SQLLog_List key e limit 0 false ko) w x w' ->
  exists w1 n, others env w w1 /\ others env w1 w' /\ CurrentRevSQL (w_table w1) = Some n /\
  let q := list_query (w_table w1) key e limit 0 in
  match q with
  | [] => exists r, x = Some (r, [], None)
  | _ => x = Some (n, event_of (negb ko) false <$> q, None)
  end.
Proof using env_ok.
  intros Hr Hex. apply exec_inv in Hex as (w1 & H1%rtc_env_others & _ & Hex). cbn [h_do dialect_handler dialect_do fst snd pbind] in Hex.
  pose proof (ready_others _ env_ok _ _ Hr H1) as Hr1.
  destruct (started_revs (w_table w1)) as (n & c & Hn & _); [apply Hr1|]. exists w1, n. split; [done|].
  rewrite ListCurrent_rows, RowsToEvents_spec in Hex by apply Hr1. cbv zeta.
  destruct (list_query (w_table w1) key e limit 0) as [|r q].
  - cbn [fmap list_fmap] in Hex. apply (exec_empty_list env env_ok) in Hex as [Ho [r ->]]; [|done]. split; [done|]. eauto.
  - rewrite Hn in Hex. cbn -[Z.gtb] in Hex. pose proof (CurrentRev_bounds _ _ (rd_chain _ Hr1) Hn).
    destruct (Z.gtb_spec 0 n); [lia|]. apply exec_Ret_inv in Hex as [-> ->]. done.
Qed.

Lemma exec_count key e rev w x w' : 0 < rev -> e <> "" -> exec_in env (SQLLog_Count key e rev) w x w' ->
  others env w w' /\ ((exists n er, x = Some (n, 0, Some er)) \/
    exists c, CurrentRevSQL (w_table w') = Some c /\
      x = Some (c, Z.of_nat (length (list_rows (w_table w') key e rev)), None) \/ CurrentRevSQL (w_table w') = None).
Proof using Type.
  intros Hrev He Hex. unfold SQLLog_Count in Hex. rewrite (proj2 (Z.eqb_neq _ _)) in Hex by lia.
  apply exec_inv in Hex as (w1 & H1%rtc_env_others & _ & Hex). cbn [h_do dialect_handler dialect_do fst snd pbind] in Hex.
  assert (Hw : w' = w1) by (unfold Sql.Count in Hex; repeat case_match; by apply exec_Ret_inv in Hex as [_ ->]).
  subst w'. split; [done|].
  unfold Sql.Count in Hex. destruct (CurrentRevSQL (w_table w1)) as [c|] eqn:Hc; [|right; exists 0; by right].
  cbn [Int64 default from_option id] in Hex. destruct (rev >? c); [left|destruct (rev <? _); [left|right]];
    apply exec_Ret_inv in Hex as [-> _]; eauto. exists c. left. split; [done|]. unfold CountSQL, list_rows, in_names.
  by rewrite (proj2 (String.eqb_neq _ _) He).
Qed.

Lemma mapM_values (l : list KeyValue) : mapM id (Some <$> l) = Some l.
Proof using Type. induction l as [|x l IH]; [done|]. cbn in *. by rewrite IH. Qed.

Lemma length_LIMIT {A} limit (l : list A) : 0 < limit -> Z.of_nat (length (LIMIT limit l)) = Z.min limit (Z.of_nat (length l)).
Proof using Type. intros Hl. unfold LIMIT. rewrite (proj2 (Z.gtb_lt _ _)) by done. rewrite length_take. lia. Qed.

(** The rows of a page: the first of the listing at the moment of the list. *)
Lemma page_rows t key e limit ko : chain t -> e <> "" -> 0 < limit -> exists kvs,
  is_listing (thist t) (seq t) key e ko kvs /\
  row_kv ko <$> list_query t key e limit 0 = take (Z.to_nat limit) kvs.
Proof using Type.
  intros Hc He Hl. destruct (list_query_listing t key e limit 0 ko Hc ltac:(lia)) as (kvs & Hk & Hq).
  exists kvs. split; [exact Hk|]. rewrite Hq. unfold limited. by rewrite (proj2 (Z.gtb_lt _ _)).
Qed.

(** The list call of the backend: a page of one table, and its revision. *)
Lemma exec_blist key e limit ko w x w' : ready w -> e <> "" -> 0 < limit ->
  exec_in env (ls_call ci batch mr other (BList key e limit 0 ko "" "")) w x w' ->
  exists w1 c kvs n, others env w w1 /\ others env w1 w' /\ CurrentRevSQL (w_table w1) = Some c /\
    is_listing (thist (w_table w1)) (seq (w_table w1)) key e ko kvs /\
    x = Some (n, take (Z.to_nat limit) kvs, None) /\ (kvs <> [] -> n = c).
Proof using env_ok.
  intros Hr He Hlim Hex. cbn [ls_call String.eqb andb] in Hex. unfold List in Hex.
  assert (Hl : exists y w4, exec_in env (SQLLog_List key e limit 0 false ko) w y w4 /\
    match y with
    | Some (n, evs, err) => exec_in env (values (evKV <$> evs) (fun kvs => Ret (n, kvs, err))) w4 x w'
    | None => True
    end).
  { apply exec_bind_inv in Hex as [([[n0 okvs] err0] & w2 & Hl & Hv)|[Hl ->]];
      apply exec_bind_inv in Hl as [([[n1 evs] err1] & w4 & Hl & Hm)|[Hl ?]];
      [|done|by apply exec_Ret_inv in Hm as [? _]|by exists None, w'].
    apply exec_Ret_inv in Hm as [[= -> -> ->] ->]. by do 2 eexists. }
  clear Hex. destruct Hl as (y & w4 & Hl & Hv).
  apply exec_list_current in Hl as (w1 & c & H1 & H2 & Hc & Hq); [|done].
  pose proof (rd_chain _ (ready_others _ env_ok _ _ Hr H1)) as Hch.
  destruct (page_rows (w_table w1) key e limit ko Hch He Hlim) as (kvs & Hk & Hpage). cbv zeta in Hq.
  assert (Hy : exists n, y = Some (n, event_of (negb ko) false <$> list_query (w_table w1) key e limit 0, None) /\ (kvs <> [] -> n = c)).
  { destruct (list_query (w_table w1) key e limit 0) as [|r q]; [|by eauto]. destruct Hq as [n ->]. exists n. split; [done|].
    intros Hne. destruct kvs as [|kv kvs]; [done|]. exfalso. destruct (Z.to_nat limit) eqn:El; [lia|done]. }
  destruct Hy as (n & -> & Hn). rewrite events_kv, Hpage in Hv. unfold values in Hv. rewrite mapM_values in Hv.
  apply exec_Ret_inv in Hv as [-> ->]. exists w1, c, kvs, n. done.
Qed.

Lemma list_snapshot r w resp w' :
  ready w -> rngRangeEnd r <> "" -> rngCountOnly r = false -> rngLabelSelector r = "" -> rngFieldSelector r = "" ->
  0 < rngLimit r < maxInt64 -> rngRevision r <= 0 ->
  exec_in env (inline (@ls_call ci batch mr other) (LimitedServer_list r)) w (Some (Some resp, None)) w' ->
  others env w w' /\ exists t kvs, grows (w_table w) t /\ grows t (w_table w') /\
    is_listing (thist t) (seq t) (rngKey r) (rngRangeEnd r) (rngKeysOnly r) kvs /\
    rrKvs resp = take (Z.to_nat (rngLimit r)) kvs /\
    rrMore resp = (Z.of_nat (length kvs) >? rngLimit r) /\ rrCount resp = Z.of_nat (length kvs) /\
    (kvs <> [] -> forall n, CurrentRevSQL t = Some n -> n <= rrHeader resp /\ (rrMore resp = false -> n = rrHeader resp)).
Proof using env_ok.
  intros Hr He Hco Hls Hfs Hlim Hrev Hex. unfold LimitedServer_list in Hex.
  rewrite (proj2 (String.eqb_neq _ _) He), Hco, Hls, Hfs in Hex.
  rewrite (proj2 (Z.gtb_lt (rngLimit r) 0)) in Hex by lia.
  rewrite wrap64_id in Hex by (unfold int64_ok, minInt64, maxInt64, two63 in *; lia).
  assert (Hrv : (rngRevision r >? 0) = false) by (destruct (Z.gtb_spec (rngRevision r) 0); [lia|done]).
  rewrite Hrv in Hex. cbn [pbind call inline ls_call String.eqb andb] in Hex.
  set (key := rngKey r) in *. set (e := rngRangeEnd r) in *. set (ko := rngKeysOnly r) in *.
  apply exec_bind_inv in Hex as [([[n kvs0] err] & w3 & Hl & Hex)|[_ [=]]].
  apply exec_blist in Hl as (w1 & c & kvs & n' & H1 & H2 & Hc & Hk & [= <- -> ->] & Hn); [|done|done|lia].
  pose proof (rd_chain _ (ready_others _ env_ok _ _ Hr H1)) as Hch. pose proof (CurrentRev_bounds _ _ Hch Hc) as Hcb.
  rewrite (proj2 (Z.gtb_lt (rngLimit r + 1) 0)) in Hex by lia. cbn [andb] in Hex.
  assert (Hlen : Z.of_nat (length (take (Z.to_nat (rngLimit r + 1)) kvs)) = Z.min (rngLimit r + 1) (Z.of_nat (length kvs)))
    by (rewrite length_take; lia).
  rewrite Hlen in Hex.
  destruct (Z.gtb_spec (Z.min (rngLimit r + 1) (Z.of_nat (length kvs))) (rngLimit r)) as [Hmore|Hall].
  - assert (Hne : kvs <> []) by (intros ->; simpl in Hmore; lia). rewrite (Hn Hne) in Hex.
    apply exec_bind_inv in Hex as [([[n2 cnt] e2] & w5 & Hcnt & Hex)|[_ [=]]].
    apply (exec_count key e c) in Hcnt as [H5 Hx]; [|lia|done].
    apply exec_Ret_inv in Hex as [[= -> <-] ->]. assert (Ho : others env w1 w5) by by trans w3.
    pose proof (others_grows _ env_ok _ _ Ho) as Hg. pose proof (grows_chain _ _ Hch Hg) as Hch5.
    destruct Hx as [(? & ? & [=])|(c5 & [[Hc5 [= -> ->]]|Hno])].
    2:{ exfalso. apply sql_max_elem, list_elem_of_fmap in Hc as (x & _ & Hin).
        destruct (rows_nonempty (w_table w5) x) as [? ?]; [by eapply grows_elem|congruence]. }
    split; [by trans w1|]. exists (w_table w1), kvs. cbn.
    pose proof (list_rows_listing (w_table w5) key e c ko Hch5) as H5l.
    apply (grows_listing _ _ c _ _ _ _ Hg (proj2 Hcb)), (listing_current_rev _ _ _ _ _ _ Hch Hc) in H5l.
    pose proof (is_listing_unique _ _ _ _ _ _ _ H5l Hk) as Heq.
    split_and!; [by apply (others_grows env env_ok)|done|done| |symmetry; apply Z.gtb_lt; lia| |].
    + rewrite take_take. f_equal. lia.
    + rewrite <- Heq, length_fmap. f_equal. symmetry. apply Permutation_length, order_perm.
    + intros _ n0 Hn0. rewrite Hc in Hn0. injection Hn0 as ->. split; [eapply current_rev_mono; [exact Hg|done|done]|done].
  - apply exec_Ret_inv in Hex as [[= ->] ->]. split; [by trans w1|]. exists (w_table w1), kvs. cbn.
    rewrite !take_ge by lia. split_and!; [by apply (others_grows env env_ok)|by apply (others_grows env env_ok)|done|done| |lia|].
    + destruct (Z.gtb_spec (Z.of_nat (length kvs)) (rngLimit r)); [lia|done].
    + intros Hne n0 Hn0. rewrite (Hn Hne). rewrite Hc in Hn0. by injection Hn0 as ->.
Qed.

(** C13. A list request at the current revision with a positive limit, through
    the whole stack on the SQL log and with other clients' writes between all of
    its calls: the keys answered are the first ones of the range in one table
    of a moment of the request, [More] says whether that table holds others,
    and [Count] is the number of all of them.  If the range has a key at that
    moment the revision of the header is never below that table's, and equal to
    it if there is no other page; the header of an empty answer may claim a
    later revision ([stack_empty_list_stale]). *)
Theorem stack_list_snapshot r w resp w' :
  ready w -> rngRangeEnd r <> "" -> rngCountOnly r = false -> rngLabelSelector r = "" -> rngFieldSelector r = "" ->
  0 < rngLimit r < maxInt64 -> rngRevision r <= 0 ->
  exec_in env (inline (@ls_call ci batch mr other) (LimitedServer_list r)) w (Some (Some resp, None)) w' ->
  others env w w' /\ exists t kvs, grows (w_table w) t /\ grows t (w_table w') /\
    is_listing (thist t) (seq t) (rngKey r) (rngRangeEnd r) (rngKeysOnly r) kvs /\
    rrKvs resp = take (Z.to_nat (rngLimit r)) kvs /\
    rrMore resp = (Z.of_nat (length kvs) >? rngLimit r) /\ rrCount resp = Z.of_nat (length kvs) /\
    (kvs <> [] -> forall n, CurrentRevSQL t = Some n -> n <= rrHeader resp /\ (rrMore resp = false -> n = rrHeader resp)).
Proof using env_ok. apply list_snapshot. Qed.
End list.

(** ** What the revision of the header is not *)
Ltac exec_hnf := match goal with |- exec_in ?e ?p ?s ?x ?s' =>
  let p' := eval hnf in p in let s1 := eval vm_compute in s in change (exec_in e p' s1 x s') end.
Ltac exec_calls := repeat (exec_hnf; eapply exec_call; [apply rtc_refl|vm_compute; reflexivity|]); exec_hnf; apply exec_ret.

Definition no_other (R : Type) (o : bop R) : dprog R := Panic.
Definition request key e limit : RangeRequest := MkRange key e limit 0 0 0 false false false 0 0 0 0 "" "".
Abbreviation through_stack p := (inline (@ls_call 0 100 1000 no_other) p).

(** Another client creates ["b"]; then it updates ["a"]. *)
Definition wt5 : table := (insert_row "b" true false 0 0 0 "z" wt3).2.
Definition ww5 : world := MkWorld wt5 4 3 (w_objects ww).
Definition wt6 : table := (insert_row "a" false false 2 3 0 "q" wt5).2.
Definition ww6 : world := MkWorld wt6 5 3 (w_objects ww).

Lemma ww_ww5 : lenv ww ww5.
Proof.
  split; [|done]. apply rtc_once. eexists. split; [reflexivity|reflexivity|reflexivity|done|reflexivity|]. split; reflexivity.
Qed.

Lemma ww5_ww6 : lenv ww5 ww6.
Proof.
  split; [|done]. apply rtc_once. eexists. split; [reflexivity|reflexivity|reflexivity|done|reflexivity|].
  exists (MkKeyValue "a" "y" 0 2 3 0). split; reflexivity.
Qed.

(** An empty answer may claim a revision at which the range is not empty: the
    revision is read after the query, so a key created in between is neither
    in the list nor in a watch from the next revision on. *)
Theorem stack_empty_list_stale : exists w',
  exec_in lenv (through_stack (LimitedServer_list (request "b" "c" 0))) ww
    (Some (Some (MkRangeResponse 4 [] false 0), None)) w' /\
  view (thist (w_table w')) 4 "b" = Some (MkKeyValue "b" "z" 0 4 4 0).
Proof.
  eexists. split.
  - exec_hnf. eapply exec_call; [apply rtc_refl|vm_compute; reflexivity|].
    exec_hnf. eapply exec_call; [apply rtc_once; exact ww_ww5|vm_compute; reflexivity|]. exec_calls.
  - vm_compute. reflexivity.
Qed.

(** A first page may claim a revision that is not that of the values it shows:
    the header of a list with more keys is the store's revision at the count,
    so an update in between is neither in the list nor in a watch from the next
    revision on, and the pages that follow show another snapshot. *)
Theorem stack_page_header_ahead : exists w',
  exec_in lenv (through_stack (LimitedServer_list (request "a" "c" 1))) ww5
    (Some (Some (MkRangeResponse 5 [MkKeyValue "a" "y" 0 2 3 0] true 2), None)) w' /\
  view (thist (w_table w')) 5 "a" = Some (MkKeyValue "a" "q" 0 2 5 0).
Proof.
  eexists. split.
  - exec_hnf. eapply exec_call; [apply rtc_refl|vm_compute; reflexivity|].
    exec_hnf. eapply exec_call; [apply rtc_once; exact ww5_ww6|vm_compute; reflexivity|]. exec_calls.
  - vm_compute. reflexivity.
Qed.

(** ** The theorems of the stack at concrete requests *)
Lemma ww5_ready : ready ww5.
Proof. eapply ready_lenv; [apply ww_ready|apply ww_ww5]. Qed.

Lemma stack_list_snapshot_witness : exists t kvs, is_listing (thist t) (seq t) "a" "c" false kvs /\
  [MkKeyValue "a" "y" 0 2 3 0] = take 1 kvs /\ 2 = Z.of_nat (length kvs).
Proof.
  destruct (stack_list_snapshot 0 100 1000 lenv (fun _ _ H => H) no_other (request "a" "c" 1) ww5
    (MkRangeResponse 4 [MkKeyValue "a" "y" 0 2 3 0] true 2) ww5) as (_ & t & kvs & _ & _ & Hk & Hp & _ & Hc & _).
  - apply ww5_ready.
  - discriminate.
  - reflexivity.
  - reflexivity.
  - reflexivity.
  - split; reflexivity.
  - apply Z.leb_le. reflexivity.
  - exec_calls.
  - exists t, kvs. split; [exact Hk|]. split; [exact Hp|exact Hc].
Defined.

Definition put_txn (rev : Z) (key value : string) (fail : list RequestOp) : TxnRequest :=
  MkTxn [MkCompare Compare_MOD Compare_EQUAL key (TU_ModRevision rev)] [RequestPut (MkPut key value 0 false false false)] fail.
Definition delete_txn (rev : Z) (key : string) : TxnRequest :=
  MkTxn [MkCompare Compare_MOD Compare_EQUAL key (TU_ModRevision rev)] [RequestDeleteRange (MkDeleteRange key "" false)]
    [RequestRange (request key "" 0)].
Abbreviation sql_stack := (sql_shared 0 100 1000 lenv no_other).
Definition sql_stack_laws : SharedBackendLaws dop world (H0:=sql_stack) := sql_shared_laws 0 100 1000 lenv (fun _ _ H => H) no_other.

Lemma lenv_preorder : PreOrder lenv.
Proof. split; apply _. Qed.

Lemma run_stack {A} (p : prog bop A) : run_ok roomb (through_stack p) ww = true ->
  exec_in lenv (through_stack p) ww (run (through_stack p) ww).1 (run (through_stack p) ww).2.
Proof. apply run_exec, roomb_room. Qed.

Lemma stack_create_witness : exists w1 w2 : world,
  current (thist (w_table w1)) "b" = None /\ current (thist (w_table w2)) "b" = Some (MkKeyValue "b" "{}" 0 4 4 0).
Proof.
  destruct (stack_create (H0:=sql_stack) (HL:=sql_stack_laws) (fun _ => None) (put_txn 0 "b" "{}" []) (MkPut "b" "{}" 0 false false false) "b" ww
    _ _ ww_ready eq_refl (fun _ => eq_refl) eq_refl eq_refl eq_refl eq_refl eq_refl (run_stack (Txn (fun _ => None) (put_txn 0 "b" "{}" [])) eq_refl)) as (r & e & Hx & He & Hres).
  vm_compute in Hx. injection Hx as <- <-. cbn in Hres. destruct Hres as [_ (w1 & w2 & _ & [H1 [H2 _]] & _)]. exists w1, w2. split; [exact H1|exact H2].
Defined.

Lemma stack_update_witness : exists w1 w2 : world,
  mod_revision (current (thist (w_table w1)) "a") = 3 /\ is_Some (current (thist (w_table w2)) "a").
Proof.
  destruct (stack_update (H0:=sql_stack) (HL:=sql_stack_laws) (PreOrder0:=lenv_preorder) (fun _ => None)
    (put_txn 3 "a" "{}" [RequestRange (request "a" "" 0)]) 3 "a" "{}" 0 "a" ww
    _ _ ww_ready eq_refl (fun _ => eq_refl) eq_refl eq_refl (fun _ => I) (run_stack (Txn (fun _ => None) (put_txn 3 "a" "{}" [RequestRange (request "a" "" 0)])) eq_refl)) as (r & e & Hx & Hres).
  vm_compute in Hx. injection Hx as <- <-. cbn in Hres. destruct Hres as [_ (w1 & w2 & _ & [H1 [H2 _]] & _)]. exists w1, w2.
  split; [exact H1|]. cbn in H2. rewrite H2. eexists. reflexivity.
Defined.

Lemma stack_delete_witness : exists (w1 w2 : world) kv, current (thist (w_table w1)) "a" = kv /\
  (forall kv0, kv = Some kv0 -> 3 = 0 \/ kvModRevision kv0 = 3) /\ current (thist (w_table w2)) "a" = None.
Proof.
  destruct (stack_delete (H0:=sql_stack) (HL:=sql_stack_laws) (fun _ => None) (delete_txn 3 "a") 3 "a" "a" ww
    _ _ ww_ready eq_refl eq_refl (run_stack (Txn (fun _ => None) (delete_txn 3 "a")) eq_refl)) as (r & e & Hx & Hres).
  vm_compute in Hx. injection Hx as <- <-. cbn in Hres. destruct Hres as (kv & _ & w1 & w2 & _ & [H1 [[H2 _] H3]] & _).
  exists w1, w2, kv. split; [exact H1|]. split; [exact H3|exact H2].
Defined.
