(* ===== verification/SqlCompactor.v ===== *)
(** * The compactor goroutine of the SQL log (pkg/logstructured/sqllog/sql.go)

    [compactor] keeps two numbers between ticks: the compact revision and the
    current revision of the tick before.  A tick runs [compactIter] up to the
    latter; writers append between ticks. *)
From S2P Require Import Prelude Types GoStrings Prog Mvcc Sql SqlLog SqlProofs LogProofs LogTheorems SqlTheorems LogWatch StackList.

(** Before the loop, errors dropped. *)
Definition compactor_start : dprog (Z * Z) :=
  '(compactRev, _) <-! call DGetCompactRevision;;
  '(targetCompactRev, _) <-! SQLLog_CurrentRevision;;
  Ret (compactRev, targetCompactRev).

(** What the loop does at a tick. *)
Definition compactor_tick (batch minRetain : Z) (revs : Z * Z) : dprog (Z * Z) :=
  compactIter batch minRetain revs.1 revs.2.

(** Runs of the goroutine: the state at the last tick (or at the start), what
    the goroutine holds, and the state now. *)
Definition roomy (batch : Z) (w : world) : Prop :=
  forall n, CurrentRevSQL (w_table w) = Some n -> n + batch <= maxInt64.

Inductive compacting (batch minRetain : Z) : world -> Z * Z -> world -> Prop :=
  | c_start w c revs w' : chain (w_table w) -> started (w_table w) -> fresh w -> roomy batch w ->
      CompactRevSQL (w_table w) = Some c -> 0 <= c ->
      run compactor_start w = (Some revs, w') -> compacting batch minRetain w revs w'
  | c_write wp revs w w' : compacting batch minRetain wp revs w -> grows (w_table w) (w_table w') -> roomy batch w' ->
      compacting batch minRetain wp revs w'
  | c_tick wp revs w revs' w' : compacting batch minRetain wp revs w ->
      run (compactor_tick batch minRetain revs) w = (Some revs', w') -> compacting batch minRetain w revs' w'.

Record compactor_ok (batch : Z) (wp : world) (revs : Z * Z) (w : world) : Prop := {
  co_chain : chain (w_table w);
  co_started : started (w_table w);
  co_roomy : roomy batch w;
  co_pos : 0 <= revs.1;
  co_compact : CompactRevSQL (w_table w) = Some revs.1;
  co_target : exists np n, CurrentRevSQL (w_table wp) = Some np /\ CurrentRevSQL (w_table w) = Some n /\ revs.2 <= np <= n
}.

Lemma CompactRev_grows (t t' : table) : grows t t' -> CompactRevSQL t' = CompactRevSQL t.
Proof.
  induction 1 as [|t t1 t' [r Hr] _ IH]; [done|]. rewrite IH. unfold CompactRevSQL.
  rewrite (ap_rows _ _ _ Hr), filter_app, filter_cons, decide_False by apply Hr. by rewrite filter_nil, app_nil_r.
Qed.

Section compactor.
Variables (batch minRetain : Z).
Hypothesis batch_pos : 0 < batch.
Hypothesis retain_ok : 0 < minRetain <= maxInt64.

(** One tick on a good state. *)
Lemma tick_ok (wp : world) (revs : Z * Z) (w : world) (np n : Z) : compactor_ok batch wp revs w ->
  CurrentRevSQL (w_table wp) = Some np -> CurrentRevSQL (w_table w) = Some n ->
  exists revs' w', run (compactor_tick batch minRetain revs) w = (Some revs', w') /\ compactor_ok batch w revs' w' /\
    revs.1 <= revs'.1 <= Z.max revs.1 (Z.min np (n - minRetain)) /\
    forall k rev, k <> compact_rev_key -> revs'.1 <= rev ->
      view (thist (w_table w')) rev k = view (thist (w_table w)) rev k.
Proof using batch_pos retain_ok.
  intros [Hc Hst Hr Hpos Hcr (np'&n'&Hnp&Hn&Hle)] Hnp' Hn'. rewrite Hnp in Hnp'. rewrite Hn in Hn'.
  injection Hnp' as <-. injection Hn' as <-. specialize (Hr n' Hn). pose proof (CurrentRev_bounds _ _ Hc Hn) as Hb.
  destruct (compactIter_run batch minRetain n' revs.1 revs.2 w Hc Hst Hn Hcr Hpos batch_pos) as (t & w' & Hrun & Hcp & Ht & Hv);
    [lia|unfold int64_ok, minInt64, maxInt64, two63 in *; lia|lia|].
  destruct Hcp as [Hc' Hst' Hn'' Hcr' _]. exists (Z.max revs.1 (Z.min revs.2 (n' - minRetain)), t), w'. cbn [fst snd].
  split; [exact Hrun|]. split; [|split; [lia|exact Hv]]. constructor; cbn [fst snd]; [done|done| |lia|done|].
  - intros m Hm. rewrite Hn'' in Hm. injection Hm as <-. lia.
  - exists n', n'. split; [done|]. split; [done|]. destruct Ht as [->|[-> _]]; lia.
Qed.

Lemma compacting_ok (wp : world) (revs : Z * Z) (w : world) : compacting batch minRetain wp revs w ->
  compactor_ok batch wp revs w.
Proof using batch_pos retain_ok.
  induction 1 as [w c revs w' Hc Hst Hf Hr Hcr Hpos Hrun|wp revs w w' _ [Hc Hst Hr Hpos Hcr (np&n&Hnp&Hn&Hle)] Hg Hr'|wp revs w revs' w' _ Hok Hrun].
  - destruct (started_revs _ Hst) as (n&c'&Hn&_). destruct (run_CurrentRevision w n Hn Hf) as (w1&Hrun1&Hw1).
    unfold compactor_start in Hrun. rewrite run_bind in Hrun.
    change (run (call DGetCompactRevision) w) with (Some (GetCompactRevision (w_table w)), w) in Hrun.
    unfold Sql.GetCompactRevision in Hrun. rewrite Hcr in Hrun. cbn [scan_int64 fst snd] in Hrun. rewrite run_bind, Hrun1 in Hrun. cbn in Hrun. injection Hrun as <- <-. constructor; cbn; rewrite ?Hw1; try done.
    + intros m. rewrite Hw1. apply Hr.
    + exists n, n. split; [done|]. split; [done|lia].
  - constructor; try done; [by eapply grows_chain|by eapply started_grows|by rewrite (CompactRev_grows _ _ Hg)|].
    destruct (started_revs _ (started_grows _ _ Hst Hg)) as (n'&_&Hn'&_). exists np, n'. split; [done|]. split; [done|].
    pose proof (current_rev_mono _ _ _ _ Hg Hn Hn'). lia.
  - pose proof Hok as [_ _ _ _ _ (np&n&Hnp&Hn&_)]. destruct (tick_ok _ _ _ np n Hok Hnp Hn) as (revs1&w1&Hrun1&Hok1&_).
    rewrite Hrun in Hrun1. by injection Hrun1 as <- <-.
Qed.

(** C22. The compactor keeps what its comment says: at every tick of every run
    with appends in between, [compactIter] returns, it never compacts beyond
    the revision that was current at the tick before, nor into the last
    [compactMinRetain] revisions, and the value of every key is unchanged at
    every revision that is not compacted and was current within the last
    interval or is among those retained. *)
Theorem compactor_keeps_interval (wp : world) (revs : Z * Z) (w : world) (np n : Z) :
  compacting batch minRetain wp revs w -> CurrentRevSQL (w_table wp) = Some np -> CurrentRevSQL (w_table w) = Some n ->
  exists revs' w', run (compactor_tick batch minRetain revs) w = (Some revs', w') /\
    CompactRevSQL (w_table w) = Some revs.1 /\ CompactRevSQL (w_table w') = Some revs'.1 /\
    revs.1 <= revs'.1 <= Z.max revs.1 (Z.min np (n - minRetain)) /\
    forall k rev, k <> compact_rev_key -> revs.1 <= rev -> np <= rev \/ n - minRetain <= rev ->
      view (thist (w_table w')) rev k = view (thist (w_table w)) rev k.
Proof using batch_pos retain_ok.
  intros Hok%compacting_ok Hnp Hn. destruct (tick_ok _ _ _ np n Hok Hnp Hn) as (revs'&w'&Hrun&[_ _ _ _ Hcr' _]&Hb&Hv).
  exists revs', w'. split; [done|]. split; [apply Hok|]. split; [done|]. split; [done|].
  intros k rev Hk Hrev Hlast. apply Hv; [done|lia].
Qed.
End compactor.

Lemma compactor_keeps_interval_witness : exists revs' w',
  run (compactor_tick 100 1 (0, 3)) (MkWorld wt5 4 3 (w_objects ww)) = (Some revs', w') /\ CompactRevSQL (w_table w') = Some revs'.1 /\
  revs'.1 <= 3.
Proof.
  assert (Hs : compacting 100 1 ww (0, 3) ww).
  { apply (c_start 100 1 ww 0); [apply ww_ready|apply ww_ready|right; reflexivity| |reflexivity|lia|reflexivity].
    intros n Hn. vm_compute in Hn. injection Hn as <-. vm_compute. discriminate. }
  destruct (compactor_keeps_interval 100 1 ltac:(lia) ltac:(vm_compute; split; [reflexivity|discriminate]) ww (0, 3)
    (MkWorld wt5 4 3 (w_objects ww)) 3 4) as (revs' & w' & Hrun & _ & Hcr & Hb & _).
  - apply (c_write 100 1 ww (0, 3) ww); [exact Hs|apply ww_ww5|].
    intros n Hn. vm_compute in Hn. injection Hn as <-. vm_compute. discriminate.
  - reflexivity.
  - reflexivity.
  - exists revs', w'. split; [exact Hrun|]. split; [exact Hcr|]. cbn in Hb. lia.
Defined.
