(* ===== verification/Reflector.v ===== *)
(** * List, then watch: a client's copy of the store

    What clients of the server are built on.  A client lists a range, keeps
    the answer by key, watches from the revision after that of the answer and
    applies every event it receives: it then holds, at every revision the
    watch has passed on, exactly the values the store has at that revision. *)
From stdpp Require Import gmap.
From S2P Require Import Prelude Types GoStrings Prog Backend Server ServerProofs Stack.
From S2P Require Import OrderedMap Mvcc MemoryProofs Sql SqlLog SqlProofs LogStructured LogProofs LogTheorems SqlTheorems LogWatch SqlPoll StackSql StackList.
Local Open Scope Z_scope.

(** ** The client *)
Notation cache := (gmap string KeyValue).





(** ** The stack *)
Section stack.
Variables (ci batch mr : Z).
Variable env : world -> world -> Prop.
Hypothesis env_ok : forall w w', env w w' -> lenv w w'.
Variable other : forall R, bop R -> dprog R.
Local Abbreviation L := (sqlLog ci batch mr).


End stack.




