(* ===== verification/StackNats.v ===== *)
(** * The whole stack on NATS

    The backend calls of the front end answered by the NATS backend, while any
    other clients add messages to the stream: the laws of [Stack] hold, but not
    exactly, since this backend also fails in other ways and may answer that a
    deletion did not succeed after it has written the tombstone.  The bucket has
    one replica, the default, so that its reads are current, and the keys are
    valid UTF-8, which JSON keeps. *)
From S2P Require Import Prelude Types GoStrings Prog Backend Stack.
From S2P Require Import OrderedMap Server NatsCodec ExpireHeap NatsKv NatsBackend NatsIndex NatsProofs NatsBucket NatsTheorems NatsRuns.

Section nats.
Context `{HN : NatsEnv} `{HNL : !NatsEnvLaws}.
Context {M : Type -> Type} `{HM : OrderedMap M}.
Context {J : Type} `{HJ : !JetStream J} `{HJL : !JetStreamLaws J}.
Local Abbreviation kstate := (kstate (M:=M) (J:=J)).
Variable env : kstate -> kstate -> Prop.
Hypothesis env_ok : forall s s', env s s' -> kgrow s s'.
Hypothesis one_replica : js_replicas (J:=J) = 1.
Variable compactMinRetain : Z.

(** A nil value in a list would be a panic in the front end. *)
Definition nats_call {R} (o : bop R) : kprog R :=
  match o with
  | BGet k r ko => NatsBackend.Get k r ko
  | BCreate k v l => NatsBackend.Create k v l
  | BDelete k r => NatsBackend.Delete k r
  | BUpdate k v r l => NatsBackend.Update k v r l
  | BList k e limit r ko _ _ =>
      '(rev, kvs, err) <-! NatsBackend.List k e limit r ko;;
      match mapM id kvs with Some kvs => Ret (rev, kvs, err) | None => Panic end
  | BCount k e r _ _ => NatsBackend.Count k e r
  | BDbSize => NatsBackend.DbSize
  | BCurrentRevision => NatsBackend.CurrentRevision
  | BCompact r => NatsBackend.Compact r compactMinRetain
  end.

Definition slot (k : string) : option string :=
  match Encode encode58 k with
  | (ek, None) => if String.eqb (json_string k) k then Some ek else None
  | _ => None
  end.

Definition nats_shared : SharedBackend kop kstate := {|
  sb_call := @nats_call;
  sb_env := env;
  sb_reach := kgrow;
  sb_ready s := Forall wf_msg (log s);
  sb_slot := slot;
  sb_cur s p := cur p (log s);
  sb_plain _ _ _ := True;
  sb_refused _ _ _ := False;
  sb_exact := False
|}.
Local Existing Instance nats_shared.

Lemma slot_Encode k p : sb_slot k = Some p -> Encode encode58 k = (p, None) /\ json_string k = k.
Proof using Type.
  cbn. unfold slot. destruct (Encode encode58 k) as [ek [e|]]; [done|]. destruct (String.eqb_spec (json_string k) k); [|done].
  by intros [= ->].
Qed.

Lemma calm_quiet s s' : rtc (calm env) s s' -> quiet s s'.
Proof using Type.
  induction 1 as [|s s1 s' [Hs|Hl] _ IH]; [done|eapply rtc_l; [by left|done]|].
  eapply rtc_l; [|done]. right. intros p. cbn. by rewrite Hl.
Qed.

(** A message of one subject changes the value there only. *)
Lemma wrote_message (s1 s2 : kstate) m p : log s2 = log s1 ++ [m] -> je_key m = p -> wrote p (cur p (log s2)) s1 s2.
Proof using Type.
  intros Hl Hk. split; [done|]. intros q Hq. cbn. rewrite Hl. unfold cur. rewrite last_of_snoc, decide_False; congruence.
Qed.

#[local] Instance nats_shared_laws : SharedBackendLaws kop kstate.
Proof using env_ok one_replica HJL HNL.
  split.
  - intros k v l p s x s' Hr [Hp Hj]%slot_Encode _ Hex.
    apply (create_linear env env_ok _ _ _ _ _ _ _ Hp Hr) in Hex as (n & err & -> & Hres). do 2 eexists. split; [done|].
    destruct err as [e|].
    + split; [done|]. intros He. specialize (Hres He). pose proof (rtc_calm_grow env env_ok _ _ Hres) as Hg.
      split; [by eapply wf_grow|]. split; [by apply calm_quiet|]. exists s'. by split_and!.
    + destruct Hres as (s1 & s2 & m & H1 & H2 & Hn & Hk & Hl & Hc). rewrite Hj in Hc. exists s1, s2. split; [by apply calm_quiet|].
      split; [|by apply calm_quiet]. split; [done|]. rewrite <- Hc. by eapply wrote_message.
  - intros k v r l p s x s' Hr [Hp Hj]%slot_Encode _ Hex.
    apply (update_linear env env_ok _ _ _ _ _ _ _ _ Hp Hr) in Hex as (n & kv & ok & err & -> & Hres).
    do 4 eexists. split; [done|]. split; [done|]. destruct ok.
    + destruct Hres as (-> & s1 & s2 & kv0 & m & H1 & H2 & Hc & Hm & Hk & Hl & -> & Hc2).
      unfold json_kv in Hc2. simpl in Hc2. rewrite Hj in Hc2. split; [done|].
      exists s1, s2. split; [by apply calm_quiet|]. split; [|by apply calm_quiet]. exists kv0. split; [done|]. split; [done|].
      rewrite <- Hc2. by eapply wrote_message.
    + intros He. destruct (Hres He) as [Hq Hv]. split; [by apply calm_quiet|]. destruct kv as [kv|].
      * destruct (Hv kv eq_refl) as (s1 & H1 & H2 & _ & Hc). specialize (Hc one_replica). exists s1. split_and!; [by apply (rtc_calm_grow env)|by right|done|by apply (rtc_calm_grow env)].
      * exists s'. split_and!; [by apply (rtc_calm_grow env)|by left|done|done].
  - intros k r p s x s' Hr [Hp _]%slot_Encode Hex.
    apply (delete_linear env env_ok _ _ _ _ _ _ Hp Hr) in Hex as (n & kv & ok & err & -> & Hres).
    do 4 eexists. split; [done|]. split; [done|]. destruct ok; [|done]. destruct kv as [kv|].
    + destruct Hres as (-> & Hm & s1 & s2 & s3 & s4 & m & m' & H1 & Hc & Hk & Hl & _ & Hc2 & H3 & Hc3 & Hk' & Hl' & Hc4 & H4).
      split; [done|]. exists s1, s2. split; [by apply calm_quiet|]. split.
      * split; [done|]. split; [|by intros ? [= <-]]. rewrite <- Hc2. by eapply wrote_message.
      * trans s3; [by apply calm_quiet|]. trans s4; [|by apply calm_quiet]. apply rtc_once. right. intros q. cbn.
        destruct (decide (q = p)) as [->|Hq]; [congruence|]. by apply (wrote_message s3 s4 m' p).
    + destruct Hres as (-> & Hq & s1 & H1 & H2 & _ & Hc). specialize (Hc one_replica). split; [done|]. exists s1, s1. split; [by apply calm_quiet|].
      split; [|by apply calm_quiet]. split; [done|]. split; [|done]. by split.
  - intros k r b s x s' [].
Qed.
End nats.

(** A creation through the stack on the bucket in memory. *)
Definition w_txn : TxnRequest :=
  MkTxn [MkCompare Compare_MOD Compare_EQUAL "/r/c" (TU_ModRevision 0)] [RequestPut (MkPut "/r/c" "z" 0 false false false)] [].

Lemma nats_stack_run : exists (s1 s2 : mstate) n, cur (Encode w_encode "/r/c").1 (log s1) = None /\
  cur (Encode w_encode "/r/c").1 (log s2) = Some (MkKeyValue "/r/c" "z" 0 n n 0).
Proof.
  assert (Hone : js_replicas (JetStream:=mem_stream) = 1) by reflexivity.
  set (p := inline (fun R => nats_call 0 (R:=R)) (Txn (fun _ => None) w_txn)).
  destruct (create_through (H0:=nats_shared kgrow 0) (HL:=nats_shared_laws kgrow (fun _ _ H => H) Hone 0) (fun _ => None) w_txn
    (MkPut "/r/c" "z" 0 false false false) (Encode w_encode "/r/c").1 s_two (run p s_two).1 (run p s_two).2) as (r & e & Hx & _ & Hres).
  - apply wf_ok_wf. by vm_compute.
  - reflexivity.
  - reflexivity.
  - reflexivity.
  - reflexivity.
  - reflexivity.
  - by vm_compute.
  - exact I.
  - apply run_kgrow. by vm_compute.
  - vm_compute in Hx. injection Hx as <- <-. cbn in Hres. destruct Hres as [_ (s1 & s2 & _ & [H1 [H2 _]] & _)].
    exists s1, s2. eexists. split; [exact H1|exact H2].
Qed.
