(* ===== verification/Client.v ===== *)
(** * The client (pkg/client/client.go)

    A small wrapper of the etcd client, which is third-party code: its
    requests are the calls [eop].  A transaction of the wrapper compares one
    mod revision. *)
From S2P Require Import Prelude Types Prog.

Record RawKV := MkRawKV { rKey : string; rValue : string; rModRevision : Z }.

Inductive then_op : Type := OpPut (key value : string) | OpDelete (key : string).

Inductive eop : Type -> Type :=
  | EGet (key : string) (withPrefix : bool) (rev : Z) : eop (list RawKV * gerr)
  | ETxn (cmpKey : string) (cmpRev : Z) (thn : then_op) (elseGet : option string) : eop (bool * gerr)
  | ECompact (revision : Z) : eop (option Z * gerr).

Abbreviation eprog := (prog eop).

Definition ErrNotFound : err := ErrOther "etcdwrapper: key not found".
Definition errKeyExists : err := ErrOther "key exists".
Definition errRevision (revision : Z) : err := ErrOther "revision doesnt match".

Record Val := MkVal { vKey : string; vData : string; vModified : Z }.
Definition zeroVal : Val := MkVal "" "" 0.
Definition to_val (kv : RawKV) : Val := MkVal (rKey kv) (rValue kv) (rModRevision kv).

Definition List (key : string) (rev : Z) : eprog (list Val * gerr) :=
  '(kvs, err) <-! call (EGet key true rev);;
  if is_err err then Ret ([], err) else Ret (to_val <$> kvs, None).

Definition Get (key : string) : eprog (Val * gerr) :=
  '(kvs, err) <-! call (EGet key false 0);;
  if is_err err then Ret (zeroVal, err)
  else match kvs with [kv] => Ret (to_val kv, None) | _ => Ret (zeroVal, Some ErrNotFound) end.

Definition Create (key value : string) : eprog gerr :=
  '(succeeded, err) <-! call (ETxn key 0 (OpPut key value) None);;
  if is_err err then Ret err
  else if succeeded : bool then Ret None else Ret (Some errKeyExists).

Definition Update (key : string) (revision : Z) (value : string) : eprog gerr :=
  '(succeeded, err) <-! call (ETxn key revision (OpPut key value) (Some key));;
  if is_err err then Ret err
  else if succeeded : bool then Ret None else Ret (Some (errRevision revision)).

Definition Delete (key : string) (revision : Z) : eprog gerr :=
  '(succeeded, err) <-! call (ETxn key revision (OpDelete key) (Some key));;
  if is_err err then Ret err
  else if succeeded : bool then Ret None else Ret (Some (errRevision revision)).

Definition Put (key value : string) : eprog gerr :=
  '(val, err) <-! Get key;;
  if is_err err then Ret err
  else if vModified val =? 0 then Create key value
  else Update key (vModified val) value.

Definition Compact (revision : Z) : eprog (Z * gerr) :=
  '(resp, err) <-! call (ECompact revision);;
  match resp with Some rev => Ret (rev, err) | None => Ret (0, err) end.

Section client.
Context {S : Type} `{Handler eop S}.

(** [Put] never creates: for a key the server does not have it fails with
    [ErrNotFound] after its read and writes nothing, since the test for a new
    key comes after the return on that error. *)
Lemma Put_missing key value s s' :
  h_do (EGet key false 0) s = (([], None), s') ->
  run (Put key value) s = (Some (Some ErrNotFound), s').
Proof. intros Hg. unfold Put, Get. cbn [pbind call run]. rewrite Hg. reflexivity. Qed.
End client.
