(* ===== verification/Objects.v ===== *)
(** * Kubernetes objects (pkg/util/selector.go)

    The resource type a key stands for, what is read from an object of each
    type, and the registry of the selectable fields of custom resources.  The
    Go structs are third-party: an [object] is its type, its metadata and a
    function from the remaining fields that are read to their printed values.
    Decoding, JSON path queries and English plurals are parameters. *)
From S2P Require Import Prelude GoStrings.
From stdpp Require Import gmap.
From Stdlib Require Import Ascii.

(** ** Types and metadata *)
Inductive otype : Type :=
  | Pod | CoreEvent | Secret | Namespace | ReplicaSet | ReplicationController | Job | Node
  | CertificateSigningRequest | ClusterRole | ClusterRoleBinding | PartialObjectMetadata.
#[export] Instance otype_eq_dec : EqDecision otype.
Proof. solve_decision. Defined.

Record OwnerReference := MkOwner { or_UID : string; or_BlockOwnerDeletion : option bool }.

Record object := MkObject {
  o_type : otype;
  o_Name : string;
  o_Namespace : string;
  o_UID : string;
  o_ResourceVersion : string;
  o_Finalizers : list string;
  o_OwnerReferences : list OwnerReference;
  o_Labels : gmap string string;
  o_APIVersion : string;
  o_Kind : string;
  o_field : string -> string
}.

Definition GetObjectByKey (key : string) : otype :=
  if HasPrefix key "/registry/pods/" then Pod
  else if HasPrefix key "/registry/events/" then CoreEvent
  else if HasPrefix key "/registry/secrets/" then Secret
  else if HasPrefix key "/registry/namespaces/" then Namespace
  else if HasPrefix key "/registry/replicasets/" then ReplicaSet
  else if HasPrefix key "/registry/replicationcontrollers/" then ReplicationController
  else if HasPrefix key "/registry/jobs/" then Job
  else if HasPrefix key "/registry/minions/" then Node
  else if HasPrefix key "/registry/certificatesigningrequests/" then CertificateSigningRequest
  else if HasPrefix key "/registry/clusterroles/" then ClusterRole
  else if HasPrefix key "/registry/clusterrolebindings/" then ClusterRoleBinding
  else PartialObjectMetadata.

(** The types the switches of the getters list. *)
Definition GetUIDByObject (obj : object) : string :=
  match o_type obj with
  | Pod | CoreEvent | Secret | Namespace | ReplicaSet | ReplicationController | Job | Node
  | CertificateSigningRequest | PartialObjectMetadata => o_UID obj
  | _ => ""
  end.

Definition GetResourceVersionByObject (obj : object) : string :=
  match o_type obj with
  | Pod | CoreEvent | Secret | Namespace | ReplicaSet | ReplicationController | Job | Node
  | CertificateSigningRequest | PartialObjectMetadata => o_ResourceVersion obj
  | _ => ""
  end.

Definition GetFinalizersByObject (obj : object) : list string :=
  match o_type obj with
  | Pod | CoreEvent | Secret | Namespace | ReplicaSet | ReplicationController | Job | Node
  | CertificateSigningRequest | PartialObjectMetadata => o_Finalizers obj
  | _ => []
  end.

Definition GetOwnersByObject (obj : object) : list OwnerReference :=
  match o_type obj with
  | Pod | CoreEvent | Secret | Namespace | ReplicaSet | ReplicationController | Job | Node
  | CertificateSigningRequest | PartialObjectMetadata => o_OwnerReferences obj
  | _ => []
  end.

Definition GetLabelsSetByObject (obj : object) : gmap string string :=
  match o_type obj with
  | Pod | CoreEvent | Secret | Namespace | ReplicaSet | ReplicationController | Job | Node
  | CertificateSigningRequest | PartialObjectMetadata => o_Labels obj
  | _ => ∅
  end.

(** ** Registry paths *)
Record GroupVersionKind := MkGVK { g_Group : string; g_Version : string; g_Kind : string }.

Definition lower_char (c : Ascii.ascii) : Ascii.ascii :=
  let n := Ascii.N_of_ascii c in if ((65 <=? n) && (n <=? 90))%N then Ascii.ascii_of_N (n + 32) else c.

(** [strings.ToLower] on ASCII text. *)
Fixpoint ToLower (s : string) : string :=
  match s with "" => "" | String c s => String (lower_char c) (ToLower s) end.

Section util.
Context (Plural : string -> string).

Definition is_gvk (group kind : string) (gvk : GroupVersionKind) : bool :=
  String.eqb (g_Group gvk) group && String.eqb (g_Kind gvk) kind.

Definition GetResourceMappingByGVK (gvk : GroupVersionKind) : string * string * bool :=
  if is_gvk "" "Pod" gvk then ("/registry/pods/", "/api/v1/namespaces/{namespace}/pods", true)
  else if is_gvk "" "Event" gvk then ("/registry/events/", "/api/v1/namespaces/{namespace}/events", true)
  else if is_gvk "" "Secret" gvk then ("/registry/secrets/", "/api/v1/namespaces/{namespace}/secrets", true)
  else if is_gvk "" "Namespace" gvk then ("/registry/namespaces/", "/api/v1/namespaces", false)
  else if is_gvk "apps" "ReplicaSet" gvk then ("/registry/replicasets/", "/apis/apps/v1/namespaces/{namespace}/replicasets", true)
  else if is_gvk "" "ReplicationController" gvk
    then ("/registry/replicationcontrollers/", "/api/v1/namespaces/{namespace}/replicationcontrollers", true)
  else if is_gvk "batch" "Job" gvk then ("/registry/jobs/", "/apis/batch/v1/namespaces/{namespace}/jobs", true)
  else if is_gvk "" "Node" gvk then ("/registry/minions/", "/api/v1/nodes", false)
  else if is_gvk "certificates.k8s.io" "CertificateSigningRequest" gvk
    then ("/registry/certificatesigningrequests/", "/apis/certificates.k8s.io/v1/certificatesigningrequests", false)
  else if is_gvk "rbac.authorization.k8s.io" "ClusterRole" gvk
    then ("/registry/clusterroles/", "/apis/rbac.authorization.k8s.io/v1/clusterroles", false)
  else if is_gvk "rbac.authorization.k8s.io" "ClusterRoleBinding" gvk
    then ("/registry/clusterrolebindings/", "/apis/rbac.authorization.k8s.io/v1/clusterrolebindings", false)
  else
    let plural := Plural (ToLower (g_Kind gvk)) in
    if String.eqb (g_Group gvk) ""
    then ("/registry/" +:+ plural +:+ "/", "/api/" +:+ g_Version gvk +:+ "/namespaces/{namespace}/" +:+ plural, true)
    else ("/registry/" +:+ g_Group gvk +:+ "/" +:+ plural +:+ "/",
          "/apis/" +:+ g_Group gvk +:+ "/" +:+ g_Version gvk +:+ "/namespaces/{namespace}/" +:+ plural, true).

(** ** Custom resource definitions *)
(** A decoded JSON document. *)
Inductive any : Type := ANil | AStr (s : string) | AList (l : list any) | AMap (m : list (string * any)) | AOther.

Definition index (m : list (string * any)) (k : string) : any :=
  match list_find (fun p => p.1 = k) m with Some (_, (_, v)) => v | None => ANil end.

(** The type assertions of [RegisterCustomResourceDefinition]; [None] is the panic. *)
Definition cm (a : any) : option (list (string * any)) :=
  match a with ANil => Some [] | AMap m => Some m | _ => None end.
Definition cs (a : any) : option (list any) :=
  match a with ANil => Some [] | AList l => Some l | _ => None end.
Definition str (a : any) : option string := match a with AStr s => Some s | _ => None end.

(** The JSON paths of a list of selectable fields. *)
Fixpoint json_paths (fs : list any) : option (list string) :=
  match fs with
  | [] => Some []
  | f :: fs =>
      f ← cm f;
      p ← str (index f "jsonPath");
      ps ← json_paths fs;
      Some (TrimPrefix p "." :: ps)
  end.

Definition def_name (version group plural : string) : string := version +:+ "." +:+ group +:+ "/" +:+ plural.

(** The verb [%s]; [fmt_any] prints what is not a text. *)
Context (fmt_any : any -> string).
Definition sprint (a : any) : string := match a with AStr s => s | _ => fmt_any a end.

(** The loop over the versions: the definitions, and whether one was stored. *)
Fixpoint register_versions (group plural : any) (selectableFields : list string) (vs : list any)
  (defs : gmap string (list string)) (stored : bool) : option (gmap string (list string) * bool) :=
  match vs with
  | [] => Some (defs, stored)
  | v :: vs =>
      v ← cm v;
      fs ← cs (index v "selectableFields");
      more ← json_paths fs;
      let versionSelectableFields := selectableFields ++ more in
      match versionSelectableFields with
      | [] => register_versions group plural selectableFields vs defs stored
      | _ =>
          name ← str (index v "name");
          plural' ← str plural;
          register_versions group plural selectableFields vs
            (<[def_name name (sprint group) plural' := versionSelectableFields]> defs) true
      end
  end.

(** The registry: the definitions, and the cached list of their names. *)
Record registry := MkRegistry { customResourceDefs : gmap string (list string); customResourceKinds : option (list string) }.

(** [GetCustomResourceDefinitions]. *)
Definition GetCustomResourceDefinitions (r : registry) : list string * registry :=
  match customResourceKinds r with
  | Some kinds => (kinds, r)
  | None =>
      let kinds := (map_to_list (customResourceDefs r)).*1 in
      (kinds, MkRegistry (customResourceDefs r) (Some kinds))
  end.

(** [RegisterCustomResourceDefinition] of a document that was parsed.  The
    result says whether the definitions file is to be written again. *)
Definition RegisterCustomResourceDefinition (def : list (string * any)) (r : registry) : option (bool * registry) :=
  spec ← cm (index def "spec");
  names ← cm (index spec "names");
  fs ← cs (index spec "selectableFields");
  selectableFields ← json_paths fs;
  vs ← cs (index spec "versions");
  '(defs, stored) ← register_versions (index spec "group") (index names "plural") selectableFields vs (customResourceDefs r) false;
  Some (if (stored : bool) then (true, MkRegistry defs (Some ((map_to_list defs).*1))) else (false, MkRegistry defs (customResourceKinds r))).

(** ** Selectable fields *)
Context (jp_query : string -> string -> option (list string)).

(** The custom fields of an object: those the path query finds; [None] is the
    process exit on a document or a path that cannot be parsed. *)
Fixpoint custom_fields (value : string) (fields : list string) (fs : gmap string string) : option (gmap string string) :=
  match fields with
  | [] => Some fs
  | field :: fields =>
      fieldValue ← jp_query value ("$." +:+ field);
      custom_fields value fields (match fieldValue with v :: _ => <[field := v]> fs | [] => fs end)
  end.

Definition name_and_namespace (obj : object) : list (string * string) :=
  [("metadata.name", o_Name obj); ("metadata.namespace", o_Namespace obj)].

Definition GetFieldsSetByObject (defs : gmap string (list string)) (obj : object) (value : string) : option (gmap string string) :=
  let set l := Some (list_to_map (name_and_namespace obj ++ l)) in
  match o_type obj with
  | Pod => set [("spec.nodeName", o_field obj "Spec.NodeName"); ("spec.restartPolicy", o_field obj "Spec.RestartPolicy");
      ("spec.schedulerName", o_field obj "Spec.SchedulerName"); ("spec.serviceAccountName", o_field obj "Spec.ServiceAccountName");
      ("spec.hostNetwork", o_field obj "Spec.HostNetwork"); ("status.phase", o_field obj "Status.Phase");
      ("status.podIP", o_field obj "Status.PodIP"); ("status.nominatedNodeName", o_field obj "Status.NominatedNodeName")]
  | CoreEvent => set [("involvedObject.kind", o_field obj "InvolvedObject.Kind");
      ("involvedObject.namespace", o_field obj "InvolvedObject.Namespace"); ("involvedObject.name", o_field obj "InvolvedObject.Name");
      ("involvedObject.uid", o_field obj "InvolvedObject.UID"); ("involvedObject.apiVersion", o_field obj "InvolvedObject.APIVersion");
      ("involvedObject.resourceVersion", o_field obj "InvolvedObject.ResourceVersion");
      ("involvedObject.fieldPath", o_field obj "InvolvedObject.FieldPath"); ("reason", o_field obj "Reason");
      ("reportingComponent", o_field obj "ReportingController"); ("source", o_field obj "ReportingController");
      ("type", o_field obj "Type")]
  | Secret => set [("type", o_field obj "Type")]
  | Namespace => set [("status.phase", o_field obj "Status.Phase")]
  | ReplicaSet | ReplicationController => set [("status.replicas", o_field obj "Status.Replicas")]
  | Job => set [("status.successful", o_field obj "Status.Succeeded")]
  | Node => set [("spec.unschedulable", o_field obj "Spec.Unschedulable")]
  | CertificateSigningRequest => set [("spec.signerName", o_field obj "Spec.SignerName")]
  | PartialObjectMetadata =>
      let fs := list_to_map (name_and_namespace obj) in
      if negb (String.eqb (o_Name obj) "") && Contains (o_APIVersion obj) "/" then
        match Split (o_APIVersion obj) "/" with
        | group :: version :: _ =>
            match defs !! def_name version group (Plural (ToLower (o_Kind obj))) with
            | Some customFields => custom_fields value customFields fs
            | None => Some fs
            end
        | _ => None
        end
      else Some fs
  | ClusterRole | ClusterRoleBinding => Some ∅
  end.
End util.

(** ** The registry path of a type leads back to it *)
Definition grouped_types : list (string * string * otype) :=
  [("", "Pod", Pod); ("", "Event", CoreEvent); ("", "Secret", Secret); ("", "Namespace", Namespace);
   ("apps", "ReplicaSet", ReplicaSet); ("", "ReplicationController", ReplicationController); ("batch", "Job", Job);
   ("", "Node", Node); ("certificates.k8s.io", "CertificateSigningRequest", CertificateSigningRequest);
   ("rbac.authorization.k8s.io", "ClusterRole", ClusterRole);
   ("rbac.authorization.k8s.io", "ClusterRoleBinding", ClusterRoleBinding)].

(** The registry path of every built-in type leads back to it: an object
    stored under the path given for its group and kind, in any version and
    whatever the rest of the key, is decoded as that type. *)
Theorem object_path_roundtrip Plural : Forall (fun '(group, kind, t) => forall version rest,
  GetObjectByKey ((GetResourceMappingByGVK Plural (MkGVK group version kind)).1.1 +:+ rest) = t) grouped_types.
Proof.
  repeat apply Forall_cons_2; [..|by apply Forall_nil].
  all: intros version [|c rest]; vm_compute; reflexivity.
Qed.

(** The metadata of a stored object reaches the dialect unless its type is
    missing from the switches of the getters. *)
Lemma getters_complete key obj : o_type obj = GetObjectByKey key -> o_type obj <> ClusterRole -> o_type obj <> ClusterRoleBinding ->
  GetUIDByObject obj = o_UID obj /\ GetLabelsSetByObject obj = o_Labels obj /\
  GetOwnersByObject obj = o_OwnerReferences obj /\ GetFinalizersByObject obj = o_Finalizers obj.
Proof.
  intros _ H1 H2. unfold GetUIDByObject, GetLabelsSetByObject, GetOwnersByObject, GetFinalizersByObject.
  by destruct (o_type obj).
Qed.

(** Cluster roles and their bindings have types of their own, but no getter
    lists them: an object under their paths is stored without its uid, its
    labels, its owners and its finalizers. *)
Lemma cluster_role_metadata_lost rest obj :
  o_type obj = GetObjectByKey ("/registry/clusterroles/" +:+ rest) ->
  GetUIDByObject obj = "" /\ GetLabelsSetByObject obj = ∅ /\ GetOwnersByObject obj = [] /\ GetFinalizersByObject obj = [].
Proof.
  intros Ht. assert (Hc : o_type obj = ClusterRole) by (rewrite Ht; destruct rest; vm_compute; reflexivity).
  unfold GetUIDByObject, GetLabelsSetByObject, GetOwnersByObject, GetFinalizersByObject. by rewrite Hc.
Qed.

(** ** Selectable fields of custom resources *)
Definition paths_doc (ps : list string) : any := AList ((fun p => AMap [("jsonPath", AStr ("." +:+ p))]) <$> ps).
Definition version_doc (v : string * list string) : any := AMap [("name", AStr v.1); ("selectableFields", paths_doc v.2)].

(** A definition as the API server stores it. *)
Definition crd_doc (group plural : string) (ps : list string) (vs : list (string * list string)) : list (string * any) :=
  [("spec", AMap [("group", AStr group); ("names", AMap [("plural", AStr plural)]);
     ("selectableFields", paths_doc ps); ("versions", AList (version_doc <$> vs))])].

Lemma json_paths_doc ps : json_paths ((fun p => AMap [("jsonPath", AStr ("." +:+ p))]) <$> ps) = Some ps.
Proof.
  induction ps as [|p ps IH]; [done|]. rewrite fmap_cons. cbn [json_paths cm]. cbn [mbind option_bind].
  change (index [("jsonPath", AStr ("." +:+ p))] "jsonPath") with (AStr ("." +:+ p)). cbn [str mbind option_bind].
  rewrite IH. cbn [mbind option_bind]. unfold TrimPrefix. by rewrite HasPrefix_app, drop_str_app.
Qed.

Lemma app_inj_r s t u : s +:+ u = t +:+ u -> s = t.
Proof.
  revert t. induction s as [|a s IH]; intros [|b t] Heq; [done|..|].
  - apply (f_equal String.length) in Heq. rewrite !length_app_str in Heq. simpl in Heq. lia.
  - apply (f_equal String.length) in Heq. rewrite !length_app_str in Heq. simpl in Heq. lia.
  - injection Heq as -> Heq. f_equal. by apply IH.
Qed.

Lemma def_name_inj v v' group plural : def_name v group plural = def_name v' group plural -> v = v'.
Proof. apply app_inj_r. Qed.

Section crd.
Context (Plural : string -> string) (fmt_any : any -> string) (jp_query : string -> string -> option (list string)).
Variables (group plural : string) (ps : list string).

Definition has_fields (v : string * list string) : bool := negb (bool_decide (ps ++ v.2 = [])).

Lemma register_versions_doc vs : NoDup vs.*1 -> forall defs stored, exists defs',
  register_versions fmt_any (AStr group) (AStr plural) ps (version_doc <$> vs) defs stored =
    Some (defs', stored || existsb has_fields vs) /\
  (forall v fs, (v, fs) ∈ vs -> ps ++ fs <> [] -> defs' !! def_name v group plural = Some (ps ++ fs)) /\
  (forall k, (forall v, v ∈ vs.*1 -> k <> def_name v group plural) -> defs' !! k = defs !! k).
Proof using Type.
  induction vs as [|[v fs] vs IH]; intros Hnd defs stored.
  { exists defs. rewrite orb_false_r. split; [done|]. split; [by intros v fs ?%not_elem_of_nil|done]. }
  rewrite fmap_cons in Hnd. inversion Hnd as [|?? Hv Hnd']; subst. rewrite fmap_cons. unfold version_doc at 1. cbn [register_versions cm mbind option_bind].
  change (index _ "selectableFields") with (paths_doc fs). cbn [paths_doc cs mbind option_bind fst snd].
  rewrite json_paths_doc. cbn [mbind option_bind existsb]. unfold has_fields at 1. cbn [snd].
  destruct (ps ++ fs) as [|f l] eqn:E.
  - destruct (IH Hnd' defs stored) as (defs' & -> & H1 & H2). exists defs'. rewrite bool_decide_true by done. split; [done|]. split.
    + intros v' fs' [[= -> ->]|Hin]%elem_of_cons Hne; [done|by apply H1].
    + intros k Hk. apply H2. intros v' Hv'. apply Hk. by apply elem_of_cons; right.
  - change (index _ "name") with (AStr v). cbn [str mbind option_bind sprint].
    destruct (IH Hnd' (<[def_name v group plural := f :: l]> defs) true) as (defs' & -> & H1 & H2). exists defs'.
    rewrite bool_decide_false by done. cbn [negb orb]. rewrite orb_true_r. split; [done|]. split.
    + intros v' fs' [[= -> ->]|Hin]%elem_of_cons Hne; [|by apply H1]. rewrite H2, lookup_insert_eq, E; [done|].
      intros v' Hv' Heq. apply def_name_inj in Heq as <-. done.
    + intros k Hk. rewrite H2; [|intros v' Hv'; apply Hk; by apply elem_of_cons; right].
      apply lookup_insert_ne. intros Heq. by apply (Hk v); [apply elem_of_cons; left|].
Qed.

Definition base_fields (obj : object) : gmap string string := list_to_map (name_and_namespace obj).

Lemma custom_fields_found value fields found base :
  (forall p, p ∈ fields -> jp_query value ("$." +:+ p) = Some (option_list (found p))) ->
  exists set, custom_fields jp_query value fields base = Some set /\
  forall p, set !! p = match (if decide (p ∈ fields) then found p else None) with Some x => Some x | None => base !! p end.
Proof using All.
  revert base. induction fields as [|f fields IH]; intros base Hq.
  { exists base. split; [done|]. intros p. by rewrite decide_False by apply not_elem_of_nil. }
  cbn [custom_fields]. rewrite Hq by (by apply elem_of_cons; left). cbn [mbind option_bind].
  edestruct (IH (match option_list (found f) with v :: _ => <[f:=v]> base | [] => base end)) as (set & Hset & Hl).
  { intros p Hp. apply Hq. by apply elem_of_cons; right. }
  exists set. split; [exact Hset|]. intros p. rewrite Hl. destruct (decide (p = f)) as [->|Hn].
  - destruct (decide (f ∈ f :: fields)) as [_|Hx]; [|destruct Hx; by apply elem_of_cons; left]. destruct (found f) as [x|] eqn:Ef; simpl.
    + rewrite lookup_insert_eq. by destruct (decide (f ∈ fields)).
    + by destruct (decide (f ∈ fields)).
  - assert (Hiff : p ∈ f :: fields <-> p ∈ fields) by (rewrite elem_of_cons; naive_solver).
    destruct (decide (p ∈ f :: fields)), (decide (p ∈ fields)); try tauto; destruct (found f); simpl; by rewrite ?lookup_insert_ne.
Qed.

(** Registering a custom resource definition: for every served version
    with selectable fields the registry then holds those of the definition and
    of the version, the cached names are those of the registry, the file is
    written again, and nothing else changes; and an object of such a version
    whose kind has the definition's plural is given, next to its name and
    namespace, the values found under these paths. *)
Theorem crd_fields_found vs r v fs obj value found :
  NoDup vs.*1 -> (v, fs) ∈ vs -> ps ++ fs <> [] ->
  (forall p, p ∈ ps ++ fs -> jp_query value ("$." +:+ p) = Some (option_list (found p))) ->
  o_type obj = PartialObjectMetadata -> o_Name obj <> "" ->
  o_APIVersion obj = group +:+ "/" +:+ v -> no_char "/"%char group = true -> no_char "/"%char v = true ->
  Plural (ToLower (o_Kind obj)) = plural ->
  exists r' set, RegisterCustomResourceDefinition fmt_any (crd_doc group plural ps vs) r = Some (true, r') /\
    customResourceDefs r' !! def_name v group plural = Some (ps ++ fs) /\
    customResourceKinds r' = Some ((map_to_list (customResourceDefs r')).*1) /\
    (forall k, (forall v', v' ∈ vs.*1 -> k <> def_name v' group plural) -> customResourceDefs r' !! k = customResourceDefs r !! k) /\
    GetFieldsSetByObject Plural jp_query (customResourceDefs r') obj value = Some set /\
    forall p, set !! p = match (if decide (p ∈ ps ++ fs) then found p else None) with
                         | Some x => Some x
                         | None => base_fields obj !! p
                         end.
Proof using All.
  intros Hnd Hin Hne Hq Ht Hname Hver Hg Hv Hplural.
  destruct (register_versions_doc vs Hnd (customResourceDefs r) false) as (defs & Hreg & H1 & H2).
  assert (Hex : existsb has_fields vs = true).
  { apply existsb_exists. exists (v, fs). split; [by apply list_elem_of_In|]. unfold has_fields. simpl. by rewrite bool_decide_false. }
  rewrite Hex in Hreg. exists (MkRegistry defs (Some ((map_to_list defs).*1))).
  destruct (custom_fields_found value (ps ++ fs) found (base_fields obj) Hq) as (set & Hset & Hl). exists set.
  split; [|split; [by apply H1|split; [done|split; [done|split; [|done]]]]].
  - unfold RegisterCustomResourceDefinition, crd_doc. set (spec := [("group", AStr group); _; _; _]).
    change (index _ "spec") with (AMap spec). cbn [cm mbind option_bind].
    change (index spec "names") with (AMap [("plural", AStr plural)]). cbn [cm mbind option_bind].
    change (index spec "selectableFields") with (paths_doc ps). unfold paths_doc. cbn [cs mbind option_bind].
    rewrite json_paths_doc. cbn [mbind option_bind]. change (index spec "versions") with (AList (version_doc <$> vs)).
    cbn [cs mbind option_bind]. change (index spec "group") with (AStr group).
    change (index [("plural", AStr plural)] "plural") with (AStr plural). by rewrite Hreg.
  - unfold GetFieldsSetByObject. rewrite Ht, (proj2 (String.eqb_neq _ _) Hname). cbn [negb andb].
    assert (Hc : Contains (o_APIVersion obj) "/" = true).
    { unfold Contains. apply bool_decide_eq_true. rewrite Hver. change ("/" +:+ v) with (String "/"%char v).
      rewrite (Index_char _ "/"%char) by done. by eexists. }
    rewrite Hc, Hver. change (group +:+ "/" +:+ v) with (GoStrings.Join [group; v] (String "/"%char "")).
    change "/" with (String "/"%char ""). rewrite Split_Join by (by repeat constructor). rewrite Hplural.
    cbn [customResourceDefs]. rewrite (H1 v fs) by done. exact Hset.
Qed.
End crd.

Definition widget : object :=
  MkObject PartialObjectMetadata "w" "default" "u" "7" [] [] ∅ "ex.org/v1" "Widget" (fun _ => "").

Lemma crd_fields_found_witness : exists r' set,
  RegisterCustomResourceDefinition (fun _ => "") (crd_doc "ex.org" "widgets" ["spec.size"] [("v1", []); ("v2", ["spec.color"])])
    (MkRegistry ∅ None) = Some (true, r') /\
  GetFieldsSetByObject (fun s => s +:+ "s") (fun _ p => Some (if String.eqb p "$.spec.size" then ["3"] else []))
    (customResourceDefs r') widget "" = Some set /\
  set !! "spec.size" = Some "3" /\ set !! "metadata.name" = Some "w".
Proof.
  destruct (crd_fields_found (fun s => s +:+ "s") (fun _ => "") (fun _ p => Some (if String.eqb p "$.spec.size" then ["3"] else []))
    "ex.org" "widgets" ["spec.size"] [("v1", []); ("v2", ["spec.color"])] (MkRegistry ∅ None) "v1" [] widget ""
    (fun p => if String.eqb p "spec.size" then Some "3" else None)) as (r' & set & H1 & _ & _ & _ & H2 & H3).
  - apply (bool_decide_unpack _). by vm_compute.
  - apply elem_of_cons. by left.
  - discriminate.
  - intros p [->|Hp]%elem_of_cons; [reflexivity|by apply not_elem_of_nil in Hp].
  - reflexivity.
  - discriminate.
  - reflexivity.
  - reflexivity.
  - reflexivity.
  - reflexivity.
  - exists r', set. split; [exact H1|]. split; [exact H2|]. split; rewrite H3; reflexivity.
Defined.
