(* ===== verification/Selectors.v ===== *)
(** * Selectors in SQL and on events (pkg/drivers/generic/helpers.go,
    pkg/logstructured/sqllog/helpers.go)

    A list with a label or field selector adds conditions on the tables
    [kine_labels] and [kine_fields] to the statement; a watch filters events
    after decoding them.  Parsing and matching of selectors and decoding of
    objects are third-party code and parameters.  The text of the conditions
    and their arguments are built as the code does; what the label conditions
    select of the table is their SQL meaning.  [None] stands for a panic or the
    exit of the process. *)
From S2P Require Import Prelude Types GoStrings Objects.
From stdpp Require Import gmap.
From Stdlib Require Import Ascii.

(** ** Requirements *)
Inductive operator : Type := DoesNotExist | Equals | DoubleEquals | In | NotEquals | NotIn | Exists | GreaterThan | LessThan.
#[export] Instance operator_eq_dec : EqDecision operator.
Proof. solve_decision. Defined.

Record requirement := MkReq { rq_key : string; rq_op : operator; rq_values : list string }.
Record frequirement := MkFReq { fr_Field : string; fr_Operator : operator; fr_Value : string }.

(** An argument of a statement. *)
Inductive arg : Type := ArgText (s : string) | ArgInt (n : Z) | ArgBool (b : bool).

(** ** Text *)
Fixpoint Repeat (s : string) (n : nat) : string := match n with O => "" | S n => s +:+ Repeat s n end.
Definition inGen (l : nat) : string := TrimSuffix (Repeat "?," l) ",".

(** The condition and the arguments of one requirement. *)
Definition label_cond (prefix : string) (req : requirement) : option (string * list arg) :=
  let key := ArgText (rq_key req) in
  match rq_op req with
  | DoesNotExist =>
      Some ("(kine_id NOT IN (SELECT kine_id FROM kine_labels WHERE kine_name LIKE ? AND name = ? GROUP BY kine_id))",
            [ArgText prefix; key])
  | DoubleEquals | Equals => v ← head (rq_values req); Some ("(name = ? AND value = ?)", [key; ArgText v])
  | In => Some ("(name = ? AND value IN (" +:+ inGen (length (rq_values req)) +:+ "))", key :: (ArgText <$> rq_values req))
  | NotEquals => v ← head (rq_values req); Some ("(name = ? AND value != ?)", [key; ArgText v])
  | NotIn => Some ("(name = ? AND value NOT IN (" +:+ inGen (length (rq_values req)) +:+ "))", key :: (ArgText <$> rq_values req))
  | Exists => Some ("(name IN (?))", [key])
  | GreaterThan => v ← head (rq_values req); Some ("(name = ? AND value > ?)", [key; ArgText v])
  | LessThan => v ← head (rq_values req); Some ("(name = ? AND value < ?)", [key; ArgText v])
  end.

Fixpoint label_conds (prefix : string) (reqs : list requirement) : option (list string * list arg) :=
  match reqs with
  | [] => Some ([], [])
  | req :: reqs =>
      '(w, a) ← label_cond prefix req;
      '(ws, args) ← label_conds prefix reqs;
      Some (w :: ws, a ++ args)
  end.

(** [fmt.Sprintf] of the two statements. *)
Definition labelsSelect (id conds : string) : string :=
  " AND " +:+ id +:+ " IN (
		SELECT kine_id
		FROM kine_labels
		WHERE kine_name LIKE ? AND (" +:+ conds +:+ ")
		GROUP BY kine_id
		HAVING COUNT(kine_id) = ?
	)
	".
Definition fieldsSelect (id conds : string) : string :=
  " AND " +:+ id +:+ " IN (
		SELECT kine_id
		FROM kine_fields
		WHERE kine_name LIKE ? AND (" +:+ conds +:+ ")
		GROUP BY kine_id
	)
	".

Fixpoint replaceParamsToNumbers (where_ : string) (args : Z) : string :=
  match where_ with
  | "" => ""
  | String c s =>
      if Ascii.eqb c "?"%char then "$" +:+ FormatInt (args + 1) +:+ replaceParamsToNumbers s (args + 1)
      else String c (replaceParamsToNumbers s args)
  end.

(** [fmt.Sprintf] with one text argument: the verbs [%s] and [%%]. *)
Fixpoint Sprintf (format s : string) : string :=
  match format with
  | "" => ""
  | String c f =>
      if Ascii.eqb c "%"%char then
        match f with
        | String d f' =>
            if Ascii.eqb d "s"%char then s +:+ Sprintf f' s
            else if Ascii.eqb d "%"%char then String c (Sprintf f' s) else String c (Sprintf f s)
        | "" => String c ""
        end
      else String c (Sprintf f s)
  end.

Fixpoint qmarks (s : string) : nat :=
  match s with "" => O | String c s => ((if Ascii.eqb c "?"%char then 1 else 0) + qmarks s)%nat end.

Section render.
Context (labels_Parse : string -> option (list requirement) + err).
Context (fields_Parse : string -> list frequirement + err).

Definition renderLabelSelectorWhere (id prefix labelSelector : string) (args : list arg) (numbered : bool)
  : option (string * list arg * gerr) :=
  if String.eqb labelSelector "" then Some ("", args, None)
  else
    match labels_Parse labelSelector with
    | inr e => Some ("", args, Some e)
    | inl None => Some ("", args, None)
    | inl (Some reqs) =>
        let argsN := Z.of_nat (length args) in
        '(wheres, more) ← label_conds prefix reqs;
        let args := args ++ [ArgText prefix] ++ more ++ [ArgInt (Z.of_nat (length reqs))] in
        let where_ := labelsSelect id (GoStrings.Join wheres " OR ") in
        Some (if numbered then replaceParamsToNumbers where_ argsN else where_, args, None)
    end.

(** The condition and the arguments of one field requirement; an operator the
    switch does not list adds its arguments but no condition. *)
Definition field_cond (selectorLookupSQL : string) (req : frequirement) : list string * list arg :=
  let fieldReplace := Contains selectorLookupSQL "%s" in
  let fieldApend := (1 <? qmarks selectorLookupSQL)%nat in
  let field := ReplaceAll (fr_Field req) "." "_" in
  let sl := if fieldReplace then Sprintf selectorLookupSQL field else selectorLookupSQL in
  let args := (if fieldReplace then [] else if fieldApend then [ArgText field] else []) ++ [ArgText (fr_Value req)] in
  match fr_Operator req with
  | DoubleEquals | Equals => (["(" +:+ sl +:+ ")"], args)
  | NotEquals => (["(NOT " +:+ sl +:+ ")"], args)
  | _ => ([], args)
  end.

Definition renderFieldSelectorWhere (id prefix fieldSelector : string) (args : list arg) (numbered : bool)
  (selectorLookupSQL : string) : string * list arg * gerr :=
  if String.eqb fieldSelector "" then ("", args, None)
  else
    match fields_Parse fieldSelector with
    | inr e => ("", args, Some e)
    | inl reqs =>
        let argsN := Z.of_nat (length args) in
        let conds := field_cond selectorLookupSQL <$> reqs in
        let args := args ++ [ArgText prefix] ++ concat conds.*2 in
        let where_ := fieldsSelect id (GoStrings.Join (concat conds.*1) " AND ") in
        (if numbered then replaceParamsToNumbers where_ argsN else where_, args, None)
    end.

Definition renderSelectorsWhere (sql prefix labelSelector fieldSelector : string) (args : list arg) (selectorLookupSQL : string)
  : option (string * list arg * gerr) :=
  let id := "id" in
  let numbered := Contains sql "$" in
  let prefix := if HasSuffix prefix "%" then prefix else prefix +:+ "%" in
  '(labelsWhere, args, err) ← renderLabelSelectorWhere id prefix labelSelector args numbered;
  if is_err err then Some ("", args, err)
  else
    let '(fieldsWhere, args, err) := renderFieldSelectorWhere id prefix fieldSelector args numbered selectorLookupSQL in
    if is_err err then Some ("", args, err) else Some (labelsWhere +:+ fieldsWhere, args, None).
End render.

(** ** Every placeholder has its argument *)
Lemma qmarks_app a b : qmarks (a +:+ b) = (qmarks a + qmarks b)%nat.
Proof. induction a as [|c a IH]; [done|]. change (qmarks (String c (a +:+ b)) = (qmarks (String c a) + qmarks b)%nat). cbn [qmarks]. rewrite IH. lia. Qed.

Lemma number_app a b n :
  replaceParamsToNumbers (a +:+ b) n = replaceParamsToNumbers a n +:+ replaceParamsToNumbers b (n + Z.of_nat (qmarks a)).
Proof.
  revert n. induction a as [|c a IH]; intros n; [simpl; by rewrite Z.add_0_r|].
  change (String c a +:+ b) with (String c (a +:+ b)). cbn [replaceParamsToNumbers qmarks].
  destruct (Ascii.eqb c "?"%char).
  - rewrite IH, <- !string_app_assoc. do 2 f_equal. lia.
  - rewrite IH. change (String c ?x +:+ ?y) with (String c (x +:+ y)). do 3 f_equal.
Qed.

Lemma qmarks_Join l sep : qmarks sep = O -> qmarks (GoStrings.Join l sep) = list_sum (qmarks <$> l).
Proof.
  intros Hs. induction l as [|x l IH]; [done|]. destruct l as [|y l].
  - cbn. lia.
  - change (GoStrings.Join (x :: y :: l) sep) with (x +:+ sep +:+ GoStrings.Join (y :: l) sep).
    rewrite !qmarks_app, IH, Hs. done.
Qed.

Lemma qmarks_ReplaceAll s a b : Ascii.eqb a "?"%char = false -> Ascii.eqb b "?"%char = false ->
  qmarks (ReplaceAll s (String a "") (String b "")) = qmarks s.
Proof.
  intros Ha Hb. unfold ReplaceAll. destruct (Join_Split s a) as (Hj & _ & _). rewrite <- Hj at 2.
  rewrite !qmarks_Join; [done|cbn; by rewrite Ha|cbn; by rewrite Hb].
Qed.

Lemma qmarks_Sprintf f s : qmarks s = O -> qmarks (Sprintf f s) = qmarks f.
Proof.
  intros Hs. assert (Hboth : qmarks (Sprintf f s) = qmarks f /\ forall c, qmarks (Sprintf (String c f) s) = qmarks (String c f)); [|apply Hboth].
  induction f as [|d f [IH1 IH2]].
  - split; [done|]. intros c. cbn. by destruct (Ascii.eqb c "%"%char).
  - split; [apply IH2|]. intros c.
    assert (Hg : qmarks (String c (Sprintf (String d f) s)) = qmarks (String c (String d f)))
      by exact (f_equal (Nat.add (if Ascii.eqb c "?"%char then 1 else 0)) (IH2 d)).
    change (Sprintf (String c (String d f)) s) with
      (if Ascii.eqb c "%"%char then
         if Ascii.eqb d "s"%char then s +:+ Sprintf f s
         else if Ascii.eqb d "%"%char then String c (Sprintf f s) else String c (Sprintf (String d f) s)
       else String c (Sprintf (String d f) s)).
    destruct (Ascii.eqb_spec c "%"%char) as [->|Hc]; [|exact Hg].
    destruct (Ascii.eqb_spec d "s"%char) as [->|Hd]; [rewrite qmarks_app, Hs; cbn; by rewrite IH1|].
    destruct (Ascii.eqb_spec d "%"%char) as [->|Hd2]; [cbn; by rewrite IH1|exact Hg].
Qed.

Lemma qmarks_inGen n : qmarks (inGen n) = n.
Proof.
  destruct n as [|n]; [done|]. unfold inGen.
  assert (Hr : Repeat "?," (S n) = GoStrings.Join (replicate (S n) "?") "," +:+ ",").
  { induction n as [|n IH]; [done|]. change (Repeat "?," (S (S n))) with ("?," +:+ Repeat "?," (S n)). rewrite IH. done. }
  rewrite Hr, (TrimSuffix_char _ ","%char), qmarks_Join, fmap_replicate by done. clear Hr.
  induction n as [|n IH]; [done|]. change (S (list_sum (replicate (S n) 1%nat)) = S (S n)). by f_equal.
Qed.

Lemma label_cond_bound prefix req w a : label_cond prefix req = Some (w, a) -> qmarks w = length a.
Proof.
  unfold label_cond. destruct (rq_op req); simpl; intros Hc; try (destruct (head (rq_values req)); [|done]; simpl in Hc); simplify_eq; try done.
  all: rewrite !qmarks_app, qmarks_inGen; simpl; rewrite length_fmap; lia.
Qed.

Lemma label_conds_bound prefix reqs ws args : label_conds prefix reqs = Some (ws, args) ->
  list_sum (qmarks <$> ws) = length args.
Proof.
  revert ws args. induction reqs as [|req reqs IH]; intros ws args Hc; [by injection Hc as <- <-|].
  cbn [label_conds] in Hc. apply bind_Some in Hc as ([w a] & Hw & Hc). apply bind_Some in Hc as ([ws' args'] & Hws & Hc).
  injection Hc as <- <-. rewrite length_app, <- (IH _ _ Hws), <- (label_cond_bound _ _ _ _ Hw). done.
Qed.

(** The lookup texts the dialects use: one placeholder, and a second one for
    the field when it is not put into the text. *)
Definition lookup_ok (selectorLookupSQL : string) : Prop :=
  qmarks selectorLookupSQL = 1%nat \/ (Contains selectorLookupSQL "%s" = false /\ qmarks selectorLookupSQL = 2%nat).
Definition freq_ok (req : frequirement) : Prop :=
  qmarks (fr_Field req) = O /\ (fr_Operator req = Equals \/ fr_Operator req = DoubleEquals \/ fr_Operator req = NotEquals).

Lemma field_cond_bound lookup req : lookup_ok lookup -> freq_ok req ->
  list_sum (qmarks <$> (field_cond lookup req).1) = length (field_cond lookup req).2.
Proof.
  intros Hl [Hf Hop].
  assert (Hr : qmarks (ReplaceAll (fr_Field req) "." "_") = O).
  { change "." with (String "."%char ""). change "_" with (String "_"%char ""). by rewrite qmarks_ReplaceAll. }
  unfold field_cond. destruct (Contains lookup "%s") eqn:Ec.
  - destruct Hl as [Hl|[? _]]; [|congruence].
    destruct Hop as [->|[->| ->]]; cbn; rewrite !qmarks_app, qmarks_Sprintf, Hl by done; cbn; lia.
  - destruct Hl as [Hl|[_ Hl]]; rewrite Hl; destruct Hop as [->|[-> | ->]]; cbn; rewrite !qmarks_app, Hl; cbn; lia.
Qed.

Lemma field_conds_bound lookup reqs : lookup_ok lookup -> Forall freq_ok reqs ->
  list_sum (qmarks <$> concat (field_cond lookup <$> reqs).*1) = length (concat (field_cond lookup <$> reqs).*2).
Proof.
  intros Hl. induction 1 as [|req reqs Hr _ IH]; [done|]. rewrite !fmap_cons. cbn [concat].
  rewrite fmap_app, list_sum_app, length_app, IH. by rewrite field_cond_bound.
Qed.

(** The conditions a selector adds to a statement and its arguments fit
    together: the statement's own arguments are kept in front, one argument is
    added for every placeholder, and for a database with numbered placeholders
    these continue the numbering of the statement. *)
Theorem selector_params_bound labels_Parse fields_Parse sql prefix ls fs args lookup where_ args' :
  lookup_ok lookup -> (forall reqs, fields_Parse fs = inl reqs -> Forall freq_ok reqs) ->
  renderSelectorsWhere labels_Parse fields_Parse sql prefix ls fs args lookup = Some (where_, args', None) ->
  exists raw more, args' = args ++ more /\ qmarks raw = length more /\
    where_ = if Contains sql "$" then replaceParamsToNumbers raw (Z.of_nat (length args)) else raw.
Proof.
  intros Hlk Hfs. unfold renderSelectorsWhere. set (p := if HasSuffix prefix "%" then _ else _). intros Hr.
  apply bind_Some in Hr as ([[lw args1] err] & Hl & Hr).
  assert (Hlabels : err = None -> exists raw more, args1 = args ++ more /\ qmarks raw = length more /\
    lw = if Contains sql "$" then replaceParamsToNumbers raw (Z.of_nat (length args)) else raw).
  { intros ->. unfold renderLabelSelectorWhere in Hl.
    assert (Hnone : Some ("", args, None) = Some (lw, args1, None : gerr) -> exists raw more, args1 = args ++ more /\
      qmarks raw = length more /\ lw = if Contains sql "$" then replaceParamsToNumbers raw (Z.of_nat (length args)) else raw).
    { intros [= <- <-]. exists "", []. rewrite app_nil_r. by destruct (Contains sql "$"). }
    destruct (String.eqb ls ""); [by apply Hnone|]. destruct (labels_Parse ls) as [[reqs|]|e]; [|by apply Hnone|done].
    apply bind_Some in Hl as ([ws more] & Hc & Hl). injection Hl as <- <-. exists (labelsSelect "id" (GoStrings.Join ws " OR ")), (ArgText p :: more ++ [ArgInt (Z.of_nat (length reqs))]).
    split; [done|]. split; [|done].
    unfold labelsSelect. rewrite !qmarks_app, qmarks_Join, (label_conds_bound _ _ _ _ Hc) by done.
    cbn. rewrite length_app. cbn. lia. }
  destruct err as [e|]; [done|]. destruct (Hlabels eq_refl) as (raw & more & -> & Hq & ->). cbn [is_err] in Hr.
  unfold renderFieldSelectorWhere in Hr. destruct (String.eqb fs "").
  { injection Hr as <- <-. exists raw, more. by rewrite string_app_nil_r. }
  destruct (fields_Parse fs) as [reqs|e]; [|done]. specialize (Hfs _ eq_refl).
  assert (Hfw : qmarks (fieldsSelect "id" (GoStrings.Join (concat (field_cond lookup <$> reqs).*1) " AND "))
    = S (length (concat (field_cond lookup <$> reqs).*2))).
  { unfold fieldsSelect. rewrite !qmarks_app, qmarks_Join, field_conds_bound by done. cbn. lia. }
  revert Hr Hfw. generalize (fieldsSelect "id" (GoStrings.Join (concat (field_cond lookup <$> reqs).*1) " AND ")) as fw.
  intros fw [= <- <-] Hfw.
  exists (raw +:+ fw), (more ++ ArgText p :: concat (field_cond lookup <$> reqs).*2). split; [by rewrite <- !app_assoc|].
  split; [rewrite qmarks_app, Hq, Hfw, length_app; simpl; lia|]. destruct (Contains sql "$"); [|done].
  by rewrite number_app, Hq, length_app, Nat2Z.inj_add.
Qed.

Lemma selector_params_bound_witness : exists where_ args',
  renderSelectorsWhere (fun _ => inl (Some [MkReq "app" In ["a"; "b"]])) (fun _ => inl [MkFReq "spec.nodeName" Equals "n1"])
    "SELECT $1, $2" "/registry/pods/" "app in (a,b)" "spec.nodeName=n1" [ArgText "k"; ArgText "e"]
    "json_extract(value, '$.%s') LIKE CONCAT('%%', ?, '%%')" = Some (where_, args', None) /\ length args' = 9%nat /\
  exists raw more, args' = [ArgText "k"; ArgText "e"] ++ more /\ qmarks raw = length more /\
    where_ = replaceParamsToNumbers raw 2.
Proof.
  destruct (renderSelectorsWhere (fun _ => inl (Some [MkReq "app" In ["a"; "b"]])) (fun _ => inl [MkFReq "spec.nodeName" Equals "n1"])
    "SELECT $1, $2" "/registry/pods/" "app in (a,b)" "spec.nodeName=n1" [ArgText "k"; ArgText "e"]
    "json_extract(value, '$.%s') LIKE CONCAT('%%', ?, '%%')") as [[[w a] err]|] eqn:E; [|vm_compute in E; discriminate].
  exists w, a. assert (He : err = None /\ length a = 9%nat) by (vm_compute in E; by injection E as <- <- <-).
  destruct He as [-> Hl]. split; [reflexivity|]. split; [exact Hl|].
  refine (selector_params_bound _ _ _ _ _ _ _ _ _ _ _ _ E).
  - left. reflexivity.
  - intros reqs [= <-]. repeat constructor.
Defined.

(** ** What the label conditions select *)
Record label_row := MkLRow { l_kine_id : Z; l_kine_name : string; l_name : string; l_value : string }.

(** [LIKE]: [%] for any text, [_] for any character, letters in either case. *)
Fixpoint like (p : string) : string -> bool :=
  match p with
  | "" => fun s => String.eqb s ""
  | String c p =>
      if Ascii.eqb c "%"%char then
        fix any (s : string) : bool := like p s || match s with "" => false | String _ s => any s end
      else fun s =>
        match s with
        | "" => false
        | String d s => (Ascii.eqb c "_"%char || Ascii.eqb (lower_char c) (lower_char d)) && like p s
        end
  end.

Definition cond_holds (tbl : list label_row) (prefix : string) (req : requirement) (r : label_row) : bool :=
  let named := String.eqb (l_name r) (rq_key req) in
  let is_v v := String.eqb (l_value r) v in
  let first := default "" (head (rq_values req)) in
  match rq_op req with
  | DoesNotExist => negb (existsb (fun r' => like prefix (l_kine_name r') && String.eqb (l_name r') (rq_key req) &&
                                            (l_kine_id r' =? l_kine_id r)%Z) tbl)
  | DoubleEquals | Equals => named && is_v first
  | In => named && existsb is_v (rq_values req)
  | NotEquals => named && negb (is_v first)
  | NotIn => named && negb (existsb is_v (rq_values req))
  | Exists => named
  | GreaterThan => named && String.ltb first (l_value r)
  | LessThan => named && String.ltb (l_value r) first
  end.

(** [id IN (SELECT kine_id ... GROUP BY kine_id HAVING COUNT(kine_id) = n)]. *)
Definition label_selects (tbl : list label_row) (prefix : string) (reqs : list requirement) (id : Z) : bool :=
  let g := filter (fun r => like prefix (l_kine_name r) && existsb (fun req => cond_holds tbl prefix req r) reqs = true /\ l_kine_id r = id) tbl in
  (0 <? length g)%nat && (length g =? length reqs)%nat.

(** The documented meaning of a requirement. *)
Definition req_matches (parse_int : string -> option Z) (labels : gmap string string) (req : requirement) : bool :=
  let v := labels !! rq_key req in
  let cmp (f : Z -> Z -> bool) :=
    match v, rq_values req with
    | Some x, y :: _ => match parse_int x, parse_int y with Some a, Some b => f a b | _, _ => false end
    | _, _ => false
    end in
  match rq_op req with
  | DoubleEquals | Equals | In => match v with Some x => existsb (String.eqb x) (rq_values req) | None => false end
  | NotEquals | NotIn => match v with Some x => negb (existsb (String.eqb x) (rq_values req)) | None => true end
  | Exists => bool_decide (is_Some v)
  | DoesNotExist => bool_decide (v = None)
  | GreaterThan => cmp Z.gtb
  | LessThan => cmp Z.ltb
  end.

(** The label rows of one row of [kine]. *)
Definition rows_of (id : Z) (key : string) (labels : gmap string string) : list label_row :=
  (fun p => MkLRow id key p.1 p.2) <$> map_to_list labels.

(** A pattern matches every text it is a prefix of. *)
Lemma like_prefix p s : like (p +:+ "%") (p +:+ s) = true.
Proof.
  induction p as [|c p IH].
  - change (like "%" s = true). induction s as [|d s IHs]; [done|]. exact IHs.
  - change (like (String c (p +:+ "%")) (String c (p +:+ s)) = true). cbn [like].
    destruct (Ascii.eqb c "%"%char).
    + apply orb_true_iff. right. destruct (p +:+ s) as [|d t] eqn:E; by rewrite IH.
    + rewrite IH, Ascii.eqb_refl. by rewrite orb_true_r.
Qed.

Definition simple (req : requirement) : Prop :=
  match rq_op req with
  | Equals | DoubleEquals => exists v, rq_values req = [v]
  | In | Exists => True
  | _ => False
  end.

Definition sat (req : requirement) (x : string) : bool :=
  bool_decide (rq_op req = Exists) || existsb (String.eqb x) (rq_values req).

Lemma cond_holds_simple tbl prefix req r : simple req ->
  cond_holds tbl prefix req r = String.eqb (l_name r) (rq_key req) && sat req (l_value r).
Proof.
  unfold simple, cond_holds, sat. destruct (rq_op req) eqn:E; try done; intros Hs.
  - destruct Hs as [w ->]. simpl. by rewrite orb_false_r.
  - destruct Hs as [w ->]. simpl. by rewrite orb_false_r.
  - simpl. by rewrite andb_true_r.
Qed.

Lemma req_matches_simple parse_int labels req : simple req ->
  req_matches parse_int labels req = match labels !! rq_key req with Some x => sat req x | None => false end.
Proof.
  unfold simple, req_matches, sat. destruct (rq_op req) eqn:E; try done; intros Hs.
  by destruct (labels !! rq_key req).
Qed.

Lemma length_filter_fmap {A B} (f : A -> B) (P : B -> Prop) `{!forall b, Decision (P b)} l :
  length (filter P (f <$> l)) = length (filter (fun a => P (f a)) l).
Proof.
  induction l as [|a l IH]; [done|]. rewrite fmap_cons, !filter_cons. destruct (decide (P (f a))); simpl; by rewrite IH.
Qed.

(** Among requirements of different keys, the labels that satisfy one are as
    many as the requirements that are satisfied. *)
Lemma label_count parse_int tbl prefix labels id key reqs : Forall simple reqs -> NoDup (rq_key <$> reqs) ->
  length (filter (fun r => existsb (fun req => cond_holds tbl prefix req r) reqs = true) (rows_of id key labels)) =
  length (filter (fun req => req_matches parse_int labels req = true) reqs).
Proof.
  intros Hs Hnd. unfold rows_of. rewrite length_filter_fmap.
  set (P := fun p : string * string => _).
  assert (Hp : (filter P (map_to_list labels)).*1 ≡ₚ rq_key <$> filter (fun req => req_matches parse_int labels req = true) reqs).
  2:{ apply Permutation_length in Hp. by rewrite !length_fmap in Hp. }
  rewrite Forall_forall in Hs. apply NoDup_Permutation.
  - pose proof (NoDup_fst_map_to_list labels) as Hn. revert Hn. generalize (map_to_list labels). intros l Hn.
    eapply sublist_NoDup; [exact Hn|]. apply fmap_sublist, sublist_filter.
  - eapply sublist_NoDup; [exact Hnd|]. apply fmap_sublist, sublist_filter.
  - intros k. rewrite !list_elem_of_fmap. split.
    + intros ([k' v] & -> & [HP Hin]%list_elem_of_filter). apply elem_of_map_to_list in Hin. subst P. simpl in HP.
      apply existsb_exists in HP as (req & Hreq & Hc). apply list_elem_of_In in Hreq.
      rewrite cond_holds_simple in Hc by auto. apply andb_true_iff in Hc as [Hk Hv]. simpl in *. apply String.eqb_eq in Hk as ->.
      exists req. split; [done|]. apply list_elem_of_filter. split; [|done]. rewrite req_matches_simple by auto. by rewrite Hin.
    + intros (req & -> & [Hm Hreq]%list_elem_of_filter). rewrite req_matches_simple in Hm by auto.
      destruct (labels !! rq_key req) as [v|] eqn:Hv; [|done]. exists (rq_key req, v). split; [done|].
      apply list_elem_of_filter. split; [|by apply elem_of_map_to_list]. subst P. simpl.
      apply existsb_exists. exists req. split; [by apply list_elem_of_In|]. rewrite cond_holds_simple by auto. simpl.
      by rewrite String.eqb_refl.
Qed.

Lemma filter_all_length {A} (f : A -> bool) l : length (filter (fun x => f x = true) l) = length l <-> forallb f l = true.
Proof.
  induction l as [|x l IH]; [done|]. rewrite filter_cons. simpl. destruct (f x) eqn:E.
  - rewrite decide_True by done. simpl. rewrite <- IH. lia.
  - rewrite decide_False by done. split; [|done]. intros Hl.
    pose proof (length_filter (fun x => f x = true) l). lia.
Qed.

Lemma label_select_rows parse_int tbl id p rest labels reqs :
  filter (fun r => l_kine_id r = id) tbl ≡ₚ rows_of id (p +:+ rest) labels ->
  reqs <> [] -> Forall simple reqs -> NoDup (rq_key <$> reqs) ->
  label_selects tbl (p +:+ "%") reqs id = forallb (req_matches parse_int labels) reqs.
Proof.
  intros Htbl Hne Hs Hnd. unfold label_selects.
  set (g := filter _ tbl).
  assert (Hg : length g = length (filter (fun req => req_matches parse_int labels req = true) reqs)).
  { rewrite <- (label_count parse_int tbl (p +:+ "%") labels id (p +:+ rest) reqs Hs Hnd).
    subst g. rewrite <- list_filter_filter, Htbl. apply (f_equal length), filter_agree.
    intros r (pr & -> & _)%list_elem_of_fmap. simpl. by rewrite like_prefix. }
  rewrite Hg. destruct (forallb (req_matches parse_int labels) reqs) eqn:E.
  - apply filter_all_length in E. rewrite E, Nat.eqb_refl, andb_true_r. apply Nat.ltb_lt. destruct reqs; [done|simpl; lia].
  - apply andb_false_iff. right. apply Nat.eqb_neq. intros Hl. apply filter_all_length in Hl. congruence.
Qed.

(** A label selector made of equalities, sets and existence tests on
    different keys: the condition in SQL selects a row exactly when its labels
    match every requirement, for a key under the prefix and whatever other
    rows the label table holds. *)
Theorem label_select_exact parse_int tbl id p rest labels reqs :
  filter (fun r => l_kine_id r = id) tbl ≡ₚ rows_of id (p +:+ rest) labels ->
  reqs <> [] -> Forall simple reqs -> NoDup (rq_key <$> reqs) ->
  label_selects tbl (p +:+ "%") reqs id = forallb (req_matches parse_int labels) reqs.
Proof. apply label_select_rows. Qed.

Definition web : gmap string string := {[ "app" := "web"; "tier" := "front" ]}.

Lemma label_select_exact_witness :
  label_selects (MkLRow 9 "/registry/pods/z" "app" "web" :: rows_of 7 "/registry/pods/a" web) "/registry/pods/%"
    [MkReq "app" In ["db"; "web"]; MkReq "tier" Exists []] 7 = true.
Proof.
  etrans; [apply (label_select_exact (fun _ => None) _ 7 "/registry/pods/" "a" web)|].
  - rewrite filter_cons, decide_False by discriminate.
    rewrite (filter_all (fun r => l_kine_id r = 7%Z) (rows_of 7 "/registry/pods/a" web)); [done|].
    intros r (pr & -> & _)%list_elem_of_fmap. done.
  - discriminate.
  - repeat constructor.
  - apply (bool_decide_unpack _). by vm_compute.
  - by vm_compute.
Defined.

(** Outside of these the condition in SQL is not what the selector means.
    A pod with no label [tier] is not found by [tier!=db], and one without
    labels not by [!tier]; [>] compares as texts; two requirements on one key
    exclude every row; and the next page of a list, whose key is the last one
    seen, finds nothing because that key is taken as the prefix. *)
Theorem label_select_wrong :
  let int s := match ParseInt s with (n, false) => Some n | _ => None end in
  let one l := rows_of 1 "/registry/pods/ns/b" l in
  let sql prefix l reqs := label_selects (one l) prefix reqs 1 in
  let means l reqs := forallb (req_matches int l) reqs in
  let p := "/registry/pods/ns/%" in
  (means {["app" := "web"]} [MkReq "tier" NotEquals ["db"]] = true /\ sql p {["app" := "web"]} [MkReq "tier" NotEquals ["db"]] = false) /\
  (means ∅ [MkReq "tier" DoesNotExist []] = true /\ sql p ∅ [MkReq "tier" DoesNotExist []] = false) /\
  (means {["n" := "10"]} [MkReq "n" GreaterThan ["9"]] = true /\ sql p {["n" := "10"]} [MkReq "n" GreaterThan ["9"]] = false) /\
  (means web [MkReq "app" Exists []; MkReq "app" In ["web"]] = true /\ sql p web [MkReq "app" Exists []; MkReq "app" In ["web"]] = false) /\
  (means web [MkReq "app" Equals ["web"]] = true /\ sql "/registry/pods/ns/a#%" web [MkReq "app" Equals ["web"]] = false).
Proof. vm_compute. repeat split. Qed.

(** ** Events *)
Section events.
Context (labels_Parse : string -> option (list requirement) + err).
Context (fields_Parse : string -> list frequirement + err).
Context (labels_Matches : option (list requirement) -> gmap string string -> bool).
Context (Decode : otype -> string -> object + err).
Context (fields_of : object -> string -> option (gmap string string)).

Definition field_matches (fields : gmap string string) (req : frequirement) : bool :=
  let value := default "" (fields !! fr_Field req) in
  match fr_Operator req with
  | DoubleEquals | Equals => Contains value (fr_Value req)
  | NotEquals => negb (Contains value (fr_Value req))
  | _ => false
  end.

(** [filterEventBySelectors]; a selector that cannot be parsed, or has no
    requirements, selects everything. *)
Definition filterEventBySelectors (kv : option KeyValue) (labelSelector fieldSelector : string) : option bool :=
  match kv with
  | None => Some true
  | Some kv =>
      if String.eqb (kvValue kv) "" || (String.eqb labelSelector "" && String.eqb fieldSelector "") then Some true
      else
        match Decode (GetObjectByKey (kvKey kv)) (kvValue kv) with
        | inr _ => Some true
        | inl obj =>
            let labelsMatch :=
              if String.eqb labelSelector "" then true
              else match labels_Parse labelSelector with
                   | inl (Some (req :: reqs)) => labels_Matches (Some (req :: reqs)) (GetLabelsSetByObject obj)
                   | inl None => labels_Matches None (GetLabelsSetByObject obj)
                   | _ => true
                   end in
            if negb labelsMatch then Some false
            else if String.eqb fieldSelector "" then Some true
            else
              match fields_Parse fieldSelector with
              | inr _ | inl [] => Some true
              | inl reqs =>
                  fields ← fields_of obj (kvValue kv);
                  Some (length reqs =? length (filter (fun req => field_matches fields req = true) reqs))%nat
              end
        end
  end.

(** A field selector selects by containment: a watch on the pods of node
    [n1] is sent those of node [n10] as well. *)
Lemma field_matches_substring : field_matches {["spec.nodeName" := "n10"]} (MkFReq "spec.nodeName" Equals "n1") = true.
Proof. by vm_compute. Qed.
End events.
