(* ===== verification/SqlMeta.v ===== *)
(** * Inserting an object with its metadata (pkg/drivers/generic/generic.go,
    tx.go, helpers.go)

    The complete [Insert] of the dialect for SQLite: a row whose object has
    labels, fields or owners is written in a transaction together with their
    rows, and an object marked for it has its dependents collected.  [Sql]
    models the same method for values without metadata.  The database admits
    one writer: while a transaction is open every other write is refused, and a
    transaction that is neither committed nor rolled back keeps the lock until
    the context it was opened with ends, which rolls it back.  The context is
    that of the request; what happens before it ends is one run of [Insert], and
    [end_context] is its end.  Commits succeed.  Decoding of objects is third-party code. *)
From S2P Require Import Prelude Types GoStrings Sql Objects Selectors.
From stdpp Require Import gmap.
Local Open Scope Z_scope.

Definition ErrBusy : err := ErrOther "database is locked".
Definition skip_label : string := "skip-controller-manager-metadata-caching".
Definition FinalizerOrphanDependents : string := "orphan".
Definition FinalizerDeleteDependents : string := "foregroundDeletion".

(** ** The tables *)
Record field_row := MkFRow { f_kine_id : Z; f_kine_name : string; f_value : string }.
Record owner_row := MkORow { ow_kine_id : Z; ow_owner : string; ow_block : option bool }.

(** [uids] is the column [uid] of [kine]. *)
Record tables := MkTables {
  kine : table; uids : gmap Z string; kine_labels : list label_row; kine_fields : list field_row; kine_owners : list owner_row
}.

(** [tx] is what the open transaction sees; [abandoned] says that another one
    was left open by a request whose context has not ended. *)
Record store := MkStore { committed : tables; tx : option tables; abandoned : bool }.

(** The statement of [InsertLastInsertIDSQL]: [old] is the last parameter, an
    id or, when a value is passed, something no id is equal to. *)
Definition insert_kine (name uid : string) (created deleted : bool) (createRevision previousRevision lease : Z) (value : string)
  (old : option Z) (t : tables) : (Z * gerr) * tables :=
  if unique_violation name previousRevision (kine t) then ((0, Some ErrKeyExists), t)
  else
    let id := Sql.seq (kine t) + 1 in
    let r := MkRow id name created deleted createRevision previousRevision lease value
               (match old with Some old => value_of old (kine t) | None => "" end) in
    ((id, None), MkTables (MkTable (rows (kine t) ++ [r]) id) (<[id := uid]> (uids t)) (kine_labels t) (kine_fields t) (kine_owners t)).

(** One dependent: its row of [kine] and [block_owner_deletion]. *)
Definition owned_row : Type := row * string * bool.

(** [GetOwnedSQL]: by name the latest row that names the owner, unless it is a
    deletion. *)
Definition GetOwnedSQL (owner : string) (t : tables) : list owned_row :=
  let block k := match filter (fun o => ow_owner o = owner /\ ow_kine_id o = r_id k) (kine_owners t) with
                 | o :: _ => Some (default false (ow_block o))
                 | [] => None
                 end in
  omap (fun k => b ← block k; Some (k, default "" (uids t !! r_id k), b))
    (order_by_name (filter (fun k => group_max (kine t) (fun k => bool_decide (is_Some (block k))) k && negb (r_deleted k) = true) (rows (kine t)))).

(** [GetUIDSQL]: the latest row with a uid. *)
Definition GetUIDSQL (uid : string) (t : tables) : list row :=
  option_list (last (filter (fun k => uids t !! r_id k = Some uid) (rows (kine t)))).

(** Statements collected to be run at the end. *)
Inductive stmt : Type :=
  | InsertLabelSQL (id : Z) (key name value : string)
  | InsertFieldsSQL (id : Z) (key json : string)
  | InsertOwnerSQL (id : Z) (owner : string) (block : option bool)
  | InsertLastInsertIDSQL (key uid : string) (createRevision previousRevision : Z) (value : string) (old : option Z).

Definition exec_stmt (s : stmt) (t : tables) : gerr * tables :=
  match s with
  | InsertLabelSQL id key k v => (None, MkTables (kine t) (uids t) (kine_labels t ++ [MkLRow id key k v]) (kine_fields t) (kine_owners t))
  | InsertFieldsSQL id key json => (None, MkTables (kine t) (uids t) (kine_labels t) (kine_fields t ++ [MkFRow id key json]) (kine_owners t))
  | InsertOwnerSQL id o b => (None, MkTables (kine t) (uids t) (kine_labels t) (kine_fields t) (kine_owners t ++ [MkORow id o b]))
  | InsertLastInsertIDSQL key uid cr pr v old =>
      let '((_, err), t) := insert_kine key uid false false cr pr 0 v old t in (err, t)
  end.

(** ** The connection *)
Definition M : Type -> Type := ST store.

Definition BeginTx : M gerr := fun s =>
  if abandoned s || bool_decide (is_Some (tx s)) then (Some ErrBusy, s) else (None, MkStore (committed s) (Some (committed s)) false).
Definition Commit : M gerr := fun s =>
  (None, MkStore (match tx s with Some t => t | None => committed s end) None (abandoned s)).
Definition Rollback : M gerr := fun s => (None, MkStore (committed s) None (abandoned s)).

(** A statement inside the transaction, and one outside of it. *)
Definition tx_execute {A} (f : tables -> A * tables) (busy : A) : M A := fun s =>
  match tx s with Some t => let (a, t) := f t in (a, MkStore (committed s) (Some t) (abandoned s)) | None => (busy, s) end.
Definition tx_query {A} (f : tables -> A) (none : A) : M A := fun s =>
  (match tx s with Some t => f t | None => none end, s).
Definition execute {A} (f : tables -> A * tables) (busy : A) : M A := fun s =>
  if abandoned s || bool_decide (is_Some (tx s)) then (busy, s)
  else let (a, t) := f (committed s) in (a, MkStore t None (abandoned s)).

(** The method returns without ending its transaction: nothing of it is
    committed, and it holds the lock as long as its context lives. *)
Definition forget_tx : M unit := fun s =>
  (tt, MkStore (committed s) None (abandoned s || bool_decide (is_Some (tx s)))).

(** The context given to [BeginTx] ends, and with it the transaction. *)
Definition end_context (s : store) : store := MkStore (committed s) None false.

(** ** Objects *)
Class Unstructured := {
  uobj : Type;
  u_Decode : string -> uobj + err;
  u_Owners : uobj -> list OwnerReference;
  u_SetOwners : list OwnerReference -> uobj -> uobj;
  u_Finalizers : uobj -> list string;
  u_Deleting : uobj -> bool;
  u_SetDeletionTimestamp : uobj -> uobj;
  u_Marshal : uobj -> string + err;
  Decode : otype -> string -> object + err;
  fields_of : object -> string -> option (gmap string string);
  MarshalToString : gmap string string -> string + err
}.

Record meta := MkMeta {
  m_uid : string; m_labels : gmap string string; m_fields : gmap string string; m_owners : list OwnerReference; m_finalizers : list string
}.

Section insert.
Context `{Unstructured}.

(** [None] is the exit of the process. *)
Definition decodeObject (key value : string) : option (meta + err) :=
  match Decode (GetObjectByKey key) value with
  | inr e => Some (inr e)
  | inl obj =>
      fieldsSet ← fields_of obj value;
      Some (inl (MkMeta (GetUIDByObject obj) (GetLabelsSetByObject obj) fieldsSet (GetOwnersByObject obj) (GetFinalizersByObject obj)))
  end.

Definition is_skip (labels : gmap string string) : bool := bool_decide (is_Some (labels !! skip_label)).
Definition only_finalizer (f : string) (finalizers : list string) : bool := bool_decide (finalizers = [f]).

(** The deletion an orphaning update stands for. *)
Definition deletes (create delete : bool) (m : meta) : bool :=
  if is_skip (m_labels m) && negb create && only_finalizer FinalizerOrphanDependents (m_finalizers m) then true else delete.

(** [Insert] of a row without a value, from inside a transaction: as there is
    no value the statement is run outside of it. *)
Definition Insert_nested (key : string) (createRevision previousRevision : Z) : M (option (Z * gerr)) :=
  match decodeObject key "" with
  | None => st_ret None
  | Some (inr e) => st_ret (Some (0, Some e))
  | Some (inl m) =>
      r <- execute (insert_kine key (m_uid m) false (deletes false true m) createRevision previousRevision 0 "" (Some previousRevision))
             (0, Some ErrBusy);;
      st_ret (Some r)
  end.

(** Removing the references to an owner one index after the other; the indices
    are those before the first removal, and one past the end is a panic. *)
Fixpoint remove_indices (idx : list nat) (l : list OwnerReference) : option (list OwnerReference) :=
  match idx with
  | [] => Some l
  | i :: idx => if (i <? length l)%nat then remove_indices idx (take i l ++ drop (S i) l) else None
  end.
Definition indices_of (uid : string) (l : list OwnerReference) : list nat :=
  (filter (fun p => or_UID p.2 = uid) (imap pair l)).*1.

(** What the loop over the dependents keeps. *)
Record gc := MkGc { g_stmts : list stmt; g_blocked : bool }.

(** One dependent.  [None] is a panic or the exit of the process. *)
Definition owned_step (uid : string) (orphan foreground : bool) (o : owned_row) (g : gc) : M (option (gc + err)) :=
  let '(k, ownedUID, block) := o in
  let update ownedObj g :=
    match u_Marshal ownedObj with
    | inr e => st_ret (Some (inr e))
    | inl v => st_ret (Some (inl (MkGc (g_stmts g ++ [InsertLastInsertIDSQL (r_name k) ownedUID (r_create_revision k) (r_id k) v None]) (g_blocked g))))
    end in
  match u_Decode (r_value k) with
  | inr e => st_ret (Some (inr e))
  | inl ownedObj =>
      if orphan : bool then
        match remove_indices (indices_of uid (u_Owners ownedObj)) (u_Owners ownedObj) with
        | None => st_ret None
        | Some refs => update (match indices_of uid (u_Owners ownedObj) with [] => ownedObj | _ => u_SetOwners refs ownedObj end) g
        end
      else if bool_decide (u_Finalizers ownedObj = []) then
        r <- Insert_nested (r_name k) (r_create_revision k) (r_id k);;
        st_ret (match r with None => None | Some (_, Some e) => Some (inr e) | Some (_, None) => Some (inl g) end)
      else if u_Deleting ownedObj && foreground && block then st_ret (Some (inl (MkGc (g_stmts g) true)))
      else if negb (u_Deleting ownedObj) then
        update (u_SetDeletionTimestamp ownedObj) (MkGc (g_stmts g) (g_blocked g || (foreground && block)))
      else st_ret (Some (inl g))
  end.

Fixpoint owned_loop (uid : string) (orphan foreground : bool) (l : list owned_row) (g : gc) : M (option (gc + err)) :=
  match l with
  | [] => st_ret (Some (inl g))
  | o :: l =>
      if r_id o.1.1 =? 0 then owned_loop uid orphan foreground l g
      else
        r <- owned_step uid orphan foreground o g;;
        match r with
        | Some (inl g) => owned_loop uid orphan foreground l g
        | _ => st_ret r
        end
  end.

Fixpoint exec_all (l : list stmt) : M gerr :=
  match l with
  | [] => st_ret None
  | s :: l => e <- tx_execute (exec_stmt s) (Some ErrBusy);; if is_err e then st_ret e else exec_all l
  end.

(** The owners waiting for their dependents.  The dependents are queried, but
    the inner loop goes on with the cursor of the owner, which has no further
    row: whether a dependent still blocks is never looked at. *)
Definition owner_step (ownerUID : string) (rows : list row) : M (option gerr) :=
  match rows with
  | [] => st_ret (Some None)
  | owner :: rest =>
      if r_deleted owner then st_ret (Some None)
      else
        match u_Decode (r_value owner) with
        | inr e => st_ret (Some (Some e))
        | inl ownerObj =>
            if negb (only_finalizer FinalizerDeleteDependents (u_Finalizers ownerObj)) then st_ret (Some None)
            else
              match rest with
              | _ :: _ => st_ret (Some (Some (ErrOther "sql: expected 5 destination arguments in Scan, not 6")))
              | [] =>
                  r <- Insert_nested (r_name owner) (r_create_revision owner) (r_id owner);;
                  st_ret (match r with None => None | Some (_, e) => Some e end)
              end
        end
  end.

Fixpoint owners_loop (l : list string) : M (option gerr) :=
  match l with
  | [] => st_ret (Some None)
  | ownerUID :: l =>
      rows <- tx_query (GetUIDSQL ownerUID) [];;
      r <- owner_step ownerUID rows;;
      match r with Some None => owners_loop l | _ => st_ret r end
  end.

(** The owners that a removed reference may have unblocked: those that were
    named as blocking by the previous value and are not any more. *)
Fixpoint unblocked (owners : list OwnerReference) (prevValue : string) : list string + err :=
  match owners with
  | [] => inl []
  | owner :: owners =>
      let rest := unblocked owners prevValue in
      if bool_decide (or_BlockOwnerDeletion owner = Some true) || String.eqb prevValue "" then rest
      else
        match u_Decode prevValue with
        | inr _ => inr (ErrOther "failed to decode previous value")
        | inl prev =>
            match rest with
            | inr e => inr e
            | inl l => inl (if existsb (fun por => String.eqb (or_UID por) (or_UID owner) &&
                                          bool_decide (or_BlockOwnerDeletion por = Some true)) (u_Owners prev)
                            then or_UID owner :: l else l)
            end
        end
  end.

Definition owner_stmts (id : Z) (owners : list OwnerReference) : list stmt :=
  (fun o => InsertOwnerSQL id (or_UID o) (or_BlockOwnerDeletion o)) <$> owners.

(** The statements for the metadata of a row that is not a deletion. *)
Definition metadata_stmts (id : Z) (key : string) (m : meta) : list stmt + err :=
  let labels := (fun p => InsertLabelSQL id key p.1 p.2) <$> map_to_list (m_labels m) in
  if bool_decide (m_fields m = ∅) then inl (owner_stmts id (m_owners m) ++ labels)
  else
    match MarshalToString (kmap (fun k => ReplaceAll k "." "_") (m_fields m)) with
    | inr e => inr e
    | inl json => inl (owner_stmts id (m_owners m) ++ labels ++ [InsertFieldsSQL id key json])
    end.

Definition InsertMetadata (id : Z) (key : string) (createRevision : Z) (prevValue : string) (m : meta) (delete : bool) : M (option gerr) :=
  let foreground := only_finalizer FinalizerDeleteDependents (m_finalizers m) in
  let skip := is_skip (m_labels m) in
  let first : (list stmt * list string * bool) + err :=
    if negb delete then
      match (if skip then unblocked (m_owners m) prevValue else inl []), metadata_stmts id key m with
      | inl needed, inl stmts => inl (stmts, needed, foreground)
      | inr e, _ | _, inr e => inr e
      end
    else inl ((if skip then owner_stmts id (m_owners m) else []), [], delete) in
  match first with
  | inr e => st_ret (Some (Some e))
  | inl (stmts, needed, delete) =>
      r <- (if skip && delete then
              owned <- tx_query (GetOwnedSQL (m_uid m)) [];;
              g <- owned_loop (m_uid m) (only_finalizer FinalizerOrphanDependents (m_finalizers m)) foreground owned (MkGc stmts false);;
              match g with
              | None => st_ret None
              | Some (inr e) => st_ret (Some (inr e))
              | Some (inl g) =>
                  r <- (if foreground && negb (g_blocked g) then Insert_nested key createRevision id else st_ret (Some (0, None)));;
                  match r with
                  | None => st_ret None
                  | Some (_, Some e) => st_ret (Some (inr e))
                  | Some (_, None) =>
                      st_ret (Some (inl (g_stmts g, if negb foreground || negb (g_blocked g) then needed ++ (or_UID <$> m_owners m) else needed)))
                  end
              end
            else st_ret (Some (inl (stmts, needed))));;
      match r with
      | None => st_ret None
      | Some (inr e) => st_ret (Some (Some e))
      | Some (inl (stmts, needed)) =>
          e <- exec_all stmts;;
          if is_err e then st_ret (Some e) else owners_loop (remove_dups needed)
      end
  end.

(** The complete [Insert]. *)
Definition Insert (key : string) (create delete : bool) (createRevision previousRevision ttl : Z) (value prevValue : string)
  : M (option (Z * gerr)) :=
  match decodeObject key value with
  | None => st_ret None
  | Some (inr e) => st_ret (Some (0, Some e))
  | Some (inl m) =>
      let delete := deletes create delete m in
      let ins := insert_kine key (m_uid m) create delete createRevision previousRevision ttl value (Some previousRevision) in
      if negb (String.eqb value "") &&
         (negb (bool_decide (m_labels m = ∅)) || negb (bool_decide (m_fields m = ∅)) || negb (bool_decide (m_owners m = [])) || delete) then
        berr <- BeginTx;;
        match berr with
        | Some e => st_ret (Some (0, Some e))
        | None =>
            '(id, err) <- tx_execute ins (0, Some ErrBusy);;
            if is_err err then _ <- Rollback;; st_ret (Some (id, err))
            else
              merr <- InsertMetadata id key createRevision prevValue m delete;;
              match merr with
              | None => st_ret None
              | Some (Some e) => _ <- forget_tx;; st_ret (Some (0, Some e))
              | Some None => cerr <- Commit;; st_ret (Some (if is_err cerr then 0 else id, cerr))
              end
        end
      else
        r <- execute ins (0, Some ErrBusy);;
        st_ret (Some r)
  end.
End insert.
