(* ===== verification/SqlMetaProofs.v ===== *)
(** * Inserting an object with its metadata: proofs

    For an object without the label that turns the collection of dependents on,
    the complete [Insert] is [insert_row] of [Sql] on the table [kine] and adds
    the object's labels, fields and owners.  With the label it is still all or
    nothing, and a deletion that cascades never gets through.  [insert_storing]
    relates it to the [Insert] of [Sql] for every outcome of the decoder. *)
From S2P Require Import Prelude Types GoStrings Sql Objects Selectors SqlMeta.
From stdpp Require Import gmap.
Local Open Scope Z_scope.

Lemma insert_kine_sql name uid created deleted cr pr lease value t :
  let r := insert_row name created deleted cr pr lease value (kine t) in
  let r' := insert_kine name uid created deleted cr pr lease value (Some pr) t in
  r'.1 = r.1 /\ kine r'.2 = r.2 /\ kine_labels r'.2 = kine_labels t /\ kine_fields r'.2 = kine_fields t /\
  kine_owners r'.2 = kine_owners t /\ (is_err r.1.2 = true -> r'.2 = t) /\
  (is_err r.1.2 = false -> uids r'.2 = <[r.1.1 := uid]> (uids t) /\ r.1.1 = Sql.seq (kine t) + 1).
Proof. unfold insert_kine, insert_row. destruct (unique_violation name pr (kine t)); done. Qed.

(** Statements that cannot fail, on the open transaction. *)
Definition plain (s : stmt) : Prop := match s with InsertLastInsertIDSQL _ _ _ _ _ _ => False | _ => True end.
Definition apply_stmts (l : list stmt) (t : tables) : tables := fold_left (fun t s => (exec_stmt s t).2) l t.

Lemma exec_all_plain l c t a : Forall plain l ->
  exec_all l (MkStore c (Some t) a) = (None, MkStore c (Some (apply_stmts l t)) a).
Proof.
  intros Hl. revert t. induction Hl as [|s l Hs _ IH]; intros t; [done|].
  cbn [exec_all]. unfold st_bind, tx_execute. cbn [tx committed abandoned].
  destruct s; try done; cbn [exec_stmt is_err]; by rewrite IH.
Qed.

Definition owner_rows (id : Z) (owners : list OwnerReference) : list owner_row :=
  (fun o => MkORow id (or_UID o) (or_BlockOwnerDeletion o)) <$> owners.

Lemma apply_owner_stmts id owners t : apply_stmts (owner_stmts id owners) t =
  MkTables (kine t) (uids t) (kine_labels t) (kine_fields t) (kine_owners t ++ owner_rows id owners).
Proof.
  revert t. induction owners as [|o owners IH]; intros t; [destruct t; simpl; by rewrite app_nil_r|].
  unfold owner_stmts, owner_rows in *. rewrite !fmap_cons. cbn [apply_stmts fold_left]. fold (apply_stmts ((fun o => InsertOwnerSQL id (or_UID o) (or_BlockOwnerDeletion o)) <$> owners)).
  unfold apply_stmts in IH. unfold apply_stmts. rewrite IH. simpl. by rewrite <- app_assoc.
Qed.

Lemma apply_label_stmts id key (l : list (string * string)) t :
  apply_stmts ((fun p => InsertLabelSQL id key p.1 p.2) <$> l) t =
  MkTables (kine t) (uids t) (kine_labels t ++ ((fun p => MkLRow id key p.1 p.2) <$> l)) (kine_fields t) (kine_owners t).
Proof.
  revert t. induction l as [|p l IH]; intros t; [destruct t; simpl; by rewrite app_nil_r|].
  rewrite !fmap_cons. unfold apply_stmts in *. cbn [fold_left]. rewrite IH. simpl. by rewrite <- app_assoc.
Qed.

Lemma apply_app l1 l2 t : apply_stmts (l1 ++ l2) t = apply_stmts l2 (apply_stmts l1 t).
Proof. apply fold_left_app. Qed.

Section insert.
Context `{HU : Unstructured}.

(** The fields of the object can be rendered. *)
Definition renders (m : meta) : Prop :=
  m_fields m = ∅ \/ exists json, MarshalToString (kmap (fun k => ReplaceAll k "." "_") (m_fields m)) = inl json.

Lemma metadata_stmts_spec id key m : renders m -> exists stmts frows, metadata_stmts id key m = inl stmts /\ Forall plain stmts /\
  (m_fields m = ∅ -> frows = []) /\ (m_fields m <> ∅ -> exists json, frows = [MkFRow id key json]) /\
  forall t, apply_stmts stmts t = MkTables (kine t) (uids t) (kine_labels t ++ rows_of id key (m_labels m))
    (kine_fields t ++ frows) (kine_owners t ++ owner_rows id (m_owners m)).
Proof using Type.
  intros Hm. unfold metadata_stmts. set (l1 := owner_stmts id (m_owners m)). set (l2 := _ <$> map_to_list (m_labels m)).
  assert (Hp : Forall plain (l1 ++ l2)).
  { apply Forall_app. split; apply Forall_fmap, Forall_forall; by intros. }
  assert (Ha : forall t, apply_stmts (l1 ++ l2) t = MkTables (kine t) (uids t) (kine_labels t ++ rows_of id key (m_labels m))
    (kine_fields t) (kine_owners t ++ owner_rows id (m_owners m))).
  { intros t. rewrite apply_app. subst l1 l2. by rewrite apply_owner_stmts, apply_label_stmts. }
  case_bool_decide as Hf.
  - exists (l1 ++ l2), []. split; [done|]. split; [done|]. split; [done|]. split; [done|]. intros t. by rewrite Ha, app_nil_r.
  - destruct Hm as [?|[json ->]]; [done|].
    exists (l1 ++ l2 ++ [InsertFieldsSQL id key json]), [MkFRow id key json]. split; [done|].
    rewrite app_assoc. split; [apply Forall_app; by repeat constructor|]. split; [done|]. split; [by exists json|].
    intros t. rewrite apply_app, Ha. done.
Qed.

(** What an accepted or refused insertion leaves behind. *)
Definition inserted (key : string) (bare : bool) (m : meta) (c t' : tables) (r : Z * gerr) (k' : table) : Prop :=
  kine t' = k' /\
  if is_err r.2 then t' = c
  else
    uids t' = <[r.1 := m_uid m]> (uids c) /\
    kine_labels t' = kine_labels c ++ (if bare then [] else rows_of r.1 key (m_labels m)) /\
    kine_owners t' = kine_owners c ++ (if bare then [] else owner_rows r.1 (m_owners m)) /\
    exists frows, kine_fields t' = kine_fields c ++ frows /\
      ((bare = true \/ m_fields m = ∅) -> frows = []) /\
      (bare = false -> m_fields m <> ∅ -> exists json, frows = [MkFRow r.1 key json]).

Lemma insert_effect key create delete cr pr ttl value prev m c :
  decodeObject key value = Some (inl m) -> is_skip (m_labels m) = false -> renders m ->
  exists t', SqlMeta.Insert key create delete cr pr ttl value prev (MkStore c None false)
    = (Some ((insert_row key create delete cr pr ttl value (kine c)).1), MkStore t' None false) /\
  inserted key (String.eqb value "" || delete) m c t' (insert_row key create delete cr pr ttl value (kine c)).1
    (insert_row key create delete cr pr ttl value (kine c)).2.
Proof using Type.
  intros Hd Hskip Hm. unfold inserted, SqlMeta.Insert. rewrite Hd.
  assert (Hdel : deletes create delete m = delete) by (unfold deletes; by rewrite Hskip). rewrite Hdel. cbv zeta.
  pose proof (insert_kine_sql key (m_uid m) create delete cr pr ttl value c) as Hk. cbv zeta in Hk.
  destruct (insert_kine key (m_uid m) create delete cr pr ttl value (Some pr) c) as [[id' err'] t1] eqn:E1.
  destruct (insert_row key create delete cr pr ttl value (kine c)) as [[id err] k1]. cbn [fst snd] in Hk |- *.
  destruct Hk as ([= -> ->] & Hk1 & Hl & Hf & Ho & Herr & Hok).
  destruct (negb (String.eqb value "") && _) eqn:Econd.
  - unfold BeginTx, st_bind at 1. cbn [abandoned tx committed]. rewrite bool_decide_false by (by intros [? ?]). cbn [orb].
    unfold st_bind at 1, tx_execute at 1. cbn [tx committed abandoned]. rewrite E1. destruct err as [e|]; cbn [is_err].
    + unfold st_bind, Rollback, st_ret. cbn [committed abandoned tx]. exists c. split; [done|]. split; [|done].
      by rewrite <- Hk1, (Herr eq_refl).
    + destruct (Hok eq_refl) as [Hu Hid]. apply andb_true_iff in Econd as [Hv Hany]. apply negb_true_iff in Hv.
      rewrite Hv. cbn [orb]. destruct delete.
      * exists t1. unfold InsertMetadata. rewrite Hskip. cbn [negb andb]. unfold st_bind, st_ret, Commit. cbn. split; [done|]. split; [done|].
        rewrite !app_nil_r. split; [done|]. split; [done|]. split; [done|]. exists []. by rewrite app_nil_r.
      * destruct (metadata_stmts_spec id key m Hm) as (stmts & frows & Hst & Hplain & Hf0 & Hf1 & Happ).
        exists (apply_stmts stmts t1). unfold InsertMetadata. rewrite Hskip, Hst. cbn [negb andb].
        unfold st_bind, st_ret. rewrite exec_all_plain by done. cbn [is_err owners_loop remove_dups]. unfold Commit, st_ret. cbn.
        rewrite Happ. split; [done|]. cbn. split; [done|]. rewrite Hl, Ho, Hf. split; [done|]. split; [done|]. split; [done|].
        exists frows. split; [done|]. split; [intros [?|?]; [done|by apply Hf0]|by intros _].
  - unfold execute, st_bind, st_ret. cbn [abandoned tx committed]. rewrite bool_decide_false by (by intros [? ?]). cbn [orb].
    rewrite E1. exists t1. split; [done|]. split; [done|]. destruct err as [e|]; cbn [is_err]; [by apply Herr|].
    destruct (Hok eq_refl) as [Hu Hid]. rewrite Hl, Ho, Hf. split; [done|].
    assert (Hbare : (String.eqb value "" || delete = true) \/ (m_labels m = ∅ /\ m_fields m = ∅ /\ m_owners m = [])).
    { apply andb_false_iff in Econd as [Hv|Hany]; [left; apply negb_false_iff in Hv; by rewrite Hv|].
      rewrite !orb_false_iff, !negb_false_iff, !bool_decide_eq_true in Hany. destruct Hany as [[[? ?] ?] ?]. by right. }
    destruct Hbare as [->|(HL & HF & HO)].
    + rewrite !app_nil_r. split; [done|]. split; [done|]. exists []. by rewrite app_nil_r.
    + unfold rows_of. rewrite HL, HO, map_to_list_empty. cbn. destruct (String.eqb value "" || delete); rewrite !app_nil_r;
        (split; [done|]); (split; [done|]); exists []; rewrite app_nil_r; (split; [done|]); by split.
Qed.

(** What the decoder says of a value in [Sql.storing]. *)
Definition stores (key value : string) (obj : storing) : Prop :=
  match obj with
  | NotDecoded message => decodeObject key value = Some (inr (ErrOther message))
  | Stored => exists m, decodeObject key value = Some (inl m) /\ is_skip (m_labels m) = false /\ renders m
  | NotCommitted message => exists m, decodeObject key value = Some (inl m) /\ is_skip (m_labels m) = false /\
      m_fields m <> ∅ /\ MarshalToString (kmap (fun k => ReplaceAll k "." "_") (m_fields m)) = inr (ErrOther message)
  | Collected _ => value <> "" /\ exists m, decodeObject key value = Some (inl m) /\ is_skip (m_labels m) = true
  end.

(** The insertion of [Sql] is the complete one as the table of rows sees it:
    for any object without the label of the collector, a row with a value not
    being a deletion. *)
Lemma insert_storing obj key create delete cr pr ttl value prev c :
  stores key value obj -> collects obj value = false -> (delete = true -> value = "") ->
  let r := Sql.Insert obj key create delete cr pr ttl value (kine c) in
  exists t' a, SqlMeta.Insert key create delete cr pr ttl value prev (MkStore c None false) = (Some r.1, MkStore t' None a) /\
    kine t' = r.2.
Proof using Type.
  intros Hs Hc Hdv r. destruct obj as [|msg|msg|f]; cbn [stores] in Hs; subst r.
  - destruct Hs as (m & Hd & Hskip & Hm). destruct (insert_effect key create delete cr pr ttl value prev m c Hd Hskip Hm) as (t' & -> & Hk & _). eauto.
  - unfold SqlMeta.Insert. rewrite Hs. by exists c, false.
  - destruct Hs as (m & Hd & Hskip & Hf & Hm). cbn [Sql.Insert].
    pose proof (insert_kine_sql key (m_uid m) create delete cr pr ttl value c) as Hk. cbv zeta in Hk.
    unfold SqlMeta.Insert. rewrite Hd. assert (Hdel : deletes create delete m = delete) by (unfold deletes; by rewrite Hskip).
    rewrite Hdel. cbv zeta. rewrite (bool_decide_false _ Hf). destruct (insert_kine key (m_uid m) create delete cr pr ttl value (Some pr) c) as [[id err] t1] eqn:E1.
    destruct (insert_row key create delete cr pr ttl value (kine c)) as [[id' err'] k1]. cbn [fst snd] in Hk |- *.
    destruct Hk as ([= -> ->] & Hk1 & _ & _ & _ & Herr & _). destruct (String.eqb_spec value "") as [->|Hv]; cbn [negb andb].
    + unfold execute, st_bind, st_ret. cbn [abandoned tx committed]. rewrite bool_decide_false by (by intros [? ?]). cbn [orb].
      rewrite E1. by exists t1, false.
    + rewrite orb_true_r. cbn [orb]. destruct delete; [by specialize (Hdv eq_refl)|].
      unfold BeginTx, st_bind at 1. cbn [abandoned tx committed]. rewrite bool_decide_false by (by intros [? ?]). cbn [orb].
      unfold st_bind at 1, tx_execute at 1. cbn [tx committed abandoned]. rewrite E1. destruct err' as [e|]; cbn [is_err].
      * unfold st_bind, Rollback, st_ret. cbn [committed abandoned tx]. exists c, false. split; [done|]. by rewrite <- Hk1, (Herr eq_refl).
      * unfold InsertMetadata. rewrite Hskip. cbn [negb andb]. unfold metadata_stmts. rewrite (bool_decide_false _ Hf), Hm.
        unfold st_bind, st_ret, forget_tx. cbn. by exists c, true.
  - destruct Hs as [Hv _]. cbn in Hc. by rewrite (proj2 (String.eqb_neq _ _) Hv) in Hc.
Qed.

Section marshals.
Hypothesis marshals : forall fs, exists json, MarshalToString fs = inl json.

(** C18. For an object without the label that turns the collection of
    dependents on, the complete [Insert] answers as that of a value without
    metadata and does the same to the table of rows; when it is accepted, a
    row that stands for a live object gets the object's labels, owners and
    fields, all under its new id, and one with no value or a deletion gets
    none; when it is refused nothing has changed.  In each case the database
    is unlocked. *)
Theorem insert_metadata_refines key create delete cr pr ttl value prev m c :
  decodeObject key value = Some (inl m) -> is_skip (m_labels m) = false ->
  exists t', SqlMeta.Insert key create delete cr pr ttl value prev (MkStore c None false)
    = (Some ((insert_row key create delete cr pr ttl value (kine c)).1), MkStore t' None false) /\
  inserted key (String.eqb value "" || delete) m c t' (insert_row key create delete cr pr ttl value (kine c)).1
    (insert_row key create delete cr pr ttl value (kine c)).2.
Proof using marshals. intros Hd Hskip. apply insert_effect; [done|done|right; apply marshals]. Qed.

(** What is inserted is found: after an accepted insertion of a live
    object a label selector of equalities, sets and existence tests on
    different keys selects the new row exactly when it matches the object's
    labels, whatever was stored before. *)
Theorem inserted_object_found parse_int p rest create cr pr ttl value prev m c id s' reqs :
  decodeObject (p +:+ rest) value = Some (inl m) -> is_skip (m_labels m) = false -> value <> "" ->
  Forall (fun r => l_kine_id r <= Sql.seq (kine c)) (kine_labels c) ->
  SqlMeta.Insert (p +:+ rest) create false cr pr ttl value prev (MkStore c None false) = (Some (id, None), s') ->
  reqs <> [] -> Forall simple reqs -> NoDup (rq_key <$> reqs) ->
  label_selects (kine_labels (committed s')) (p +:+ "%") reqs id = forallb (req_matches parse_int (m_labels m)) reqs.
Proof using marshals.
  intros Hd Hskip Hv Hfresh Hins Hne Hs Hnd.
  destruct (insert_effect (p +:+ rest) create false cr pr ttl value prev m c Hd Hskip (or_intror (marshals _))) as (t' & Hi & _ & Hl).
  rewrite Hins in Hi. injection Hi as Hr ->. rewrite <- Hr in Hl. cbn [is_err fst snd] in Hl.
  rewrite (proj2 (String.eqb_neq value "")) in Hl by done. destruct Hl as (_ & Hl & _). cbn [committed]. cbn [orb] in Hl.
  apply (label_select_rows parse_int _ id p rest (m_labels m) reqs); [|done..]. rewrite Hl, filter_app.
  assert (Hid : id = Sql.seq (kine c) + 1).
  { unfold insert_row in Hr. destruct (unique_violation _ _ _); [done|]. by injection Hr. }
  rewrite filter_none, app_nil_l; [|intros r Hr' Heq; rewrite Forall_forall in Hfresh; specialize (Hfresh _ Hr'); lia].
  rewrite filter_all; [done|]. intros r (pr' & -> & _)%list_elem_of_fmap. done.
Qed.
End marshals.
End insert.

(** ** What a transaction keeps *)
Section kept.
Context `{HU : Unstructured}.
Variables (c : tables) (a : bool) (I : tables -> Prop) (ok : stmt -> Prop) (id : Z) (key : string).
Hypothesis I_stmt : forall s t, ok s -> I t -> I (exec_stmt s t).2.
Hypothesis ok_insert : forall k u cr pr v old, ok (InsertLastInsertIDSQL k u cr pr v old).
Hypothesis ok_label : forall k v, ok (InsertLabelSQL id key k v).
Hypothesis ok_fields : forall json, ok (InsertFieldsSQL id key json).
Hypothesis ok_owner : forall o b, ok (InsertOwnerSQL id o b).

(** The transaction is open, and what it sees satisfies [I]. *)
Definition opened (s : store) : Prop := committed s = c /\ abandoned s = a /\ exists t, tx s = Some t /\ I t.
Definition keeps {A} (Q : A -> Prop) (m : M A) : Prop := forall s, opened s -> opened (m s).2 /\ Q (m s).1.
Definition stays {A} (m : M A) : Prop := keeps (fun _ => True) m.

Lemma keeps_ret {A} (Q : A -> Prop) x : Q x -> keeps Q (st_ret x).
Proof using Type. by intros Hx s Hs. Qed.

Lemma keeps_bind {A B} (Q : A -> Prop) (R : B -> Prop) (m : M A) (k : A -> M B) :
  keeps Q m -> (forall x, Q x -> keeps R (k x)) -> keeps R (st_bind m k).
Proof using Type. intros Hm Hk s Hs. unfold st_bind. specialize (Hm s Hs) as [Hs' HQ]. destruct (m s) as [x s']. by apply Hk. Qed.

Lemma stays_bind {A B} (R : B -> Prop) (m : M A) (k : A -> M B) : stays m -> (forall x, keeps R (k x)) -> keeps R (st_bind m k).
Proof using Type. intros Hm Hk. apply (keeps_bind (fun _ => True)); [done|by intros x _]. Qed.

Lemma stays_execute {A} (f : tables -> A * tables) (busy : A) : stays (execute f busy).
Proof using Type.
  intros s Hs. unfold execute. destruct Hs as (H1 & H2 & t & Ht & Hr). rewrite Ht, bool_decide_true by (by eexists).
  rewrite orb_true_r. split; [|done]. split; [done|]. split; [done|]. by exists t.
Qed.

Lemma stays_tx_query {A} (f : tables -> A) none : stays (tx_query f none).
Proof using Type. by intros s Hs. Qed.

Lemma stays_tx_execute st : ok st -> stays (tx_execute (exec_stmt st) (Some ErrBusy)).
Proof using I_stmt.
  intros Hok s (H1 & H2 & t & Ht & Hr). unfold tx_execute. rewrite Ht. pose proof (I_stmt st t Hok Hr) as Hk.
  destruct (exec_stmt st t) as [e t']. split; [|done]. split; [done|]. split; [done|]. by exists t'.
Qed.

Lemma stays_nested k cr pr : stays (Insert_nested k cr pr).
Proof using Type.
  unfold Insert_nested. destruct (decodeObject k "") as [[m|e]|]; [|by apply keeps_ret..].
  apply stays_bind; [apply stays_execute|]. intros x. by apply keeps_ret.
Qed.

Lemma stays_exec_all l : Forall ok l -> stays (exec_all l).
Proof using I_stmt.
  induction 1 as [|st l Hst _ IH]; [by apply keeps_ret|]. cbn [exec_all]. apply stays_bind; [by apply stays_tx_execute|].
  intros e. destruct (is_err e); [by apply keeps_ret|done].
Qed.

Definition ok_gc (r : option (gc + err)) : Prop := match r with Some (inl g) => Forall ok (g_stmts g) | _ => True end.

Lemma keeps_owned_step uid orphan foreground o g : Forall ok (g_stmts g) -> keeps ok_gc (owned_step uid orphan foreground o g).
Proof using ok_insert.
  intros Hg. destruct o as [[k ownedUID] block]. unfold owned_step.
  assert (Hsnoc : forall s, ok s -> Forall ok (g_stmts g ++ [s])) by (intros s Hs; apply Forall_app; by repeat constructor).
  destruct (u_Decode (r_value k)) as [obj|e]; [|by apply keeps_ret]. destruct orphan.
  - destruct (remove_indices _ _); [|by apply keeps_ret]. destruct (u_Marshal _); apply keeps_ret; [by apply Hsnoc|done].
  - destruct (bool_decide _).
    { apply stays_bind; [apply stays_nested|]. intros [[x [e|]]|]; by apply keeps_ret. }
    destruct (u_Deleting obj && foreground && block); [by apply keeps_ret|].
    destruct (negb (u_Deleting obj)); [|by apply keeps_ret]. destruct (u_Marshal _); apply keeps_ret; [by apply Hsnoc|done].
Qed.

Lemma keeps_owned_loop uid orphan foreground l g : Forall ok (g_stmts g) -> keeps ok_gc (owned_loop uid orphan foreground l g).
Proof using ok_insert.
  revert g. induction l as [|o l IH]; intros g Hg; [by apply keeps_ret|]. cbn [owned_loop].
  destruct (r_id o.1.1 =? 0); [by apply IH|]. apply (keeps_bind ok_gc); [by apply keeps_owned_step|].
  intros [[g'|e]|] Hg'; [by apply IH|by apply keeps_ret..].
Qed.

Lemma stays_owners_loop l : stays (owners_loop l).
Proof using Type.
  induction l as [|u l IH]; [by apply keeps_ret|]. cbn [owners_loop]. apply stays_bind; [apply stays_tx_query|]. intros rows.
  apply stays_bind; [|intros [[e|]|]; [by apply keeps_ret|apply IH|by apply keeps_ret]].
  unfold owner_step. destruct rows as [|o rest]; [by apply keeps_ret|]. destruct (r_deleted o); [by apply keeps_ret|].
  destruct (u_Decode (r_value o)) as [obj|e]; [|by apply keeps_ret]. destruct (negb _); [by apply keeps_ret|].
  destruct rest; [|by apply keeps_ret]. apply stays_bind; [apply stays_nested|]. intros x. by apply keeps_ret.
Qed.

Lemma owner_stmts_ok owners : Forall ok (owner_stmts id owners).
Proof using ok_owner. unfold owner_stmts. apply Forall_fmap, Forall_forall. intros o _. apply ok_owner. Qed.

Lemma metadata_stmts_ok m stmts : metadata_stmts id key m = inl stmts -> Forall ok stmts.
Proof using ok_owner ok_label ok_fields.
  unfold metadata_stmts.
  assert (Hl : Forall ok ((fun p => InsertLabelSQL id key p.1 p.2) <$> map_to_list (m_labels m))).
  { apply Forall_fmap, Forall_forall. intros p _. apply ok_label. }
  pose proof (owner_stmts_ok (m_owners m)) as Ho.
  case_bool_decide; [intros [= <-]; by apply Forall_app|].
  destruct (MarshalToString _) as [json|e]; [|done]. intros [= <-]. apply Forall_app. split; [done|].
  apply Forall_app. split; [done|]. by repeat constructor.
Qed.

Lemma stays_InsertMetadata cr prev m delete : stays (InsertMetadata id key cr prev m delete).
Proof using All.
  unfold InsertMetadata. cbv zeta. set (first := if negb delete then _ else _).
  assert (Hfirst : match first with inl (stmts, _, _) => Forall ok stmts | inr _ => True end).
  { subst first. destruct delete; cbn [negb].
    - destruct (is_skip _); [apply owner_stmts_ok|by constructor].
    - destruct (if is_skip (m_labels m) then unblocked (m_owners m) prev else inl []); [|done].
      destruct (metadata_stmts id key m) eqn:E; [|done]. by apply metadata_stmts_ok in E. }
  destruct first as [[[stmts needed] del]|e]; [|by apply keeps_ret].
  apply (keeps_bind (fun r => match r with Some (inl (stmts, _)) => Forall ok stmts | _ => True end)).
  - destruct (is_skip (m_labels m) && del); [|by apply keeps_ret]. apply stays_bind; [apply stays_tx_query|]. intros owned.
    apply (keeps_bind ok_gc); [by apply keeps_owned_loop|]. intros [[g|e]|] Hg; [|by apply keeps_ret..].
    apply stays_bind; [destruct (_ && _); [apply stays_nested|by apply keeps_ret]|]. intros [[x [e|]]|]; by apply keeps_ret.
  - intros [[[st nd]|e]|] Hok; [|by apply keeps_ret..]. apply stays_bind; [by apply stays_exec_all|].
    intros e. destruct (is_err e); [by apply keeps_ret|apply stays_owners_loop].
Qed.
End kept.

Lemma insert_kine_keeps r0 name uid cd dl cr pr ls v old t : r0 ∈ rows (kine t) ->
  r0 ∈ rows (kine (insert_kine name uid cd dl cr pr ls v old t).2).
Proof. intros Hr. unfold insert_kine. destruct (unique_violation _ _ _); [done|]. simpl. apply elem_of_app. by left. Qed.

Lemma exec_stmt_kine st t :
  kine (exec_stmt st t).2 = match st with
    | InsertLastInsertIDSQL k u cr pr v old => kine (insert_kine k u false false cr pr 0 v old t).2
    | _ => kine t
    end.
Proof. destruct st as [| | |k u cr pr v old]; try done. cbn [exec_stmt]. by destruct (insert_kine k u false false cr pr 0 v old t) as [[? ?] ?]. Qed.

Lemma stmt_keeps r0 st t : r0 ∈ rows (kine t) -> r0 ∈ rows (kine (exec_stmt st t).2).
Proof. intros Hr. rewrite exec_stmt_kine. destruct st; try done. by apply insert_kine_keeps. Qed.

(** C8. Insertion is all or nothing, for any object, whatever dependents are
    collected with it: when it is refused or fails nothing of it is visible;
    when it succeeds its row is in the table under a new id and the database
    is unlocked. *)
Theorem insert_all_or_nothing `{HU : Unstructured} key create delete cr pr ttl value prev c id err s' :
  SqlMeta.Insert key create delete cr pr ttl value prev (MkStore c None false) = (Some (id, err), s') ->
  tx s' = None /\
  match err with
  | Some _ => committed s' = c
  | None => abandoned s' = false /\ id = Sql.seq (kine c) + 1 /\
      exists r, r ∈ rows (kine (committed s')) /\ r_id r = id /\ r_name r = key /\ r_value r = value /\ r_prev_revision r = pr
  end.
Proof.
  unfold SqlMeta.Insert. destruct (decodeObject key value) as [[m|e]|]; [|by intros [= <- <- <-]|done]. cbv zeta.
  set (del := deletes create delete m).
  assert (Hrow : forall r t, insert_kine key (m_uid m) create del cr pr ttl value (Some pr) c = (r, t) ->
    match r.2 with
    | Some _ => t = c
    | None => r.1 = Sql.seq (kine c) + 1 /\ exists r0, r0 ∈ rows (kine t) /\ r_id r0 = r.1 /\ r_name r0 = key /\
        r_value r0 = value /\ r_prev_revision r0 = pr
    end).
  { intros r t. unfold insert_kine. destruct (unique_violation _ _ _); intros [= <- <-]; [done|]. split; [done|].
    eexists. split; [simpl; apply elem_of_app; right; by apply list_elem_of_singleton|done]. }
  destruct (insert_kine _ _ _ _ _ _ _ _ _ c) as [[id1 err1] t1] eqn:E1. specialize (Hrow _ _ eq_refl). cbn [fst snd] in Hrow.
  destruct (negb (String.eqb value "") && _).
  - unfold BeginTx, st_bind at 1. cbn [abandoned tx committed]. rewrite bool_decide_false by (by intros [? ?]). cbn [orb].
    unfold st_bind at 1, tx_execute at 1. cbn [tx committed abandoned]. rewrite E1. destruct err1 as [e|]; cbn [is_err].
    + unfold st_bind, Rollback, st_ret. intros [= <- <- <-]. done.
    + destruct Hrow as [Hid (r0 & Hr0 & Hrest)]. unfold st_bind at 1.
      destruct (stays_InsertMetadata c false (fun t => r0 ∈ rows (kine t)) (fun _ => True) id1 key
        (fun st t _ => stmt_keeps r0 st t) ltac:(done) ltac:(done) ltac:(done) ltac:(done) cr prev m del (MkStore c (Some t1) false)) as [Hst _];
        [by repeat split; eexists|].
      destruct (InsertMetadata _ _ _ _ _ _ _) as [merr s1]. destruct Hst as (H1 & H2 & t & Ht & Hr).
      cbn [snd] in *. destruct merr as [[e|]|]; unfold st_bind, forget_tx, Commit, st_ret; [| |done].
      * intros [= <- <- <-]. done.
      * intros [= <- <- <-]. cbn. split; [done|]. split; [done|]. split; [done|]. rewrite Ht. exists r0.
        by rewrite Hid in Hrest |- *.
  - unfold execute, st_bind, st_ret. cbn [abandoned tx committed]. rewrite bool_decide_false by (by intros [? ?]). cbn [orb].
    rewrite E1. intros [= <- <- <-]. cbn. split; [done|]. destruct err1 as [e|]; [done|]. split; [done|].
    destruct Hrow as [Hid Hr]. by rewrite Hid in Hr |- *.
Qed.

(** ** Cascading deletion *)
Lemma insert_locked `{HU : Unstructured} key create delete cr pr ttl value prev c :
  exists r, SqlMeta.Insert key create delete cr pr ttl value prev (MkStore c None true) = (r, MkStore c None true) /\
  match r with Some (_, err) => is_err err = true | None => True end.
Proof.
  unfold SqlMeta.Insert. destruct (decodeObject key value) as [[m|e]|]; [|by eexists..]. cbv zeta.
  destruct (negb (String.eqb value "") && _); unfold st_bind, BeginTx, execute, st_ret; cbn; by eexists.
Qed.

Lemma nested_fails `{HU : Unstructured} key cr pr c t a : decodeObject key "" <> None ->
  exists id e, Insert_nested key cr pr (MkStore c (Some t) a) = (Some (id, Some e), MkStore c (Some t) a).
Proof.
  intros Hd. unfold Insert_nested. destruct (decodeObject key "") as [[m|e]|]; [|by repeat eexists|done].
  unfold st_bind, execute, st_ret. cbn [abandoned tx]. rewrite bool_decide_true by (by eexists). rewrite orb_true_r. by repeat eexists.
Qed.

Lemma omap_none {A B} (f : A -> option B) (l : list A) : (forall x, f x = None) -> omap f l = [].
Proof. intros Hf. induction l as [|x l IH]; [done|]. simpl. by rewrite Hf. Qed.

Lemma no_dependents owner t : Forall (fun o => ow_owner o <> owner) (kine_owners t) -> GetOwnedSQL owner t = [].
Proof.
  intros Hno. unfold GetOwnedSQL. cbv zeta. apply omap_none. intros k. rewrite filter_none; [done|].
  intros o Ho [How _]. rewrite Forall_forall in Hno. by apply (Hno o Ho).
Qed.

(** C39. An object marked for foreground deletion that has no dependents left
    is never deleted: its removal is run outside of the transaction that waits
    for it, so the request fails and nothing of it is stored.  As the
    transaction is not ended, every insertion of any object is refused until
    the context of the request ends, which rolls the transaction back; the
    tables are then as they were, so that however often the request is repeated
    it fails in the same way. *)
Theorem foreground_delete_locks `{HU : Unstructured} key cr pr ttl value prev m c :
  decodeObject key value = Some (inl m) -> is_skip (m_labels m) = true -> m_finalizers m = [FinalizerDeleteDependents] ->
  value <> "" -> decodeObject key "" <> None -> unique_violation key pr (kine c) = false ->
  Forall (fun o => ow_owner o <> m_uid m) (kine_owners c) ->
  let request := SqlMeta.Insert key false false cr pr ttl value prev in
  exists e, (forall n, request (Nat.iter n (fun s => end_context (request s).2) (MkStore c None false))
      = (Some (0, Some e), MkStore c None true)) /\
  (forall key' create delete cr' pr' ttl' value' prev', exists r,
    SqlMeta.Insert key' create delete cr' pr' ttl' value' prev' (MkStore c None true) = (r, MkStore c None true) /\
    match r with Some (_, err) => is_err err = true | None => True end) /\
  end_context (MkStore c None true) = MkStore c None false.
Proof.
  intros Hd Hskip Hfin Hv Hn Hu Hno.
  cut (exists e, SqlMeta.Insert key false false cr pr ttl value prev (MkStore c None false) = (Some (0, Some e), MkStore c None true)).
  { intros [e He]. exists e. split; [|split; [intros; apply insert_locked|done]].
    intros n. replace (Nat.iter n _ _) with (MkStore c None false); [done|].
    induction n as [|n IH]; [done|]. rewrite Nat.iter_succ, <- IH, He. done. }
  unfold SqlMeta.Insert. rewrite Hd. cbv zeta.
  assert (Hlab : m_labels m <> ∅).
  { intros Hl. unfold is_skip in Hskip. rewrite Hl, lookup_empty in Hskip. by rewrite bool_decide_false in Hskip by (by intros [? ?]). }
  assert (Hdel : deletes false false m = false) by (unfold deletes; by destruct (_ && _ && _) eqn:E; [rewrite Hskip, Hfin in E|]).
  rewrite Hdel, (proj2 (String.eqb_neq value "")) by done. rewrite (bool_decide_false (m_labels m = ∅)) by done. cbn [negb andb orb].
  unfold BeginTx, st_bind at 1. cbn [abandoned tx committed]. rewrite bool_decide_false by (by intros [? ?]). cbn [orb].
  unfold st_bind at 1, tx_execute at 1. cbn [tx committed abandoned]. unfold insert_kine at 1. rewrite Hu. cbn [is_err].
  set (t1 := MkTables _ _ _ _ _). unfold st_bind at 1.
  cut (exists e, InsertMetadata (Sql.seq (kine c) + 1) key cr prev m false (MkStore c (Some t1) false) = (Some (Some e), MkStore c (Some t1) false)).
  { intros [e ->]. unfold st_bind, forget_tx, st_ret. cbn [committed abandoned tx]. exists e. by rewrite bool_decide_true by (by eexists). }
  unfold InsertMetadata. cbn [negb]. rewrite Hskip, Hfin. change (only_finalizer FinalizerDeleteDependents [FinalizerDeleteDependents]) with true.
  change (only_finalizer FinalizerOrphanDependents [FinalizerDeleteDependents]) with false. cbv zeta.
  destruct (unblocked (m_owners m) prev) as [needed|e]; [|by eexists].
  destruct (metadata_stmts _ key m) as [stmts|e]; [|by eexists]. cbn [andb].
  unfold st_bind at 1, st_bind at 1, tx_query. cbn [tx]. rewrite no_dependents by done. cbn [owned_loop].
  unfold st_bind at 1, st_ret at 1. cbn [g_blocked negb andb]. unfold st_bind at 1.
  destruct (nested_fails key cr (Sql.seq (kine c) + 1) c t1 false Hn) as (id & e & ->). by exists e.
Qed.

(** ** Witnesses *)
Section toy.
(** Objects named by their value: ["A"] has a label and an owner, ["F"] the
    label of the collector and the finalizer of foreground deletion. *)
Definition toy_object (t : otype) (value : string) : object :=
  MkObject t "a" "default" (value +:+ "-uid") "1" (if String.eqb value "F" then [FinalizerDeleteDependents] else [])
    (if String.eqb value "A" then [MkOwner "O" (Some true)] else [])
    (if String.eqb value "A" then {["app" := "web"]} else if String.eqb value "F" then {[skip_label := ""]} else ∅) "v1" "Pod" (fun _ => "").

Instance toy : Unstructured := {|
  uobj := unit;
  u_Decode := fun _ => inl tt;
  u_Owners := fun _ => [];
  u_SetOwners := fun _ o => o;
  u_Finalizers := fun _ => [];
  u_Deleting := fun _ => false;
  u_SetDeletionTimestamp := fun o => o;
  u_Marshal := fun _ => inl "{}";
  Decode := fun t v => inl (toy_object t v);
  fields_of := fun o _ => Some {["metadata.name" := o_Name o]};
  MarshalToString := fun fs => inl "{}"
|}.

Definition no_tables : tables := MkTables (MkTable [] 0) ∅ [] [] [].
Definition toy_meta (v : string) : meta := default (MkMeta "" ∅ ∅ [] [])
  (match decodeObject "/registry/pods/default/a" v with Some (inl m) => Some m | _ => None end).

Lemma insert_metadata_refines_witness : exists t',
  SqlMeta.Insert "/registry/pods/default/a" true false 0 0 0 "A" "" (MkStore no_tables None false)
    = (Some (1, None), MkStore t' None false) /\
  kine_labels t' = [MkLRow 1 "/registry/pods/default/a" "app" "web"] /\ kine_owners t' = [MkORow 1 "O" (Some true)].
Proof.
  destruct (insert_metadata_refines ltac:(by eexists) "/registry/pods/default/a" true false 0 0 0 "A" "" (toy_meta "A") no_tables)
    as (t' & Hi & _ & Hr); [vm_compute; reflexivity..|].
  exists t'. split; [exact Hi|]. destruct Hr as (_ & Hl & Ho & _). rewrite Hl, Ho. vm_compute. by split.
Defined.

Lemma inserted_object_found_witness : exists s',
  SqlMeta.Insert ("/registry/pods/" +:+ "default/a") true false 0 0 0 "A" "" (MkStore no_tables None false) = (Some (1, None), s') /\
  label_selects (kine_labels (committed s')) ("/registry/pods/" +:+ "%") [MkReq "app" Selectors.In ["db"; "web"]] 1 = true.
Proof.
  eexists. split; [vm_compute; reflexivity|].
  rewrite (inserted_object_found ltac:(by eexists) (fun _ => None) "/registry/pods/" "default/a" true 0 0 0 "A" "" (toy_meta "A") no_tables 1 _
    [MkReq "app" Selectors.In ["db"; "web"]]).
  all: try (vm_compute; reflexivity).
  - discriminate.
  - apply Forall_nil; exact I.
  - discriminate.
  - repeat constructor.
  - apply (bool_decide_unpack _). by vm_compute.
Defined.

Lemma insert_all_or_nothing_witness :
  SqlMeta.Insert "/registry/pods/default/a" false false 0 0 0 "F" "" (MkStore no_tables None false)
    = (Some (0, Some ErrBusy), MkStore no_tables None true) /\ tx (MkStore no_tables None true) = None.
Proof.
  assert (Hi : SqlMeta.Insert "/registry/pods/default/a" false false 0 0 0 "F" "" (MkStore no_tables None false)
    = (Some (0, Some ErrBusy), MkStore no_tables None true)) by (vm_compute; reflexivity).
  split; [exact Hi|]. by destruct (insert_all_or_nothing _ _ _ _ _ _ _ _ _ _ _ _ Hi).
Defined.

Lemma foreground_delete_locks_witness : exists e,
  SqlMeta.Insert "/registry/pods/default/a" false false 0 0 0 "F" ""
    (Nat.iter 2 (fun s => end_context (SqlMeta.Insert "/registry/pods/default/a" false false 0 0 0 "F" "" s).2) (MkStore no_tables None false))
    = (Some (0, Some e), MkStore no_tables None true).
Proof.
  destruct (foreground_delete_locks "/registry/pods/default/a" 0 0 0 "F" "" (toy_meta "F") no_tables) as (e & He & _).
  all: try (vm_compute; reflexivity).
  - discriminate.
  - discriminate.
  - apply Forall_nil; exact I.
  - exists e. exact (He 2%nat).
Defined.
End toy.
