(* ===== verification/SqlTables.v ===== *)
(** * The tables stay well formed (pkg/drivers/generic)

    The invariant of the four tables under everything the dialect does to them:
    insertions with their metadata and the collection of dependents, whatever
    their outcome, the filling of a gap, deletion of a row, compaction, the
    compact revision, and the end of the context of a transaction left open.
    The schema declares part of it (keys and the unique index), but references
    between the tables are declared only and not enforced. *)
From S2P Require Import Prelude Types GoStrings Sql SqlProofs Objects Selectors SqlMeta SqlMetaProofs.
From stdpp Require Import gmap.
Local Open Scope Z_scope.

(** The row that fills a gap. *)
Definition is_gap (r : row) : Prop := r_name r = fill_name (r_id r).

(** The row a metadata row speaks of was written, and has that name if it is
    still there; if it is not, its id may have been filled. *)
Definition refers (t : tables) (id : Z) (name : string) : Prop :=
  0 < id <= Sql.seq (kine t) /\ forall r, r ∈ rows (kine t) -> r_id r = id -> r_name r = name \/ is_gap r.

(** Ids are given once: from [t] to [t'] the sequence does not go back, and a
    row of [t'] with an id given before is a row of [t], as far as its id and
    name go, or fills a gap. *)
Definition ids_once (t t' : tables) : Prop :=
  Sql.seq (kine t) <= Sql.seq (kine t') /\
  forall r, r ∈ rows (kine t') -> r_id r <= Sql.seq (kine t) ->
    (exists r0, r0 ∈ rows (kine t) /\ r_id r0 = r_id r /\ r_name r0 = r_name r) \/ is_gap r.

#[export] Instance ids_once_refl : Reflexive ids_once.
Proof. intros t. split; [done|]. intros r Hr _. left. by exists r. Qed.

#[export] Instance ids_once_trans : Transitive ids_once.
Proof.
  intros t1 t2 t3 [H1 H2] [H3 H4]. split; [lia|]. intros r Hr Hid.
  destruct (H4 r Hr ltac:(lia)) as [(r0 & Hr0 & E1 & E2)|]; [|by right].
  destruct (H2 r0 Hr0 ltac:(lia)) as [(r1 & Hr1 & E3 & E4)|Hg]; [left; exists r1; split; [done|]; split; congruence|].
  right. unfold is_gap in *. congruence.
Qed.

(** The names a live row may not share a previous revision with. *)
Definition name_prevs (l : list row) : list (string * Z) :=
  (fun r => (r_name r, r_prev_revision r)) <$> filter (fun r => r_name r <> compact_rev_key) l.

Record tables_ok (t : tables) : Prop := {
  ok_seq : 0 <= Sql.seq (kine t);
  ok_sorted : StronglySorted id_lt (rows (kine t));
  ok_ids : Forall (fun r => 0 < r_id r <= Sql.seq (kine t)) (rows (kine t));
  ok_unique : NoDup (name_prevs (rows (kine t)));
  ok_labels : Forall (fun l => refers t (l_kine_id l) (l_kine_name l)) (kine_labels t);
  ok_fields : Forall (fun f => refers t (f_kine_id f) (f_kine_name f)) (kine_fields t);
  ok_owners : Forall (fun o => 0 < ow_kine_id o <= Sql.seq (kine t)) (kine_owners t);
  ok_uids : forall id u, uids t !! id = Some u -> 0 < id <= Sql.seq (kine t)
}.

(** ** Rows go away *)
Definition set_kine (k : table) (t : tables) : tables := MkTables k (uids t) (kine_labels t) (kine_fields t) (kine_owners t).

(** A change of the rows that adds none and keeps ids and names. *)
Definition thins (k k' : table) : Prop :=
  Sql.seq k' = Sql.seq k /\ StronglySorted id_lt (rows k') /\ NoDup (name_prevs (rows k')) /\
  forall r, r ∈ rows k' -> exists r0, r0 ∈ rows k /\ r_id r0 = r_id r /\ r_name r0 = r_name r.

Lemma thins_ok k' t : tables_ok t -> thins (kine t) k' -> tables_ok (set_kine k' t) /\ ids_once t (set_kine k' t).
Proof.
  intros [H1 H2 H3 H4 H5 H6 H7 H8] (Hseq & Hs & Hu & Hr).
  split; [|split; [cbn; lia|]; intros r Hin _; left; destruct (Hr r Hin) as (r0 & ? & ? & ?); by exists r0].
  assert (Href : forall id name, refers t id name -> refers (set_kine k' t) id name).
  { intros id name [Hid Hn]. split; [cbn; by rewrite Hseq|]. intros r Hin Hrid. destruct (Hr r Hin) as (r0 & Hr0 & E1 & E2).
    unfold is_gap. rewrite <- E1, <- E2. apply Hn; congruence. }
  split; cbn; rewrite ?Hseq; try done.
  - apply Forall_forall. intros r Hin. destruct (Hr r Hin) as (r0 & Hr0 & <- & _). rewrite Forall_forall in H3. by apply H3.
  - eapply Forall_impl; [exact H5|]. intros l. apply Href.
  - eapply Forall_impl; [exact H6|]. intros f. apply Href.
Qed.

Lemma filter_thins (P : row -> Prop) `{!forall r, Decision (P r)} t : tables_ok t ->
  thins (kine t) (set_rows (filter P (rows (kine t))) (kine t)).
Proof.
  intros Hok. split; [done|]. split; [apply StronglySorted_filter, Hok|]. split.
  - eapply sublist_NoDup; [apply (ok_unique _ Hok)|]. apply fmap_sublist. cbn [rows set_rows].
    rewrite list_filter_filter, (list_filter_iff _ (fun r => P r /\ r_name r <> compact_rev_key)), <- list_filter_filter by (intros; tauto).
    apply sublist_filter.
  - intros r. cbn [rows set_rows]. rewrite list_elem_of_filter. intros [_ Hr]. by exists r.
Qed.

Lemma DeleteRevision_ok rev t : tables_ok t ->
  tables_ok (set_kine (DeleteRevision rev (kine t)) t) /\ ids_once t (set_kine (DeleteRevision rev (kine t)) t).
Proof. intros Hok. by apply thins_ok, filter_thins. Qed.

Lemma Compact_ok rev t : tables_ok t ->
  tables_ok (set_kine (Sql.Compact rev (kine t)).2 t) /\ ids_once t (set_kine (Sql.Compact rev (kine t)).2 t).
Proof. intros Hok. by apply thins_ok, filter_thins. Qed.

Lemma SetCompactRevision_ok rev t : tables_ok t ->
  tables_ok (set_kine (SetCompactRevision rev (kine t)) t) /\ ids_once t (set_kine (SetCompactRevision rev (kine t)) t).
Proof.
  intros Hok. apply thins_ok; [done|]. split; [done|]. unfold SetCompactRevision. 
  set (f := fun r : row => if String.eqb (r_name r) compact_rev_key then MkRow (r_id r) _ _ _ _ _ _ _ _ else r).
  assert (Hf : forall r, r_id (f r) = r_id r /\ r_name (f r) = r_name r) by (intros r; subst f; cbn; by destruct (String.eqb _ _)).
  cbn [rows set_rows]. split; [|split].
  - pose proof (ok_sorted _ Hok) as Hs. induction Hs as [|r l Hs IH Hr]; [constructor|]. rewrite fmap_cons. constructor; [done|].
    apply Forall_fmap. eapply Forall_impl; [exact Hr|]. intros r'. unfold id_lt. cbn. by rewrite !(proj1 (Hf _)).
  - pose proof (ok_unique _ Hok) as Hu. enough (name_prevs (f <$> rows (kine t)) = name_prevs (rows (kine t))) as -> by done.
    unfold name_prevs. clear Hu. induction (rows (kine t)) as [|r l IH]; [done|].
    rewrite fmap_cons, !filter_cons, (proj2 (Hf r)). case_decide as Hn; [|done]. rewrite !fmap_cons. f_equal; [|done].
    subst f. cbn. by rewrite (proj2 (String.eqb_neq _ _) Hn).
  - intros r (r0 & -> & Hr0)%list_elem_of_fmap. exists r0. destruct (Hf r0) as [-> ->]. done.
Qed.

(** ** Rows are added *)
Lemma refers_grow t t' id name : refers t id name ->
  Sql.seq (kine t) <= Sql.seq (kine t') ->
  (forall r, r ∈ rows (kine t') -> r ∈ rows (kine t) \/ Sql.seq (kine t) < r_id r) -> refers t' id name.
Proof.
  intros [Hid Hn] Hseq Hr. split; [lia|]. intros r Hin Hrid. destruct (Hr r Hin) as [?|?]; [by apply Hn|lia].
Qed.

Lemma insert_kine_ok name uid cd dl cr pr ls v old t :
  let t' := (insert_kine name uid cd dl cr pr ls v old t).2 in
  tables_ok t -> tables_ok t' /\ ids_once t t' /\ (forall id k, refers t id k -> refers t' id k).
Proof.
  intros t' Hok. subst t'. unfold insert_kine. destruct (unique_violation name pr (kine t)) eqn:Hu; [split; [done|]; by split|]. cbn [fst snd].
  set (r1 := MkRow _ _ _ _ _ _ _ _ _). set (t' := MkTables _ _ _ _ _).
  assert (Hgrow : forall id k, refers t id k -> refers t' id k).
  { intros id k Hr. eapply refers_grow; [exact Hr|cbn; lia|]. cbn. intros r [?| ->%list_elem_of_singleton]%elem_of_app; [by left|].
    right. cbn. lia. }
  assert (Honce : ids_once t t').
  { split; [cbn; lia|]. cbn. intros r [Hr| ->%list_elem_of_singleton]%elem_of_app; [left; by exists r|]. cbn. lia. }
  split; [|done]. destruct Hok as [H1 H2 H3 H4 H5 H6 H7 H8]. split; cbn.
  - lia.
  - apply StronglySorted_app_2; [|done|by repeat constructor]. intros r r' Hr ->%list_elem_of_singleton.
    rewrite Forall_forall in H3. specialize (H3 r Hr). unfold id_lt. cbn. lia.
  - apply Forall_app. split; [|repeat constructor; cbn; lia]. eapply Forall_impl; [exact H3|]. cbn. intros. lia.
  - unfold name_prevs. rewrite filter_app, fmap_app, filter_cons, filter_nil. apply NoDup_app. split; [done|].
    split; [|case_decide; cbn; repeat constructor; by intros ?%not_elem_of_nil].
    intros x Hx. case_decide as Hn; [|apply not_elem_of_nil]. cbn. intros ->%list_elem_of_singleton.
    apply list_elem_of_fmap in Hx as (r & [= Ha Hb] & [_ Hr]%list_elem_of_filter).
    enough (unique_violation name pr (kine t) = true) by congruence. apply unique_violation_spec. by exists r.
  - eapply Forall_impl; [exact H5|]. intros l. apply Hgrow.
  - eapply Forall_impl; [exact H6|]. intros f. apply Hgrow.
  - eapply Forall_impl; [exact H7|]. cbn. intros. lia.
  - intros id u. destruct (decide (id = Sql.seq (kine t) + 1)) as [->|Hn]; [lia|].
    rewrite lookup_insert_ne by done. intros Hid%H8. lia.
Qed.

(** The statements of one insertion. *)
Definition stmt_of (id : Z) (key : string) (s : stmt) : Prop :=
  match s with
  | InsertLabelSQL i k _ _ | InsertFieldsSQL i k _ => i = id /\ k = key
  | InsertOwnerSQL i _ _ => i = id
  | InsertLastInsertIDSQL _ _ _ _ _ _ => True
  end.

Definition txn_ok (c : tables) (id : Z) (key : string) (t : tables) : Prop := tables_ok t /\ refers t id key /\ ids_once c t.

Lemma exec_stmt_ok c id key s t : stmt_of id key s -> txn_ok c id key t -> txn_ok c id key (exec_stmt s t).2.
Proof.
  intros Hs (Hok & Href & Honce). destruct s as [i k n v|i k json|i o b|k u cr pr v old]; cbn in Hs |- *; destruct_and?; subst.
  - split; [|done]. destruct Hok. split; cbn; try done. apply Forall_app. split; [done|]. apply Forall_singleton. exact Href.
  - split; [|done]. destruct Hok. split; cbn; try done. apply Forall_app. split; [done|]. apply Forall_singleton. exact Href.
  - split; [|done]. destruct Hok. split; cbn; try done. apply Forall_app. split; [done|]. apply Forall_singleton. apply Href.
  - destruct (insert_kine_ok k u false false cr pr 0 v old t Hok) as (H1 & H2 & H3).
    destruct (insert_kine k u false false cr pr 0 v old t) as [[? ?] t']. cbn in *. split; [done|]. split; [by apply H3|]. by trans t.
Qed.

(** [Fill], whose row has no uid. *)
Definition fill_gap (revision : Z) (t : tables) : tables :=
  match Fill revision (kine t) with
  | (None, k) => MkTables k (<[revision := ""]> (uids t)) (kine_labels t) (kine_fields t) (kine_owners t)
  | (Some _, _) => t
  end.

Lemma elem_of_insert_by_id r0 r l : r0 ∈ insert_by_id r l <-> r0 = r \/ r0 ∈ l.
Proof. by rewrite insert_by_id_perm, elem_of_cons. Qed.

Lemma fill_gap_ok rev t : 0 < rev -> tables_ok t -> tables_ok (fill_gap rev t) /\ ids_once t (fill_gap rev t).
Proof.
  intros Hrev Hok. unfold fill_gap, Fill. destruct (existsb _ _ || _) eqn:Hno; [by split|].
  apply orb_false_iff in Hno as [Hid Hu]. set (r1 := MkRow rev (fill_name rev) _ _ _ _ _ _ _).
  assert (Hfree : forall r0, r0 ∈ rows (kine t) -> r_id r0 <> rev).
  { intros r0 Hr0 Heq. enough (existsb (fun r => r_id r =? rev) (rows (kine t)) = true) by congruence.
    apply existsb_exists. exists r0. split; [by apply list_elem_of_In|]. by apply Z.eqb_eq. }
  assert (Hgap : is_gap r1) by done. cbn [fst snd].
  split; [|split; [cbn; lia|]; cbn; intros r [->|Hr]%elem_of_insert_by_id _; [by right|left; by exists r]].
  destruct Hok as [H1 H2 H3 H4 H5 H6 H7 H8].
  assert (Href : forall id name, refers t id name -> refers (MkTables (MkTable (insert_by_id r1 (rows (kine t))) (Z.max (Sql.seq (kine t)) rev))
    (<[rev := ""]> (uids t)) (kine_labels t) (kine_fields t) (kine_owners t)) id name).
  { intros id name [Hb Hn]. split; [cbn; lia|]. cbn. intros r [->|Hr]%elem_of_insert_by_id Hi; [by right|by apply Hn]. }
  split; cbn.
  - lia.
  - apply insert_by_id_sorted; [done|]. intros (r & Hi & Hr)%list_elem_of_fmap. by apply (Hfree r).
  - apply Forall_forall. intros r [->|Hr]%elem_of_insert_by_id; [cbn; lia|]. rewrite Forall_forall in H3. specialize (H3 r Hr). lia.
  - unfold name_prevs. rewrite insert_by_id_perm, filter_cons, decide_True by done. cbn. constructor; [|done].
    intros (r & [= Ha Hb] & [_ Hr]%list_elem_of_filter)%list_elem_of_fmap.
    enough (unique_violation (fill_name rev) 0 (kine t) = true) by congruence. apply unique_violation_spec. by exists r.
  - eapply Forall_impl; [exact H5|]. intros l. apply Href.
  - eapply Forall_impl; [exact H6|]. intros f. apply Href.
  - eapply Forall_impl; [exact H7|]. cbn. intros. lia.
  - intros id u. destruct (decide (id = rev)) as [->|Hn]; [lia|]. rewrite lookup_insert_ne by done. intros Hi%H8. lia.
Qed.

(** ** Everything the dialect does *)
Section steps.
Context `{HU : Unstructured}.

Inductive db_step : store -> store -> Prop :=
  | db_insert key create delete cr pr ttl value prev s r s' :
      SqlMeta.Insert key create delete cr pr ttl value prev s = (Some r, s') -> db_step s s'
  | db_delete rev c : db_step (MkStore c None false) (MkStore (set_kine (DeleteRevision rev (kine c)) c) None false)
  | db_compact rev c : db_step (MkStore c None false) (MkStore (set_kine (Sql.Compact rev (kine c)).2 c) None false)
  | db_set_compact rev c : db_step (MkStore c None false) (MkStore (set_kine (SetCompactRevision rev (kine c)) c) None false)
  | db_fill rev c : 0 < rev -> db_step (MkStore c None false) (MkStore (fill_gap rev c) None false)
  | db_end s : db_step s (end_context s).

Lemma insert_ok key create delete cr pr ttl value prev s r s' :
  tables_ok (committed s) -> tx s = None ->
  SqlMeta.Insert key create delete cr pr ttl value prev s = (Some r, s') ->
  tables_ok (committed s') /\ ids_once (committed s) (committed s') /\ tx s' = None.
Proof.
  destruct s as [c t0 a]. cbn [committed tx]. intros Hok ->. destruct a.
  { destruct (insert_locked key create delete cr pr ttl value prev c) as (r' & -> & _). by intros [= _ <-]. }
  unfold SqlMeta.Insert. destruct (decodeObject key value) as [[m|e]|]; [|by intros [= _ <-]; cbn|done]. cbv zeta.
  set (del := deletes create delete m).
  assert (Hins : forall x, (insert_kine key (m_uid m) create del cr pr ttl value (Some pr) c).1 = x ->
    is_err x.2 = false -> refers (insert_kine key (m_uid m) create del cr pr ttl value (Some pr) c).2 x.1 key).
  { intros x <-. unfold insert_kine. destruct (unique_violation _ _ _); [done|]. intros _. cbn. split; [cbn; pose proof (ok_seq _ Hok); lia|].
    cbn. intros r0 [Hr| ->%list_elem_of_singleton]%elem_of_app; [|by left]. pose proof (ok_ids _ Hok) as Hi. rewrite Forall_forall in Hi.
    specialize (Hi _ Hr). lia. }
  destruct (insert_kine_ok key (m_uid m) create del cr pr ttl value (Some pr) c Hok) as (Hok1 & Honce1 & _).
  destruct (insert_kine _ _ _ _ _ _ _ _ _ c) as [[id1 err1] t1] eqn:E1. specialize (Hins _ eq_refl). cbn [fst snd] in *.
  destruct (negb (String.eqb value "") && _).
  - unfold BeginTx, st_bind at 1. cbn [abandoned tx committed]. rewrite bool_decide_false by (by intros [? ?]). cbn [orb].
    unfold st_bind at 1, tx_execute at 1. cbn [tx committed abandoned]. rewrite E1. destruct err1 as [e|]; cbn [is_err].
    + unfold st_bind, Rollback, st_ret. intros [= _ <-]. by cbn.
    + unfold st_bind at 1.
      destruct (stays_InsertMetadata c false (txn_ok c id1 key) (stmt_of id1 key) id1 key
        (exec_stmt_ok c id1 key) ltac:(done) ltac:(done) ltac:(done) ltac:(done) cr prev m del (MkStore c (Some t1) false)) as [Hst _];
        [split; [done|]; split; [done|]; exists t1; split; [done|]; split; [done|]; split; [by apply Hins|done]|].
      destruct (InsertMetadata _ _ _ _ _ _ _) as [merr s1]. destruct Hst as (H1 & H2 & t & Ht & Hr & _ & Ho). cbn [snd] in *.
      destruct merr as [[e|]|]; unfold st_bind, forget_tx, Commit, st_ret; [| |done]; intros [= _ <-]; cbn; [by rewrite H1|by rewrite Ht].
  - unfold execute, st_bind, st_ret. cbn [abandoned tx committed]. rewrite bool_decide_false by (by intros [? ?]). cbn [orb].
    rewrite E1. intros [= _ <-]. done.
Qed.

Lemma sql_step_ok s s1 : db_step s s1 -> tables_ok (committed s) -> tx s = None ->
  tables_ok (committed s1) /\ ids_once (committed s) (committed s1) /\ tx s1 = None.
Proof using Type.
  intros Hstep Hok Htx. destruct Hstep as [key cd dl cr pr ttl value prev s r s' Hi|rev c|rev c|rev c|rev c Hrev|s]; cbn in *.
  - by eapply insert_ok.
  - destruct (DeleteRevision_ok rev c Hok). done.
  - destruct (Compact_ok rev c Hok). done.
  - destruct (SetCompactRevision_ok rev c Hok). done.
  - destruct (fill_gap_ok rev c Hrev Hok). done.
  - done.
Qed.

(** C17. The tables stay well formed under everything the dialect does to them,
    whatever the objects, the outcomes and the dependents collected: ids are
    positive, increasing and not beyond the sequence; an id is given once (a
    row with an id given before is that row, or fills the gap it left); no two
    rows of a key replace the same revision; every label and field row names
    the row it was written with, if that row is still there; nothing refers to
    an id not yet given; and no transaction stays open unnoticed. *)
Theorem sql_tables_typed s s' : tables_ok (committed s) -> tx s = None -> rtc db_step s s' ->
  tables_ok (committed s') /\ ids_once (committed s) (committed s') /\ tx s' = None.
Proof using Type.
  intros Hok Htx Hs. revert Hok Htx. induction Hs as [s|s s1 s' Hstep _ IH]; intros Hok Htx; [done|].
  destruct (sql_step_ok _ _ Hstep Hok Htx) as (H1 & H2 & H3). destruct (IH H1 H3) as (? & ? & ?).
  split; [done|]. split; [by trans (committed s1)|done].
Qed.
End steps.

Lemma no_tables_ok : tables_ok no_tables.
Proof. split; cbn; try done; try constructor. Qed.

Lemma sql_tables_typed_witness : exists s', rtc (db_step (HU:=toy)) (MkStore no_tables None false) s' /\
  length (rows (kine (committed s'))) = 2%nat /\ kine_labels (committed s') <> [] /\ tables_ok (committed s') /\
  ids_once no_tables (committed s').
Proof.
  assert (Hrun : exists s', rtc (db_step (HU:=toy)) (MkStore no_tables None false) s' /\
    length (rows (kine (committed s'))) = 2%nat /\ kine_labels (committed s') <> []).
  { eexists. split; [|split].
    - eapply rtc_l; [eapply (db_insert "/registry/pods/default/a" true false 0 0 0 "A" ""); vm_compute; reflexivity|].
      eapply rtc_l; [apply (db_compact 0)|]. eapply rtc_l; [by apply (db_fill 3)|]. apply rtc_refl.
    - vm_compute. reflexivity.
    - vm_compute. discriminate. }
  destruct Hrun as (s' & Hs & H1 & H2). exists s'. split; [exact Hs|]. split; [exact H1|]. split; [exact H2|].
  destruct (sql_tables_typed (MkStore no_tables None false) s' no_tables_ok eq_refl Hs) as (H3 & H4 & _). by split.
Defined.
