(* ===== verification/SelectList.v ===== *)
(** * Lists with a label selector (pkg/drivers/generic/generic.go)

    The list and count statements with the clause of a label selector on the
    tables that insertions leave, for requirements that are already parsed.
    Field selectors, whose lookup is a JSON function of the database, are left
    out. *)
From S2P Require Import Prelude Types GoStrings Sql SqlProofs Objects Selectors SqlMeta SqlMetaProofs SqlTables.
From stdpp Require Import gmap.
Local Open Scope Z_scope.

(** ** The statements *)
Definition label_prefix (key : string) : string := if HasSuffix key "%" then key else key +:+ "%".

(** The clause appended to the condition on [deleted]. *)
Definition selected (t : tables) (key : string) (reqs : list requirement) (r : row) : bool :=
  match reqs with [] => true | _ => label_selects (kine_labels t) (label_prefix key) reqs (r_id r) end.

Definition select_rows (t : tables) (c : row -> bool) (includeDeleted : bool) (key : string) (reqs : list requirement) : list row :=
  filter (fun r => group_max (kine t) c r && not_deleted includeDeleted r && selected t key reqs r = true) (rows (kine t)).

Definition ListCurrent (t : tables) (key end_ : string) (limit : Z) (includeDeleted : bool) (reqs : list requirement) : list qrow :=
  if String.eqb end_ "" then GetSingleSQL (kine t) key includeDeleted
  else with_revs (kine t) (LIMIT limit (order_by_name (select_rows t (BetweenName key end_) includeDeleted key reqs))).

Definition List (t : tables) (key end_ : string) (limit revision : Z) (includeDeleted : bool) (reqs : list requirement) : list qrow :=
  let name := if String.eqb end_ "" then EqualsName key else BetweenName key end_ in
  with_revs (kine t) (LIMIT limit (order_by_name (select_rows t (fun r => name r && id_le revision r) includeDeleted key reqs))).

Definition CountCurrent (t : tables) (key end_ : string) (reqs : list requirement) : Z * Z :=
  (Int64 (CurrentRevSQL (kine t)), Z.of_nat (length (select_rows t (BetweenName key end_) false key reqs))).

Definition Count (t : tables) (key end_ : string) (revision : Z) (reqs : list requirement) : Z * Z * Z :=
  (Int64 (CurrentRevSQL (kine t)), Int64 (CompactRevSQL (kine t)),
   Z.of_nat (length (select_rows t (fun r => BetweenName key end_ r && id_le revision r) false key reqs))).

Section lists.
Context `{HU : Unstructured}.
Hypothesis marshals : forall fs, exists json, MarshalToString fs = inl json.

(** The labels of the object a row holds. *)
Definition row_labels (r : row) : gmap string string :=
  if String.eqb (r_value r) "" || r_deleted r then ∅
  else match decodeObject (r_name r) (r_value r) with Some (inl m) => m_labels m | _ => ∅ end.

(** ** What insertions leave *)
Definition labelled (t : tables) : Prop :=
  forall r, r ∈ rows (kine t) -> filter (fun l => l_kine_id l = r_id r) (kine_labels t) = rows_of (r_id r) (r_name r) (row_labels r).

(** Insertions of objects without the label of the collector, whatever their
    outcome, and compaction. *)
Inductive plain_step : tables -> tables -> Prop :=
  | plain_insert key create delete cr pr ttl value prev m c r c' a :
      decodeObject key value = Some (inl m) -> is_skip (m_labels m) = false ->
      SqlMeta.Insert key create delete cr pr ttl value prev (MkStore c None false) = (Some r, MkStore c' None a) -> plain_step c c'
  | plain_delete rev c : plain_step c (set_kine (DeleteRevision rev (kine c)) c)
  | plain_compact rev c : plain_step c (set_kine (Sql.Compact rev (kine c)).2 c).

Lemma plain_db c c' : plain_step c c' -> exists a, db_step (MkStore c None false) (MkStore c' None a).
Proof using Type.
  destruct 1 as [key cd dl cr pr ttl value prev m c r c' a _ _ Hi|rev c|rev c]; [|exists false; constructor..].
  exists a. by eapply db_insert.
Qed.

Lemma filter_labelled (P : row -> Prop) `{!forall r, Decision (P r)} t : labelled t ->
  labelled (set_kine (set_rows (filter P (rows (kine t))) (kine t)) t).
Proof using Type. intros Hl r. cbn. intros [_ Hr]%list_elem_of_filter. by apply Hl. Qed.

Lemma rows_of_empty id key : rows_of id key ∅ = [].
Proof using Type. unfold rows_of. by rewrite map_to_list_empty. Qed.

Lemma plain_labelled c c' : plain_step c c' -> tables_ok c -> labelled c -> tables_ok c' /\ labelled c'.
Proof using marshals.
  intros Hstep Hok Hl. split.
  { destruct (plain_db _ _ Hstep) as [a Hdb]. apply (sql_step_ok _ _ Hdb); done. }
  destruct Hstep as [key cd dl cr pr ttl value prev m c r c' a Hd Hskip Hi|rev c|rev c]; [|by apply filter_labelled..].
  destruct (insert_effect key cd dl cr pr ttl value prev m c Hd Hskip (or_intror (marshals _))) as (t' & Hi' & Hk & Hrest).
  rewrite Hi in Hi'. injection Hi' as -> <- _. unfold insert_row in Hk, Hrest.
  destruct (unique_violation key pr (kine c)); cbn [fst snd is_err] in Hk, Hrest; [by rewrite Hrest|].
  destruct Hrest as (_ & Hlab & _). intros r. rewrite Hk, Hlab. cbn [rows]. intros [Hr| ->%list_elem_of_singleton]%elem_of_app.
  - rewrite filter_app, (Hl r Hr), filter_none; [by rewrite app_nil_r|].
    pose proof (ok_ids _ Hok) as Hids. rewrite Forall_forall in Hids. specialize (Hids r Hr).
    intros l Hin Hid. destruct (String.eqb value "" || dl); [by apply not_elem_of_nil in Hin|].
    apply list_elem_of_fmap in Hin as (pr' & -> & _). cbn in Hid. lia.
  - rewrite filter_app, filter_none; [|intros l Hin Hid; pose proof (ok_labels _ Hok) as Hids; rewrite Forall_forall in Hids;
      destruct (Hids l Hin) as [? _]; cbn in Hid; lia].
    cbn [app r_id r_name]. unfold row_labels. cbn [r_value r_deleted r_name]. rewrite Hd.
    destruct (String.eqb value "" || dl); [by rewrite rows_of_empty|].
    apply filter_all. intros l (pr' & -> & _)%list_elem_of_fmap. done.
Qed.

Lemma labelled_reach c c' : rtc plain_step c c' -> tables_ok c -> labelled c -> tables_ok c' /\ labelled c'.
Proof using marshals.
  induction 1 as [c|c c1 c' Hstep _ IH]; [done|]. intros Hok Hl. destruct (plain_labelled _ _ Hstep Hok Hl). by apply IH.
Qed.

(** ** The clause is the selector *)
Definition matches (parse_int : string -> option Z) (reqs : list requirement) (r : row) : bool :=
  forallb (req_matches parse_int (row_labels r)) reqs.

Lemma selected_matches parse_int t p reqs r : labelled t -> r ∈ rows (kine t) -> HasPrefix (r_name r) p = true -> HasSuffix p "%" = false ->
  Forall simple reqs -> NoDup (rq_key <$> reqs) -> selected t p reqs r = matches parse_int reqs r.
Proof using Type.
  intros Hl Hr Hpre Hsuf Hs Hnd. unfold selected, matches. destruct reqs as [|req reqs]; [done|].
  apply HasPrefix_inv in Hpre. unfold label_prefix. rewrite Hsuf.
  apply (label_select_rows parse_int _ (r_id r) p (drop_str (String.length p) (r_name r))); [|done..].
  by rewrite (Hl r Hr), <- Hpre.
Qed.

Lemma select_rows_matches parse_int t p c b reqs : labelled t -> HasSuffix p "%" = false ->
  (forall r, r ∈ rows (kine t) -> c r = true -> HasPrefix (r_name r) p = true) -> Forall simple reqs -> NoDup (rq_key <$> reqs) ->
  select_rows t c b p reqs = filter (fun r => group_max (kine t) c r && not_deleted b r && matches parse_int reqs r = true) (rows (kine t)).
Proof using Type.
  intros Hl Hsuf Hpre Hs Hnd. unfold select_rows. apply filter_agree. intros r Hr.
  destruct (group_max (kine t) c r) eqn:Hg; [|done]. apply group_max_spec in Hg as [Hc _].
  by rewrite (selected_matches parse_int t p reqs r) by auto.
Qed.

(** C26. On every table that insertions of ordinary objects and compaction can
    leave, a list or a count over a prefix with a label selector of equalities,
    sets and existence tests on different keys shows the rows whose object has
    matching labels, and no others: now and at an old revision, with any
    limit. *)
Theorem selected_list_exact parse_int t p e limit revision b reqs :
  rtc plain_step no_tables t -> HasSuffix p "%" = false -> e <> "" ->
  (forall r, r ∈ rows (kine t) -> BetweenName p e r = true -> HasPrefix (r_name r) p = true) ->
  Forall simple reqs -> NoDup (rq_key <$> reqs) ->
  let shown c b := filter (fun r => group_max (kine t) c r && not_deleted b r && matches parse_int reqs r = true) (rows (kine t)) in
  let upto r := BetweenName p e r && id_le revision r in
  ListCurrent t p e limit b reqs = with_revs (kine t) (LIMIT limit (order_by_name (shown (BetweenName p e) b))) /\
  List t p e limit revision b reqs = with_revs (kine t) (LIMIT limit (order_by_name (shown upto b))) /\
  (CountCurrent t p e reqs).2 = Z.of_nat (length (shown (BetweenName p e) false)) /\
  (Count t p e revision reqs).2 = Z.of_nat (length (shown upto false)).
Proof using marshals.
  intros Hreach Hsuf He Hpre Hs Hnd shown upto.
  destruct (labelled_reach _ _ Hreach no_tables_ok) as [_ Hl]; [by intros r ?%not_elem_of_nil|].
  assert (Hupto : forall r, r ∈ rows (kine t) -> upto r = true -> HasPrefix (r_name r) p = true).
  { intros r Hr [Hb _]%andb_true_iff. by apply Hpre. }
  unfold ListCurrent, List, CountCurrent, Count. rewrite (proj2 (String.eqb_neq e "")) by done. cbn [snd].
  fold upto. by rewrite !(select_rows_matches parse_int) by done.
Qed.

(** What a list shows a watch passes on: on the same tables, the filter of
    events decides about the key and value of a live row as the clause in SQL
    does about the row, when the library matches labels as documented. *)
Theorem list_watch_agree labels_Parse fields_Parse labels_Matches parse_int t p reqs r kv sel m :
  rtc plain_step no_tables t -> HasSuffix p "%" = false -> r ∈ rows (kine t) -> HasPrefix (r_name r) p = true ->
  Forall simple reqs -> NoDup (rq_key <$> reqs) -> reqs <> [] -> sel <> "" ->
  labels_Parse sel = inl (Some reqs) -> (forall l, labels_Matches (Some reqs) l = forallb (req_matches parse_int l) reqs) ->
  r_deleted r = false -> r_value r <> "" -> decodeObject (r_name r) (r_value r) = Some (inl m) ->
  kvKey kv = r_name r -> kvValue kv = r_value r ->
  filterEventBySelectors labels_Parse fields_Parse labels_Matches Decode fields_of (Some kv) sel "" = Some (selected t p reqs r).
Proof using marshals.
  intros Hreach Hsuf Hr Hpre Hs Hnd Hne Hsel Hparse Hmatch Hdel Hv Hd Hk Hkv.
  destruct (labelled_reach _ _ Hreach no_tables_ok) as [_ Hl]; [by intros r' ?%not_elem_of_nil|].
  rewrite (selected_matches parse_int t p reqs r) by done. unfold matches, row_labels.
  rewrite (proj2 (String.eqb_neq _ _) Hv), Hdel, Hd. cbn [orb].
  unfold filterEventBySelectors. rewrite Hk, Hkv, (proj2 (String.eqb_neq _ _) Hv), (proj2 (String.eqb_neq _ _) Hsel). cbn [orb andb].
  unfold decodeObject in Hd. destruct (Decode (GetObjectByKey (r_name r)) (r_value r)) as [obj|e]; [|done].
  destruct (fields_of obj (r_value r)) as [fs|]; [|done]. injection Hd as <-. cbn [m_labels].
  rewrite Hparse. destruct reqs as [|req reqs]; [done|]. rewrite Hmatch. by destruct (forallb _ _).
Qed.
End lists.

(** ** Witnesses *)
Definition toy_store : tables := (SqlMeta.Insert (H:=toy) "/registry/pods/default/a" true false 0 0 0 "A" "" (MkStore no_tables None false)).2.(committed).

Lemma toy_reach : rtc (plain_step (HU:=toy)) no_tables toy_store.
Proof.
  eapply rtc_l; [|apply rtc_refl]. eapply (plain_insert (HU:=toy) "/registry/pods/default/a" true false 0 0 0 "A" "" (toy_meta "A") no_tables (1, None) toy_store false);
    vm_compute; reflexivity.
Qed.

Lemma selected_list_exact_witness :
  (CountCurrent toy_store "/registry/pods/" "/registry/pods0" [MkReq "app" Selectors.In ["web"]]).2 = 1.
Proof.
  destruct (selected_list_exact (HU:=toy) ltac:(by eexists) (fun _ => None) toy_store "/registry/pods/" "/registry/pods0" 0 1 false
    [MkReq "app" Selectors.In ["web"]] toy_reach) as (_ & _ & Hc & _).
  - reflexivity.
  - discriminate.
  - intros r Hr _. vm_compute in Hr. apply list_elem_of_singleton in Hr as ->. reflexivity.
  - repeat constructor.
  - apply (bool_decide_unpack _). by vm_compute.
  - rewrite Hc. vm_compute. reflexivity.
Defined.

Lemma list_watch_agree_witness :
  let r := MkRow 1 "/registry/pods/default/a" true false 0 0 0 "A" "" in let reqs := [MkReq "app" Selectors.In ["db"]] in
  filterEventBySelectors (fun _ => inl (Some reqs)) (fun _ => inl []) (fun _ l => forallb (req_matches (fun _ => None) l) reqs) (Decode (Unstructured:=toy))
    (fields_of (Unstructured:=toy)) (Some (MkKeyValue "/registry/pods/default/a" "A" 0 1 1 0)) "app in (db)" "" = Some (selected toy_store "/registry/pods/" reqs r).
Proof.
  intros r reqs. apply (list_watch_agree (HU:=toy) ltac:(by eexists) (fun _ => inl (Some reqs)) (fun _ => inl []) (fun _ l => forallb (req_matches (fun _ => None) l) reqs)
    (fun _ => None) toy_store "/registry/pods/" reqs r _ "app in (db)" (toy_meta "A") toy_reach).
  all: try reflexivity; try discriminate.
  - vm_compute. apply list_elem_of_singleton. reflexivity.
  - repeat constructor.
  - apply (bool_decide_unpack _). by vm_compute.
Defined.
