(* ===== verification/SqlSetup.v ===== *)
(** * Setting up the SQL databases (drivers/sqlite/sqlite.go, mysql/mysql.go,
    pgsql/pgsql.go)

    The schemas as data, the set-up of each driver as the statements it runs
    against the catalog of the database, and the flag for a separate history.
    What the statements mean for a catalog is SQL.  A [dbms] says what the
    source leaves to the server: whether it accepts IF NOT EXISTS in the
    creation of an index, and the outcome of the statements that change
    neither a table, an index nor a trigger of the catalog. *)
From S2P Require Import Prelude Types GoStrings Objects.
From stdpp Require Import gmap.
Local Open Scope Z_scope.

(** ** Statements and catalogs *)
(** A column: its name, its type, and whether its collation is "C". *)
Inductive col : Type := Col (name type : string) (collateC : bool).

Inductive ddl : Type :=
  | CreateTable (ifNotExists : bool) (name : string) (cols : list col)
  | CreateIndex (ifNotExists unique : bool) (name table : string) (cols : list string)
  | CreateTrigger (ifNotExists : bool) (name table : string)
  | DropTrigger (name : string)
  | AlterAddColumn (table name text : string)
  | Other (text : string).

(** [lookup] is the error of reading the information schema. *)
Record dbms := MkDbms { knows_index_ifne : bool; other : string -> gerr; lookup : gerr }.

Record catalog := MkCatalog {
  cat_tables : gmap string (list string);
  cat_indexes : gmap string (bool * string * list string);
  cat_triggers : gset string
}.
Definition no_catalog : catalog := MkCatalog ∅ ∅ ∅.

Definition col_name (c : col) : string := let '(Col n _ _) := c in n.

(** MySQL: 1050, 1060, 1061, 1064, 1146, 1359; other databases refuse in the same cases. *)
Definition ErrTableExists : err := ErrOther "1050".
Definition ErrDupKeyName : err := ErrOther "1061".
Definition ErrDupColumn : err := ErrOther "1060".
Definition ErrSyntax : err := ErrOther "1064".
Definition ErrNoSuchTable : err := ErrOther "1146".
Definition ErrTriggerExists : err := ErrOther "1359".

Definition exec (d : dbms) (s : ddl) (c : catalog) : gerr * catalog :=
  match s with
  | CreateTable ifne n cols =>
      if bool_decide (is_Some (cat_tables c !! n)) then (if ifne then None else Some ErrTableExists, c)
      else (None, MkCatalog (<[n := col_name <$> cols]> (cat_tables c)) (cat_indexes c) (cat_triggers c))
  | CreateIndex ifne u n t cols =>
      if ifne && negb (knows_index_ifne d) then (Some ErrSyntax, c)
      else if bool_decide (cat_tables c !! t = None) then (Some ErrNoSuchTable, c)
      else if bool_decide (is_Some (cat_indexes c !! n)) then (if ifne then None else Some ErrDupKeyName, c)
      else (None, MkCatalog (cat_tables c) (<[n := (u, t, cols)]> (cat_indexes c)) (cat_triggers c))
  | CreateTrigger ifne n t =>
      if bool_decide (cat_tables c !! t = None) then (Some ErrNoSuchTable, c)
      else if bool_decide (n ∈ cat_triggers c) then (if ifne then None else Some ErrTriggerExists, c)
      else (None, MkCatalog (cat_tables c) (cat_indexes c) ({[n]} ∪ cat_triggers c))
  | DropTrigger n => (None, MkCatalog (cat_tables c) (cat_indexes c) (cat_triggers c ∖ {[n]}))
  | AlterAddColumn t n text =>
      match cat_tables c !! t with
      | None => (Some ErrNoSuchTable, c)
      | Some cols =>
          if bool_decide (n ∈ cols) then (Some ErrDupColumn, c)
          else match other d text with
               | Some e => (Some e, c)
               | None => (None, MkCatalog (<[t := cols ++ [n]]> (cat_tables c)) (cat_indexes c) (cat_triggers c))
               end
      end
  | Other text => (other d text, c)
  end.

(** The loops over statements; [ignore] are the errors that do not end them. *)
Fixpoint exec_all (d : dbms) (ignore : err -> bool) (l : list ddl) (c : catalog) : gerr * catalog :=
  match l with
  | [] => (None, c)
  | s :: l =>
      let (e, c) := exec d s c in
      match e with
      | Some e => if ignore e then exec_all d ignore l c else (Some e, c)
      | None => exec_all d ignore l c
      end
  end.
Definition no_error (e : err) : bool := false.

Definition then_ (r : gerr * catalog) (k : catalog -> gerr * catalog) : gerr * catalog :=
  match r with (Some e, c) => (Some e, c) | (None, c) => k c end.

(** [KINE_SCHEMA_MIGRATION]: how many migrations run.  The error of the parser
    is dropped, and its result cut to an [int]. *)
Definition schemaVersion (env : string) : Z :=
  wrap64 (match ParseUint env with ParseOk n => n | ParseRange => maxUint64 | ParseSyntax => 0 end).
Definition migrations (env : string) (l : list ddl) : list ddl := take (Z.to_nat (schemaVersion env)) l.

Definition trigger : string := "kine_archive_delete".

(** ** SQLite *)
Module Sqlite.
Definition schema : list ddl := [
  CreateTable true "kine"
    [Col "id" "INTEGER PRIMARY KEY AUTOINCREMENT" false; Col "name" "TEXT" false; Col "uid" "INTEGER" false; Col "created" "INTEGER" false; Col "deleted" "INTEGER" false; Col "create_revision" "INTEGER" false; Col "prev_revision" "INTEGER" false; Col "lease" "INTEGER" false; Col "value" "BLOB" false; Col "old_value" "BLOB" false];
  CreateIndex true false "kine_name_index" "kine" ["name"];
  CreateIndex true false "kine_uid_index" "kine" ["uid"];
  CreateIndex true false "kine_name_id_index" "kine" ["name"; "id"];
  CreateIndex true false "kine_id_deleted_index" "kine" ["id"; "deleted"];
  CreateIndex true false "kine_prev_revision_index" "kine" ["prev_revision"];
  CreateIndex true true "kine_name_prev_revision_uindex" "kine" ["name"; "prev_revision"];
  CreateIndex true false "kine_id_compact_rev_key_with_prev_revision_index" "kine" ["id"; "name"; "prev_revision"];
  CreateTable true "kine_labels"
    [Col "kine_id" "INTEGER" false; Col "kine_name" "INTEGER" false; Col "name" "TEXT" false; Col "value" "TEXT" false];
  CreateIndex true false "kine_labels_name_index" "kine_labels" ["kine_name"; "name"; "value"];
  CreateTable true "kine_fields"
    [Col "kine_id" "INTEGER" false; Col "kine_name" "INTEGER" false; Col "value" "JSON" false];
  CreateIndex true false "kine_fields_name_index" "kine_fields" ["kine_name"];
  CreateTable true "kine_owners"
    [Col "kine_id" "INTEGER" false; Col "owner" "INTEGER" false; Col "block_owner_deletion" "INTEGER DEFAULT 0" false];
  CreateIndex true false "kine_owners_owner_index" "kine_owners" ["owner"]
].
Definition historySchema : list ddl := [
  CreateTable true "kine_history"
    [Col "id" "INTEGER PRIMARY KEY" false; Col "name" "TEXT" false; Col "uid" "INTEGER" false; Col "created" "INTEGER" false; Col "deleted" "INTEGER" false; Col "create_revision" "INTEGER" false; Col "prev_revision" "INTEGER" false; Col "lease" "INTEGER" false; Col "value" "BLOB" false; Col "old_value" "BLOB" false];
  CreateTrigger true trigger "kine"
].

Definition setupHistory (d : dbms) (c : catalog) : gerr * catalog := exec_all d no_error historySchema c.
Definition disableHistory (d : dbms) (c : catalog) : gerr * catalog := exec d (DropTrigger trigger) c.

(** A failure of VACUUM is not an error. *)
Definition setup (d : dbms) (noCheckpointing noAutoCheckpoint noStartupVacuum separateHistory : bool) (c : catalog) : gerr * catalog :=
  let schema := schema ++ (if noCheckpointing then [] else [Other "PRAGMA wal_checkpoint(TRUNCATE)"])
                  ++ (if noAutoCheckpoint then [Other "PRAGMA wal_autocheckpoint = 0"] else []) in
  then_ (exec_all d no_error schema c) (fun c =>
  then_ (if separateHistory then setupHistory d c else disableHistory d c) (fun c =>
  (None, if noStartupVacuum then c else (exec d (Other "VACUUM") c).2))).
End Sqlite.

(** ** MySQL *)
Module Mysql.
Definition schema : list ddl := [
  CreateTable true "kine"
    [Col "id" "BIGINT UNSIGNED AUTO_INCREMENT" false; Col "name" "VARCHAR(630) CHARACTER SET ascii" false; Col "uid" "VARCHAR(36) CHARACTER SET ascii" false; Col "created" "INTEGER" false; Col "deleted" "INTEGER" false; Col "create_revision" "BIGINT UNSIGNED" false; Col "prev_revision" "BIGINT UNSIGNED" false; Col "lease" "INTEGER" false; Col "value" "MEDIUMBLOB" false; Col "old_value" "MEDIUMBLOB" false];
  CreateIndex false false "kine_name_index" "kine" ["name"];
  CreateIndex false false "kine_uid_index" "kine" ["uid"];
  CreateIndex false false "kine_name_id_index" "kine" ["name"; "id"];
  CreateIndex false false "kine_id_deleted_index" "kine" ["id"; "deleted"];
  CreateIndex false false "kine_prev_revision_index" "kine" ["prev_revision"];
  CreateIndex false true "kine_name_prev_revision_uindex" "kine" ["name"; "prev_revision"];
  CreateTable true "kine_labels"
    [Col "kine_id" "BIGINT UNSIGNED" false; Col "kine_name" "VARCHAR(253) CHARACTER SET ascii" false; Col "name" "VARCHAR(63)" false; Col "value" "VARCHAR(63)" false];
  CreateIndex false false "kine_labels_name_index" "kine_labels" ["kine_name"; "name"; "value"];
  CreateTable true "kine_fields"
    [Col "kine_id" "BIGINT UNSIGNED NOT NULL" false; Col "kine_name" "VARCHAR(253) CHARACTER SET ascii" false; Col "kind_group_version" "VARCHAR(256)" false; Col "value" "JSON NOT NULL" false; Col "value_text" "TEXT GENERATED ALWAYS AS (CAST(value AS CHAR(65535))) STORED" false];
  CreateTable true "kine_owners"
    [Col "kine_id" "BIGINT UNSIGNED" false; Col "owner" "VARCHAR(36)" false; Col "block_owner_deletion" "INTEGER DEFAULT 0" false];
  CreateIndex true false "kine_owners_owner_index" "kine_owners" ["owner"]
].

Definition schemaMigrations : list ddl := [
  Other "ALTER TABLE kine MODIFY COLUMN id BIGINT UNSIGNED AUTO_INCREMENT, MODIFY COLUMN create_revision BIGINT UNSIGNED, MODIFY COLUMN prev_revision BIGINT UNSIGNED";
  AlterAddColumn "kine_fields" "value_text" "ALTER TABLE kine_fields MODIFY COLUMN kine_id, MODIFY COLUMN value, DROP FOREIGN KEY kine_fields_ibfk_1, ADD CONSTRAINT fk_kine_fields_kine, ADD FULLTEXT INDEX, CONVERT TO CHARACTER SET utf8mb4"
].
Definition historySchema : list ddl := [
  CreateTable true "kine_history"
    [Col "id" "BIGINT UNSIGNED" false; Col "name" "VARCHAR(630) CHARACTER SET ascii" false; Col "uid" "VARCHAR(36) CHARACTER SET ascii" false; Col "created" "INTEGER" false; Col "deleted" "INTEGER" false; Col "create_revision" "BIGINT UNSIGNED" false; Col "prev_revision" "BIGINT UNSIGNED" false; Col "lease" "INTEGER" false; Col "value" "MEDIUMBLOB" false; Col "old_value" "MEDIUMBLOB" false]
].

(** Error 1061 is passed over. *)
Definition ignore (e : err) : bool := match e with ErrOther n => String.eqb n "1061" | _ => false end.


Definition setupHistory (d : dbms) (c : catalog) : gerr * catalog :=
  then_ (exec_all d no_error historySchema c) (fun c =>
  match lookup d with Some e => (Some e, c) | None =>
  if bool_decide (trigger ∈ cat_triggers c) then (None, c)
  else exec d (CreateTrigger false trigger "kine") c
  end).
Definition disableHistory (d : dbms) (c : catalog) : gerr * catalog := exec d (DropTrigger trigger) c.

Definition setup (d : dbms) (env : string) (separateHistory : bool) (c : catalog) : gerr * catalog :=
  let exists_ := match lookup d with Some _ => false | None => bool_decide (is_Some (cat_tables c !! "kine")) end in
  then_ (if exists_ then (None, c) else exec_all d ignore schema c) (fun c =>
  then_ (exec_all d ignore (migrations env schemaMigrations) c) (fun c =>
  if separateHistory then setupHistory d c else disableHistory d c)).
End Mysql.

(** ** PostgreSQL *)
Module Pgsql.
Definition schema : list ddl := [
  CreateTable true "kine"
    [Col "id" "BIGSERIAL PRIMARY KEY" false; Col "name" "text" true; Col "uid" "VARCHAR(36)" false; Col "created" "INTEGER" false; Col "deleted" "INTEGER" false; Col "create_revision" "BIGINT" false; Col "prev_revision" "BIGINT" false; Col "lease" "INTEGER" false; Col "value" "bytea" false; Col "old_value" "bytea" false];
  CreateIndex true false "kine_name_index" "kine" ["name"];
  CreateIndex true false "kine_uid_index" "kine" ["uid"];
  CreateIndex true false "kine_name_id_index" "kine" ["name"; "id"];
  CreateIndex true false "kine_id_deleted_index" "kine" ["id"; "deleted"];
  CreateIndex true false "kine_prev_revision_index" "kine" ["prev_revision"];
  CreateIndex true true "kine_name_prev_revision_uindex" "kine" ["name"; "prev_revision"];
  CreateIndex true false "kine_list_query_index" "kine" ["name"; "id"; "deleted"];
  CreateTable true "kine_labels"
    [Col "kine_id" "BIGINT" false; Col "kine_name" "VARCHAR(253)" false; Col "name" "VARCHAR(63)" false; Col "value" "VARCHAR(63)" false];
  CreateIndex true false "kine_labels_name_index" "kine_labels" ["kine_name"; "name"; "value"];
  CreateTable true "kine_fields"
    [Col "kine_id" "BIGINT NOT NULL" false; Col "kine_name" "VARCHAR(253)" false; Col "kind_group_version" "VARCHAR(256)" false; Col "value" "JSONB NOT NULL" false];
  CreateIndex true false "kine_fields_name_index" "kine_fields" ["kine_name"];
  Other "CREATE EXTENSION IF NOT EXISTS pg_trgm";
  CreateIndex true false "idx_kine_fields_value_trgm" "kine_fields" ["value"];
  CreateTable true "kine_owners"
    [Col "kine_id" "BIGINT" false; Col "owner" "VARCHAR(36)" false; Col "block_owner_deletion" "INTEGER DEFAULT 0" false];
  CreateIndex true false "kine_owners_owner_index" "kine_owners" ["owner"]
].

Definition schemaMigrations : list ddl := [
  Other "ALTER TABLE kine ALTER COLUMN id SET DATA TYPE BIGINT, ALTER COLUMN create_revision SET DATA TYPE BIGINT, ALTER COLUMN prev_revision SET DATA TYPE BIGINT; ALTER SEQUENCE kine_id_seq AS BIGINT";
  Other "ALTER TABLE kine ALTER COLUMN name SET DATA TYPE TEXT COLLATE C USING name::TEXT COLLATE C";
  Other "UPDATE kine_fields SET kine_id = 0 WHERE kine_id IS NULL";
  Other "UPDATE kine_fields SET value = '{}'::jsonb WHERE value IS NULL";
  Other "ALTER TABLE kine_fields ALTER COLUMN kine_id SET NOT NULL, ALTER COLUMN value SET NOT NULL";
  Other "ALTER TABLE kine_fields DROP CONSTRAINT IF EXISTS kine_fields_kine_id_fkey";
  Other "ALTER TABLE kine_fields DROP CONSTRAINT IF EXISTS fk_kine_fields_kine";
  Other "ALTER TABLE kine_fields ADD CONSTRAINT fk_kine_fields_kine FOREIGN KEY (kine_id) REFERENCES kine(id) ON DELETE CASCADE";
  Other "DROP INDEX IF EXISTS kine_fields_value_index";
  Other "CREATE EXTENSION IF NOT EXISTS pg_trgm";
  CreateIndex true false "idx_kine_fields_value_trgm" "kine_fields" ["value"]
].
Definition historySchema : list ddl := [
  CreateTable true "kine_history"
    [Col "id" "BIGINT PRIMARY KEY" false; Col "name" "text" true; Col "uid" "VARCHAR(36)" false; Col "created" "INTEGER" false; Col "deleted" "INTEGER" false; Col "create_revision" "BIGINT" false; Col "prev_revision" "BIGINT" false; Col "lease" "INTEGER" false; Col "value" "bytea" false; Col "old_value" "bytea" false];
  Other "CREATE OR REPLACE FUNCTION kine_archive_delete() RETURNS TRIGGER";
  DropTrigger trigger;
  CreateTrigger false trigger "kine"
].

(** A server that calls itself CockroachDB gets the statements without the
    collation. *)
Definition collationSupported (version : string + err) : bool :=
  match version with inl v => negb (Contains (ToLower v) "cockroachdb") | inr _ => true end.
Definition plain (collation : bool) (s : ddl) : ddl :=
  match s with
  | CreateTable ifne n cols => CreateTable ifne n ((fun '(Col n t c) => Col n t (c && collation)) <$> cols)
  | Other text => Other (if collation then text else ReplaceAll text " COLLATE C" "")
  | _ => s
  end.

Definition setupHistory (d : dbms) (collation : bool) (c : catalog) : gerr * catalog :=
  exec_all d no_error (plain collation <$> historySchema) c.
Definition disableHistory (d : dbms) (c : catalog) : gerr * catalog :=
  exec_all d no_error [DropTrigger trigger; Other "DROP FUNCTION IF EXISTS kine_archive_delete()"] c.

Definition setup (d : dbms) (version : string + err) (env : string) (separateHistory : bool) (c : catalog) : gerr * catalog :=
  let collation := collationSupported version in
  then_ (exec_all d no_error (plain collation <$> schema) c) (fun c =>
  then_ (exec_all d no_error (plain collation <$> migrations env schemaMigrations) c) (fun c =>
  if separateHistory then setupHistory d collation c else disableHistory d c)).
End Pgsql.
