(* ===== verification/SqlSetupProofs.v ===== *)
(** * Start-up of the SQL drivers is complete and repeatable

    What a set-up of [SqlSetup] leaves in the catalog: every table and index
    of the driver's schema, the trigger exactly if a separate history is
    asked for, and nothing to do for a second start; and where the set-up of
    the MySQL driver stops short of that. *)
From stdpp Require Import gmap.
From S2P Require Import Prelude Types GoStrings SqlSetup.
Local Open Scope Z_scope.

(** ** What a set-up leaves *)
Definition names (cols : list col) : list string := col_name <$> cols.

(** The effect of a statement is there. *)
Definition satisfied (c : catalog) (s : ddl) : Prop :=
  match s with
  | CreateTable _ n cols => exists cs, cat_tables c !! n = Some cs /\ names cols ⊆ cs
  | CreateIndex _ u n t cols => cat_indexes c !! n = Some (u, t, cols)
  | CreateTrigger _ n _ => n ∈ cat_triggers c
  | _ => True
  end.

(** What exists under the name a statement creates is what it would create. *)
Definition compatible (c : catalog) (s : ddl) : Prop :=
  match s with
  | CreateTable _ n cols => forall cs, cat_tables c !! n = Some cs -> names cols ⊆ cs
  | CreateIndex _ u n t cols => forall i, cat_indexes c !! n = Some i -> i = (u, t, cols)
  | _ => True
  end.

Definition creates (s : ddl) : option (Z * string) :=
  match s with
  | CreateTable _ n _ => Some (1, n)
  | CreateIndex _ _ n _ _ => Some (2, n)
  | CreateTrigger _ n _ => Some (3, n)
  | _ => None
  end.

(** A list of statements that creates each table before what is on it, each
    name once, and goes on where a name exists already. *)
Fixpoint in_order (ignore : err -> bool) (known : list string) (l : list ddl) : bool :=
  match l with
  | [] => true
  | CreateTable ifne n _ :: l => (ifne || ignore ErrTableExists) && in_order ignore (n :: known) l
  | CreateIndex ifne _ _ t _ :: l => (ifne || ignore ErrDupKeyName) && bool_decide (t ∈ known) && in_order ignore known l
  | CreateTrigger ifne _ t :: l => (ifne || ignore ErrTriggerExists) && bool_decide (t ∈ known) && in_order ignore known l
  | Other _ :: l => in_order ignore known l
  | _ => false
  end.

Definition grows (c c' : catalog) : Prop :=
  cat_tables c ⊆ cat_tables c' /\ cat_indexes c ⊆ cat_indexes c' /\ cat_triggers c ⊆ cat_triggers c'.

#[export] Instance grows_preorder : PreOrder grows.
Proof.
  split; [by intros c|].
  intros c1 c2 c3 (?&?&?) (?&?&?). repeat split; etrans; eauto.
Qed.

Lemma satisfied_grows (c c' : catalog) (s : ddl) : grows c c' -> satisfied c s -> satisfied c' s.
Proof.
  intros (Ht&Hi&Hg) H. destruct s; cbn in *; try done; [|by eapply lookup_weaken|set_solver].
  destruct H as (cs&Hcs&?). exists cs. split; [by eapply lookup_weaken|done].
Qed.

(** ** Running a list of statements *)
Section run.
Context (d : dbms) (ignore : err -> bool).
Context (knows : knows_index_ifne d = true) (others_run : forall text, other d text = None).

(** One statement, as the loops see it: it passes. *)
Definition passes (s : ddl) (c c' : catalog) : Prop :=
  exists e, exec d s c = (e, c') /\ match e with Some e => ignore e = true | None => True end.

Lemma exec_all_passes (s : ddl) (l : list ddl) (c c' : catalog) :
  passes s c c' -> exec_all d ignore (s :: l) c = exec_all d ignore l c'.
Proof. intros (e&He&Hi). cbn. rewrite He. destruct e; [by rewrite Hi|done]. Qed.

Lemma passes_in_order (known : list string) (s : ddl) (l : list ddl) (c : catalog) :
  in_order ignore known (s :: l) = true -> (forall t, t ∈ known -> is_Some (cat_tables c !! t)) ->
  compatible c s ->
  exists c', passes s c c' /\ grows c c' /\ satisfied c' s /\
             (forall x, creates x <> creates s -> compatible c x -> compatible c' x).
Proof using knows others_run.
  intros Ho Hk Hc. destruct s as [ifne n cols|ifne u n t cols|ifne n t| | |text]; cbn in Ho, Hc |- *; try done.
  - apply andb_prop in Ho as (Hi&_). destruct (cat_tables c !! n) as [cs|] eqn:E.
    + exists c. split; [|split; [done|split; [eauto|done]]].
      exists (if ifne then None else Some ErrTableExists). cbn. rewrite E, bool_decide_eq_true_2 by done.
      split; [done|]. by destruct ifne.
    + exists (MkCatalog (<[n := names cols]> (cat_tables c)) (cat_indexes c) (cat_triggers c)). split.
      { exists None. cbn. by rewrite E, bool_decide_eq_false_2 by (intros [? ?]; done). }
      split; [repeat split; cbn; try done; by apply insert_subseteq|].
      split; [exists (names cols); cbn; by rewrite lookup_insert_eq|].
      intros x Hx. destruct x; cbn in Hx |- *; try done. intros H cs. rewrite lookup_insert_ne by (intros ->; by apply Hx). apply H.
  - apply andb_prop in Ho as ((Hi&Ht)%andb_prop&_). apply bool_decide_eq_true_1, Hk in Ht as [ts Ht].
    destruct (cat_indexes c !! n) as [i|] eqn:E.
    + exists c. split; [|split; [done|split; [cbn; rewrite E; f_equal; by apply Hc|done]]].
      exists (if ifne then None else Some ErrDupKeyName). cbn.
      rewrite knows, andb_false_r, E, (bool_decide_eq_false_2 (_ = None)), bool_decide_eq_true_2 by (by rewrite ?Ht).
      split; [done|]. by destruct ifne.
    + exists (MkCatalog (cat_tables c) (<[n := (u, t, cols)]> (cat_indexes c)) (cat_triggers c)). split.
      { exists None. cbn. by rewrite knows, andb_false_r, E, !bool_decide_eq_false_2 by (by rewrite ?Ht || intros [? ?]). }
      split; [repeat split; cbn; try done; by apply insert_subseteq|].
      split; [cbn; by rewrite lookup_insert_eq|].
      intros x Hx. destruct x; cbn in Hx |- *; try done. intros H i. rewrite lookup_insert_ne by (intros ->; by apply Hx). apply H.
  - apply andb_prop in Ho as ((Hi&Ht)%andb_prop&_). apply bool_decide_eq_true_1, Hk in Ht as [ts Ht].
    destruct (decide (n ∈ cat_triggers c)) as [E|E].
    + exists c. split; [|done].
      exists (if ifne then None else Some ErrTriggerExists). cbn.
      rewrite (bool_decide_eq_false_2 (_ = None)), bool_decide_eq_true_2 by (by rewrite ?Ht).
      split; [done|]. by destruct ifne.
    + exists (MkCatalog (cat_tables c) (cat_indexes c) ({[n]} ∪ cat_triggers c)). split.
      { exists None. cbn. by rewrite !bool_decide_eq_false_2 by (by rewrite ?Ht). }
      split; [repeat split; cbn; set_solver|]. split; [set_solver|]. by destruct x.
  - exists c. split; [|done]. exists None. cbn. by rewrite others_run.
Qed.

(** The names a list finds in place as it goes. *)
Lemma exec_all_in_order (l : list ddl) (known : list string) (c : catalog) :
  in_order ignore known l = true -> (forall t, t ∈ known -> is_Some (cat_tables c !! t)) ->
  NoDup (creates <$> filter (fun s => is_Some (creates s)) l) -> Forall (compatible c) l ->
  exists c', exec_all d ignore l c = (None, c') /\ grows c c' /\ Forall (satisfied c') l /\
             (forall x, creates x ∉ (creates <$> l) -> compatible c x -> compatible c' x).
Proof using knows others_run.
  revert known c. induction l as [|s l IH]; intros known c Ho Hk Hn Hc; [by exists c|].
  apply Forall_cons in Hc as [Hs Hl].
  destruct (passes_in_order _ _ _ _ Ho Hk Hs) as (c1&Hp&Hg&Hsat&Hcomp).
  assert (Hl1 : Forall (compatible c1) l).
  { apply Forall_forall. intros x Hx. destruct (creates x) as [k|] eqn:Ex; [|by destruct x].
    apply Hcomp; [|by eapply Forall_forall in Hl].
    intros He. rewrite filter_cons_True in Hn by (rewrite <- He, Ex; eauto). cbn in Hn. apply NoDup_cons in Hn as [Hn _].
    apply Hn. rewrite <- He. apply list_elem_of_fmap_2, list_elem_of_filter. rewrite Ex. eauto. }
  assert (Hn1 : NoDup (creates <$> filter (fun s => is_Some (creates s)) l)).
  { destruct (creates s) eqn:Es.
    - rewrite filter_cons_True in Hn by (rewrite Es; eauto). by apply NoDup_cons in Hn as [_ ?].
    - by rewrite filter_cons_False in Hn by (rewrite Es; by intros [? ?]). }
  assert (exists known', in_order ignore known' l = true /\ forall t, t ∈ known' -> is_Some (cat_tables c1 !! t))
    as (known'&Ho'&Hk').
  { assert (Hk1 : forall t, t ∈ known -> is_Some (cat_tables c1 !! t)).
    { intros t (cs&Ht)%Hk. exists cs. eapply lookup_weaken; [done|apply Hg]. }
    destruct s as [? n ?| | | | |]; cbn in Ho; try done; try by (repeat (apply andb_prop in Ho as [? Ho]); eauto).
    apply andb_prop in Ho as [_ Ho]. exists (n :: known). split; [done|].
    intros t [->|?]%elem_of_cons; [|by auto]. destruct Hsat as (cs&?&_). eauto. }
  destruct (IH known' c1 Ho' Hk' Hn1 Hl1) as (c'&He&Hg'&Hf&Hx).
  exists c'. rewrite (exec_all_passes _ _ _ _ Hp). split; [done|]. split; [by etrans|].
  split; [constructor; [by eapply satisfied_grows|done]|].
  intros x [? ?]%not_elem_of_cons ?. by apply Hx, Hcomp.
Qed.

(** What is there already is left as it is. *)
Lemma exec_all_again (l : list ddl) (known : list string) (c : catalog) :
  in_order ignore known l = true -> (forall t, t ∈ known -> is_Some (cat_tables c !! t)) ->
  Forall (satisfied c) l -> exec_all d ignore l c = (None, c).
Proof using knows others_run.
  revert known. induction l as [|s l IH]; intros known Ho Hk Hs; [done|]. apply Forall_cons in Hs as [Hs Hl].
  assert (passes s c c) as Hp.
  { destruct s as [ifne n cols|ifne u n t cols|ifne n t| | |text]; cbn in Ho, Hs |- *; try done.
    - destruct Hs as (cs&E&_). exists (if ifne then None else Some ErrTableExists). cbn.
      rewrite E, bool_decide_eq_true_2 by done. split; [done|]. by destruct ifne; apply andb_prop in Ho as [? _].
    - apply andb_prop in Ho as ((Hi&Ht)%andb_prop&_). apply bool_decide_eq_true_1, Hk in Ht as [ts Ht].
      exists (if ifne then None else Some ErrDupKeyName). cbn.
      rewrite knows, andb_false_r, Hs, (bool_decide_eq_false_2 (_ = None)), bool_decide_eq_true_2 by (by rewrite ?Ht).
      split; [done|]. by destruct ifne.
    - apply andb_prop in Ho as ((Hi&Ht)%andb_prop&_). apply bool_decide_eq_true_1, Hk in Ht as [ts Ht].
      exists (if ifne then None else Some ErrTriggerExists). cbn.
      rewrite (bool_decide_eq_false_2 (_ = None)), bool_decide_eq_true_2 by (by rewrite ?Ht).
      split; [done|]. by destruct ifne.
    - exists None. cbn. by rewrite others_run. }
  rewrite (exec_all_passes _ _ _ _ Hp).
  destruct s as [? n ?| | | | |]; cbn in Ho; try done; try by (repeat (apply andb_prop in Ho as [? Ho]); eauto).
  apply andb_prop in Ho as [_ Ho]. apply (IH (n :: known)); [done| |done].
  intros t [->|?]%elem_of_cons; [|by auto]. destruct Hs as (cs&?&_). eauto.
Qed.
End run.

Definition drop_trigger (c : catalog) : catalog :=
  MkCatalog (cat_tables c) (cat_indexes c) (cat_triggers c ∖ {[trigger]}).
Definition add_trigger (c : catalog) : catalog :=
  MkCatalog (cat_tables c) (cat_indexes c) ({[trigger]} ∪ cat_triggers c).

Definition triggerless (l : list ddl) : bool :=
  forallb (fun s => match s with CreateTrigger _ _ _ => false | _ => true end) l.

Lemma satisfied_drop (c : catalog) (l : list ddl) :
  triggerless l = true -> Forall (satisfied c) l -> Forall (satisfied (drop_trigger c)) l.
Proof.
  intros H%Is_true_true%forallb_True. rewrite !Forall_forall. rewrite Forall_forall in H.
  intros Hs s Hin. specialize (Hs s Hin). specialize (H s Hin). by destruct s.
Qed.

Lemma drop_trigger_absent (c : catalog) : trigger ∉ cat_triggers c -> drop_trigger c = c.
Proof. intros H. destruct c. unfold drop_trigger. cbn in *. f_equal. set_solver. Qed.
Lemma drop_add_trigger (c : catalog) : trigger ∈ cat_triggers c -> add_trigger (drop_trigger c) = c.
Proof.
  intros H. destruct c as [t i g]. unfold drop_trigger, add_trigger. cbn in *. f_equal.
  apply set_eq. intros x. destruct (decide (x = trigger)); set_solver.
Qed.

Lemma exec_all_app (d : dbms) (ignore : err -> bool) (l1 l2 : list ddl) (c : catalog) :
  exec_all d ignore (l1 ++ l2) c = then_ (exec_all d ignore l1 c) (exec_all d ignore l2).
Proof.
  revert c. induction l1 as [|s l1 IH]; intros c; cbn; [done|].
  destruct (exec d s c) as [[e|] c1]; [|apply IH]. destruct (ignore e); [apply IH|done].
Qed.

(** The flags only add statements the catalog knows nothing of. *)
Lemma Forall_others (P : ddl -> Prop) (l : list ddl) (b1 b2 : bool) (t1 t2 : string) :
  (forall t, P (Other t)) ->
  Forall P (l ++ (if b1 then [] else [Other t1]) ++ (if b2 then [Other t2] else [])) <-> Forall P l.
Proof.
  intros H. rewrite !Forall_app. split; [tauto|]. intros Hl. repeat split; [done| |].
  - destruct b1; by repeat constructor.
  - destruct b2; by repeat constructor.
Qed.


Section drivers.
Context (d : dbms) (knows : knows_index_ifne d = true) (others_run : forall text, other d text = None).

(** What the three set-ups of a history have in common: they create
    [hist] with the trigger where the table [kine] is there, and nothing the
    second time. *)
Definition archives (hist : list ddl) (h : catalog -> gerr * catalog) : Prop :=
  (forall c, is_Some (cat_tables c !! "kine") -> Forall (compatible c) hist ->
     exists c', h c = (None, c') /\ Forall (satisfied c') hist /\ trigger ∈ cat_triggers c' /\
                grows (drop_trigger c) c') /\
  (forall c, is_Some (cat_tables c !! "kine") -> Forall (satisfied c) hist -> trigger ∈ cat_triggers c -> h c = (None, c)).

Lemma satisfied_compatible (c : catalog) (s : ddl) : satisfied c s -> compatible c s.
Proof. destruct s; cbn; try done; [intros (?&->&?) ? [= <-]; done|by intros -> ? [= <-]]. Qed.

Lemma start_complete (ignore : err -> bool) (l hist : list ddl) (post h start : catalog -> gerr * catalog) (sep : bool) (c : catalog) :
  (forall c, start c = then_ (exec_all d ignore l c) (fun c => then_ (post c) (fun c => if sep then h c else (None, drop_trigger c)))) ->
  (forall c, Forall (satisfied c) l -> post c = (None, c)) ->
  in_order ignore [] l = true -> triggerless l = true ->
  NoDup (creates <$> filter (fun s => is_Some (creates s)) l) ->
  Forall (fun s => creates s = None \/ creates s ∉ (creates <$> l)) hist ->
  (exists b cols, CreateTable b "kine" cols ∈ l) -> archives hist h ->
  Forall (compatible c) l -> Forall (compatible c) hist ->
  exists c', start c = (None, c') /\ start c' = (None, c') /\ Forall (satisfied c') (l ++ if sep then hist else []) /\
             (trigger ∈ cat_triggers c' <-> sep = true).
Proof using knows others_run.
  intros Hstart Hpost Ho Ht Hn Hd (b&cols&Hk) (Hh1&Hh2) Hl Hh.
  assert (Hnil : forall c t, t ∈ [] -> is_Some (cat_tables c !! t)) by (by intros ? ? ?%not_elem_of_nil).
  destruct (exec_all_in_order d ignore knows others_run l [] c Ho (Hnil _) Hn Hl) as (c1&He&_&Hs&Hx).
  assert (Hkine : forall c, Forall (satisfied c) l -> is_Some (cat_tables c !! "kine")).
  { intros c0 H. rewrite Forall_forall in H. destruct (H _ Hk) as (cs&?&_). by exists cs. }
  assert (Hagain : forall c, Forall (satisfied c) l -> exec_all d ignore l c = (None, c)).
  { intros c0. exact (exec_all_again d ignore knows others_run l [] c0 Ho (Hnil c0)). }
  setoid_rewrite Hstart. rewrite He. cbn [then_]. rewrite (Hpost _ Hs). cbn [then_]. destruct sep.
  - assert (Hh' : Forall (compatible c1) hist).
    { rewrite Forall_forall in Hh, Hd |- *. intros s Hin. destruct (Hd s Hin) as [E|E]; [by destruct s|auto]. }
    destruct (Hh1 c1 (Hkine _ Hs) Hh') as (c'&Hc'&Hsat&Htr&Hg).
    assert (Hs' : Forall (satisfied c') l).
    { eapply Forall_impl; [by apply satisfied_drop|]. intros s. by apply satisfied_grows. }
    exists c'. split; [done|]. rewrite (Hagain c' Hs'). cbn [then_]. rewrite (Hpost _ Hs'). cbn [then_].
    split; [by apply Hh2; [apply Hkine| |]|]. rewrite Forall_app. done.
  - exists (drop_trigger c1). split; [done|]. rewrite app_nil_r.
    assert (Hs' : Forall (satisfied (drop_trigger c1)) l) by by apply satisfied_drop.
    assert (Habs : trigger ∉ cat_triggers (drop_trigger c1)) by (cbn; set_solver).
    rewrite (Hagain _ Hs'). cbn [then_]. rewrite (Hpost _ Hs'). cbn [then_]. rewrite (drop_trigger_absent _ Habs). done.
Qed.

Lemma grows_drop (c : catalog) : grows (drop_trigger c) c.
Proof. repeat split; cbn; set_solver. Qed.

Lemma sqlite_archives : archives Sqlite.historySchema (Sqlite.setupHistory d).
Proof using knows others_run.
  split; intros c Hk Hc.
  - assert (Hkn : forall t, t ∈ ["kine"] -> is_Some (cat_tables c !! t)) by (by intros t ->%list_elem_of_singleton).
    destruct (exec_all_in_order d no_error knows others_run Sqlite.historySchema ["kine"] c
                eq_refl Hkn ltac:(apply (bool_decide_eq_true_1 (NoDup _)); vm_compute; reflexivity) Hc) as (c'&He&Hg&Hs&_).
    exists c'. split; [done|]. split; [done|]. split; [|by etrans; [apply grows_drop|]].
    by apply Forall_cons in Hs as [_ [Hs _]%Forall_cons].
  - intros _. apply (exec_all_again d no_error knows others_run Sqlite.historySchema ["kine"] c eq_refl); [|done].
    by intros t ->%list_elem_of_singleton.
Qed.

Lemma mysql_archives : lookup d = None -> archives Mysql.historySchema (Mysql.setupHistory d).
Proof using knows others_run.
  intros Hlk. split; intros c Hk Hc.
  - assert (Hkn : forall t, t ∈ [] -> is_Some (cat_tables c !! t)) by (by intros ? ?%not_elem_of_nil).
    destruct (exec_all_in_order d no_error knows others_run Mysql.historySchema [] c
                eq_refl Hkn ltac:(apply (bool_decide_eq_true_1 (NoDup _)); vm_compute; reflexivity) Hc) as (c1&He&Hg&Hs&_).
    assert (exists c', Mysql.setupHistory d c = (None, c') /\ grows c1 c' /\ trigger ∈ cat_triggers c') as (c'&?&Hg'&?).
    { unfold Mysql.setupHistory. rewrite He. cbn. rewrite Hlk. case_bool_decide as Ht; [by exists c1|].
      destruct Hk as [ts Hk]. assert (Hk1 : cat_tables c1 !! "kine" = Some ts) by (eapply lookup_weaken; [done|apply Hg]).
      exists (add_trigger c1). rewrite Hk1. cbn. split; [done|]. split; [|set_solver]. repeat split; cbn; set_solver. }
    exists c'. split; [done|]. split; [eapply Forall_impl; [done|]; intros s; by apply satisfied_grows|].
    split; [done|]. etrans; [apply grows_drop|by etrans].
  - intros Ht. unfold Mysql.setupHistory.
    rewrite (exec_all_again d no_error knows others_run Mysql.historySchema [] c eq_refl); [|by intros ? ?%not_elem_of_nil|done].
    cbn. by rewrite Hlk, bool_decide_eq_true_2.
Qed.

Lemma retrigger (c : catalog) : is_Some (cat_tables c !! "kine") ->
  exec_all d no_error [DropTrigger trigger; CreateTrigger false trigger "kine"] c = (None, add_trigger (drop_trigger c)).
Proof. intros [ts Hk]. cbn. rewrite Hk. cbn. rewrite bool_decide_eq_false_2 by set_solver. done. Qed.

Lemma pgsql_archives (collation : bool) :
  archives (Pgsql.plain collation <$> Pgsql.historySchema) (Pgsql.setupHistory d collation).
Proof using knows others_run.
  set (hist := Pgsql.plain collation <$> Pgsql.historySchema).
  assert (hist = take 2 hist ++ [DropTrigger trigger; CreateTrigger false trigger "kine"]) as Hh by done.
  assert (Ho : in_order no_error [] (take 2 hist) = true) by done.
  assert (Hn : NoDup (creates <$> filter (fun s => is_Some (creates s)) (take 2 hist)))
    by (apply (bool_decide_eq_true_1 (NoDup _)); by destruct collation).
  split; intros c Hk Hc; unfold Pgsql.setupHistory; fold hist; rewrite Hh in Hc |- *;
    apply Forall_app in Hc as [Hc _]; rewrite exec_all_app.
  - destruct (exec_all_in_order d no_error knows others_run (take 2 hist) [] c
                Ho ltac:(by intros ? ?%not_elem_of_nil) Hn Hc) as (c1&He&Hg&Hs&_).
    assert (Hk1 : is_Some (cat_tables c1 !! "kine"))
      by (destruct Hk as [ts Hk]; exists ts; eapply lookup_weaken; [done|apply Hg]).
    rewrite He. cbn [then_]. rewrite retrigger by done. exists (add_trigger (drop_trigger c1)).
    split; [done|]. split; [apply Forall_app; split|].
    + eapply Forall_impl; [apply (satisfied_drop c1 (take 2 hist) eq_refl Hs)|]. intros s. apply satisfied_grows.
      repeat split; cbn; set_solver.
    + repeat constructor. cbn. set_solver.
    + split; [cbn; set_solver|]. destruct Hg as (?&?&?). repeat split; cbn; set_solver.
  - intros Ht.
    rewrite (exec_all_again d no_error knows others_run (take 2 hist) [] c Ho ltac:(by intros ? ?%not_elem_of_nil) Hc).
    cbn [then_]. rewrite retrigger by done. by rewrite drop_add_trigger.
Qed.

(** Start-up of the SQLite driver, for every combination of its flags:
    on a database that is empty, or whose kine tables have the columns of
    the schema, the set-up succeeds; afterwards every table and every index
    is there, among them the unique index on (name, prev_revision) that
    decides between two writers; deletions are archived exactly if the flag
    asks for a separate history; and a second start changes nothing. *)
Theorem sqlite_setup_complete (noCheckpointing noAutoCheckpoint noStartupVacuum separateHistory : bool) (c : catalog)
  (compat : Forall (compatible c) (Sqlite.schema ++ Sqlite.historySchema)) :
  let start := Sqlite.setup d noCheckpointing noAutoCheckpoint noStartupVacuum separateHistory in
  exists c', start c = (None, c') /\ start c' = (None, c') /\
    Forall (satisfied c') (Sqlite.schema ++ if separateHistory then Sqlite.historySchema else []) /\
    (trigger ∈ cat_triggers c' <-> separateHistory = true).
Proof using knows others_run.
  apply Forall_app in compat as [Hs Hh]. intros start.
  set (l := Sqlite.schema ++ (if noCheckpointing then [] else [Other "PRAGMA wal_checkpoint(TRUNCATE)"])
                  ++ (if noAutoCheckpoint then [Other "PRAGMA wal_autocheckpoint = 0"] else [])).
  assert (forall c, start c = then_ (exec_all d no_error l c)
                   (fun c => if separateHistory then Sqlite.setupHistory d c else (None, drop_trigger c))) as Hstart.
  { intros c0. subst start. unfold Sqlite.setup. fold l.
    destruct (exec_all d no_error l c0) as [[e|] c1]; [done|]. cbn [then_].
    destruct separateHistory; [destruct (Sqlite.setupHistory d c1) as [[?|] ?]|]; by destruct noStartupVacuum. }
  destruct (start_complete no_error l Sqlite.historySchema (fun c => (None, c)) (Sqlite.setupHistory d) start separateHistory c Hstart) as (c'&?&?&Hf&?).
  - done.
  - by destruct noCheckpointing, noAutoCheckpoint.
  - by destruct noCheckpointing, noAutoCheckpoint.
  - apply (bool_decide_eq_true_1 (NoDup _)). by destruct noCheckpointing, noAutoCheckpoint.
  - apply (bool_decide_eq_true_1 (Forall _ _)). by destruct noCheckpointing, noAutoCheckpoint.
  - eexists _, _. left.
  - apply sqlite_archives.
  - by apply Forall_others.
  - done.
  - exists c'. repeat split; try done; [|tauto..]. apply Forall_app in Hf as [Hl ?]. apply Forall_app. split; [|done].
    by apply Forall_others in Hl.
Qed.

Lemma names_plain (b : bool) (cols : list col) : names ((fun '(Col n t c) => Col n t (c && b)) <$> cols) = names cols.
Proof. induction cols as [|[n t c] cols IH]; cbn; [done|]. f_equal. exact IH. Qed.

Lemma satisfied_plain (b : bool) (c : catalog) (l : list ddl) :
  Forall (satisfied c) (Pgsql.plain b <$> l) <-> Forall (satisfied c) l.
Proof. rewrite Forall_fmap. apply Forall_iff. intros []; cbn; by rewrite ?names_plain. Qed.
Lemma compatible_plain (b : bool) (c : catalog) (l : list ddl) :
  Forall (compatible c) (Pgsql.plain b <$> l) <-> Forall (compatible c) l.
Proof. rewrite Forall_fmap. apply Forall_iff. intros []; cbn; by rewrite ?names_plain. Qed.

Lemma in_order_take (ignore : err -> bool) (n : nat) (l : list ddl) (known : list string) :
  in_order ignore known l = true -> in_order ignore known (take n l) = true.
Proof.
  revert n known. induction l as [|s l IH]; intros [|n] known H; cbn; try done.
  destruct s; cbn in H |- *; try done; repeat (apply andb_prop in H as [-> H]); cbn; auto.
Qed.

(** Start-up of the PostgreSQL driver, for every version string and
    every number of migrations: the set-up succeeds on a database that is empty
    or compatible with the schema, leaves every table and index there and the
    trigger exactly if the flag asks for it, and a second start, which runs
    the migrations again, changes nothing. *)
Theorem pgsql_setup_complete (version : string + err) (env : string) (separateHistory : bool) (c : catalog)
  (compat : Forall (compatible c) (Pgsql.schema ++ Pgsql.historySchema)) :
  let start := Pgsql.setup d version env separateHistory in
  exists c', start c = (None, c') /\ start c' = (None, c') /\
    Forall (satisfied c') (Pgsql.schema ++ if separateHistory then Pgsql.historySchema else []) /\
    (trigger ∈ cat_triggers c' <-> separateHistory = true).
Proof using knows others_run.
  apply Forall_app in compat as [Hs Hh]. intros start. set (b := Pgsql.collationSupported version).
  set (mig := Pgsql.plain b <$> migrations env Pgsql.schemaMigrations).
  assert (Hstart : forall c, start c = then_ (exec_all d no_error (Pgsql.plain b <$> Pgsql.schema) c) (fun c =>
    then_ (exec_all d no_error mig c) (fun c => if separateHistory then Pgsql.setupHistory d b c else (None, drop_trigger c)))).
  { intros c0. subst start. unfold Pgsql.setup. fold b mig.
    destruct (exec_all d no_error _ c0) as [[e|] c1]; [done|]. cbn [then_].
    destruct (exec_all d no_error mig c1) as [[e|] c2]; [done|]. cbn [then_].
    destruct separateHistory; [done|]. cbn. by rewrite others_run. }
  destruct (start_complete no_error _ (Pgsql.plain b <$> Pgsql.historySchema) (exec_all d no_error mig)
    (Pgsql.setupHistory d b) start separateHistory c Hstart) as (c'&?&?&Hf&?).
  - intros c1 Hc1%satisfied_plain. apply (exec_all_again d no_error knows others_run _ ["kine_fields"]).
    + unfold mig, migrations. rewrite fmap_take. apply in_order_take. by destruct b.
    + intros t ->%list_elem_of_singleton.
      destruct (proj1 (Forall_lookup _ _) Hc1 10%nat _ eq_refl) as (cs&?&_). by exists cs.
    + apply satisfied_plain, Forall_take. repeat constructor. exact (proj1 (Forall_lookup _ _) Hc1 13%nat _ eq_refl).
  - by destruct b.
  - by destruct b.
  - apply (bool_decide_eq_true_1 (NoDup _)). by destruct b.
  - apply (bool_decide_eq_true_1 (Forall _ _)). by destruct b.
  - eexists _, _. left.
  - apply pgsql_archives.
  - by apply compatible_plain.
  - by apply compatible_plain.
  - exists c'. repeat split; try done; [|tauto..]. rewrite <- (satisfied_plain b), fmap_app.
    by destruct separateHistory.
Qed.

(** Start-up of the MySQL driver where the migrations beyond the first
    are off, there is no kine table and the server accepts every statement:
    the same.  Without IF NOT EXISTS the loop relies on error 1061 being
    passed over. *)
Theorem mysql_setup_complete (env : string) (separateHistory : bool) (c : catalog)
  (reads : lookup d = None) (few : schemaVersion env <= 1)
  (compat : Forall (compatible c) (Mysql.schema ++ Mysql.historySchema)) (fresh : cat_tables c !! "kine" = None) :
  let start := Mysql.setup d env separateHistory in
  exists c', start c = (None, c') /\ start c' = (None, c') /\
    Forall (satisfied c') (Mysql.schema ++ if separateHistory then Mysql.historySchema else []) /\
    (trigger ∈ cat_triggers c' <-> separateHistory = true).
Proof using knows others_run.
  apply Forall_app in compat as [Hs Hh]. intros start. set (mig := migrations env Mysql.schemaMigrations).
  set (post := exec_all d Mysql.ignore mig).
  assert (Hpost : forall c, post c = (None, c)).
  { intros c0. unfold post, mig, migrations. destruct (Z.to_nat (schemaVersion env)) as [|[|n]] eqn:E; [done| |lia].
    cbn. by rewrite others_run. }
  set (start' := fun c => then_ (exec_all d Mysql.ignore Mysql.schema c) (fun c => then_ (post c) (fun c =>
                   if separateHistory then Mysql.setupHistory d c else (None, drop_trigger c)))).
  destruct (start_complete Mysql.ignore Mysql.schema Mysql.historySchema post (Mysql.setupHistory d) start' separateHistory c)
    as (c'&H1&H2&Hf&Ht); [done|by intros ? _|done|done|by apply (bool_decide_eq_true_1 (NoDup _))
    |by apply (bool_decide_eq_true_1 (Forall _ _))|by eexists _, _; left|by apply mysql_archives|done|done|].
  - exists c'. split; [|split; [|done]].
    + rewrite <- H1. subst start. unfold Mysql.setup. rewrite reads, fresh, bool_decide_eq_false_2 by (by intros [? ?]). done.
    + rewrite <- H2. apply Forall_app in Hf as [Hf _]. assert (Hk : is_Some (cat_tables c' !! "kine")).
      { apply Forall_cons in Hf as [(cs&?&_) _]. by exists cs. }
      subst start start'. unfold Mysql.setup. rewrite reads, bool_decide_eq_true_2 by done. cbn [then_].
      rewrite (exec_all_again d Mysql.ignore knows others_run Mysql.schema [] c' eq_refl); [done| |done].
      by intros ? ?%not_elem_of_nil.
Qed.
End drivers.

(** ** Where the set-up of MySQL stops short *)
Lemma migrations_two (env : string) : 2 <= schemaVersion env -> migrations env Mysql.schemaMigrations = Mysql.schemaMigrations.
Proof. intros H. unfold migrations. apply take_ge. cbn. lia. Qed.

(** With KINE_SCHEMA_MIGRATION at two or more, a start of the MySQL
    driver fails on every database that has the column the second migration
    adds, so on one this driver has set up itself: it fails on the first
    start after the schema was created, and on every one after the migration
    has run. *)
Theorem mysql_migration_not_repeatable (d : dbms) (env : string) (separateHistory : bool) (c : catalog) (cols : list string)
  (two : 2 <= schemaVersion env)
  (made : cat_tables c !! "kine_fields" = Some cols) (column : "value_text" ∈ cols)
  (there : is_Some (cat_tables c !! "kine")) (reads : lookup d = None) :
  fst (Mysql.setup d env separateHistory c) <> None.
Proof.
  unfold Mysql.setup. rewrite reads, bool_decide_eq_true_2 by done. cbn [then_].
  rewrite migrations_two by done. cbn. destruct (other d _) as [e|].
  - destruct (Mysql.ignore e); [|done]. cbn. by rewrite made, bool_decide_eq_true_2.
  - cbn. by rewrite made, bool_decide_eq_true_2.
Qed.

(** On a database that has a kine table already, from a version of the
    program without metadata, the set-up of the MySQL driver creates none of
    the tables for labels, fields and owners, whatever its result. *)
Theorem mysql_keeps_old_schema (d : dbms) (env : string) (separateHistory : bool) (c : catalog) (t : string)
  (reads : lookup d = None) (there : is_Some (cat_tables c !! "kine"))
  (metadata : t ∈ ["kine_labels"; "kine_fields"; "kine_owners"]) (absent : cat_tables c !! t = None) :
  cat_tables (snd (Mysql.setup d env separateHistory c)) !! t = None.
Proof.
  assert (Hexec : forall s c, cat_tables c !! t = None ->
            match s with CreateTable _ n _ => n <> t | _ => True end -> cat_tables (snd (exec d s c)) !! t = None).
  { intros s c0 H Hn. destruct s; cbn; repeat case_match; cbn; try done;
      rewrite lookup_insert_ne; try done; by intros ->; congruence. }
  assert (Hall : forall ig l c, cat_tables c !! t = None ->
            Forall (fun s => match s with CreateTable _ n _ => n <> t | _ => True end) l ->
            cat_tables (snd (exec_all d ig l c)) !! t = None).
  { intros ig l. induction l as [|s l IH]; intros c0 H Hl; cbn; [done|].
    apply Forall_cons in Hl as [Hs Hl]. specialize (Hexec s c0 H Hs). destruct (exec d s c0) as [[e|] c1]; cbn in *; [|auto].
    destruct (ig e); auto. }
  unfold Mysql.setup. rewrite reads, bool_decide_eq_true_2 by done. cbn [then_].
  pose proof (Hall Mysql.ignore (migrations env Mysql.schemaMigrations) c absent) as Hm.
  specialize (Hm ltac:(apply Forall_take; repeat constructor)).
  destruct (exec_all d Mysql.ignore _ c) as [[e|] c1]; cbn [then_ snd] in *; [done|].
  destruct separateHistory; [|done]. unfold Mysql.setupHistory.
  pose proof (Hall no_error Mysql.historySchema c1 Hm) as Hh.
  specialize (Hh ltac:(repeat constructor; intros <-; cbn in metadata; set_solver)).
  destruct (exec_all d no_error _ c1) as [[e|] c2]; cbn [then_ snd] in *; [done|].
  rewrite reads. case_bool_decide; [done|]. by apply Hexec.
Qed.

(** On a server that does not know IF NOT EXISTS in the creation of an
    index, the first start of the MySQL driver on an empty database fails
    with a syntax error at the last statement of the schema, and the second
    one succeeds, because it finds the table kine: the index on the owners
    is never created. *)
Theorem mysql_second_start_skips_index (d : dbms) (env : string)
  (unknown : knows_index_ifne d = false) (others_run : forall text, other d text = None) (reads : lookup d = None)
  (few : schemaVersion env <= 1) :
  let first := Mysql.setup d env false no_catalog in
  first.1 = Some ErrSyntax /\
  let second := Mysql.setup d env false first.2 in
  second.1 = None /\ cat_indexes second.2 !! "kine_owners_owner_index" = None.
Proof.
  assert (Hf : Mysql.setup d env false no_catalog = (Some ErrSyntax, (exec_all d Mysql.ignore Mysql.schema no_catalog).2)).
  { unfold Mysql.setup. rewrite reads, bool_decide_eq_false_2 by (by intros [? ?]).
    assert ((exec_all d Mysql.ignore Mysql.schema no_catalog).1 = Some ErrSyntax) as E.
    { destruct d as [k o l]. cbn in unknown. subst k. vm_compute. reflexivity. }
    destruct (exec_all d Mysql.ignore Mysql.schema no_catalog) as [e c1]. cbn in E. by subst e. }
  rewrite Hf. cbn zeta. cbn [fst snd]. split; [done|].
  set (c1 := (exec_all d Mysql.ignore Mysql.schema no_catalog).2).
  assert (is_Some (cat_tables c1 !! "kine") /\ cat_indexes c1 !! "kine_owners_owner_index" = None) as [Hk Hi].
  { subst c1. destruct d as [k o l]. cbn in unknown. subst k. split; [by eexists|vm_compute; reflexivity]. }
  clearbody c1.
  unfold Mysql.setup. rewrite reads, bool_decide_eq_true_2 by done. cbn [then_]. unfold migrations.
  destruct (Z.to_nat (schemaVersion env)) as [|[|n]] eqn:E; [done| |lia]. cbn. by rewrite others_run.
Qed.

(** ** At work *)
Definition toy_dbms (knows : bool) : dbms := MkDbms knows (fun _ => None) None.

Lemma no_catalog_compatible (l : list ddl) : Forall (compatible no_catalog) l.
Proof. apply Forall_forall. intros s _. by destruct s. Qed.

Lemma sqlite_setup_complete_witness :
  exists c', Sqlite.setup (toy_dbms true) false false false true no_catalog = (None, c') /\ trigger ∈ cat_triggers c'.
Proof.
  destruct (sqlite_setup_complete (toy_dbms true) eq_refl (fun _ => eq_refl) false false false true no_catalog
    (no_catalog_compatible _)) as (c'&?&_&_&Ht). exists c'. split; [assumption|by apply Ht].
Defined.

Lemma pgsql_setup_complete_witness :
  exists c', Pgsql.setup (toy_dbms true) (inl "CockroachDB CCL v23") "11" false no_catalog = (None, c') /\
             ~ trigger ∈ cat_triggers c'.
Proof.
  destruct (pgsql_setup_complete (toy_dbms true) eq_refl (fun _ => eq_refl) (inl "CockroachDB CCL v23") "11" false no_catalog
    (no_catalog_compatible _)) as (c'&?&_&_&Ht). exists c'. split; [assumption|]. intros Hin. by apply Ht in Hin.
Defined.

Lemma mysql_setup_complete_witness :
  exists c', Mysql.setup (toy_dbms true) "1" true no_catalog = (None, c') /\ trigger ∈ cat_triggers c'.
Proof.
  destruct (mysql_setup_complete (toy_dbms true) eq_refl (fun _ => eq_refl) "1" true no_catalog eq_refl
    ltac:(vm_compute; discriminate) (no_catalog_compatible _) eq_refl) as (c'&?&_&_&Ht).
  exists c'. split; [assumption|by apply Ht].
Defined.

Definition old_kine : catalog := MkCatalog {["kine" := ["id"; "name"; "value"]]} ∅ ∅.
Definition new_kine : catalog := (Mysql.setup (toy_dbms true) "" false no_catalog).2.

Lemma mysql_migration_not_repeatable_witness : fst (Mysql.setup (toy_dbms true) "2" false new_kine) <> None.
Proof.
  apply (mysql_migration_not_repeatable (toy_dbms true) "2" false new_kine
    ["kine_id"; "kine_name"; "kind_group_version"; "value"; "value_text"]); try reflexivity.
  - apply (bool_decide_eq_true_1 (_ ∈ _)). reflexivity.
  - eexists. reflexivity.
Defined.

Lemma mysql_keeps_old_schema_witness :
  cat_tables (snd (Mysql.setup (toy_dbms true) "" true old_kine)) !! "kine_labels" = None.
Proof.
  apply (mysql_keeps_old_schema (toy_dbms true)); try reflexivity; [by eexists|by left].
Defined.

Lemma mysql_second_start_skips_index_witness :
  (Mysql.setup (toy_dbms false) "" false no_catalog).1 = Some ErrSyntax.
Proof.
  apply (mysql_second_start_skips_index (toy_dbms false) ""); try reflexivity. vm_compute. discriminate.
Defined.

(** A count beyond the range of [int] runs no migration. *)
Example migrations_beyond_int : migrations "9223372036854775808" Mysql.schemaMigrations = [].
Proof. reflexivity. Qed.
