(* ===== verification/SqlVariants.v ===== *)
(** * What MySQL and PostgreSQL do differently (drivers/mysql/mysql.go,
    pgsql/pgsql.go, generic.go)

    The statements and functions the two drivers put in place of those of
    SQLite: the compaction joined to the ids to delete, the start key of a
    range without a null byte, the classification of errors, the insertion
    that draws its id from a sequence before the row is visible and is tried
    again when the id has been filled, and the query for the dependents.
    Where the database is the actor its documented behaviour is written out:
    a sequence is not rolled back, and a transaction in which a statement
    failed refuses every further one. *)
From S2P Require Import Prelude Types GoStrings Sql Objects Selectors SqlMeta.
Local Open Scope Z_scope.

(** ** Compaction *)
(** [UNION] removes duplicates. *)
Definition UNION (l1 l2 : list Z) : list Z := remove_dups (l1 ++ l2).

(** The rows of a join on the id. *)
Definition join (kv : list row) (ks : list Z) : list row :=
  mjoin ((fun r => (fun _ => r) <$> filter (fun id => r_id r = id) ks) <$> kv).

(** [DELETE kv FROM kine AS kv INNER JOIN (...) AS ks ON kv.id = ks.id], and
    [DELETE FROM kine AS kv USING (...) AS ks WHERE kv.id = ks.id]: the rows
    joined are deleted, and counted once each. *)
Definition delete_join (ks : list Z) (t : table) : Z * table :=
  let gone := remove_dups (join (rows t) ks) in
  (Z.of_nat (length gone), set_rows (filter (fun r => r ∉ gone) (rows t)) t).

(** Both statements take their ids from the same union. *)
Definition Compact_join (revision : Z) (t : table) : Z * table :=
  delete_join (UNION (superseded revision t) (tombstones revision t)) t.

(** ** The start key of a range *)
Definition CutSuffix (s suffix : string) : string * bool :=
  if HasSuffix s suffix then (TrimSuffix s suffix, true) else (s, false).

Definition null : string := String (Ascii.ascii_of_nat 0) "".
Definition substitute (by_ : string) (startKey : string) : string :=
  let (s, ok) := CutSuffix startKey null in if ok then s +:+ by_ else startKey.

(** ** Errors of the drivers *)
(** The error of the MySQL client library, by its number; that of pgx, by its
    code and constraint; and any other, by its text. *)
Inductive dberr : Type :=
  | MySQLError (number : Z) (message : string)
  | PgError (code constraint : string)
  | Plain (e : err).

Definition UniqueViolation : string := "23505".

Module Mysql.
Definition CompactSQL : Z -> table -> Z * table := Compact_join.
Definition TranslateStartKeyFunc : string -> string := substitute "#".
Definition TranslateErr (e : dberr) : dberr :=
  match e with MySQLError n _ => if n =? 1062 then Plain ErrKeyExists else e | _ => e end.
End Mysql.

Module Pgsql.
Definition CompactSQL : Z -> table -> Z * table := Compact_join.
Definition TranslateStartKeyFunc : string -> string := substitute (String (Ascii.ascii_of_nat 26) "").
Definition TranslateErr (e : dberr) : dberr :=
  match e with PgError c _ => if String.eqb c UniqueViolation then Plain ErrKeyExists else e | _ => e end.
Definition InsertRetry (e : dberr) : bool :=
  match e with PgError c n => String.eqb c UniqueViolation && String.eqb n "kine_pkey" | _ => false end.
End Pgsql.

Section errcode.
Variable Error : dberr -> string.
Definition Mysql_ErrCode (e : option dberr) : string :=
  match e with None => "" | Some (MySQLError n _) => FormatInt n | Some e => Error e end.
Definition Pgsql_ErrCode (e : option dberr) : string :=
  match e with None => "" | Some (PgError c _) => c | Some e => Error e end.
End errcode.

(** ** Inserting with a sequence *)
(** What the database of PostgreSQL keeps: [rows] and the sequence, which a
    rollback does not take back. *)
Inductive txstate : Type := NoTx | InTx | FailedTx.

Definition primary_key_violation : dberr := PgError UniqueViolation "kine_pkey".
Definition name_violation : dberr := PgError UniqueViolation "kine_name_prev_revision_uindex".
Definition in_failed_transaction : dberr := PgError "25P02" "".

(** The second half of [InsertSQL]: the id is drawn, the row is not there. *)
Definition put_row (id : Z) (key : string) (cVal dVal : bool) (createRevision previousRevision ttl : Z) (value old : string)
  (t : table) : (Z * option dberr) * table :=
  if existsb (fun r => r_id r =? id) (rows t) then ((0, Some primary_key_violation), t)
  else if unique_violation key previousRevision t then ((0, Some name_violation), t)
  else ((id, None), set_rows (insert_by_id (MkRow id key cVal dVal createRevision previousRevision ttl value old) (rows t)) t).

Section insert.
(** What the other connections do while the [i]-th try has drawn its id. *)
Variable others : nat -> table -> table.

(** One try: the old value is read and the id drawn, then the row is put. *)
Definition InsertSQL (i : nat) (key : string) (cVal dVal : bool) (createRevision previousRevision ttl : Z) (value : string)
  (s : txstate * table) : (Z * option dberr) * (txstate * table) :=
  let (x, t) := s in
  match x with
  | FailedTx => ((0, Some in_failed_transaction), s)
  | _ =>
      let id := Sql.seq t + 1 in
      let '(id, err, t) := put_row id key cVal dVal createRevision previousRevision ttl value (value_of previousRevision t)
                             (others i (MkTable (rows t) id)) in
      ((id, err), (match x, err with InTx, Some _ => FailedTx | _, _ => x end, t))
  end.

(** The loop of [Insert] where the driver has no last insert id: [n] tries
    from the [i]-th, what the named results hold when they are used up. *)
Fixpoint insert_loop (n i : nat) (last : Z * option dberr) (key : string) (cVal dVal : bool)
  (createRevision previousRevision ttl : Z) (value : string) (s : txstate * table) : (Z * option dberr) * (txstate * table) :=
  match n with
  | O => (last, s)
  | S n =>
      let '((id, err), s) := InsertSQL i key cVal dVal createRevision previousRevision ttl value s in
      match err with
      | Some e => if Pgsql.InsertRetry e then insert_loop n (S i) (id, err) key cVal dVal createRevision previousRevision ttl value s
                  else ((id, err), s)
      | None => ((id, err), s)
      end
  end.

(** The end of the loop, with the translation of its error. *)
Definition insert_tries (key : string) (cVal dVal : bool) (createRevision previousRevision ttl : Z) (value : string)
  (s : txstate * table) : (Z * option dberr) * (txstate * table) :=
  let '((id, err), s) := insert_loop 20 0 (0, None) key cVal dVal createRevision previousRevision ttl value s in
  ((id, Pgsql.TranslateErr <$> err), s).

(** What becomes of a key and its value: it does not decode; it has no
    metadata (or no value); or its metadata is written in a transaction, with
    what [BeginTx], [InsertMetadata] for the new id, and [Commit] answer. *)
Inductive treated : Type :=
  | Undecodable (message : string)
  | Bare
  | WithMetadata (begin : option dberr) (metadata : Z -> option dberr) (commit : option dberr).

(** [Insert].  From [InTx] it is run in the transaction of its context, which
    it neither commits nor rolls back.  Its own transaction is rolled back when
    an error of the metadata or the commit ends it, the former only once the
    context of the request ends. *)
Definition Pgsql_Insert (obj : treated) (key : string) (cVal dVal : bool) (createRevision previousRevision ttl : Z) (value : string)
  (s : txstate * table) : (Z * option dberr) * (txstate * table) :=
  let tries := insert_tries key cVal dVal createRevision previousRevision ttl value in
  let failed e s := ((0, Some (Pgsql.TranslateErr e)), s) in
  match obj with
  | Undecodable message => failed (Plain (ErrOther message)) s
  | Bare => tries s
  | WithMetadata begin metadata commit =>
      match s with
      | (NoTx, t) =>
          match begin with
          | Some e => failed e s
          | None =>
              let '((id, err), (_, t)) := tries (InTx, t) in
              let rolled_back := (NoTx, DeleteRevision id t) in
              match err with
              | Some e => ((id, Some e), (NoTx, t))
              | None =>
                  match metadata id, commit with
                  | Some e, _ | None, Some e => failed e rolled_back
                  | None, None => ((id, None), (NoTx, t))
                  end
              end
          end
      | _ =>
          let '((id, err), s) := tries s in
          match err with
          | Some e => ((id, Some e), s)
          | None => match metadata id with Some e => failed e s | None => ((id, None), s) end
          end
      end
  end.
End insert.

(** ** The query for the dependents *)
(** The columns the two statements select. *)
Definition owned_columns : list string := ["id"; "name"; "uid"; "create_revision"; "value"; "block_owner_deletion"].
Definition Pgsql_owned_columns : list string := ["id"; "name"; "create_revision"; "value"].

(** [rows.Scan] with six destinations. *)
Definition Scan (columns : list string) : gerr :=
  if (length columns =? 6)%nat then None
  else Some (ErrOther ("sql: expected " +:+ FormatInt (Z.of_nat (length columns)) +:+ " destination arguments in Scan, not 6")).

Section owned.
Context `{Unstructured}.

(** The loop of [InsertMetadata] over the rows of the statement. *)
Fixpoint scanned_loop (columns : list string) (uid : string) (orphan foreground : bool) (l : list owned_row) (g : gc)
  : M (option (gc + err)) :=
  match l with
  | [] => st_ret (Some (inl g))
  | o :: l =>
      match Scan columns with
      | Some e => st_ret (Some (inr e))
      | None =>
          if r_id o.1.1 =? 0 then scanned_loop columns uid orphan foreground l g
          else
            r <- owned_step uid orphan foreground o g;;
            match r with
            | Some (inl g) => scanned_loop columns uid orphan foreground l g
            | _ => st_ret r
            end
      end
  end.
End owned.

(** ** The history of deleted rows *)
(** The trigger [kine_archive_delete]: a row is archived before it goes,
    unless its id is there already. *)
Definition archive (gone : list row) (history : list row) : list row :=
  foldl (fun h r => if existsb (fun r' => r_id r' =? r_id r) h then h else h ++ [r]) history gone.

(** A statement that deletes, with the trigger or without. *)
Definition archiving (trigger : bool) (f : table -> table) (s : table * list row) : table * list row :=
  let t := f s.1 in
  (t, if trigger then archive (filter (fun r => r ∉ rows t) (rows s.1)) s.2 else s.2).
