(* ===== verification/SqlVariantsProofs.v ===== *)
(** * The variants of the SQL dialect agree with it, and where they do not

    Compaction by a join deletes what the compaction of SQLite deletes; the
    start key without a null byte gives the same range unless a name lies in
    the gap; an insertion with a sequence does what [insert_row] does while
    nothing overtakes it, and what twenty overtaken tries, or one in a
    transaction, end in; the history keeps what is deleted. *)
From S2P Require Import Prelude Types GoStrings Sql SqlProofs Objects Selectors SqlMeta SqlVariants.
Local Open Scope Z_scope.

(** ** Compaction *)
Lemma elem_of_join (r : row) (kv : list row) (ks : list Z) : r ∈ join kv ks <-> r ∈ kv /\ r_id r ∈ ks.
Proof.
  unfold join. rewrite list_elem_of_join. split.
  - intros (l&Hr&(r'&->&Hin)%list_elem_of_fmap). apply list_elem_of_fmap in Hr as (id&->&Hid).
    apply list_elem_of_filter in Hid as [<- ?]. done.
  - intros [Hr Hk]. eexists. split; [|by apply list_elem_of_fmap_2].
    apply list_elem_of_fmap. exists (r_id r). split; [done|]. by apply list_elem_of_filter.
Qed.

Lemma length_filter_both {A} (P : A -> Prop) `{!forall x, Decision (P x)} (l : list A) :
  (length (filter P l) + length (filter (fun x => ~ P x) l) = length l)%nat.
Proof. induction l as [|x l IH]; [done|]. rewrite !filter_cons. repeat case_decide; cbn; try done; lia. Qed.

(** The compaction statements of MySQL and PostgreSQL, a join with the
    union of the superseded and of the deleted ids, delete the same rows as
    the one of SQLite and report the same number, although an id can be both
    superseded and deleted; ids are unique, as the primary key has it. *)
Theorem compact_join_exact (revision : Z) (t : table) (key : NoDup (r_id <$> rows t)) :
  Mysql.CompactSQL revision t = Compact revision t /\ Pgsql.CompactSQL revision t = Compact revision t.
Proof.
  enough (Compact_join revision t = Compact revision t) by done.
  apply NoDup_fmap_1 in key. unfold Compact_join, delete_join, Compact, UNION.
  set (gone := superseded revision t ++ tombstones revision t).
  set (g := remove_dups (join (rows t) (remove_dups gone))).
  assert (Hg : forall r, r ∈ rows t -> (r ∈ g <-> r_id r ∈ gone)).
  { intros r Hr. unfold g. rewrite elem_of_remove_dups, elem_of_join, elem_of_remove_dups. tauto. }
  assert (Hf : filter (fun r => r ∉ g) (rows t) = filter (fun r => r_id r ∉ gone) (rows t)).
  { apply filter_agree. intros r Hr. by rewrite Hg. }
  rewrite Hf. f_equal. rewrite <- Hf.
  assert (g ≡ₚ filter (fun r => r ∈ g) (rows t)) as E.
  { apply NoDup_Permutation; [apply NoDup_remove_dups|by apply NoDup_filter|].
    intros r. rewrite list_elem_of_filter. split; [|tauto]. intros Hr. split; [done|].
    unfold g in Hr. rewrite elem_of_remove_dups, elem_of_join in Hr. tauto. }
  rewrite E at 1. pose proof (length_filter_both (fun r => r ∈ g) (rows t)). lia.
Qed.

(** ** The start key *)
Lemma ascii_compare_refl (c : Ascii.ascii) : Ascii.compare c c = Eq.
Proof. apply N.compare_refl. Qed.

Lemma ltb_app (k s t : string) : String.ltb (k +:+ s) (k +:+ t) = String.ltb s t.
Proof.
  unfold String.ltb. induction k as [|c k IH]; [done|]. simpl. by rewrite ascii_compare_refl.
Qed.

(** What lies from [k] with a null byte up to [k] with another byte. *)
Lemma between_null (k name : string) (a : Ascii.ascii) :
  String.ltb name (k +:+ null) = false /\ String.ltb name (k +:+ String a "") = true <->
  exists c s, name = k +:+ String c s /\ Ascii.compare c a = Lt.
Proof.
  revert name. induction k as [|x k IH]; intros name; cbn [String.append].
  - destruct name as [|c s].
    { split; [intros [H _]|intros (?&?&?&_)]; done. }
    unfold String.ltb, null. simpl. split.
    + intros [_ H]. exists c, s. split; [done|]. destruct (Ascii.compare c a); [|done|done]. by destruct s.
    + intros (c'&s'&[= <- <-]&->). split; [|done].
      assert (Ascii.compare c (Ascii.ascii_of_nat 0) <> Lt) as H.
      { unfold Ascii.compare. cbn. destruct (Ascii.N_of_ascii c); done. }
      destruct (Ascii.compare c _) eqn:E; [|done|done]. by destruct s.
  - destruct name as [|y name].
    { split; [intros [H _]|intros (?&?&?&_)]; done. }
    unfold String.ltb in *. simpl. destruct (Ascii.compare y x) eqn:E.
    + assert (y = x) as -> by by apply Ascii.compare_eq_iff. rewrite IH. split.
      * intros (c&s&->&?). by exists c, s.
      * intros (c&s&[= ->]&?). by exists c, s.
    + split; [intros [H _]; done|]. intros (c&s&[= -> ->]&_). by rewrite ascii_compare_refl in E.
    + split; [intros [_ H]; done|]. intros (c&s&[= -> ->]&_). by rewrite ascii_compare_refl in E.
Qed.

Lemma substitute_null (b k : string) : substitute b (k +:+ null) = k +:+ b.
Proof.
  unfold substitute, CutSuffix. replace (TrimSuffix (k +:+ null) null) with k by (symmetry; apply TrimSuffix_char).
  assert (HasSuffix (k +:+ null) null = true) as ->; [|done].
  unfold HasSuffix. rewrite length_app_str. change (String.length null) with 1%nat.
  replace (String.length k + 1 - 1)%nat with (String.length k) by lia.
  rewrite drop_str_app, String.eqb_refl, andb_true_r. apply Nat.leb_le. lia.
Qed.

(** No stored name continues [k] with a byte below [a]. *)
Definition no_name_below (k : string) (a : Ascii.ascii) (t : table) : Prop :=
  forall r c s, r ∈ rows t -> r_name r = k +:+ String c s -> Ascii.compare c a <> Lt.

Lemma between_substitute (k end_ : string) (a : Ascii.ascii) (r : row) :
  BetweenName (substitute (String a "") (k +:+ null)) end_ r =
  BetweenName (k +:+ null) end_ r && negb (String.ltb (r_name r) (k +:+ String a "")).
Proof.
  unfold BetweenName. rewrite substitute_null. destruct (String.ltb (r_name r) (k +:+ null)) eqn:E; cbn; [|by rewrite andb_comm].
  assert (String.ltb (r_name r) (k +:+ String a "") = true) as ->; [|done].
  destruct (String.ltb (r_name r) (k +:+ String a "")) eqn:E2; [done|]. exfalso.
  destruct (String.ltb (k +:+ null) (k +:+ String a "")) eqn:E3.
  - pose proof (str_lt_trans _ _ _ E E3) as H. unfold str_lt in H. congruence.
  - rewrite ltb_app in E3.
    assert (null = String a "") as Heq; [|by rewrite <- Heq, E in E2].
    apply ltb_total in E3; [done|]. unfold String.ltb. simpl. destruct a as [[] [] [] [] [] [] [] []]; done.
Qed.

Lemma ListSQL_agree (t : table) (c c' : row -> bool) (includeDeleted : bool) (limit : Z) :
  (forall r, r ∈ rows t -> c r = c' r) -> ListSQL t c includeDeleted limit = ListSQL t c' includeDeleted limit /\
                                      CountSQL t c includeDeleted = CountSQL t c' includeDeleted.
Proof.
  intros H. unfold ListSQL, CountSQL.
  assert (filter (fun r => group_max t c r && not_deleted includeDeleted r = true) (rows t) =
          filter (fun r => group_max t c' r && not_deleted includeDeleted r = true) (rows t)) as ->; [|done].
  apply filter_agree. intros r Hr. unfold group_max. rewrite (H r Hr).
  assert (forallb (fun r' => negb (c r' && String.eqb (r_name r') (r_name r)) || (r_id r' <=? r_id r)) (rows t) =
          forallb (fun r' => negb (c' r' && String.eqb (r_name r') (r_name r)) || (r_id r' <=? r_id r)) (rows t)) as ->; [|done].
  apply eq_true_iff_eq. rewrite !forallb_forall. split; intros Hf r' Hr'; specialize (Hf r' Hr');
    apply list_elem_of_In in Hr'; by rewrite H in * || rewrite <- H.
Qed.

(** The next page of a list starts at the last key with a null byte.
    MySQL and PostgreSQL put another byte in its place; the list and the
    count at any revision are the same as those of the dialect as long as no
    stored name continues the key with a byte below the one put in. *)
Theorem start_key_exact (k end_ : string) (a : Ascii.ascii) (t : table) (limit revision : Z) (includeDeleted : bool)
  (range : end_ <> "") (gap : no_name_below k a t) :
  let start := substitute (String a "") (k +:+ null) in
  ListCurrent t start end_ limit includeDeleted = ListCurrent t (k +:+ null) end_ limit includeDeleted /\
  List t start end_ limit revision includeDeleted = List t (k +:+ null) end_ limit revision includeDeleted /\
  CountCurrent t start end_ = CountCurrent t (k +:+ null) end_ /\
  Count t start end_ revision = Count t (k +:+ null) end_ revision.
Proof.
  intros start.
  assert (H : forall r, r ∈ rows t -> BetweenName start end_ r = BetweenName (k +:+ null) end_ r).
  { intros r Hr. unfold start. rewrite between_substitute.
    destruct (BetweenName (k +:+ null) end_ r) eqn:E; [|done]. cbn. apply negb_true_iff, not_true_is_false. intros Hlt.
    unfold BetweenName in E. apply andb_prop in E as [E%negb_true_iff _].
    destruct (proj1 (between_null k (r_name r) a) (conj E Hlt)) as (c&s&Hn&Hc). exact (gap r c s Hr Hn Hc). }
  unfold ListCurrent, List, CountCurrent, Count. rewrite (proj2 (String.eqb_neq end_ "") range).
  destruct (ListSQL_agree t (BetweenName start end_) (BetweenName (k +:+ null) end_) includeDeleted limit H) as [H1 _].
  destruct (ListSQL_agree t (BetweenName start end_) (BetweenName (k +:+ null) end_) false limit H) as [_ H3].
  assert (H' : forall r, r ∈ rows t -> BetweenName start end_ r && id_le revision r = BetweenName (k +:+ null) end_ r && id_le revision r)
    by (intros r Hr; by rewrite H).
  destruct (ListSQL_agree t _ _ includeDeleted limit H') as [H2 _].
  destruct (ListSQL_agree t _ _ false limit H') as [_ H4].
  by rewrite H1, H2, H3, H4.
Qed.

(** A name that does lie there is left out of the page that follows,
    though it is in the range asked for: on MySQL those that go on with a
    blank, an exclamation mark or a quotation mark. *)
Theorem start_key_gap (k end_ s : string) (c a : Ascii.ascii) (r : row)
  (name : r_name r = k +:+ String c s) (below : Ascii.compare c a = Lt) (range : String.ltb (r_name r) end_ = true) :
  BetweenName (k +:+ null) end_ r = true /\ BetweenName (substitute (String a "") (k +:+ null)) end_ r = false.
Proof.
  destruct (proj2 (between_null k (r_name r) a) (ex_intro _ c (ex_intro _ s (conj name below)))) as [H1 H2].
  rewrite between_substitute, H2. unfold BetweenName. by rewrite H1, range.
Qed.

(** ** Inserting with a sequence *)
Definition drawn (t : table) : table := MkTable (rows t) (Sql.seq t + 1).
Definition taken (id : Z) (t : table) : Prop := id ∈ r_id <$> rows t.

#[export] Instance taken_dec (id : Z) (t : table) : Decision (taken id t).
Proof. unfold taken. apply _. Defined.

Lemma taken_existsb (id : Z) (t : table) : existsb (fun r => r_id r =? id) (rows t) = bool_decide (taken id t).
Proof.
  apply eq_true_iff_eq. rewrite existsb_exists, bool_decide_eq_true. unfold taken. rewrite list_elem_of_fmap.
  split; [intros (r&?%list_elem_of_In&?%Z.eqb_eq); by exists r|].
  intros (r&->&?%list_elem_of_In). exists r. split; [done|]. apply Z.eqb_refl.
Qed.

Section insert.
Variable others : nat -> table -> table.

(** [n] tries from the [i]-th each found the id they had drawn filled. *)
Fixpoint overtaken (i n : nat) (t t' : table) : Prop :=
  match n with
  | O => t' = t
  | S n => let t1 := others i (drawn t) in taken (Sql.seq t + 1) t1 /\ overtaken (S i) n t1 t'
  end.

Section row.
Context (key : string) (cVal dVal : bool) (createRevision previousRevision ttl : Z) (value : string).
Notation put id old t := (put_row id key cVal dVal createRevision previousRevision ttl value old t).
Notation loop n i last s := (insert_loop others n i last key cVal dVal createRevision previousRevision ttl value s).

Lemma put_row_taken (id : Z) (old : string) (t : table) : taken id t -> put id old t = ((0, Some primary_key_violation), t).
Proof. intros H. unfold put_row. by rewrite taken_existsb, bool_decide_eq_true_2. Qed.

Definition new_row (id : Z) (old : string) : row := MkRow id key cVal dVal createRevision previousRevision ttl value old.

Lemma put_row_free (id : Z) (old : string) (t : table) : ~ taken id t ->
  put id old t = if unique_violation key previousRevision t then ((0, Some name_violation), t)
                 else ((id, None), set_rows (insert_by_id (new_row id old) (rows t)) t).
Proof. intros H. unfold put_row. by rewrite taken_existsb, bool_decide_eq_false_2. Qed.

Lemma insert_loop_outcome (n i : nat) (last : Z * option dberr) (t : table) :
  exists j t1, (j <= n)%nat /\ overtaken i j t t1 /\
    ((j = n /\ loop n i last (NoTx, t) = (match n with O => last | S _ => (0, Some primary_key_violation) end, (NoTx, t1))) \/
     ((j < n)%nat /\ let t2 := others (i + j) (drawn t1) in ~ taken (Sql.seq t1 + 1) t2 /\
       let '(r, t3) := put (Sql.seq t1 + 1) (value_of previousRevision t1) t2 in loop n i last (NoTx, t) = (r, (NoTx, t3)))).
Proof.
  revert i last t. induction n as [|n IH]; intros i last t.
  { exists O, t. split; [done|]. split; [done|]. by left. }
  set (t2 := others i (drawn t)). destruct (decide (taken (Sql.seq t + 1) t2)) as [Ht|Ht].
  - destruct (IH (S i) (0, Some primary_key_violation) t2) as (j&t1&Hj&Ho&H).
    assert (Hstep : loop (S n) i last (NoTx, t) = loop n (S i) (0, Some primary_key_violation) (NoTx, t2)).
    { cbn. fold t2. change (MkTable (rows t) (Sql.seq t + 1)) with (drawn t). fold t2. by rewrite put_row_taken. }
    exists (S j), t1. split; [lia|]. split; [by split|]. rewrite Hstep.
    destruct H as [[-> H]|[? H]]; [left|right].
    + split; [done|]. rewrite H. by destruct n.
    + split; [lia|]. by rewrite Nat.add_succ_r.
  - exists O, t. split; [lia|]. split; [done|]. right. split; [lia|]. rewrite Nat.add_0_r. split; [done|]. fold t2.
    rewrite put_row_free by done. cbn. change (MkTable (rows t) (Sql.seq t + 1)) with (drawn t). fold t2.
    rewrite put_row_free by done. by destruct (unique_violation key previousRevision t2).
Qed.

Lemma insert_tries_outcome (t : table) :
  let result := insert_tries others key cVal dVal createRevision previousRevision ttl value (NoTx, t) in
  exists n t1, overtaken 0 n t t1 /\
    ((n = 20%nat /\ result = ((0, Some (Plain ErrKeyExists)), (NoTx, t1))) \/
     ((n < 20)%nat /\ let id := Sql.seq t1 + 1 in let t2 := others n (drawn t1) in ~ taken id t2 /\
       result = if unique_violation key previousRevision t2 then ((0, Some (Plain ErrKeyExists)), (NoTx, t2))
                else ((id, None), (NoTx, set_rows (insert_by_id (new_row id (value_of previousRevision t1)) (rows t2)) t2)))).
Proof.
  destruct (insert_loop_outcome 20 0 (0, None) t) as (n&t1&Hn&Ho&H). exists n, t1. split; [done|].
  unfold insert_tries. destruct H as [[-> H]|[Hlt H]]; [left|right]; (split; [done|]).
  - by rewrite H.
  - cbn zeta in H |- *. rewrite Nat.add_0_l in H. destruct H as [Hf H]. split; [done|].
    rewrite put_row_free in H by done. destruct (unique_violation key previousRevision _); by rewrite H.
Qed.

(** In a transaction the first try decides. *)
Lemma insert_tries_in_tx (t : table) :
  let id := Sql.seq t + 1 in let t2 := others 0 (drawn t) in
  insert_tries others key cVal dVal createRevision previousRevision ttl value (InTx, t) =
  if bool_decide (taken id t2) then ((0, Some in_failed_transaction), (FailedTx, t2))
  else if unique_violation key previousRevision t2 then ((0, Some (Plain ErrKeyExists)), (FailedTx, t2))
  else ((id, None), (InTx, set_rows (insert_by_id (new_row id (value_of previousRevision t)) (rows t2)) t2)).
Proof.
  cbn zeta. unfold insert_tries. cbn. change (MkTable (rows t) (Sql.seq t + 1)) with (drawn t).
  case_bool_decide as Ht; [by rewrite put_row_taken|]. rewrite put_row_free by done.
  by destruct (unique_violation key previousRevision (others 0%nat (drawn t))).
Qed.

Lemma remove_inserted (id : Z) (old : string) (t : table) : ~ taken id t ->
  DeleteRevision id (set_rows (insert_by_id (new_row id old) (rows t)) t) = t.
Proof.
  intros Ht. destruct t as [l q]. unfold DeleteRevision, set_rows. cbn. f_equal. unfold taken in Ht. cbn in Ht.
  induction l as [|r l IH]; cbn [insert_by_id r_id new_row].
  - by rewrite filter_cons, decide_False by (by intros []).
  - rewrite fmap_cons, not_elem_of_cons in Ht. destruct Ht as [Hr Hl].
    assert (Hf : filter (fun r => r_id r <> id) l = l) by (apply filter_all; intros r' Hr' Heq; apply Hl, list_elem_of_fmap; by exists r').
    destruct (r_id r <? id).
    + rewrite filter_cons, decide_True by congruence. f_equal. by apply IH.
    + by rewrite !filter_cons, decide_False, decide_True, Hf by (cbn; congruence).
Qed.

(** The answer of an insertion with the row put between [t1], where the id was
    drawn, and [t2], what the other connections made of it. *)
Definition put_answer (t1 t2 : table) : (Z * option dberr) * (txstate * table) :=
  let id := Sql.seq t1 + 1 in
  if unique_violation key previousRevision t2 then ((0, Some (Plain ErrKeyExists)), (NoTx, t2))
  else ((id, None), (NoTx, set_rows (insert_by_id (new_row id (value_of previousRevision t1)) (rows t2)) t2)).

(** C23. What an insertion by the PostgreSQL driver does from outside of a
    transaction, whatever other connections do between drawing its ids and
    putting its row.  A value that does not decode is refused with that error:
    no id is drawn.  Without metadata some number of tries is overtaken: the id
    drawn has been filled in the meantime.  If this happens twenty times
    nothing is inserted and the answer is that the key exists, although it
    need not; otherwise the first try that is not overtaken decides: it is
    refused because the key has a row with this previous revision at that
    moment, or the row is put under the id drawn, which is the id returned.
    With metadata there is one try, in a transaction of its own: if it cannot
    be opened no id is drawn; if the id is taken the answer is that the
    transaction has failed; otherwise it is decided in the same way, and the
    row is gone again, with the error answered, if the metadata or the commit
    fails. *)
Theorem pgsql_insert_outcome (obj : treated) (t : table) :
  let result := Pgsql_Insert others obj key cVal dVal createRevision previousRevision ttl value (NoTx, t) in
  match obj with
  | Undecodable message => result = ((0, Some (Plain (ErrOther message))), (NoTx, t))
  | Bare =>
      exists n t1, overtaken 0 n t t1 /\
      ((n = 20%nat /\ result = ((0, Some (Plain ErrKeyExists)), (NoTx, t1))) \/
       ((n < 20)%nat /\ let t2 := others n (drawn t1) in ~ taken (Sql.seq t1 + 1) t2 /\ result = put_answer t1 t2))
  | WithMetadata (Some e) _ _ => result = ((0, Some (Pgsql.TranslateErr e)), (NoTx, t))
  | WithMetadata None metadata commit =>
      let id := Sql.seq t + 1 in let t2 := others 0 (drawn t) in
      (taken id t2 /\ result = ((0, Some in_failed_transaction), (NoTx, t2))) \/
      (~ taken id t2 /\ result =
        match (put_answer t t2).1.2, metadata id, commit with
        | None, Some e, _ | None, None, Some e => ((0, Some (Pgsql.TranslateErr e)), (NoTx, t2))
        | _, _, _ => put_answer t t2
        end)
  end.
Proof.
  destruct obj as [m| |[e|] metadata commit]; [done|apply insert_tries_outcome|done|].
  cbn zeta. unfold Pgsql_Insert. rewrite insert_tries_in_tx. cbv zeta. unfold put_answer.
  case_bool_decide as Ht; [by left|right]. split; [done|].
  destruct (unique_violation key previousRevision (others 0%nat (drawn t))); cbn [fst snd]; [done|].
  rewrite remove_inserted by done. by destruct (metadata (Sql.seq t + 1)), commit.
Qed.
End row.
End insert.

Lemma insert_by_id_last (r : row) (l : list row) : Forall (fun r' => r_id r' < r_id r) l -> insert_by_id r l = l ++ [r].
Proof. induction 1 as [|r' l Hr Hl IH]; [done|]. cbn. rewrite (proj2 (Z.ltb_lt _ _)) by done. by rewrite IH. Qed.

(** While nothing gets between drawing the id and putting the row, the
    insertion of the PostgreSQL driver is the insertion of the dialect: the
    same id, error and rows.  Only the sequence differs: it has moved on even
    if the row was refused. *)
Theorem pgsql_insert_exact (key : string) (cVal dVal : bool) (createRevision previousRevision ttl : Z) (value : string)
  (t : table) (ids : Forall (fun r => r_id r <= Sql.seq t) (rows t)) :
  let '((id, err), t') := insert_row key cVal dVal createRevision previousRevision ttl value t in
  Pgsql_Insert (fun _ t => t) Bare key cVal dVal createRevision previousRevision ttl value (NoTx, t) =
  ((id, Plain <$> err), (NoTx, MkTable (rows t') (Sql.seq t + 1))).
Proof.
  assert (Hfree : ~ taken (Sql.seq t + 1) (drawn t)).
  { intros (r&Hr&Hin)%list_elem_of_fmap. rewrite Forall_forall in ids. specialize (ids r Hin). lia. }
  unfold Pgsql_Insert.
  destruct (insert_tries_outcome (fun _ t => t) key cVal dVal createRevision previousRevision ttl value t)
    as ([|n]&t1&Ho&H); [|by destruct Ho as [? _]].
  cbn in Ho. subst t1. destruct H as [[? _]|[_ [_ H]]]; [done|]. unfold insert_row.
  change (unique_violation key previousRevision (drawn t)) with (unique_violation key previousRevision t) in H.
  destruct (unique_violation key previousRevision t); rewrite H; [done|]. cbn. repeat f_equal.
  unfold set_rows, drawn. cbn. f_equal. apply insert_by_id_last. eapply Forall_impl; [exact ids|]. cbn. lia.
Qed.

(** Inside a transaction the loop does not help: the first collision
    leaves the transaction failed, every further statement is refused with
    an error that is not tried again, and this error, not the one for an
    existing key, is the answer. *)
Theorem pgsql_retry_in_transaction (others : nat -> table -> table) (key : string) (cVal dVal : bool)
  (createRevision previousRevision ttl : Z) (value : string) (t : table)
  (collides : taken (Sql.seq t + 1) (others 0%nat (drawn t))) :
  Pgsql_Insert others Bare key cVal dVal createRevision previousRevision ttl value (InTx, t) =
  ((0, Some in_failed_transaction), (FailedTx, others 0%nat (drawn t))).
Proof. unfold Pgsql_Insert. rewrite insert_tries_in_tx. cbv zeta. by rewrite bool_decide_eq_true_2. Qed.

(** ** The query for the dependents *)
Section owned.
Context `{Unstructured}.

(** The statement of the dialect has the six columns the loop over the
    dependents scans; the one the PostgreSQL driver puts in its place has
    four, so that there the first dependent ends every collection with an
    error and without having changed anything. *)
Theorem pgsql_owned_scan (uid : string) (orphan foreground : bool) (o : owned_row) (l : list owned_row) (g : gc) (s : store) :
  scanned_loop owned_columns uid orphan foreground l g s = owned_loop uid orphan foreground l g s /\
  scanned_loop Pgsql_owned_columns uid orphan foreground (o :: l) g s =
    (Some (inr (ErrOther "sql: expected 4 destination arguments in Scan, not 6")), s).
Proof.
  split; [|done]. revert g s. induction l as [|x l IH]; intros g s; [done|]. cbn.
  destruct (r_id x.1.1 =? 0); [apply IH|]. unfold st_bind.
  destruct (owned_step uid orphan foreground x g s) as [[[g'|e]|] s']; [apply IH|done..].
Qed.
End owned.

(** ** The history of deleted rows *)
Lemma archive_spec (gone history : list row) :
  NoDup (r_id <$> gone) -> (forall r r', r ∈ gone -> r' ∈ history -> r_id r <> r_id r') -> archive gone history = history ++ gone.
Proof.
  unfold archive. revert history. induction gone as [|r gone IH]; intros history Hn Hd; cbn; [by rewrite app_nil_r|].
  apply NoDup_cons in Hn as [Hr Hn].
  assert (existsb (fun r' => r_id r' =? r_id r) history = false) as ->.
  { apply not_true_is_false. intros (r'&Hin%list_elem_of_In&He%Z.eqb_eq)%existsb_exists. apply (Hd r r'); [left|done|done]. }
  rewrite IH; [by rewrite <- app_assoc|done|].
  intros x y Hx [Hy| ->%list_elem_of_singleton]%elem_of_app; [apply Hd; [by right|done]|].
  intros He. apply Hr. rewrite <- He. by apply list_elem_of_fmap_2.
Qed.

Lemma NoDup_ids_filter (P : row -> Prop) `{!forall r, Decision (P r)} (l : list row) :
  NoDup (r_id <$> l) -> NoDup (r_id <$> filter P l).
Proof.
  induction l as [|r l IH]; [done|]. rewrite fmap_cons, filter_cons. intros [Hr Hn]%NoDup_cons. case_decide; [|by apply IH].
  apply NoDup_cons. split; [|by apply IH]. intros (x&Hx&[_ Hin]%list_elem_of_filter)%list_elem_of_fmap.
  apply Hr. rewrite Hx. by apply list_elem_of_fmap_2.
Qed.

(** What a statement that deletes rows does to a table. *)
Definition deletes_rows (f : table -> table) : Prop :=
  forall t, exists P : row -> bool, rows (f t) = filter (fun r => P r = true) (rows t).

Lemma DeleteRevision_deletes (revision : Z) : deletes_rows (DeleteRevision revision).
Proof.
  intros t. exists (fun r => bool_decide (r_id r <> revision)). cbn. apply filter_agree. intros r _. by rewrite bool_decide_eq_true.
Qed.
Lemma Compact_deletes (revision : Z) : deletes_rows (fun t => (Compact revision t).2).
Proof.
  intros t. exists (fun r => bool_decide (r_id r ∉ superseded revision t ++ tombstones revision t)). cbn.
  apply filter_agree. intros r _. by rewrite bool_decide_eq_true.
Qed.

Definition unique_ids (s : table * list row) : Prop := NoDup (r_id <$> rows s.1 ++ s.2).

(** With a separate history no revision is lost: a statement that
    deletes rows moves them to the history, the rows of both tables together
    stay the same, and so does the uniqueness of their ids. *)
Theorem history_keeps_rows (f : table -> table) (s : table * list row)
  (deleting : deletes_rows f) (ids : unique_ids s) :
  let s' := archiving true f s in rows s'.1 ++ s'.2 ≡ₚ rows s.1 ++ s.2 /\ unique_ids s'.
Proof.
  destruct s as [t h], (deleting t) as [P HP]. unfold unique_ids, archiving in *. cbn [fst snd] in *. rewrite HP.
  set (gone := filter (fun r => r ∉ _) (rows t)).
  assert (Hg : gone = filter (fun r => ~ P r = true) (rows t)).
  { apply filter_agree. intros r Hr. rewrite list_elem_of_filter. tauto. }
  rewrite fmap_app in ids. apply NoDup_app in ids as (Hr&Hd&Hh).
  assert (archive gone h = h ++ gone) as ->.
  { apply archive_spec.
    - rewrite Hg. by apply NoDup_ids_filter.
    - intros r r' [_ Hin]%list_elem_of_filter Hin'. intros He. apply (Hd (r_id r)); [by apply list_elem_of_fmap_2|].
      rewrite He. by apply list_elem_of_fmap_2. }
  assert (filter (fun r => P r = true) (rows t) ++ h ++ gone ≡ₚ rows t ++ h) as E.
  { rewrite Hg, (Permutation_app_comm h), (assoc_L (++)), filter_app_complement. done. }
  split; [done|]. rewrite E, fmap_app. apply NoDup_app. done.
Qed.

(** ** At work *)
Definition kv_row (id : Z) (name : string) (prev : Z) : row := MkRow id name (prev =? 0) false 0 prev 0 "v" "".
Definition three_rows : table := MkTable [kv_row 1 "compact_rev_key" 0; kv_row 2 "/a" 0; kv_row 3 "/a" 2] 3.

Lemma compact_join_exact_witness : Mysql.CompactSQL 3 three_rows = Compact 3 three_rows /\ (Compact 3 three_rows).1 = 1.
Proof.
  split; [|reflexivity]. apply compact_join_exact. apply (bool_decide_eq_true_1 (NoDup _)). reflexivity.
Defined.

Definition names_table (l : list string) : table := MkTable (imap (fun i n => kv_row (Z.of_nat (S i)) n 0) l) (Z.of_nat (length l)).

Lemma start_key_exact_witness :
  ListCurrent (names_table ["/a"; "/a-b"; "/b"]) (Mysql.TranslateStartKeyFunc ("/a" +:+ null)) "/c" 0 false =
  ListCurrent (names_table ["/a"; "/a-b"; "/b"]) ("/a" +:+ null) "/c" 0 false.
Proof.
  refine (proj1 (start_key_exact "/a" "/c" (Ascii.Ascii true true false false false true false false) (names_table ["/a"; "/a-b"; "/b"]) 0 0 false _ _)); [discriminate|].
  intros r c s Hr. cbn in Hr. rewrite !elem_of_cons, elem_of_nil in Hr.
  destruct Hr as [->|[->|[->|[]]]]; cbn; intros [=]; subst; discriminate.
Defined.

Lemma start_key_gap_witness :
  BetweenName ("/a" +:+ null) "/c" (kv_row 2 "/a!b" 0) = true /\
  BetweenName (Mysql.TranslateStartKeyFunc ("/a" +:+ null)) "/c" (kv_row 2 "/a!b" 0) = false.
Proof.
  apply (start_key_gap "/a" "/c" "b" (Ascii.ascii_of_nat 33) (Ascii.ascii_of_nat 35)); reflexivity.
Defined.

(** Another connection that fills every id as soon as it is drawn. *)
Definition filler (i : nat) (t : table) : table := (Fill (Sql.seq t) t).2.

Example twenty_fills : (Pgsql_Insert filler Bare "/a" true false 0 0 0 "v" (NoTx, three_rows)).1 = (0, Some (Plain ErrKeyExists)) /\
  (Pgsql_Insert filler Bare "/new" true false 0 0 0 "v" (NoTx, three_rows)).1 = (0, Some (Plain ErrKeyExists)).
Proof. split; reflexivity. Qed.

Lemma pgsql_insert_exact_witness :
  Pgsql_Insert (fun _ t => t) Bare "/b" true false 0 0 0 "v" (NoTx, three_rows) =
  ((4, None), (NoTx, MkTable (rows three_rows ++ [MkRow 4 "/b" true false 0 0 0 "v" ""]) 4)).
Proof.
  apply (pgsql_insert_exact "/b" true false 0 0 0 "v" three_rows). repeat constructor; cbn; lia.
Defined.

Lemma pgsql_retry_in_transaction_witness :
  (Pgsql_Insert filler Bare "/b" true false 0 0 0 "v" (InTx, three_rows)).1 = (0, Some in_failed_transaction).
Proof.
  rewrite (pgsql_retry_in_transaction filler "/b" true false 0 0 0 "v" three_rows); [reflexivity|].
  apply (bool_decide_eq_true_1 (taken _ _)). reflexivity.
Defined.

Lemma history_keeps_rows_witness :
  let s' := archiving true (fun t => (Compact 3 t).2) (three_rows, []) in rows s'.1 ++ s'.2 ≡ₚ rows three_rows.
Proof.
  pose proof (history_keeps_rows (fun t => (Compact 3 t).2) (three_rows, []) (Compact_deletes 3)) as H.
  rewrite app_nil_r in H. apply H. apply (bool_decide_eq_true_1 (NoDup _)). reflexivity.
Defined.
