(* ===== verification/StreamCheck.v ===== *)
(** * The check of an ingested object (pkg/streams/helper.go)

    Before a message changes the store its object is sent to the API server as
    a dry run.  What the server, the client library and the environment answer
    is a call of [aop]; decoding and English plurals are parameters.  The two
    requests that run in parallel share nothing and are made one after the
    other. *)
From S2P Require Import Prelude GoStrings Prog Objects.
From stdpp Require Import gmap.
From Stdlib Require Import Ascii.

(** The parts of an unstructured object that are read or set; [u_rest] is the
    rest of it. *)
Record Unstructured := MkUnstructured {
  u_GVK : GroupVersionKind;
  u_Name : string;
  u_Namespace : string;
  u_UID : string;
  u_Generation : Z;
  u_CreationTimestamp : option string;
  u_rest : string
}.

Record GroupVersionResource := MkGVR { r_Group : string; r_Version : string; r_Resource : string }.

(** A configuration of the client: a file, the service account of the pod, or
    a host. *)
Inductive rest_config : Type := FromFlags (path : string) | InClusterConfig | HostConfig (host : string).

Inductive lease_answer : Type := LeaseOwners (l : list string) | LeaseNotFound | LeaseErr (e : err).

Inductive aop : Type -> Type :=
  | ALookupEnv (name : string) : aop (option string)
  | AStatFile (path : string) : aop bool
  | ABuildConfig (c : rest_config) : aop gerr
  | ANewForConfig (c : rest_config) : aop gerr
  | AGetLease (uid : string) : aop lease_answer
  | ADryCreate (gvr : GroupVersionResource) (namespace : option string) (obj : Unstructured) : aop gerr
  | ADryUpdate (gvr : GroupVersionResource) (namespace : option string) (obj : Unstructured) : aop gerr
  | ADryDelete (gvr : GroupVersionResource) (namespace : option string) (name : string) : aop gerr.

Definition errorf (msg : string) (e : err) : err := ErrJoin [ErrOther msg; e].

(** ** [strings.Title] on ASCII text *)
Definition upper_char (c : ascii) : ascii :=
  let n := N_of_ascii c in if ((97 <=? n) && (n <=? 122))%N then ascii_of_N (n - 32) else c.
Definition is_separator (c : ascii) : bool :=
  let n := N_of_ascii c in
  negb (((97 <=? n) && (n <=? 122)) || ((65 <=? n) && (n <=? 90)) || ((48 <=? n) && (n <=? 57)) || (n =? 95))%N.
Fixpoint title_from (prev : ascii) (s : string) : string :=
  match s with
  | "" => ""
  | String c s => String (if is_separator prev then upper_char c else c) (title_from c s)
  end.
Definition Title (s : string) : string := title_from " " s.

Section helper.
Context (Plural : string -> string) (Decode : string -> Unstructured + err).

Definition decodeUnstructured (value : string) : option Unstructured :=
  if String.eqb value "" then None else match Decode value with inl obj => Some obj | inr _ => None end.

(** ** The resource *)
Definition known : list (string * GroupVersionKind) :=
  [("pods", MkGVK "" "v1" "Pod"); ("events", MkGVK "" "v1" "Event"); ("secrets", MkGVK "" "v1" "Secret");
   ("namespaces", MkGVK "" "v1" "Namespace"); ("replicasets", MkGVK "apps" "v1" "ReplicaSet");
   ("replicationcontrollers", MkGVK "" "v1" "ReplicationController"); ("jobs", MkGVK "batch" "v1" "Job");
   ("minions", MkGVK "" "v1" "Node");
   ("certificatesigningrequests", MkGVK "certificates.k8s.io" "v1" "CertificateSigningRequest")].

Definition unsupported_key (key : string) : err := ErrOther ("unsupported registry key for dry-run: " +:+ key).

(** The resource, the registry prefix, whether it is namespaced, and the kind. *)
Definition determineResourceAndGVK (decodedObj : option Unstructured) (key : string)
  : (string * string * bool * GroupVersionKind) + err :=
  match decodedObj with
  | Some obj =>
      let gvk := u_GVK obj in
      let '(registryPrefix, _, namespaced) := GetResourceMappingByGVK Plural gvk in
      let resourcePlural :=
        if HasPrefix registryPrefix "/registry/" then
          default "" (last (Split (TrimSuffix (TrimPrefix registryPrefix "/registry/") "/") "/"))
        else "" in
      inl (resourcePlural, registryPrefix, namespaced, gvk)
  | None =>
      if negb (HasPrefix key "/registry/") then inr (unsupported_key key)
      else
        let resourcePlural := default "" (head (Split (TrimPrefix key "/registry/") "/")) in
        if String.eqb resourcePlural "" then inr (unsupported_key key)
        else
          let gvk := match list_find (fun p => p.1 = resourcePlural) known with
                     | Some (_, (_, gvk)) => gvk
                     | None => MkGVK "" "v1" (Title (TrimSuffix resourcePlural "s"))
                     end in
          let '(registryPrefix, _, namespaced) := GetResourceMappingByGVK Plural gvk in
          inl (resourcePlural, registryPrefix, namespaced, gvk)
  end.

(** ** Name and namespace *)
Definition prefer (a b : string) : string := if String.eqb a "" then b else a.

Definition resolveNameNamespace (decodedObj : option Unstructured) (resourcePlural registryPrefix : string) (namespaced : bool) (key : string)
  : (string * string) + err :=
  let name := match decodedObj with Some obj => u_Name obj | None => "" end in
  let namespace := match decodedObj with Some obj => u_Namespace obj | None => "" end in
  if String.eqb resourcePlural "" && negb (HasPrefix key "/registry/") then inr (unsupported_key key)
  else
    let resourcePlural := if String.eqb resourcePlural "" then default "" (head (Split (TrimPrefix key "/registry/") "/")) else resourcePlural in
    let trimPrefix := if negb (String.eqb registryPrefix "") && HasPrefix registryPrefix "/registry/"
                      then TrimSuffix registryPrefix "/" +:+ "/" else "/registry/" +:+ resourcePlural +:+ "/" in
    let rel := TrimPrefix key trimPrefix in
    let relParts := if String.eqb rel "" then [] else Split rel "/" in
    let part i := default "" (relParts !! i) in
    let missing what kind := inr (ErrOther ("invalid " +:+ resourcePlural +:+ " key, " +:+ what +:+ " is missing for " +:+ kind +:+ ": " +:+ key)) in
    if namespaced then
      if String.eqb namespace "" && ((length relParts <? 2)%nat || String.eqb (part 0%nat) "") then missing "namespace" "namespaced"
      else if String.eqb name "" && ((length relParts <? 2)%nat || String.eqb (part 1%nat) "") then missing "name" "namespaced"
      else inl (prefer name (part 1%nat), prefer namespace (part 0%nat))
    else if String.eqb name "" && ((length relParts <? 1)%nat || String.eqb (part 0%nat) "") then missing "name" "clustered"
    else inl (prefer name (part 0%nat), namespace).

(** ** The requests *)
Definition aprog : Type -> Type := prog aop.

Definition wrap_config (msg : string) (c : rest_config) : aprog (rest_config + err) :=
  e <-! call (ABuildConfig c);;
  Ret (match e with Some e => inr (errorf msg e) | None => inl c end).

Definition buildRestConfig (kubeEndpoint : string) : aprog (rest_config + err) :=
  if String.eqb kubeEndpoint "" then
    kubeEnv <-! call (ALookupEnv "KUBECONFIG");;
    match kubeEnv with
    | Some kubeEnv =>
        if negb (String.eqb kubeEnv "") then wrap_config "failed to build kubeconfig" (FromFlags kubeEnv)
        else wrap_config "failed to create in-cluster config" InClusterConfig
    | None => wrap_config "failed to create in-cluster config" InClusterConfig
    end
  else
    file <-! call (AStatFile kubeEndpoint);;
    if file : bool then wrap_config "failed to build kubeconfig" (FromFlags kubeEndpoint) else Ret (inl (HostConfig kubeEndpoint)).

Definition prepareObjectToSend (operation : string) (decodedObj : option Unstructured) (value : string) : option Unstructured + err :=
  if negb (String.eqb operation "create") && negb (String.eqb operation "update") then inl None
  else
    match decodedObj with
    | Some obj => inl (Some obj)
    | None => match Decode value with
              | inl obj => inl (Some obj)
              | inr e => inr (errorf "failed to decode object for dry-run" e)
              end
    end.

Definition runLeaseCheckChan (decodedObj : option Unstructured) : aprog gerr :=
  match decodedObj with
  | Some obj =>
      if String.eqb (u_UID obj) "" then Ret None
      else
        lease <-! call (AGetLease (u_UID obj));;
        Ret (match lease with
             | LeaseNotFound => None
             | LeaseErr e => Some (errorf "kubernetes lease check failed" e)
             | LeaseOwners [] => None
             | LeaseOwners ors => if existsb (String.eqb (u_UID obj)) ors then None
                                  else Some (ErrOther "kubernetes lease owned by different object")
             end)
  | None => Ret None
  end.

(** The object of a create or an update is there ([prepareObjectToSend]). *)
Definition runDryRunChan (gvr : GroupVersionResource) (namespaced : bool) (namespace operation : string) (objToSend : option Unstructured) (name : string)
  : aprog gerr :=
  let ri := if namespaced then Some namespace else None in
  let failed e := option_map (errorf "kubernetes dry-run request failed") e in
  if String.eqb operation "create" then
    match objToSend with Some obj => e <-! call (ADryCreate gvr ri obj);; Ret (failed e) | None => Panic end
  else if String.eqb operation "update" then
    match objToSend with Some obj => e <-! call (ADryUpdate gvr ri obj);; Ret (failed e) | None => Panic end
  else if String.eqb operation "delete" then e <-! call (ADryDelete gvr ri name);; Ret (failed e)
  else Ret (Some (ErrOther ("unsupported operation for dry-run: " +:+ operation))).

Definition performKubernetesDryRun (kubeEndpoint key operation value : string) : aprog gerr :=
  let decodedObj := decodeUnstructured value in
  match determineResourceAndGVK decodedObj key with
  | inr e => Ret (Some e)
  | inl (resourcePlural, registryPrefix, namespaced, gvk) =>
      match resolveNameNamespace decodedObj resourcePlural registryPrefix namespaced key with
      | inr e => Ret (Some e)
      | inl (name, namespace) =>
          cfg <-! buildRestConfig kubeEndpoint;;
          match cfg with
          | inr e => Ret (Some e)
          | inl cfg =>
              derr <-! call (ANewForConfig cfg);;
              match derr with
              | Some e => Ret (Some (errorf "failed to create dynamic client" e))
              | None =>
                  match prepareObjectToSend operation decodedObj value with
                  | inr e => Ret (Some e)
                  | inl objToSend =>
                      leaseErr <-! runLeaseCheckChan decodedObj;;
                      dryErr <-! runDryRunChan (MkGVR (g_Group gvk) (g_Version gvk) resourcePlural) namespaced namespace operation objToSend name;;
                      Ret (match leaseErr with Some e => Some e | None => dryErr end)
                  end
              end
          end
      end
  end.
End helper.

(** ** The check of an ingested object: proofs

    What the dry run is asked about a key without an object, and that with an
    object it does not depend on the key. *)

Section check.
Context (Plural : string -> string) (Decode : string -> Unstructured + err).
Local Abbreviation check := (performKubernetesDryRun Plural Decode).

(** A part of a key. *)
Definition part_ok (s : string) : Prop := s <> "" /\ no_char "/"%char s = true.

Lemma resolve_decoded obj plural prefix namespaced key : HasPrefix key "/registry/" = true -> u_Name obj <> "" ->
  (namespaced = true -> u_Namespace obj <> "") ->
  resolveNameNamespace (Some obj) plural prefix namespaced key = inl (u_Name obj, u_Namespace obj).
Proof using Type.
  intros Hk Hn Hns. unfold resolveNameNamespace. rewrite Hk, andb_false_r. cbv zeta.
  apply String.eqb_neq in Hn as Hn'. rewrite Hn'. unfold prefer. rewrite Hn'. destruct namespaced; [|done].
  by rewrite (proj2 (String.eqb_neq _ _) (Hns eq_refl)).
Qed.

(** The check looks at the object only: when the value is an object with a
    name, and a namespace if its kind has one, the requests made are the same
    for every key, so an object that passes is then stored under whatever key,
    of whatever type, the message names. *)
Theorem check_ignores_key endpoint key key' operation value obj :
  Decode value = inl obj -> value <> "" -> HasPrefix key "/registry/" = true -> HasPrefix key' "/registry/" = true ->
  u_Name obj <> "" -> ((GetResourceMappingByGVK Plural (u_GVK obj)).2 = true -> u_Namespace obj <> "") ->
  check endpoint key operation value = check endpoint key' operation value.
Proof using Type.
  intros Hd Hv Hk Hk' Hn Hns. unfold performKubernetesDryRun, decodeUnstructured. rewrite (proj2 (String.eqb_neq _ _) Hv), Hd. cbv zeta.
  unfold determineResourceAndGVK. destruct (GetResourceMappingByGVK Plural (u_GVK obj)) as [[prefix url] namespaced].
  by rewrite !resolve_decoded by done.
Qed.

(** ** Keys *)
Lemma key_parts plural rest : no_char "/"%char plural = true ->
  HasPrefix ("/registry/" +:+ plural +:+ "/" +:+ rest) "/registry/" = true /\
  head (Split (TrimPrefix ("/registry/" +:+ plural +:+ "/" +:+ rest) "/registry/") "/") = Some plural.
Proof using Type.
  intros Hp. rewrite HasPrefix_app. split; [done|]. unfold TrimPrefix. rewrite HasPrefix_app, drop_str_app.
  destruct (split_parts rest "/"%char) as (l & Hne & Hl & Hrest).
  replace (plural +:+ "/" +:+ rest) with (GoStrings.Join (plural :: l) (String "/"%char "")).
  - change "/" with (String "/"%char ""). rewrite Split_Join; [done|done|by constructor].
  - rewrite Hrest. by destruct l.
Qed.

Lemma split_two a b : no_char "/"%char a = true -> no_char "/"%char b = true -> Split (a +:+ "/" +:+ b) "/" = [a; b].
Proof using Type.
  intros Ha Hb. change (a +:+ "/" +:+ b) with (GoStrings.Join [a; b] (String "/"%char "")). change "/" with (String "/"%char "").
  apply Split_Join; [done|by repeat constructor].
Qed.

Lemma split_one a : no_char "/"%char a = true -> Split a "/" = [a].
Proof using Type.
  intros Ha. change a with (GoStrings.Join [a] (String "/"%char "")) at 1. change "/" with (String "/"%char "").
  apply Split_Join; [done|by repeat constructor].
Qed.

(** The rest of a key of a known type. *)
Definition object_path (namespaced : bool) (ns name : string) : string := if namespaced then ns +:+ "/" +:+ name else name.

Lemma known_rows : Forall (fun '(plural, gvk) => no_char "/"%char plural = true /\ plural <> "" /\
  list_find (fun p => p.1 = plural) known <> None /\ exists url namespaced,
  GetResourceMappingByGVK Plural gvk = ("/registry/" +:+ plural +:+ "/", url, namespaced)) known.
Proof using Type. unfold known. repeat (apply Forall_cons; split; [split; [done|]; split; [done|]; split; [done|]; by eexists _, _|]). by apply Forall_nil. Qed.

Lemma known_find plural gvk : (plural, gvk) ∈ known -> exists i, list_find (fun p => p.1 = plural) known = Some (i, (plural, gvk)).
Proof using Type.
  intros Hin. unfold known in *.
  repeat (apply elem_of_cons in Hin as [[= -> ->]|Hin]; [by eexists|]). by apply elem_of_nil in Hin.
Qed.

Lemma resolve_key plural namespaced ns name : part_ok ns -> part_ok name ->
  resolveNameNamespace None plural ("/registry/" +:+ plural +:+ "/") namespaced ("/registry/" +:+ plural +:+ "/" +:+ object_path namespaced ns name)
    = inl (name, if namespaced then ns else "").
Proof using Type.
  intros [Hns1 Hns2] [Hn1 Hn2]. unfold resolveNameNamespace. cbv zeta. rewrite HasPrefix_app, andb_false_r.
  assert (Ht : TrimSuffix ("/registry/" +:+ plural +:+ "/") "/" +:+ "/" = "/registry/" +:+ plural +:+ "/").
  { replace ("/registry/" +:+ plural +:+ "/") with (("/registry/" +:+ plural) +:+ String "/"%char "") by (by rewrite string_app_assoc).
    change "/" with (String "/"%char "") at 2 4. by rewrite TrimSuffix_char. }
  rewrite Ht, HasPrefix_app, (proj2 (String.eqb_neq ("/registry/" +:+ plural +:+ "/") "")) by done. cbn [negb andb].
  assert (Hrel : TrimPrefix ("/registry/" +:+ plural +:+ "/" +:+ object_path namespaced ns name) ("/registry/" +:+ plural +:+ "/") = object_path namespaced ns name).
  { replace ("/registry/" +:+ plural +:+ "/" +:+ object_path namespaced ns name) with (("/registry/" +:+ plural +:+ "/") +:+ object_path namespaced ns name)
      by (by rewrite !string_app_assoc). unfold TrimPrefix. by rewrite HasPrefix_app, drop_str_app. }
  rewrite Hrel. apply String.eqb_neq in Hns1 as E1, Hn1 as E2. destruct namespaced; cbn [object_path].
  - rewrite (proj2 (String.eqb_neq (ns +:+ "/" +:+ name) "")) by (by destruct ns). rewrite split_two by done. cbn.
    change (String.eqb ns EmptyString) with (String.eqb ns ""). change (String.eqb name EmptyString) with (String.eqb name ""). by rewrite E1, E2.
  - rewrite E2, split_one by done. cbn. by rewrite E2.
Qed.

(** A deletion that comes without an object is checked for the object its
    key names: for every type the check knows, after the client is set up the
    only request is a dry run of deleting that name, in its namespace when the
    type has namespaces. *)
Theorem check_delete_by_key endpoint plural gvk ns name : (plural, gvk) ∈ known -> part_ok ns -> part_ok name ->
  exists url namespaced, GetResourceMappingByGVK Plural gvk = ("/registry/" +:+ plural +:+ "/", url, namespaced) /\
  check endpoint ("/registry/" +:+ plural +:+ "/" +:+ object_path namespaced ns name) "delete" "" =
    (cfg <-! buildRestConfig endpoint;;
     match cfg with
     | inr e => Ret (Some e)
     | inl cfg =>
         derr <-! call (ANewForConfig cfg);;
         match derr with
         | Some e => Ret (Some (errorf "failed to create dynamic client" e))
         | None =>
             e <-! call (ADryDelete (MkGVR (g_Group gvk) (g_Version gvk) plural) (if namespaced then Some ns else None) name);;
             Ret (option_map (errorf "kubernetes dry-run request failed") e)
         end
     end).
Proof using Type.
  intros Hin Hns Hn. pose proof known_rows as Hrows. rewrite Forall_forall in Hrows. specialize (Hrows _ Hin).
  destruct Hrows as (Hp & Hpne & _ & url & namespaced & Hmap). exists url, namespaced. split; [exact Hmap|].
  destruct (known_find _ _ Hin) as [i Hfind].
  unfold performKubernetesDryRun, determineResourceAndGVK. cbn [decodeUnstructured String.eqb]. cbv zeta.
  destruct (key_parts plural (object_path namespaced ns name) Hp) as [-> ->]. cbn [negb from_option id].
  unfold decodeUnstructured. cbn [String.eqb]. rewrite (proj2 (String.eqb_neq _ _) Hpne), Hfind, Hmap, resolve_key by done.
  by destruct namespaced.
Qed.

(** A deletion of an object of a custom resource that comes without the
    object is always refused before any request: the first part of its key is
    the group, which is taken for the resource, and the namespace is then not
    found. *)
Theorem check_custom_delete_refused endpoint group rest operation prefix url :
  no_char "/"%char group = true -> group <> "" -> list_find (fun p => p.1 = group) known = None ->
  GetResourceMappingByGVK Plural (MkGVK "" "v1" (Title (TrimSuffix group "s"))) = ("/registry/" +:+ prefix +:+ "/", url, true) ->
  HasPrefix ("/registry/" +:+ group +:+ "/" +:+ rest) ("/registry/" +:+ prefix +:+ "/") = false ->
  exists e, check endpoint ("/registry/" +:+ group +:+ "/" +:+ rest) operation "" = Ret (Some e).
Proof using Type.
  intros Hg Hne Hfind Hmap Hpre. unfold performKubernetesDryRun, determineResourceAndGVK, decodeUnstructured. cbn [String.eqb]. cbv zeta.
  destruct (key_parts group rest Hg) as [Hk ->]. rewrite Hk. cbn [negb default from_option id].
  rewrite (proj2 (String.eqb_neq _ _) Hne), Hfind, Hmap. unfold resolveNameNamespace. cbv zeta. rewrite Hk, andb_false_r.
  assert (Ht : TrimSuffix ("/registry/" +:+ prefix +:+ "/") "/" +:+ "/" = "/registry/" +:+ prefix +:+ "/").
  { replace ("/registry/" +:+ prefix +:+ "/") with (("/registry/" +:+ prefix) +:+ String "/"%char "") by (by rewrite string_app_assoc).
    change "/" with (String "/"%char "") at 2 4. by rewrite TrimSuffix_char. }
  rewrite Ht, HasPrefix_app, (proj2 (String.eqb_neq ("/registry/" +:+ prefix +:+ "/") "")) by done. cbn [negb andb].
  set (key := "/registry/" +:+ group +:+ "/" +:+ rest).
  assert (Hrel : TrimPrefix key ("/registry/" +:+ prefix +:+ "/") = key) by (unfold TrimPrefix, key; by rewrite Hpre). rewrite !Hrel.
  assert (Hs : exists l, Split key "/" = "" :: l) by (by eexists). destruct Hs as [l Hs].
  rewrite (proj2 (String.eqb_neq key "")) by done. rewrite Hs. cbn. rewrite orb_true_r. by eexists.
Qed.
End check.

(** Nodes are stored under the name minions, and that name is what the API
    server is asked for, where it serves them as nodes. *)
Lemma node_checked_as_minions Plural obj key : u_GVK obj = MkGVK "" "v1" "Node" ->
  determineResourceAndGVK Plural (Some obj) key = inl ("minions", "/registry/minions/", false, MkGVK "" "v1" "Node") /\
  (GetResourceMappingByGVK Plural (MkGVK "" "v1" "Node")).1.2 = "/api/v1/nodes".
Proof. intros Hg. unfold determineResourceAndGVK. rewrite Hg. by vm_compute. Qed.

(** ** Witnesses *)
Definition pod_a : Unstructured := MkUnstructured (MkGVK "" "v1" "Pod") "a" "default" "" 0 None "".
Definition plus_s (s : string) : string := s +:+ "s".

Lemma check_ignores_key_witness :
  performKubernetesDryRun plus_s (fun _ => inl pod_a) "" "/registry/pods/default/a" "update" "{}" =
  performKubernetesDryRun plus_s (fun _ => inl pod_a) "" "/registry/clusterroles/admin" "update" "{}".
Proof.
  apply (check_ignores_key plus_s (fun _ => inl pod_a) "" "/registry/pods/default/a" "/registry/clusterroles/admin" "update" "{}" pod_a).
  all: try reflexivity; discriminate.
Defined.

Lemma check_delete_by_key_witness : exists url namespaced,
  GetResourceMappingByGVK plus_s (MkGVK "batch" "v1" "Job") = ("/registry/jobs/", url, namespaced) /\ namespaced = true /\
  performKubernetesDryRun plus_s (fun _ => inr (ErrOther "")) "" ("/registry/" +:+ "jobs" +:+ "/" +:+ object_path namespaced "ns" "j") "delete" "" <> Panic.
Proof.
  destruct (check_delete_by_key plus_s (fun _ => inr (ErrOther "")) "" "jobs" (MkGVK "batch" "v1" "Job") "ns" "j") as (url & namespaced & H1 & H2).
  - do 6 (apply elem_of_cons; right). apply elem_of_cons. by left.
  - by split.
  - by split.
  - exists url, namespaced. split; [exact H1|]. split; [by injection H1|]. rewrite H2. vm_compute. discriminate.
Defined.

Lemma check_custom_delete_refused_witness : exists e,
  performKubernetesDryRun plus_s (fun _ => inr (ErrOther "")) "" ("/registry/" +:+ "ex.org" +:+ "/" +:+ "widgets/default/w") "delete" "" = Ret (Some e).
Proof.
  apply (check_custom_delete_refused plus_s (fun _ => inr (ErrOther "")) "" "ex.org" "widgets/default/w" "delete" "ex.orgs"
    "/api/v1/namespaces/{namespace}/ex.orgs"); [reflexivity|discriminate|reflexivity..].
Defined.
