(* ===== verification/Streams.v ===== *)
(** * Events in and out through Kafka (pkg/streams/kafka.go, drivers/register.go)

    The producers and the registry events are sent to; the handling of one
    message of the ingress topic as a tree of calls; and the reader goroutine
    with its pool as a step relation over one partition.  What the brokers, the
    API server and the backend answer is a call; decoding and the texts of
    errors are parameters.  A reader of the client library hands out the
    messages in order, starting from the committed offset, and only errors once
    it is closed; the last commit is the one that counts. *)
From S2P Require Import Prelude Types GoStrings Prog Backend Objects StreamCheck.
From stdpp Require Import gmap.
Local Open Scope Z_scope.

(** ** Producers *)
Inductive KafkaProducer : Type := MkProducer (name : string) (dlqWriter : option KafkaProducer).

(** The calls of a writer of the client library. *)
Inductive wop : Type -> Type :=
  | WWriteMessages (name key value : string) (headers : list (string * string)) : wop gerr
  | WClose (name : string) : wop gerr.

Section producer.
Context (Error : err -> string).

(** The result is what the callback, when there is one, is called with. *)
Fixpoint KafkaProducer_SendMessage (p : KafkaProducer) (key value : string) (errorCallback : bool) (headers : list (string * string)) : prog wop gerr :=
  match p with
  | MkProducer name dlqWriter =>
      e <-! call (WWriteMessages name key value headers);;
      match e with
      | None => Ret None
      | Some e =>
          if errorCallback then Ret (Some e)
          else
            match dlqWriter with
            | Some d => _ <-! KafkaProducer_SendMessage d key value true [("x-error-reason", Error e)];; Ret None
            | None => Ret None
            end
      end
  end.

(** Closing goes on to the producer behind it, which may be nil. *)
Fixpoint Close (p : KafkaProducer) : prog wop gerr :=
  match p with
  | MkProducer name dlqWriter =>
      e <-! call (WClose name);;
      e' <-! match dlqWriter with Some d => Close d | None => Panic end;;
      Ret (match omap id [e; e'] with [] => None | es => Some (ErrJoin es) end)
  end.

(** ** The registry of producers *)
Definition producers : Type := gmap string (list KafkaProducer).
Definition RegisterProducer (producer : string) (event : KafkaProducer) (ps : producers) : producers :=
  <[producer := default [] (ps !! producer) ++ [event]]> ps.
Definition GetProducers (producer : string) (ps : producers) : list KafkaProducer := default [] (ps !! producer).

(** The message an event becomes. *)
Definition event_message (e : Event) : option (string * string) :=
  match evKV e, evPrevKV e with
  | Some kv, _ => Some (kvKey kv, kvValue kv)
  | None, Some prev => Some (kvKey prev, "")
  | None, None => None
  end.

Fixpoint send_all (l : list KafkaProducer) (e : Event) : prog wop unit :=
  match l with
  | [] => Ret tt
  | p :: l =>
      _ <-! match event_message e with Some (k, v) => KafkaProducer_SendMessage p k v false [] | None => Ret None end;;
      send_all l e
  end.

Fixpoint SendMessage (producer : string) (events : list Event) (ps : producers) : prog wop unit :=
  match events with
  | [] => Ret tt
  | e :: events => _ <-! send_all (GetProducers producer ps) e;; SendMessage producer events ps
  end.
End producer.

(** ** One message *)
Record Message := MkMessage { Offset : Z; m_Key : string; m_Value : string }.

Inductive kop : Type -> Type :=
  | KApi {R} (o : aop R) : kop R
  | KBackend {R} (o : bop R) : kop R
  | KWriter {R} (o : wop R) : kop R
  | KCommitMessages (offset : Z) : kop gerr
  | KCloseReader : kop unit
  | KNow : kop string
  | KUUID : kop string.

Definition kprog : Type -> Type := prog kop.

Fixpoint lift {E F : Type -> Type} (f : forall R, E R -> F R) {A} (p : prog E A) : prog F A :=
  match p with
  | Ret a => Ret a
  | Panic => Panic
  | Call o k => Call (f _ o) (fun r => lift f (k r))
  end.

Section consumer.
Context (Plural : string -> string) (Decode : string -> Unstructured + err) (Marshal : Unstructured -> string + err)
  (decoder : otype -> string -> object + err) (Error : err -> string).
Variables (dlqWriter : option KafkaProducer) (kubernetesAPIEndpoint : string).

(** The message is put into the dead letter queue, when there is one; [true]
    when that failed. *)
Definition dead_letter (mm : Message) (reason : string) : kprog bool :=
  match dlqWriter with
  | Some d => e <-! lift (@KWriter) (KafkaProducer_SendMessage Error d (m_Key mm) (m_Value mm) true [("x-error-reason", reason)]);; Ret (is_err e)
  | None => Ret false
  end.

(** Giving up; the channel [fatal] that is written too is read by nobody. *)
Definition leave_reader (async : bool) : kprog bool :=
  _ <-! (if async then call KCloseReader else Ret tt);; Ret true.

Definition commit (mm : Message) : kprog bool := e <-! call (KCommitMessages (Offset mm));; Ret (is_err e).

Definition reject (mm : Message) (async : bool) (reason : string) : kprog bool :=
  br <-! dead_letter mm reason;; if br : bool then leave_reader async else commit mm.

(** The defaults of a new object. *)
Definition default_object (obj : Unstructured) : kprog Unstructured :=
  created <-! (match u_CreationTimestamp obj with Some t => Ret t | None => call KNow end);;
  uid <-! (if String.eqb (u_UID obj) "" then call KUUID else Ret (u_UID obj));;
  let '(_, _, namespaced) := GetResourceMappingByGVK Plural (u_GVK obj) in
  Ret (MkUnstructured (u_GVK obj) (u_Name obj)
    (if String.eqb (u_Namespace obj) "" && namespaced then "default" else u_Namespace obj)
    uid (if u_Generation obj =? 0 then 1 else u_Generation obj) (Some created) (u_rest obj)).

(** The write a message asks for.  [None] is the return before the commit. *)
Definition apply_message (key operation : string) (mm : Message) : kprog (option gerr) :=
  if String.eqb operation "create" then
    match Decode (m_Value mm) with
    | inr _ => Ret None
    | inl obj =>
        obj <-! default_object obj;;
        match Marshal obj with
        | inr _ => Ret None
        | inl objNewValue => r <-! call (KBackend (BCreate key objNewValue 0));; Ret (Some r.2)
        end
    end
  else if String.eqb operation "update" then
    match decoder (GetObjectByKey key) (m_Value mm) with
    | inr _ => Ret None
    | inl obj =>
        let (revision, bad) := ParseInt (GetResourceVersionByObject obj) in
        if bad : bool then Ret None
        else r <-! call (KBackend (BUpdate key (m_Value mm) revision 0));; Ret (Some r.2)
    end
  else if String.eqb operation "delete" then r <-! call (KBackend (BDelete key 0));; Ret (Some r.2)
  else Ret (Some (Some (ErrOther ("unsupported operation: " +:+ operation)))).

(** [true] asks for the reader to be left. *)
Definition handleMessage (mm : Message) (async : bool) : kprog bool :=
  match Split (m_Key mm) "#" with
  | [key; operation] =>
      err <-! lift (@KApi) (performKubernetesDryRun Plural Decode kubernetesAPIEndpoint key operation (m_Value mm));;
      match err with
      | Some e => reject mm async (Error e)
      | None =>
          backendErr <-! apply_message key operation mm;;
          match backendErr with
          | None => Ret false
          | Some (Some e) => reject mm async (Error e)
          | Some None => commit mm
          end
      end
  | _ => reject mm async ("invalid key format: " +:+ m_Key mm)
  end.
End consumer.

(** ** What was asked and answered *)
(** Of an answer of the backend without an error, the key and whether it
    changed anything. *)
Inductive kevent : Type :=
  | EvApi
  | EvBackend (write : option (string * bool))
  | EvWriteMessages (name key value : string) (headers : list (string * string)) (e : gerr)
  | EvCloseWriter (name : string) (e : gerr)
  | EvCommitMessages (offset : Z) (e : gerr)
  | EvCloseReader
  | EvLocal.

Definition ev_backend {R} (o : bop R) : R -> option (string * bool) :=
  match o in bop R return R -> option (string * bool) with
  | BCreate k _ _ => fun r => if is_err r.2 then None else Some (k, true)
  | BUpdate k _ _ _ => fun r => if is_err r.2 then None else Some (k, r.1.2)
  | BDelete k _ => fun r => if is_err r.2 then None else Some (k, r.1.2)
  | _ => fun _ => None
  end.

Definition ev_writer {R} (o : wop R) : R -> kevent :=
  match o in wop R return R -> kevent with
  | WWriteMessages name k v headers => EvWriteMessages name k v headers
  | WClose name => EvCloseWriter name
  end.

Definition Ev {R} (o : kop R) : R -> kevent :=
  match o in kop R return R -> kevent with
  | KApi _ => fun _ => EvApi
  | KBackend b => fun r => EvBackend (ev_backend b r)
  | KWriter w => fun r => ev_writer w r
  | KCommitMessages off => EvCommitMessages off
  | KCloseReader => fun _ => EvCloseReader
  | KNow | KUUID => fun _ => EvLocal
  end.

(** The calls of a handler with arbitrary answers; [None] is a panic. *)
Inductive traces {A} : kprog A -> list kevent -> option A -> Prop :=
  | tr_ret a : traces (Ret a) [] (Some a)
  | tr_panic : traces Panic [] None
  | tr_call R (o : kop R) k r l a : traces (k r) l a -> traces (Call o k) (Ev o r :: l) a.

(** The offset a successful commit was for. *)
Definition ev_commit (ev : kevent) : option Z :=
  match ev with EvCommitMessages off None => Some off | _ => None end.

Definition ev_close (ev : kevent) : bool := match ev with EvCloseReader => true | _ => false end.

(** ** The reader *)
Section reader.
Context (Plural : string -> string) (Decode : string -> Unstructured + err) (Marshal : Unstructured -> string + err)
  (decoder : otype -> string -> object + err) (Error : err -> string).
Variables (dlqWriter : option KafkaProducer) (kubernetesAPIEndpoint : string) (validationPoolSize : Z) (log : list (string * string)).

(** [c_pos] is the next message of the current reader; [c_history] records the
    messages that were handled. *)
Record consumer := MkConsumer {
  c_pos : nat; c_committed : nat; c_inflight : list nat; c_closed : bool; c_history : list (nat * list kevent * bool)
}.

Definition pool : Z := if validationPoolSize <=? 0 then 1 else validationPoolSize.
Definition pooled : bool := pool >? 1.
Definition message (i : nat) (kv : string * string) : Message := MkMessage (Z.of_nat i) kv.1 kv.2.

Definition after_commits (l : list kevent) (committed : nat) : nat :=
  match last (omap ev_commit l) with Some off => S (Z.to_nat off) | None => committed end.

(** A message is fetched, or one is done with.  Without a pool the reader is
    left when the handler asks for it, and the next one starts from the
    committed offset; with a pool nobody looks at what the handler returns. *)
Inductive cstep : consumer -> consumer -> Prop :=
  | c_fetch c kv : c_closed c = false -> Z.of_nat (length (c_inflight c)) < pool -> log !! c_pos c = Some kv ->
      cstep c (MkConsumer (S (c_pos c)) (c_committed c) (c_inflight c ++ [c_pos c]) false (c_history c))
  | c_finish c l1 i l2 kv l b :
      c_inflight c = l1 ++ i :: l2 -> log !! i = Some kv ->
      traces (handleMessage Plural Decode Marshal decoder Error dlqWriter kubernetesAPIEndpoint (message i kv) pooled) l (Some b) ->
      let committed := after_commits l (c_committed c) in
      let left := negb pooled && b in
      cstep c (MkConsumer (if left then committed else c_pos c) committed (l1 ++ l2)
                 (negb left && (c_closed c || existsb ev_close l)) (c_history c ++ [(i, l, b)])).

(** A reader that starts. *)
Definition started (offset : nat) : consumer := MkConsumer offset offset [] false [].
End reader.
