(* ===== verification/StreamProofs.v ===== *)
(** * Events through Kafka: proofs

    What becomes of a message below the committed offset, with and without a
    pool of workers, and what the check before it looks at. *)
From S2P Require Import Prelude Types GoStrings Prog Backend Objects StreamCheck Streams.
From stdpp Require Import gmap.
From Stdlib Require Import Ascii.
Local Open Scope Z_scope.

(** ** Traces *)
Lemma traces_inv {A} (p : kprog A) l b : traces p l b ->
  match p with
  | Ret a => l = [] /\ b = Some a
  | Panic => l = [] /\ b = None
  | Call o k => exists r l', l = Ev o r :: l' /\ traces (k r) l' b
  end.
Proof. destruct 1; eauto. Qed.

Lemma traces_Ret {A} (a : A) l b : traces (Ret a) l b -> l = [] /\ b = Some a.
Proof. apply (traces_inv (Ret a)). Qed.

Lemma traces_Panic {A} l (b : option A) : traces Panic l b -> l = [] /\ b = None.
Proof. apply (traces_inv Panic). Qed.

Lemma traces_bind {A B} (p : kprog A) (f : A -> kprog B) l b : traces (pbind p f) l b ->
  (exists l1 l2 a, l = l1 ++ l2 /\ traces p l1 (Some a) /\ traces (f a) l2 b) \/ (traces p l None /\ b = None).
Proof.
  revert l. induction p as [a| |R o k IH]; intros l; cbn [pbind].
  - intros Hf. left. exists [], l, a. split; [done|]. split; [constructor|done].
  - intros [-> ->]%traces_Panic. right. split; [constructor|done].
  - intros (r & l' & -> & Ht)%traces_inv. apply IH in Ht as [(l1 & l2 & a & -> & H1 & H2)|[H1 ->]].
    + left. exists (Ev o r :: l1), l2, a. split; [done|]. split; [by constructor|done].
    + right. split; [by constructor|done].
Qed.

Lemma traces_bind_Some {A B} (p : kprog A) (f : A -> kprog B) l b : traces (pbind p f) l (Some b) ->
  exists l1 l2 a, l = l1 ++ l2 /\ traces p l1 (Some a) /\ traces (f a) l2 (Some b).
Proof. by intros [?|[_ ?]]%traces_bind. Qed.

(** One call and what follows. *)
Lemma traces_call {A R} (o : kop R) (f : R -> kprog A) l b : traces (pbind (call o) f) l b ->
  exists r l', l = Ev o r :: l' /\ traces (f r) l' b.
Proof. apply (traces_inv (Call o f)). Qed.

(** Calls of one kind only. *)
Lemma traces_lift {E : Type -> Type} (f : forall R, E R -> kop R) {A} (p : prog E A) l a : traces (lift f p) l a ->
  Forall (fun ev => exists R (o : E R) (r : R), ev = Ev (f R o) r) l.
Proof.
  revert l. induction p as [x| |R o k IH]; intros l; cbn [lift].
  - by intros [-> _]%traces_Ret.
  - intros [-> _]%traces_Panic. constructor.
  - intros (r & l' & -> & Ht)%traces_inv. constructor; [by eexists _, _, _|by eapply IH].
Qed.

(** ** What a message can come to *)
(** An answer of the backend without an error, with whether it changed anything. *)
Definition ev_write (ev : kevent) : option (string * bool) :=
  match ev with EvBackend w => w | _ => None end.

(** A message taken by a topic. *)
Definition ev_dead (ev : kevent) : option (string * string) :=
  match ev with EvWriteMessages _ k v _ None => Some (k, v) | _ => None end.

(** No commit and no close. *)
Definition quiet (l : list kevent) : Prop := omap ev_commit l = [] /\ existsb ev_close l = false.

Lemma quiet_app l1 l2 : quiet l1 -> quiet l2 -> quiet (l1 ++ l2).
Proof. intros [H1 H2] [H3 H4]. split; [by rewrite omap_app, H1, H3|by rewrite existsb_app, H2, H4]. Qed.

Lemma quiet_one ev : ev_commit ev = None -> ev_close ev = false -> quiet [ev].
Proof. intros H1 H2. split; simpl; [by rewrite H1|by rewrite H2]. Qed.

Lemma quiet_nil : quiet [].
Proof. done. Qed.

Lemma quiet_cons ev l : ev_commit ev = None -> ev_close ev = false -> quiet l -> quiet (ev :: l).
Proof. intros H1 H2 H3. apply (quiet_app [ev]); [by apply quiet_one|done]. Qed.

Lemma quiet_api {A} (p : prog aop A) l a : traces (lift (@KApi) p) l a -> quiet l.
Proof.
  intros Ht%traces_lift. induction Ht as [|ev l (R & o & r & ->) _ IH]; [apply quiet_nil|by apply quiet_cons].
Qed.

Create HintDb streams.
#[export] Hint Resolve quiet_app quiet_nil quiet_cons quiet_api : streams.

Section message.
Context (Plural : string -> string) (Decode : string -> Unstructured + err) (Marshal : Unstructured -> string + err)
  (decoder : otype -> string -> object + err) (Error : err -> string).
Variables (dlqWriter : option KafkaProducer) (endpoint : string).

(** The value cannot be turned into a write; the check has already seen that
    the object of a create can be decoded. *)
Definition unreadable (mm : Message) : Prop :=
  exists key operation, Split (m_Key mm) "#" = [key; operation] /\
    ((operation = "create" /\ exists obj e, Marshal obj = inr e) \/
     (operation = "update" /\ match decoder (GetObjectByKey key) (m_Value mm) with
                              | inr _ => True
                              | inl obj => (ParseInt (GetResourceVersionByObject obj)).2 = true
                              end)).

Definition settled (mm : Message) (l : list kevent) : Prop :=
  (exists key operation ok, Split (m_Key mm) "#" = [key; operation] /\ Some (key, ok) ∈ (ev_write <$> l)) \/
  Some (m_Key mm, m_Value mm) ∈ (ev_dead <$> l) \/ dlqWriter = None \/ unreadable mm.

Lemma settled_app mm l1 l2 : settled mm l1 \/ settled mm l2 -> settled mm (l1 ++ l2).
Proof using Type.
  unfold settled. rewrite !fmap_app. setoid_rewrite elem_of_app.
  intros [[(k & o & ok & H1 & H2)|[H|[H|H]]]|[(k & o & ok & H1 & H2)|[H|[H|H]]]]; eauto 10.
Qed.

Lemma commit_trace mm l b : traces (commit mm) l (Some b) ->
  existsb ev_close l = false /\ omap ev_commit l = (if b then [] else [Offset mm]).
Proof using Type.
  unfold commit. intros (r & l' & -> & [-> [= ->]]%traces_Ret)%traces_call. split; [done|]. by destruct r.
Qed.

Lemma leave_reader_trace async l b : traces (leave_reader async) l (Some b) ->
  b = true /\ omap ev_commit l = [] /\ existsb ev_close l = async.
Proof using Type.
  unfold leave_reader. destruct async.
  - by intros (r & l' & -> & [-> [= ->]]%traces_Ret)%traces_call.
  - by intros [-> [= ->]]%traces_Ret.
Qed.

Lemma dead_letter_trace mm reason l br : traces (dead_letter Error dlqWriter mm reason) l (Some br) ->
  quiet l /\ (br = false -> settled mm l).
Proof using Type.
  unfold dead_letter, settled. destruct dlqWriter as [[name d]|]; [|intros [-> _]%traces_Ret; split; [done|by auto]].
  intros (l1 & l2 & e & -> & Hw & [-> [= ->]]%traces_Ret)%traces_bind_Some. rewrite app_nil_r. cbn in Hw.
  apply traces_inv in Hw as (r & l' & -> & Hr). destruct r as [e'|]; apply traces_Ret in Hr as [-> [= ->]].
  - by split.
  - split; [done|]. intros _. right. left. by apply elem_of_cons; left.
Qed.

Lemma reject_trace mm async reason l b : traces (reject Error dlqWriter mm async reason) l (Some b) ->
  (async = false -> existsb ev_close l = false) /\
  (if b then omap ev_commit l = [] else omap ev_commit l = [Offset mm] /\ settled mm l).
Proof using Type.
  unfold reject. intros (l1 & l2 & br & -> & [[Hc1 Hq1] Hs]%dead_letter_trace & Ht)%traces_bind_Some.
  rewrite existsb_app, omap_app, Hc1, Hq1. destruct br.
  - apply leave_reader_trace in Ht as (-> & -> & ->). by split.
  - apply commit_trace in Ht as [-> ->]. split; [done|]. destruct b; [done|]. split; [done|]. apply settled_app. left. by apply Hs.
Qed.

Lemma default_object_quiet obj l a : traces (default_object Plural obj) l a -> quiet l.
Proof using Type.
  unfold default_object.
  assert (Hnow : forall l a, traces (match u_CreationTimestamp obj with Some t => Ret t | None => call KNow end) l a -> quiet l).
  { intros l' a'. destruct (u_CreationTimestamp obj); [by intros [-> _]%traces_Ret|].
    intros (r & l2 & -> & [-> _]%traces_Ret)%traces_inv. by apply quiet_one. }
  assert (Huid : forall l a, traces (if String.eqb (u_UID obj) "" then call KUUID else Ret (u_UID obj)) l a -> quiet l).
  { intros l' a'. destruct (String.eqb _ _); [|by intros [-> _]%traces_Ret].
    intros (r & l2 & -> & [-> _]%traces_Ret)%traces_inv. by apply quiet_one. }
  intros [(l1 & l2 & t & -> & H1%Hnow & Ht)|[H1%Hnow _]]%traces_bind; [|done]. apply quiet_app; [done|].
  apply traces_bind in Ht as [(l3 & l4 & u & -> & H2%Huid & Ht)|[H2%Huid _]]; [|done]. apply quiet_app; [done|].
  destruct (GetResourceMappingByGVK Plural (u_GVK obj)) as [[? ?] ?]. by apply traces_Ret in Ht as [-> _].
Qed.

Lemma apply_trace key operation mm l r : Split (m_Key mm) "#" = [key; operation] ->
  (operation = "create" -> exists obj, Decode (m_Value mm) = inl obj) ->
  traces (apply_message Plural Decode Marshal decoder key operation mm) l (Some r) ->
  quiet l /\ match r with
             | None => unreadable mm
             | Some None => settled mm l
             | Some (Some _) => True
             end.
Proof using Type.
  intros Hsplit Hdec. unfold apply_message.
  assert (Hw : forall R (o : bop R) (res : R -> gerr) (l : list kevent),
    (forall x, is_err (res x) = false -> exists ok, ev_write (Ev (KBackend o) x) = Some (key, ok)) ->
    traces (r <-! call (KBackend o);; Ret (Some (res r))) l (Some r) ->
    quiet l /\ match r with None => unreadable mm | Some None => settled mm l | Some (Some _) => True end).
  { intros R o res l' Hres (x & l2 & -> & [-> [= ->]]%traces_Ret)%traces_call. split; [by apply quiet_one|].
    destruct (res x) as [e|] eqn:E; [done|]. destruct (Hres x) as [ok Hok]; [by rewrite E|]. left. exists key, operation, ok.
    split; [done|]. rewrite fmap_cons, Hok. by apply elem_of_cons; left. }
  destruct (String.eqb_spec operation "create") as [->|_].
  - destruct (Hdec eq_refl) as [obj ->]. intros (l1 & l2 & obj' & -> & Hq%default_object_quiet & Ht)%traces_bind_Some.
    destruct (Marshal obj') as [v|e] eqn:E.
    + apply Hw in Ht as [Hq2 Hr]; [|intros x Hx; cbn; rewrite Hx; by eexists]. split; [by apply quiet_app|].
      destruct r as [[e|]|]; [done| |done]. apply settled_app. by right.
    + apply traces_Ret in Ht as [-> [= ->]]. rewrite app_nil_r. split; [done|]. exists key, "create". split; [done|]. left. by eauto.
  - destruct (String.eqb_spec operation "update") as [->|_].
    + destruct (decoder (GetObjectByKey key) (m_Value mm)) as [obj|e] eqn:E.
      * destruct (ParseInt (GetResourceVersionByObject obj)) as [rev bad] eqn:Ep. destruct bad.
        -- intros [-> [= ->]]%traces_Ret. split; [done|]. exists key, "update". split; [done|]. right. split; [done|]. by rewrite E, Ep.
        -- apply Hw. intros x Hx. cbn. rewrite Hx. by eexists.
      * intros [-> [= ->]]%traces_Ret. split; [done|]. exists key, "update". split; [done|]. right. by rewrite E.
    + destruct (String.eqb operation "delete"); [|by intros [-> [= ->]]%traces_Ret].
      apply Hw. intros x Hx. cbn. rewrite Hx. by eexists.
Qed.
End message.

Lemma traces_lift_bind {E : Type -> Type} (h : forall R, E R -> kop R) {A B} (p : prog E A) (f : A -> prog E B) l b :
  traces (lift h (pbind p f)) l (Some b) ->
  exists l1 l2 a, l = l1 ++ l2 /\ traces (lift h p) l1 (Some a) /\ traces (lift h (f a)) l2 (Some b).
Proof.
  revert l. induction p as [a| |R o k IH]; intros l; cbn [pbind lift].
  - intros Hf. exists [], l, a. split; [done|]. split; [constructor|done].
  - by intros [_ ?]%traces_Panic.
  - intros (r & l' & -> & (l1 & l2 & a & -> & H1 & H2)%IH)%traces_inv.
    exists (Ev (h R o) r :: l1), l2, a. split; [done|]. split; [by constructor|done].
Qed.

(** A creation or an update that passed the check could be decoded. *)
Lemma dry_run_decodes Plural Decode endpoint key operation value l : operation = "create" ->
  traces (lift (@KApi) (performKubernetesDryRun Plural Decode endpoint key operation value)) l (Some None) ->
  exists obj, Decode value = inl obj.
Proof.
  intros ->. unfold performKubernetesDryRun. cbv zeta.
  destruct (decodeUnstructured Decode value) as [obj|] eqn:Hd.
  { intros _. unfold decodeUnstructured in Hd. destruct (String.eqb value ""); [done|].
    destruct (Decode value) as [obj'|]; [|done]. by exists obj'. }
  destruct (determineResourceAndGVK _ _ _) as [[[[plural prefix] ns] gvk]|e]; [|by intros [_ ?]%traces_Ret].
  destruct (resolveNameNamespace _ _ _ _ _) as [[name namespace]|e]; [|by intros [_ ?]%traces_Ret].
  intros (l1 & l2 & cfg & -> & _ & Ht)%traces_lift_bind. destruct cfg as [cfg|e]; [|by apply traces_Ret in Ht as [_ ?]].
  apply traces_lift_bind in Ht as (l3 & l4 & derr & -> & _ & Ht). destruct derr; [by apply traces_Ret in Ht as [_ ?]|].
  unfold prepareObjectToSend in Ht. cbn [String.eqb Ascii.eqb Bool.eqb negb andb] in Ht.
  destruct (Decode value) as [obj|e]; [by exists obj|by apply traces_Ret in Ht as [_ ?]].
Qed.

Section handle.
Context (Plural : string -> string) (Decode : string -> Unstructured + err) (Marshal : Unstructured -> string + err)
  (decoder : otype -> string -> object + err) (Error : err -> string).
Variables (dlqWriter : option KafkaProducer) (endpoint : string).
Local Abbreviation handle := (handleMessage Plural Decode Marshal decoder Error dlqWriter endpoint).
Local Abbreviation settles := (settled Marshal decoder dlqWriter).

(** A handled message was committed and settled, or left without a commit
    because it cannot be read, or the handler asks for the reader to be left. *)
Lemma handle_trace mm async l b : traces (handle mm async) l (Some b) ->
  (async = false -> existsb ev_close l = false) /\
  (if b then omap ev_commit l = []
   else settles mm l /\ (omap ev_commit l = [Offset mm] \/ omap ev_commit l = [] /\ unreadable Marshal decoder mm)).
Proof using Type.
  unfold handleMessage. destruct (Split (m_Key mm) "#") as [|key [|operation [|? ?]]] eqn:Hsplit.
  1, 2, 4: intros Ht; apply (reject_trace Marshal decoder) in Ht as [Hq Hb]; split; [done|]; destruct b; [done|]; destruct Hb; auto.
  intros (l1 & l2 & err & -> & Hdry & Ht)%traces_bind_Some. pose proof (quiet_api _ _ _ Hdry) as [Hc1 Hq1].
  rewrite existsb_app, omap_app, Hc1, Hq1. cbn [app orb]. destruct err as [e|].
  { apply (reject_trace Marshal decoder) in Ht as [Hq Hb]. split; [done|]. destruct b; [done|]. destruct Hb as [Hb Hs]. split; [|by left].
    apply settled_app. by right. }
  apply traces_bind_Some in Ht as (l3 & l4 & r & -> & Happ & Ht).
  apply (apply_trace Plural Decode Marshal decoder dlqWriter) in Happ as [[Hc3 Hq3] Hr]; [|done|intros Hop; by eapply dry_run_decodes].
  rewrite existsb_app, omap_app, Hc3, Hq3. cbn [app orb]. destruct r as [[e|]|].
  - apply (reject_trace Marshal decoder) in Ht as [Hq Hb]. split; [done|]. destruct b; [done|]. destruct Hb as [Hb Hs]. split; [|by left].
    apply settled_app. right. apply settled_app. by right.
  - apply commit_trace in Ht as [Hq Hb]. split; [done|]. destruct b; [done|]. split; [|by left].
    apply settled_app. right. apply settled_app. by left.
  - apply traces_Ret in Ht as [-> [= ->]]. split; [done|]. split; [|by right]. right. right. by right.
Qed.

(** ** One reader without a pool *)
Variables (log : list (string * string)) (offset : nat).
Local Abbreviation step := (cstep Plural Decode Marshal decoder Error dlqWriter endpoint).

Definition handled (c : consumer) (i : nat) : Prop :=
  exists kv l, log !! i = Some kv /\ (i, l, false) ∈ c_history c /\ settles (message i kv) l.

Record serial (c : consumer) : Prop := {
  s_open : c_closed c = false;
  s_committed : (offset <= c_committed c)%nat;
  s_cases : (c_inflight c = [] /\ (c_committed c <= c_pos c)%nat /\ forall i, (offset <= i < c_pos c)%nat -> handled c i) \/
            (exists p, c_inflight c = [p] /\ c_pos c = S p /\ (c_committed c <= p)%nat /\ forall i, (offset <= i < p)%nat -> handled c i)
}.

Lemma handled_more c i h pos com infl cl : handled c i -> handled (MkConsumer pos com infl cl (c_history c ++ h)) i.
Proof using Type. intros (kv & l & H1 & H2 & H3). exists kv, l. split; [done|]. split; [|done]. cbn. apply elem_of_app. by left. Qed.

Lemma serial_started : serial (started offset).
Proof using Type. split; [done|done|]. left. split; [done|]. split; [done|]. cbn. lia. Qed.

Lemma serial_step n c c' : n <= 1 -> serial c -> step n log c c' -> serial c'.
Proof using Type.
  intros Hn [Ho Hc Hs] Hstep. assert (Hpool : pool n = 1) by (unfold pool; destruct (Z.leb_spec n 0); lia).
  assert (Hpooled : pooled n = false) by (unfold pooled; by rewrite Hpool).
  destruct Hstep as [c kv Hopen Hlen Hkv|c l1 i l2 kv l b Hinfl Hkv Ht committed left].
  - rewrite Hpool in Hlen. destruct Hs as [(Hi & Hp & Hall)|(p & Hi & _)]; [|rewrite Hi in Hlen; simpl in Hlen; lia].
    split; [done|done|]. right. exists (c_pos c). cbn. rewrite Hi. split; [done|]. split; [done|]. split; [done|].
    intros j Hj. destruct (Hall j Hj) as (kv' & l & ?). by exists kv', l.
  - destruct Hs as [(Hi & _)|(p & Hi & Hpos & Hcp & Hall)]; [rewrite Hi in Hinfl; by destruct l1|].
    rewrite Hi in Hinfl. assert (l1 = [] /\ i = p /\ l2 = []) as (-> & -> & ->).
    { destruct l1 as [|x [|y l1]]; simplify_eq/=; done. }
    rewrite Hpooled in Ht. apply handle_trace in Ht as [Hclose Hb]. specialize (Hclose eq_refl).
    subst committed left. rewrite Hpooled. cbn [negb andb].
    assert (Hmore : forall pos com cl j, (offset <= j < p)%nat -> handled (MkConsumer pos com [] cl (c_history c ++ [(p, l, b)])) j).
    { intros pos com cl j Hj. apply handled_more. by apply Hall. }
    destruct b.
    + unfold after_commits. rewrite Hb. cbn [app last default]. split; cbn; [done|done|]. left. split; [done|]. split; [done|].
      intros j Hj. apply Hmore. lia.
    + destruct Hb as [Hset Hb]. cbn [app]. rewrite Ho, Hclose. cbn [negb orb andb].
      assert (Hnew : forall pos com cl, handled (MkConsumer pos com [] cl (c_history c ++ [(p, l, false)])) p).
      { intros. exists kv, l. split; [done|]. split; [|done]. cbn. apply elem_of_app. right. by apply list_elem_of_singleton. }
      assert (Hle : (c_committed c <= after_commits l (c_committed c) <= S p)%nat).
      { unfold after_commits. destruct Hb as [->|[-> _]]; cbn; lia. }
      split; cbn; [done|lia|]. left. split; [done|]. split; [lia|]. intros j Hj.
      destruct (decide (j = p)) as [->|]; [apply Hnew|apply Hmore; lia].
Qed.

Lemma serial_reach n c : n <= 1 -> rtc (step n log) (started offset) c -> serial c.
Proof using Type.
  intros Hn Hs. pose proof serial_started as Hser. revert Hser. induction Hs as [|c1 c2 c3 Hstep _ IH]; [done|].
  intros Hser. apply IH. by eapply serial_step.
Qed.

(** Without a pool a committed offset covers no message that was not dealt
    with: below it, from where the reader started, every message was answered
    by the backend without an error, or was put into the dead letter queue, or
    there is no such queue, or its value cannot be read as the update or the
    creation it asks for; and however far the reader is ahead, after an attempt
    that failed it goes on from the committed offset. *)
Theorem kafka_commit_covers n c : n <= 1 -> rtc (step n log) (started offset) c ->
  (offset <= c_committed c)%nat /\
  (forall i, (offset <= i < c_committed c)%nat ->
     exists kv l, log !! i = Some kv /\ (i, l, false) ∈ c_history c /\ settles (message i kv) l) /\
  (forall i l c', step n log c c' -> c_history c' = c_history c ++ [(i, l, true)] -> c_pos c' = c_committed c /\ c_committed c' = c_committed c).
Proof using Type.
  intros Hn Hs. pose proof (serial_reach n c Hn Hs) as Hser. destruct Hser as [Ho Hc Hcases]. split; [done|]. split.
  - intros i Hi. destruct Hcases as [(_ & ? & Hall)|(p & _ & _ & ? & Hall)]; apply Hall; lia.
  - intros i l c' Hstep Heq. assert (Hpooled : pooled n = false) by (unfold pooled, pool; by destruct (Z.leb_spec n 0), (Z.gtb_spec n 1); try lia).
    destruct Hstep as [c kv Hopen Hlen Hkv|c l1 j l2 kv l' b Hinfl Hkv Ht committed left].
    + cbn in Heq. apply (f_equal length) in Heq. rewrite length_app in Heq. simpl in Heq. lia.
    + cbn in Heq |- *. apply app_inv_head in Heq. injection Heq as -> -> ->. subst committed left. rewrite Hpooled in Ht |- *.
      apply handle_trace in Ht as [_ Hb]. unfold after_commits. by rewrite Hb.
Qed.
End handle.

(** ** What is lost *)
Section lost.
Context (Plural : string -> string) (Decode : string -> Unstructured + err) (Marshal : Unstructured -> string + err)
  (decoder : otype -> string -> object + err) (Error : err -> string).
Variables (dlqWriter : option KafkaProducer) (endpoint : string).
Local Abbreviation handle := (handleMessage Plural Decode Marshal decoder Error dlqWriter endpoint).
Local Abbreviation step := (cstep Plural Decode Marshal decoder Error dlqWriter endpoint).

Definition silent (l : list kevent) : Prop := omap ev_write l = [] /\ omap ev_dead l = [].

Lemma silent_app l1 l2 : silent l1 -> silent l2 -> silent (l1 ++ l2).
Proof using Type. intros [H1 H2] [H3 H4]. split; by rewrite omap_app, ?H1, ?H2, ?H3, ?H4. Qed.

Lemma silent_api {A} (p : prog aop A) l a : traces (lift (@KApi) p) l a -> silent l.
Proof using Type.
  intros Ht%traces_lift. induction Ht as [|ev l (R & o & r & ->) _ [H1 H2]]; [done|]. by split.
Qed.

Lemma write_none l : omap ev_write l = [] -> forall k ok, Some (k, ok) ∉ (ev_write <$> l).
Proof using Type.
  intros Hl k ok (ev & He & Hev)%list_elem_of_fmap. enough ((k, ok) ∈ omap ev_write l) as Hin by (rewrite Hl in Hin; by apply elem_of_nil in Hin).
  apply list_elem_of_omap. by exists ev.
Qed.

Lemma reject_no_write mm async reason l b : traces (reject Error dlqWriter mm async reason) l (Some b) -> omap ev_write l = [].
Proof using Type.
  unfold reject. intros (l1 & l2 & br & -> & Hd & Ht)%traces_bind_Some. rewrite omap_app.
  assert (Hl1 : omap ev_write l1 = []).
  { unfold dead_letter in Hd. destruct dlqWriter as [[name d]|]; [|by apply traces_Ret in Hd as [-> _]].
    apply traces_bind_Some in Hd as (l3 & l4 & e & -> & Hw & [-> _]%traces_Ret). rewrite app_nil_r. cbn in Hw.
    apply traces_inv in Hw as (r & l' & -> & Hr). by destruct r; apply traces_Ret in Hr as [-> _]. }
  rewrite Hl1. cbn. destruct br.
  - unfold leave_reader in Ht. destruct async; [|by apply traces_Ret in Ht as [-> _]].
    by apply traces_call in Ht as (r & l' & -> & [-> _]%traces_Ret).
  - unfold commit in Ht. by apply traces_call in Ht as (r & l' & -> & [-> _]%traces_Ret).
Qed.

Lemma default_object_silent obj l a : traces (default_object Plural obj) l (Some a) -> silent l.
Proof using Type.
  unfold default_object. intros (l1 & l2 & t & -> & H1 & (l3 & l4 & u & -> & H2 & Ht)%traces_bind_Some)%traces_bind_Some.
  apply silent_app; [|apply silent_app].
  - destruct (u_CreationTimestamp obj); [by apply traces_Ret in H1 as [-> _]|].
    by apply traces_inv in H1 as (r & l' & -> & [-> _]%traces_Ret).
  - destruct (String.eqb _ _); [|by apply traces_Ret in H2 as [-> _]]. by apply traces_inv in H2 as (r & l' & -> & [-> _]%traces_Ret).
  - destruct (GetResourceMappingByGVK Plural (u_GVK obj)) as [[? ?] ?]. by apply traces_Ret in Ht as [-> _].
Qed.

(** Of the calls of a write at most the last one reaches the backend, and when
    it was answered without an error that is the result. *)
Lemma apply_write key operation mm l r : traces (apply_message Plural Decode Marshal decoder key operation mm) l (Some r) ->
  omap ev_dead l = [] /\ (omap ev_write l <> [] -> r = Some None).
Proof using Type.
  unfold apply_message.
  assert (Hw : forall R (o : bop R) (res : R -> gerr) (l : list kevent),
    (forall x, is_err (res x) = true -> ev_write (Ev (KBackend o) x) = None) ->
    traces (r <-! call (KBackend o);; Ret (Some (res r))) l (Some r) -> omap ev_dead l = [] /\ (omap ev_write l <> [] -> r = Some None)).
  { intros R o res l' Hres (x & l2 & -> & [-> [= ->]]%traces_Ret)%traces_call. split; [done|]. intros Hne.
    destruct (res x) as [e|] eqn:E; [|done]. destruct Hne. rewrite omap_cons_list, Hres by (by rewrite E). done. }
  destruct (String.eqb operation "create").
  - destruct (Decode (m_Value mm)); [|by intros [-> _]%traces_Ret].
    intros (l1 & l2 & obj' & -> & [Hq1 Hq2]%default_object_silent & Ht)%traces_bind_Some. rewrite !omap_app, Hq1, Hq2. cbn [app].
    destruct (Marshal obj'); [|by apply traces_Ret in Ht as [-> _]]. apply Hw in Ht; [done|]. intros x Hx. cbn. by rewrite Hx.
  - destruct (String.eqb operation "update").
    + destruct (decoder _ _) as [obj|]; [|by intros [-> _]%traces_Ret]. destruct (ParseInt _) as [rev [|]]; [by intros [-> _]%traces_Ret|].
      apply Hw. intros x Hx. cbn. by rewrite Hx.
    + destruct (String.eqb operation "delete"); [|by intros [-> _]%traces_Ret]. apply Hw. intros x Hx. cbn. by rewrite Hx.
Qed.

(** The answer of the backend that nothing was changed is not looked at: an
    update that lost against another write, like one that was stored, goes to
    no dead letter queue and the last thing done for it is the commit of its
    message. *)
Theorem kafka_refused_update_committed mm async l b key ok : traces (handle mm async) l (Some b) -> Some (key, ok) ∈ (ev_write <$> l) ->
  omap ev_dead l = [] /\ exists pre e, l = pre ++ [Ev (KCommitMessages (Offset mm)) e] /\ b = is_err e.
Proof using Type.
  unfold handleMessage. intros Ht Hin.
  assert (Hrej : forall reason l1 l2, silent l1 -> traces (reject Error dlqWriter mm async reason) l2 (Some b) -> l <> l1 ++ l2).
  { intros reason l1 l2 [Hs _] Hr ->. apply reject_no_write in Hr. apply (write_none (l1 ++ l2)) in Hin; [done|]. by rewrite omap_app, Hs, Hr. }
  destruct (Split (m_Key mm) "#") as [|k [|op [|? ?]]]; [exfalso; by eapply (Hrej _ [] l)|exfalso; by eapply (Hrej _ [] l)| |exfalso; by eapply (Hrej _ [] l)].
  apply traces_bind_Some in Ht as (l1 & l2 & err & -> & Hdry%silent_api & Ht).
  destruct err as [e|]; [exfalso; by eapply (Hrej _ l1 l2 Hdry Ht)|].
  apply traces_bind_Some in Ht as (l3 & l4 & r & -> & Happ & Ht). pose proof (apply_write _ _ _ _ _ Happ) as [Hd3 Hw3].
  destruct (decide (omap ev_write l3 = [])) as [Hn|Hne].
  - exfalso. destruct r as [[e|]|].
    + apply (Hrej _ (l1 ++ l3) l4 (silent_app _ _ Hdry (conj Hn Hd3)) Ht). by rewrite <- app_assoc.
    + unfold commit in Ht. apply traces_call in Ht as (x & l' & -> & [-> _]%traces_Ret). revert Hin. apply write_none.
      rewrite !omap_app, Hn, (proj1 Hdry). done.
    + apply traces_Ret in Ht as [-> _]. revert Hin. apply write_none. by rewrite !omap_app, Hn, (proj1 Hdry).
  - rewrite (Hw3 Hne) in Ht. unfold commit in Ht. apply traces_call in Ht as (x & l' & -> & [-> [= ->]]%traces_Ret).
    rewrite !omap_app, Hd3, (proj2 Hdry). split; [done|]. exists (l1 ++ l3), x. by rewrite app_assoc.
Qed.

(** ** With a pool *)
Lemma closed_stays n log c c' : pooled n = true -> rtc (step n log) c c' -> c_closed c = true ->
  c_closed c' = true /\ c_pos c' = c_pos c /\ (length (c_inflight c') <= length (c_inflight c))%nat.
Proof using Type.
  intros Hn Hs. induction Hs as [c|c c1 c2 Hstep _ IH]; [done|]. intros Hcl.
  assert (H1 : c_closed c1 = true /\ c_pos c1 = c_pos c /\ (length (c_inflight c1) <= length (c_inflight c))%nat).
  { destruct Hstep as [c kv Ho|c l1 i l2 kv l b Hi Hkv Ht com left]; [congruence|]. cbn. subst left. rewrite Hn, Hcl. cbn.
    split; [done|]. split; [done|]. rewrite Hi, !length_app. simpl. lia. }
  destruct H1 as (H1 & H2 & H3). destruct (IH H1) as (H4 & H5 & H6). rewrite <- H2. split; [done|]. split; [done|]. lia.
Qed.

Lemma reject_dead_fails mm reason d e : dlqWriter = Some d -> exists name rs,
  traces (reject Error dlqWriter mm true reason)
    [Ev (KWriter (WWriteMessages name (m_Key mm) (m_Value mm) rs)) (Some e); Ev KCloseReader tt] (Some true).
Proof using Type.
  intros Hd. unfold reject, dead_letter. rewrite Hd. destruct d as [name d]. exists name, [("x-error-reason", reason)]. cbn.
  apply (tr_call _ (KWriter (WWriteMessages name (m_Key mm) (m_Value mm) [("x-error-reason", reason)])) _ (Some e)). cbn.
  apply (tr_call _ KCloseReader _ tt). constructor.
Qed.

Lemma reject_dead_ok mm reason d : dlqWriter = Some d -> exists name rs,
  traces (reject Error dlqWriter mm true reason)
    [Ev (KWriter (WWriteMessages name (m_Key mm) (m_Value mm) rs)) None; Ev (KCommitMessages (Offset mm)) None] (Some false).
Proof using Type.
  intros Hd. unfold reject, dead_letter. rewrite Hd. destruct d as [name d]. exists name, [("x-error-reason", reason)]. cbn.
  apply (tr_call _ (KWriter (WWriteMessages name (m_Key mm) (m_Value mm) [("x-error-reason", reason)])) _ None). cbn.
  apply (tr_call _ (KCommitMessages (Offset mm)) _ None). constructor.
Qed.

(** With a pool a message is lost and the reader with it: of two messages
    with malformed keys the second is put into the dead letter queue and
    committed while the first cannot be put there; then the committed offset
    covers the first message, which is nowhere, and the reader is closed and
    never again hands out a message, whatever happens. *)
Theorem kafka_pool_loses n log d kv0 kv1 : 2 <= n -> dlqWriter = Some d -> log !! 0%nat = Some kv0 -> log !! 1%nat = Some kv1 ->
  length (Split kv0.1 "#") <> 2%nat -> length (Split kv1.1 "#") <> 2%nat ->
  exists c, rtc (step n log) (started 0) c /\ c_committed c = 2%nat /\
    (forall l b, (0%nat, l, b) ∈ c_history c -> omap ev_write l = [] /\ omap ev_dead l = []) /\
    forall c', rtc (step n log) c c' -> c_pos c' = 2%nat /\ c_inflight c' = [].
Proof using Type.
  intros Hn Hd H0 H1 Hk0 Hk1.
  assert (Hpool : 2 <= pool n) by (unfold pool; destruct (Z.leb_spec n 0); lia).
  assert (Hpooled : pooled n = true) by (unfold pooled; destruct (Z.gtb_spec (pool n) 1); lia).
  assert (Hmal : forall mm, length (Split (m_Key mm) "#") <> 2%nat -> handle mm (pooled n) = reject Error dlqWriter mm true ("invalid key format: " +:+ m_Key mm)).
  { intros mm Hl. rewrite Hpooled. unfold handleMessage. by destruct (Split (m_Key mm) "#") as [|k [|op [|? ?]]]. }
  destruct (reject_dead_fails (message 0 kv0) ("invalid key format: " +:+ m_Key (message 0 kv0)) d (ErrOther "") Hd) as (n0 & r0 & Ht0).
  destruct (reject_dead_ok (message 1 kv1) ("invalid key format: " +:+ m_Key (message 1 kv1)) d Hd) as (n1 & r1 & Ht1).
  rewrite <- (Hmal (message 0 kv0) Hk0) in Ht0. rewrite <- (Hmal (message 1 kv1) Hk1) in Ht1.
  set (l0 := [_; _]) in Ht0. set (l1 := [_; _]) in Ht1.
  set (c := MkConsumer 2 2 [] true [(1%nat, l1, false); (0%nat, l0, true)]).
  exists c. split; [|split; [done|split]].
  - eapply rtc_l; [apply (c_fetch _ _ _ _ _ _ _ _ _ (started 0) kv0); [reflexivity|change (0 < pool n); lia|exact H0]|]. cbn.
    eapply rtc_l; [apply (c_fetch _ _ _ _ _ _ _ _ _ (MkConsumer 1 0 [0%nat] false []) kv1); [reflexivity|change (1 < pool n); lia|exact H1]|]. cbn.
    eapply rtc_l; [by apply (c_finish _ _ _ _ _ _ _ _ _ (MkConsumer 2 0 [0%nat; 1%nat] false []) [0%nat] 1%nat [] kv1 l1 false)|].
    rewrite Hpooled. cbn.
    eapply rtc_l; [by apply (c_finish _ _ _ _ _ _ _ _ _ (MkConsumer 2 2 [0%nat] false [(1%nat, l1, false)]) [] 0%nat [] kv0 l0 true)|].
    rewrite Hpooled. apply rtc_refl.
  - intros l b [[= _ _]|[[= -> ->]|[]%not_elem_of_nil]%elem_of_cons]%elem_of_cons. done.
  - intros c' Hs. destruct (closed_stays n log c c' Hpooled Hs eq_refl) as (_ & Hp & Hl). split; [done|].
    destruct (c_inflight c'); [done|]. simpl in Hl. lia.
Qed.
End lost.

(** ** Events out *)
Section egress.
Context (Error : err -> string).

Definition topic (p : KafkaProducer) : string := let '(MkProducer name _) := p in name.

(** An event written to a topic; what goes to a dead letter queue carries a
    header. *)
Definition ev_sent (ev : kevent) : option (string * (string * string)) :=
  match ev with
  | EvWriteMessages name k v [] _ => Some (name, (k, v))
  | _ => None
  end.

Lemma send_trace p k v l a : traces (lift (@KWriter) (KafkaProducer_SendMessage Error p k v false [])) l (Some a) ->
  omap ev_sent l = [(topic p, (k, v))].
Proof using Type.
  destruct p as [name d]. cbn. intros (e & l1 & -> & Ht)%traces_inv. destruct e as [e|]; [|by apply traces_Ret in Ht as [-> _]].
  destruct d as [[name' d']|]; [|by apply traces_Ret in Ht as [-> _]]. cbn in Ht.
  apply traces_inv in Ht as (e' & l2 & -> & Ht). by destruct e'; apply traces_Ret in Ht as [-> _].
Qed.

Lemma send_all_trace ps e l : traces (lift (@KWriter) (send_all Error ps e)) l (Some tt) ->
  omap ev_sent l = (p ← ps; option_list ((topic p,.) <$> event_message e)).
Proof using Type.
  revert l. induction ps as [|p ps IH]; intros l; cbn [send_all]; [by intros [-> _]%traces_Ret|].
  intros (l1 & l2 & x & -> & H1 & H2%IH)%traces_lift_bind. rewrite omap_app, H2. cbn. f_equal.
  destruct (event_message e) as [[k v]|]; [by apply send_trace in H1 as ->|by apply traces_Ret in H1 as [-> _]].
Qed.

Lemma egress_trace producer ps events l : traces (lift (@KWriter) (SendMessage Error producer events ps)) l (Some tt) ->
  omap ev_sent l = (e ← events; p ← GetProducers producer ps; option_list ((topic p,.) <$> event_message e)).
Proof using Type.
  revert l. induction events as [|e events IH]; intros l; cbn [SendMessage]; [by intros [-> _]%traces_Ret|].
  intros (l1 & l2 & x & -> & H1 & H2%IH)%traces_lift_bind. destruct x. by rewrite omap_app, H2, (send_all_trace _ _ _ H1).
Qed.

(** Every event is written to every registered producer once, in the order
    of the events, whichever writes fail. *)
Theorem egress_in_order producer ps events l : traces (lift (@KWriter) (SendMessage Error producer events ps)) l (Some tt) ->
  omap ev_sent l = (e ← events; p ← GetProducers producer ps; option_list ((topic p,.) <$> event_message e)).
Proof using Type. apply egress_trace. Qed.

(** A deletion is written like a change: an event of the log carries its row,
    and only the previous row tells the two apart. *)
Lemma egress_deletion_looks_like_put del created kv prev prev' :
  event_message (MkEvent del created (Some kv) prev) = event_message (MkEvent false false (Some kv) prev').
Proof using Type. done. Qed.
End egress.

(** Closing a producer always panics: the chain of dead letter queues ends
    with a producer without one, and closing it is asked of a nil pointer.
    Nothing stands in the way: every answer of the writers leads there. *)
Theorem close_panics {St : Type} `{Handler wop St} p (s : St) : (run (Close p) s).1 = None.
Proof.
  revert p s. fix IH 1. intros [name [d|]] s; cbn; destruct (h_do (WClose name) s) as [e s1]; [|done].
  rewrite run_bind. by rewrite IH.
Qed.

(** Cluster roles have a type whose resource version is never read, so the
    update of one is neither made, nor committed, nor put anywhere. *)
Lemma cluster_role_update_skipped Plural Decode Marshal decoder rest mm obj :
  decoder (GetObjectByKey ("/registry/clusterroles/" +:+ rest)) (m_Value mm) = inl obj ->
  o_type obj = GetObjectByKey ("/registry/clusterroles/" +:+ rest) ->
  apply_message Plural Decode Marshal decoder ("/registry/clusterroles/" +:+ rest) "update" mm = Ret None.
Proof.
  intros Hd Ht. unfold apply_message. cbn [String.eqb Ascii.eqb Bool.eqb]. rewrite Hd.
  assert (Hc : o_type obj = ClusterRole) by (rewrite Ht; destruct rest; vm_compute; reflexivity).
  unfold GetResourceVersionByObject. by rewrite Hc.
Qed.

(** ** Witnesses *)
Fixpoint play {A} (answer : forall R, kop R -> R) (p : kprog A) : list kevent * option A :=
  match p with
  | Ret a => ([], Some a)
  | Panic => ([], None)
  | Call o k => let (l, a) := play answer (k (answer _ o)) in (Ev o (answer _ o) :: l, a)
  end.

Lemma play_traces {A} answer (p : kprog A) : traces p (play answer p).1 (play answer p).2.
Proof.
  induction p as [a| |R o k IH]; cbn; [constructor|constructor|]. specialize (IH (answer R o)).
  destruct (play answer (k (answer R o))) as [l a]. by constructor.
Qed.

(** Everything works, but the backend refuses updates and deletions: they name
    another revision than the current one. *)
Definition answers (R : Type) (o : kop R) : R :=
  match o in kop R return R with
  | KApi a => match a in aop R return R with
              | ALookupEnv _ => None
              | AStatFile _ => false
              | ABuildConfig _ | ANewForConfig _ => None
              | AGetLease _ => LeaseNotFound
              | ADryCreate _ _ _ | ADryUpdate _ _ _ | ADryDelete _ _ _ => None
              end
  | KBackend b => match b in bop R return R with
                  | BGet _ _ _ => (0, None, None)
                  | BCreate _ _ _ => (7, None)
                  | BDelete _ _ | BUpdate _ _ _ _ => (7, None, false, None)
                  | BList _ _ _ _ _ _ _ => (0, [], None)
                  | BCount _ _ _ _ _ => (0, 0, None)
                  | BDbSize | BCurrentRevision | BCompact _ => (0, None)
                  end
  | KWriter w => match w in wop R return R with WWriteMessages _ _ _ _ | WClose _ => None end
  | KCommitMessages _ => None
  | KCloseReader => tt
  | KNow => "now"
  | KUUID => "uuid"
  end.

Definition toy_decoder (t : otype) (value : string) : object + err :=
  inl (MkObject t "a" "default" "" "5" [] [] ∅ "v1" "Pod" (fun _ => "")).
Definition toy_log : list (string * string) := [("/registry/pods/default/a#update", "{}"); ("bad", "{}"); ("worse", "{}")].
Abbreviation toy_handle := (handleMessage (fun s => s) (fun _ => inl (MkUnstructured (MkGVK "" "v1" "Pod") "a" "default" "" 0 None "")) (fun _ => inl "{}")
  toy_decoder (fun _ => "error") (Some (MkProducer "dlq" None)) "").
Abbreviation toy_step := (cstep (fun s => s) (fun _ => inl (MkUnstructured (MkGVK "" "v1" "Pod") "a" "default" "" 0 None "")) (fun _ => inl "{}")
  toy_decoder (fun _ => "error") (Some (MkProducer "dlq" None)) "").

Lemma kafka_refused_update_committed_witness :
  let mm := message 0 ("/registry/pods/default/a#update", "{}") in
  let l := (play answers (toy_handle mm false)).1 in
  Some ("/registry/pods/default/a", false) ∈ (ev_write <$> l) /\ omap ev_dead l = [].
Proof.
  intros mm l. assert (Hin : Some ("/registry/pods/default/a", false) ∈ (ev_write <$> l)).
  { apply (bool_decide_unpack _). by vm_compute. }
  split; [exact Hin|].
  apply (kafka_refused_update_committed (fun s => s) (fun _ => inl (MkUnstructured (MkGVK "" "v1" "Pod") "a" "default" "" 0 None "")) (fun _ => inl "{}")
    toy_decoder (fun _ => "error") (Some (MkProducer "dlq" None)) "" mm false l false "/registry/pods/default/a" false); [|exact Hin].
  pose proof (play_traces answers (toy_handle mm false)) as Ht.
  replace (play answers (toy_handle mm false)).2 with (Some false) in Ht by (by vm_compute). exact Ht.
Defined.

Lemma kafka_commit_covers_witness : exists c, rtc (toy_step 1 toy_log) (started 0) c /\ c_committed c = 1%nat /\ (0 <= c_committed c)%nat.
Proof.
  pose proof (play_traces answers (toy_handle (message 0 ("/registry/pods/default/a#update", "{}")) (pooled 1))) as Ht.
  set (l := (play answers _).1) in Ht. replace (play answers _).2 with (Some false) in Ht by (by vm_compute).
  assert (Hs : exists c, rtc (toy_step 1 toy_log) (started 0) c /\ c_committed c = 1%nat).
  { eexists. split.
    - eapply rtc_l; [eapply (c_fetch _ _ _ _ _ _ _ _ _ (started 0)); [reflexivity|vm_compute; reflexivity|reflexivity]|].
      eapply rtc_l; [eapply (c_finish _ _ _ _ _ _ _ _ _ _ [] 0%nat [] _ l false); [reflexivity|reflexivity|exact Ht]|]. apply rtc_refl.
    - by vm_compute. }
  destruct Hs as (c & Hs & Hc). exists c. split; [exact Hs|]. split; [exact Hc|].
  exact (proj1 (kafka_commit_covers _ _ _ _ _ _ _ toy_log 0 1 c ltac:(lia) Hs)).
Defined.

Lemma kafka_pool_loses_witness : exists c, rtc (toy_step 2 [("bad", "{}"); ("worse", "{}")]) (started 0) c /\ c_committed c = 2%nat.
Proof.
  destruct (kafka_pool_loses (fun s => s) (fun _ => inl (MkUnstructured (MkGVK "" "v1" "Pod") "a" "default" "" 0 None "")) (fun _ => inl "{}")
    toy_decoder (fun _ => "error") (Some (MkProducer "dlq" None)) "" 2 [("bad", "{}"); ("worse", "{}")] (MkProducer "dlq" None) ("bad", "{}") ("worse", "{}"))
    as (c & H1 & H2 & _).
  all: try reflexivity; try lia; try (vm_compute; discriminate).
  exists c. split; [exact H1|exact H2].
Defined.

Lemma egress_in_order_witness : exists l,
  traces (lift (@KWriter) (SendMessage (fun _ => "error") "all" [MkEvent false true (Some (MkKeyValue "/a" "v" 0 1 1 0)) None] {["all" := [MkProducer "out" None]]})) l (Some tt) /\
  omap ev_sent l = [("out", ("/a", "v"))].
Proof.
  set (p := lift _ _). pose proof (play_traces answers p) as Ht. exists (play answers p).1.
  replace (play answers p).2 with (Some tt) in Ht by (by vm_compute). split; [exact Ht|].
  rewrite (egress_in_order (fun _ => "error") _ _ _ _ Ht). by vm_compute.
Defined.
