(* ===== verification/StreamConfig.v ===== *)
(** * Setting up the Kafka clients (pkg/streams/kafka.go)

    The dialer from the environment, and the producers and the consumer from
    their configuration.  Base64, JSON, certificates, SCRAM and the files are
    third-party code and the outside world: parameters.  Texts are ASCII. *)
From S2P Require Import Prelude GoStrings StreamCheck Streams.
From Stdlib Require Import Ascii.

(** ** Strings *)
Definition is_space (c : ascii) : bool := let n := N_of_ascii c in ((n =? 32) || ((9 <=? n) && (n <=? 13)))%N.
Fixpoint trim_left (s : string) : string := match s with String c s' => if is_space c then trim_left s' else s | "" => "" end.
Fixpoint trim_right (s : string) : string :=
  match s with
  | "" => ""
  | String c s => match trim_right s with "" => if is_space c then "" else String c "" | s => String c s end
  end.
Definition TrimSpace (s : string) : string := trim_right (trim_left s).
Fixpoint ToUpper (s : string) : string := match s with "" => "" | String c s => String (upper_char c) (ToUpper s) end.
Definition EqualFold (s t : string) : bool := String.eqb (ToUpper s) (ToUpper t).

(** ** The dialer *)
Inductive certificate : Type := KeyPair (cert : string) | FallbackCertificate (bytes : string).

(** No [RootCAs] stands for the certificates of the system. *)
Record tls_config := MkTLS { InsecureSkipVerify : bool; RootCAs : option (list string); Certificates : list certificate }.

Inductive mechanism : Type := PlainMechanism (username password : string) | ScramMechanism (m : string).

Record dialer := MkDialer { d_TLS : option tls_config; d_SASLMechanism : option mechanism }.

Section dialer.
Context (Getenv : string -> string) (ReadFile : string -> string + err) (pem_certificates : string -> list string)
  (X509KeyPair : string -> string -> string + err) (scram : string -> string -> string -> string + err).

Definition client_certificates : list certificate :=
  let certPath := TrimSpace (Getenv "KAFKA_TLS_CERT") in
  let keyPath := TrimSpace (Getenv "KAFKA_TLS_KEY") in
  if negb (String.eqb certPath "") && negb (String.eqb keyPath "") then
    match ReadFile certPath, ReadFile keyPath with
    | inl certBytes, inl keyBytes =>
        match X509KeyPair certBytes keyBytes with inl cert => [KeyPair cert] | inr _ => [FallbackCertificate certBytes] end
    | _, _ => []
    end
  else [].

Definition tls_from_env : tls_config :=
  MkTLS (EqualFold (Getenv "KAFKA_TLS_INSECURE_SKIP_VERIFY") "true" || String.eqb (Getenv "KAFKA_TLS_INSECURE_SKIP_VERIFY") "1")
    (let caPath := TrimSpace (Getenv "KAFKA_TLS_CA") in
     if String.eqb caPath "" then None
     else Some (match ReadFile caPath with inl caBytes => pem_certificates caBytes | inr _ => [] end))
    client_certificates.

Definition sasl_from_env : mechanism + err :=
  let mech := ToUpper (TrimSpace (Getenv "KAFKA_SASL_MECHANISM")) in
  let mech := if String.eqb mech "" then "PLAIN" else mech in
  let username := Getenv "KAFKA_SASL_USERNAME" in
  let password := Getenv "KAFKA_SASL_PASSWORD" in
  let missing := String.eqb username "" || String.eqb password "" in
  let scram_mechanism msg algo :=
    if missing then inr (ErrOther "SCRAM mechanism requires username and password")
    else match scram algo username password with inl m => inl (ScramMechanism m) | inr e => inr (errorf msg e) end in
  if String.eqb mech "PLAIN" then
    if missing then inr (ErrOther "PLAIN mechanism requires username and password") else inl (PlainMechanism username password)
  else if String.eqb mech "SCRAM-SHA-256" then scram_mechanism "failed to create SCRAM-SHA-256 mechanism" "SHA256"
  else if String.eqb mech "SCRAM-SHA-512" then scram_mechanism "failed to create SCRAM-SHA-512 mechanism" "SHA512"
  else inr (ErrOther ("unsupported SASL mechanism: " +:+ mech)).

Definition kafka_protocol : string :=
  let proto := ToUpper (TrimSpace (Getenv "KAFKA_PROTOCOL")) in if String.eqb proto "" then "PLAINTEXT" else proto.

Definition BuildKafkaDialerFromEnv : dialer + err :=
  let proto := kafka_protocol in
  if String.eqb proto "PLAINTEXT" then inl (MkDialer None None)
  else if String.eqb proto "SSL" || String.eqb proto "SASL_SSL" then
    if String.eqb proto "SASL_SSL" then
      match sasl_from_env with inl m => inl (MkDialer (Some tls_from_env) (Some m)) | inr e => inr e end
    else inl (MkDialer (Some tls_from_env) None)
  else inr (ErrOther ("unsupported KAFKA_PROTOCOL: " +:+ proto)).

(** ** Producers and the consumer *)
(** The fields of the configurations the program itself looks at; the others
    are handed to the client library. *)
Record ReaderConfig := MkReaderConfig { rc_Topic : string; rc_GroupID : string; rc_Readers : Z }.
Context (DecodeString : string -> string + err) (UnmarshalReader : string -> ReaderConfig + err) (UnmarshalAddr : string -> string + err).

Definition GetReaderCountFromConfig (configEnc : string) : Z + err :=
  match DecodeString configEnc with
  | inr e => inr e
  | inl configBytes =>
      match UnmarshalReader configBytes with
      | inr e => inr e
      | inl cfg => inl (if rc_Readers cfg <=? 0 then 1 else rc_Readers cfg)
      end
  end.

(** A producer without a dead letter queue, and one that may have one. *)
Definition new_writer (configEnc : string) : string + err :=
  match DecodeString configEnc with
  | inr e => inr e
  | inl configBytes =>
      match UnmarshalAddr configBytes with
      | inr e => inr e
      | inl addr => match BuildKafkaDialerFromEnv with inr e => inr e | inl _ => inl addr end
      end
  end.

Definition NewKafkaProducer (configEnc dlqConfigEnc : string) : KafkaProducer + err :=
  match new_writer configEnc with
  | inr e => inr e
  | inl addr =>
      if String.eqb dlqConfigEnc "" then inl (MkProducer addr None)
      else match new_writer dlqConfigEnc with inr e => inr e | inl dlq => inl (MkProducer addr (Some (MkProducer dlq None))) end
  end.

(** What the readers are started with: how many there are, the configuration,
    the dead letter queue and the dialer. *)
Definition StartKafkaConsumer (configEnc dlqConfigEnc : string) : (Z * ReaderConfig * option KafkaProducer * dialer) + err :=
  match DecodeString configEnc with
  | inr e => inr e
  | inl configBytes =>
      match UnmarshalReader configBytes with
      | inr e => inr e
      | inl config =>
          match (if String.eqb dlqConfigEnc "" then inl None
                 else match NewKafkaProducer dlqConfigEnc "" with inl p => inl (Some p) | inr e => inr e end) with
          | inr e => inr e
          | inl dlqWriter =>
              match GetReaderCountFromConfig configEnc with
              | inr e => inr e
              | inl readerCount =>
                  match BuildKafkaDialerFromEnv with
                  | inr e => inr e
                  | inl dialer => inl (if readerCount <=? 0 then 1 else readerCount, config, dlqWriter, dialer)
                  end
              end
          end
      end
  end.

(** What the environment asks for is what connections get: unless it is
    refused, a connection is encrypted exactly when the protocol is not plain
    text, has credentials exactly with the protocol that asks for them, and
    then not empty ones, skips the verification of the server only when the
    variable says so, and with a file of authorities trusts those in the file
    only, nobody when the file cannot be read. *)
Theorem dialer_protects : match BuildKafkaDialerFromEnv with
  | inl d =>
      (d_TLS d = None <-> kafka_protocol = "PLAINTEXT") /\ (is_Some (d_SASLMechanism d) <-> kafka_protocol = "SASL_SSL") /\
      (forall m, d_SASLMechanism d = Some m -> Getenv "KAFKA_SASL_USERNAME" <> "" /\ Getenv "KAFKA_SASL_PASSWORD" <> "") /\
      forall t, d_TLS d = Some t ->
        (InsecureSkipVerify t = true ->
           ToUpper (Getenv "KAFKA_TLS_INSECURE_SKIP_VERIFY") = "TRUE" \/ Getenv "KAFKA_TLS_INSECURE_SKIP_VERIFY" = "1") /\
        (TrimSpace (Getenv "KAFKA_TLS_CA") <> "" ->
           RootCAs t = Some (match ReadFile (TrimSpace (Getenv "KAFKA_TLS_CA")) with inl b => pem_certificates b | inr _ => [] end))
  | inr _ => kafka_protocol <> "PLAINTEXT" /\ kafka_protocol <> "SSL"
  end.
Proof using Type.
  assert (Htls : (InsecureSkipVerify tls_from_env = true ->
      ToUpper (Getenv "KAFKA_TLS_INSECURE_SKIP_VERIFY") = "TRUE" \/ Getenv "KAFKA_TLS_INSECURE_SKIP_VERIFY" = "1") /\
    (TrimSpace (Getenv "KAFKA_TLS_CA") <> "" ->
      RootCAs tls_from_env = Some (match ReadFile (TrimSpace (Getenv "KAFKA_TLS_CA")) with inl b => pem_certificates b | inr _ => [] end))).
  { split; cbn.
    - by intros [?%String.eqb_eq|?%String.eqb_eq]%orb_true_iff; [left|right].
    - intros ?%String.eqb_neq. destruct (String.eqb _ _); done. }
  assert (Hsasl : forall m, sasl_from_env = inl m -> Getenv "KAFKA_SASL_USERNAME" <> "" /\ Getenv "KAFKA_SASL_PASSWORD" <> "").
  { intros m. unfold sasl_from_env. destruct (String.eqb_spec (Getenv "KAFKA_SASL_USERNAME") ""), (String.eqb_spec (Getenv "KAFKA_SASL_PASSWORD") "");
      cbn [orb]; [repeat case_match; done..|done]. }
  unfold BuildKafkaDialerFromEnv. destruct (String.eqb_spec kafka_protocol "PLAINTEXT") as [E1|E1].
  { rewrite E1. cbn. split; [done|]. split; [split; [by intros [? ?]|done]|]. done. }
  destruct (String.eqb_spec kafka_protocol "SASL_SSL") as [E2|E2]; rewrite ?orb_true_r, ?orb_false_r.
  - destruct sasl_from_env as [m|e]; [|by rewrite E2]. cbn. split; [by rewrite E2|]. split; [split; [done|by eexists]|].
    split; [by intros m' [= <-]; apply (Hsasl m)|]. by intros t [= <-].
  - destruct (String.eqb_spec kafka_protocol "SSL") as [E3|E3]; [|done]. cbn. split; [by rewrite E3|].
    split; [split; [by intros [? ?]|done]|]. split; [done|]. by intros t [= <-].
Qed.

(** With a dead letter queue the producer behind it has none, so closing it at
    shutdown is the panic of [close_panics]. *)
Lemma consumer_dlq configEnc dlqConfigEnc n cfg d dl :
  StartKafkaConsumer configEnc dlqConfigEnc = inl (n, cfg, Some d, dl) -> exists addr, d = MkProducer addr None /\ 1 <= n.
Proof using Type.
  unfold StartKafkaConsumer, NewKafkaProducer, GetReaderCountFromConfig. intros Hs. repeat case_match; simplify_eq; eexists; split; try done; lia.
Qed.
End dialer.
