(* ===== verification/Config.v ===== *)
(** * Configuration (pkg/drivers/registry.go, factory.go, t4/t4.go, nats/config.go,
    pkg/endpoint/endpoint.go, pkg/util/network.go)

    How a driver is found for an endpoint, and what the t4 and NATS drivers
    and the listener make of their settings.  Parsing of URLs, queries,
    durations and numbers by [Sscanf], host names, files and certificates are
    parameters; options of the client libraries are reduced to their names, and
    settings that are only handed on are left out. *)
From S2P Require Import Prelude GoStrings StreamCheck.
From stdpp Require Import gmap.
Local Open Scope Z_scope.

(** ** Endpoints and drivers *)
Definition SchemeAndAddress (str : string) : string * string :=
  match Cut str "://" with Some (scheme, address) => (scheme, address) | None => ("", str) end.

Section registry.
Context {Constructor : Type}.

Record driver_registry := MkDrivers { driverRegistry : gmap string Constructor; defaultScheme : string }.

Definition Register (scheme : string) (constructor : Constructor) (r : driver_registry) : driver_registry :=
  MkDrivers (<[scheme := constructor]> (driverRegistry r)) (defaultScheme r).
Definition SetDefault (scheme : string) (r : driver_registry) : driver_registry := MkDrivers (driverRegistry r) scheme.
Definition GetDefault (r : driver_registry) : option Constructor := driverRegistry r !! defaultScheme r.
Definition GetDriver (scheme : string) (r : driver_registry) : option Constructor := driverRegistry r !! scheme.

Definition validateDSNuri (str : string) : gerr :=
  match Cut str "://" with
  | Some _ => None
  | None => Some (ErrOther "invalid datastore endpoint; endpoint should be a DSN URI in the format <scheme>://<authority>")
  end.

(** The constructor to call, with the scheme and the data source name. *)
Definition NewDriver (endpoint : string) (r : driver_registry) : (Constructor * option (string * string)) + err :=
  if String.eqb endpoint "" then
    match GetDefault r with Some driver => inl (driver, None) | None => inr (ErrOther "no default driver found") end
  else
    match validateDSNuri endpoint with
    | Some e => inr e
    | None =>
        let '(scheme, dsn) := SchemeAndAddress endpoint in
        match GetDriver scheme r with
        | Some driver => inl (driver, Some (scheme, dsn))
        | None => inr (ErrOther "unknown driver")
        end
    end.
End registry.

(** ** Query parameters: the first value of a name *)
Definition Values : Type := list (string * string).
Definition Get (q : Values) (name : string) : string :=
  match list_find (fun p => p.1 = name) q with Some (_, (_, v)) => v | None => "" end.
Definition Has (q : Values) (name : string) : bool := existsb (fun p => String.eqb p.1 name) q.

(** [url.URL], as far as it is read. *)
Record URL := MkURL { url_Scheme : string; url_User : option string; url_Host : string; url_Hostname : string; url_Port : string; url_RawQuery : string }.

Record tls_files := MkTLSFiles { CertFile : string; KeyFile : string; CAFile : string; SkipVerify : bool }.

(** ** The listener *)
Section endpoint.
Context (Listener : string) (ServerTLSConfig : tls_files).

Definition listener : string := if String.eqb Listener "" then "unix://kine.sock" else Listener.

Definition server_tls : bool := negb (String.eqb (CertFile ServerTLSConfig) "") && negb (String.eqb (KeyFile ServerTLSConfig) "").

Definition endpointScheme : string :=
  (if String.eqb (SchemeAndAddress listener).1 "unix" then "unix" else "http") +:+ (if server_tls then "s" else "").

(** The address listened on, from the port the library found in it. *)
Definition endpointURL (address : string) (port : option string) : string :=
  endpointScheme +:+ "://" +:+
  (if HasPrefix endpointScheme "unix" then address else "127.0.0.1:" +:+ default "2379" port).

(** The network and the address a listener is created on. *)
Definition createListener : string * string :=
  let '(scheme, address) := SchemeAndAddress listener in (if String.eqb scheme "unix" then "unix" else "tcp", address).

(** The scheme that is announced is that of the socket, and says TLS exactly
    when the server is given credentials. *)
Lemma endpoint_scheme_matches :
  (HasPrefix endpointScheme "unix" = true <-> createListener.1 = "unix") /\
  (HasSuffix endpointScheme "s" = true <-> server_tls = true).
Proof using Type.
  unfold endpointScheme, createListener. destruct (SchemeAndAddress listener) as [scheme address]. cbn [fst].
  destruct (String.eqb scheme "unix"), server_tls; vm_compute; by split.
Qed.
End endpoint.

(** ** The t4 driver *)
Inductive client_auth : Type := RequireAndVerifyClientCert | RequestClientCert.
Record peer_tls := MkPeerTLS { peer_cert : string; peer_pool : list string; peer_ClientAuth : client_auth; peer_InsecureSkipVerify : bool }.

Record S3Config := MkS3 { Bucket : string; AccessKey : string; SecretKey : string; SessionToken : string; Profile : string }.

Record t4_config := MkT4Config {
  DataDir : string; ObjectStore : option string; NodeID : string; PeerListenAddr : string; AdvertisePeerAddr : string;
  CheckpointInterval : Z; SegmentMaxAge : Z; FollowerMaxRetries : Z; PeerTLS : option peer_tls
}.

Definition validateS3Config (cfg : S3Config) : gerr :=
  let set s := negb (String.eqb s "") in
  if negb (Bool.eqb (set (AccessKey cfg)) (set (SecretKey cfg))) then Some (ErrOther "S3 static credentials require both keys")
  else if set (SessionToken cfg) && negb (set (AccessKey cfg)) then Some (ErrOther "S3 session token requires the static credentials")
  else if negb (set (AccessKey cfg)) && negb (set (Profile cfg)) then Some (ErrOther "S3 credentials not configured")
  else None.

Section t4.
Context (LoadX509KeyPair : string -> string -> string + err) (ReadFile : string -> string + err) (pem_certificates : string -> list string)
  (ParseQuery : string -> Values + err) (ParseDuration : string -> Z + err) (Sscanf_d : string -> Z + err)
  (SplitHostPort : string -> (string * string) + err) (Hostname : string + err) (NewS3Store : S3Config -> string + err).

(** The server and the client side share the certificate and the authorities. *)
Definition peerTLSCredentials (tls : tls_files) : option peer_tls + err :=
  let unset s := String.eqb s "" in
  if unset (CertFile tls) && unset (KeyFile tls) && unset (CAFile tls) then inl None
  else if unset (CertFile tls) || unset (KeyFile tls) || unset (CAFile tls) then
    inr (ErrOther "peer TLS requires peer-cert-file, peer-key-file, and peer-ca-file together")
  else
    match LoadX509KeyPair (CertFile tls) (KeyFile tls) with
    | inr e => inr (errorf "load peer TLS keypair" e)
    | inl cert =>
        match ReadFile (CAFile tls) with
        | inr e => inr (errorf "read peer CA" e)
        | inl caPEM =>
            match pem_certificates caPEM with
            | [] => inr (ErrOther ("peer CA " +:+ CAFile tls +:+ ": no certificates parsed"))
            | pool => inl (Some (MkPeerTLS cert pool (if SkipVerify tls then RequestClientCert else RequireAndVerifyClientCert) (SkipVerify tls)))
            end
        end
    end.

(** The peer addresses: those given, or those derived from the service name. *)
Definition peer_addresses (bind advertise svc : string) : (string * string) + err :=
  let listen := if negb (String.eqb svc "") && String.eqb bind "" then "0.0.0.0:3380" else bind in
  let advertised : string + err :=
    if negb (String.eqb svc "") && String.eqb advertise "" then
      match SplitHostPort listen with
      | inr e => inr (errorf "parse peer bind address" e)
      | inl (_, port) =>
          match Hostname with
          | inr e => inr (errorf "resolve hostname for peer advertise address" e)
          | inl hostname => inl (hostname +:+ "." +:+ svc +:+ ":" +:+ port)
          end
      end
    else inl advertise in
  match advertised with
  | inr e => inr e
  | inl advertised =>
      if negb (String.eqb listen "") && String.eqb advertised "" then
        inr (ErrOther "--peer-advertise-address is required when --peer-bind-address is set")
      else inl (listen, advertised)
  end.

(** An optional setting. *)
Definition setting (parse : string -> Z + err) (msg v : string) : Z + err :=
  if String.eqb v "" then inl 0 else match parse v with inl d => inl d | inr e => inr (errorf msg e) end.

Definition parseConfig (dsn : string) (s3 : S3Config) (bind advertise : string) (tls : tls_files) : t4_config + err :=
  let '(dataDir, query) := match Cut dsn "?" with Some (a, b) => (a, b) | None => (dsn, "") end in
  match ParseQuery query with
  | inr e => inr (errorf "parse DSN query" e)
  | inl q =>
      match (if String.eqb (Bucket s3) "" then inl None
             else match validateS3Config s3 with
                  | Some e => inr e
                  | None => match NewS3Store s3 with inl store => inl (Some store) | inr e => inr (errorf "create S3 store" e) end
                  end) with
      | inr e => inr e
      | inl store =>
          match peer_addresses bind advertise (Get q "service-name") with
          | inr e => inr e
          | inl (listen, advertised) =>
              match setting ParseDuration "checkpoint-interval" (Get q "checkpoint-interval") with
              | inr e => inr e
              | inl checkpoint =>
                  match setting ParseDuration "segment-max-age" (Get q "segment-max-age") with
                  | inr e => inr e
                  | inl segment =>
                      match setting Sscanf_d "follower-max-retries" (Get q "follower-max-retries") with
                      | inr e => inr e
                      | inl retries =>
                          match peerTLSCredentials tls with
                          | inr e => inr e
                          | inl peer =>
                              inl (MkT4Config (if String.eqb dataDir "" then "db" else dataDir) store (Get q "node-id") listen advertised
                                     checkpoint segment retries peer)
                          end
                      end
                  end
              end
          end
      end
  end.
End t4.

(** ** The NATS driver *)
Inductive nats_option : Type :=
  | ClientCert (cert key : string) | RootCAs (file : string) | UserCredentials (file : string) | UserInfo (user password : string) | Token (token : string)
  | FromContext (name : string).

Record nats_config := MkNatsConfig {
  clientURL : string; clientOptions : list nats_option; revHistory : Z; bucket : string; replicas : Z; slowThreshold : Z;
  host : string; port : Z; noEmbed : bool; serverConfig : string; stdoutLogging : bool; dontListen : bool; dataDir : string
}.

Definition defaultBucket : string := "kine".
Definition defaultReplicas : Z := 1.
Definition defaultRevHistory : Z := 10.
Definition defaultSlowMethod : Z := 500000000.

(** [strconv.ParseUint(v, 10, 8)], without the kind of error. *)
Definition ParseUint8 (v : string) : option Z :=
  match ParseUint v with ParseOk n => if n <=? 255 then Some n else None | _ => None end.

(** A number in a range; one that is no 8-bit number is ignored. *)
Definition ranged (v : string) (lo hi def : Z) (msg : string) : Z + err :=
  if String.eqb v "" then inl def
  else
    match ParseUint8 v with
    | Some n => if (lo <=? n) && (n <=? hi) then inl n else inr (ErrOther msg)
    | None => inl def
    end.

Section nats.
Context (ParseURL : string -> URL + err) (ParseQuery : string -> Values + err) (ParseDuration : string -> Z + err) (Atoi : string -> Z)
  (context_file : string -> string * (list nats_option -> list nats_option + err) + err) (Embedded : bool).

(** The user of the first server, as options; the text has the password after
    a colon. *)
Definition user_options (u : URL) : list nats_option :=
  match url_User u with
  | None => []
  | Some user => match Split user ":" with
                 | name :: password :: _ => [UserInfo name password]
                 | name :: [] => [Token name]
                 | [] => []
                 end
  end.

Fixpoint client_urls (connections : list string) : list string + err :=
  match connections with
  | [] => inl []
  | c :: connections =>
      match ParseURL c with
      | inr e => inr e
      | inl u =>
          if negb (String.eqb (url_Scheme u) "nats") then inr (ErrOther ("invalid connection string=" +:+ c))
          else match client_urls connections with inl l => inl (("nats://" +:+ url_Host u) :: l) | inr e => inr e end
      end
  end.

Definition tls_options (tls : tls_files) (credsFile : string) : list nats_option :=
  (if negb (String.eqb (KeyFile tls) "") && negb (String.eqb (CertFile tls) "") then [ClientCert (CertFile tls) (KeyFile tls)] else []) ++
  (if String.eqb (CAFile tls) "" then [] else [RootCAs (CAFile tls)]) ++
  (if String.eqb credsFile "" then [] else [UserCredentials credsFile]).

(** The servers and the options, from the connection string or from a context
    file that replaces them. *)
Definition contexts (u : URL) (q : Values) (connections : list string) (options : list nats_option) : (list string * list nats_option) + err :=
  let f := Get q "contextFile" in
  if String.eqb f "" then inl (connections, options)
  else if negb (String.eqb (url_Host u) "") then inr (ErrOther "when using context endpoint no host should be provided")
  else
    match context_file f with
    | inr e => inr e
    | inl (servers, with_options) =>
        match with_options options with inr e => inr e | inl options => inl (Split servers ",", options) end
    end.

Definition parseConnection (dsn : string) (tls : tls_files) : nats_config + err :=
  let connections := Split dsn "," in
  match ParseURL (default "" (head connections)) with
  | inr e => inr e
  | inl u =>
      match ParseQuery (url_RawQuery u) with
      | inr e => inr e
      | inl q =>
          match ranged (Get q "replicas") 1 5 defaultReplicas "invalid replicas, must be >= 1 and <= 5" with
          | inr e => inr e
          | inl replicas =>
              match (if String.eqb (Get q "slowMethod") "" then inl defaultSlowMethod
                     else match ParseDuration (Get q "slowMethod") with
                          | inl d => inl d
                          | inr _ => inr (ErrOther ("invalid slowMethod duration " +:+ Get q "slowMethod"))
                          end) with
              | inr e => inr e
              | inl slow =>
                  match ranged (Get q "revHistory") 2 64 defaultRevHistory "invalid revHistory, must be >= 2 and <= 64" with
                  | inr e => inr e
                  | inl revs =>
                      match contexts u q connections (tls_options tls (Get q "credsFile")) with
                      | inr e => inr e
                      | inl (connections, options) =>
                          match client_urls connections, ParseURL (default "" (head connections)) with
                          | inl urls, inl first =>
                              inl (MkNatsConfig (GoStrings.Join urls ",") (options ++ user_options first) revs
                                     (if String.eqb (Get q "bucket") "" then defaultBucket else Get q "bucket") replicas slow (url_Hostname u)
                                     (if String.eqb (url_Port u) "" then 0 else Atoi (url_Port u))
                                     (Embedded && Has q "noEmbed") (if Embedded then Get q "serverConfig" else "") (Embedded && Has q "stdoutLogging")
                                     (Embedded && Has q "dontListen") (if Embedded then Get q "dataDir" else ""))
                          | inr e, _ | _, inr e => inr e
                          end
                      end
                  end
              end
          end
      end
  end.

Lemma ranged_bounds v lo hi def msg n : lo <= def <= hi -> ranged v lo hi def msg = inl n -> lo <= n <= hi.
Proof using Type.
  intros Hd. unfold ranged. destruct (String.eqb v ""); [by intros [= <-]|]. destruct (ParseUint8 v) as [m|]; [|by intros [= <-]].
  destruct (Z.leb_spec lo m), (Z.leb_spec m hi); cbn; try done. intros [= <-]. lia.
Qed.

Lemma nats_config_limits dsn tls cfg : parseConnection dsn tls = inl cfg -> 2 <= revHistory cfg <= 64 /\ 1 <= replicas cfg <= 5.
Proof using Type.
  unfold parseConnection. repeat (case_match; try done); intros; simplify_eq; cbn;
    (split; [eapply (ranged_bounds _ 2 64); [|eassumption]; unfold defaultRevHistory; lia
            |eapply (ranged_bounds _ 1 5); [|eassumption]; unfold defaultReplicas; lia]).
Qed.

(** A configuration that is accepted is within the limits of JetStream: the
    history of a key is 2 to 64 revisions, so there is always room for the
    tombstone of a deletion next to the value before it, there are 1 to 5
    replicas, every server is a NATS server, and the files for TLS that are
    given are used unless a context file replaces the options. *)
Theorem nats_config_bounds dsn tls cfg : parseConnection dsn tls = inl cfg ->
  2 <= revHistory cfg <= 64 /\ 1 <= replicas cfg <= 5 /\
  (forall u q, ParseURL (default "" (head (Split dsn ","))) = inl u -> ParseQuery (url_RawQuery u) = inl q -> Get q "contextFile" = "" ->
     (CertFile tls <> "" -> KeyFile tls <> "" -> ClientCert (CertFile tls) (KeyFile tls) ∈ clientOptions cfg) /\
     (CAFile tls <> "" -> RootCAs (CAFile tls) ∈ clientOptions cfg)).
Proof using Type.
  unfold parseConnection. destruct (ParseURL _) as [u|e] eqn:Eu; [|done]. destruct (ParseQuery _) as [q|e] eqn:Eq; [|done].
  destruct (ranged (Get q "replicas") 1 5 defaultReplicas _) as [reps|e] eqn:Er; [|done].
  destruct (if String.eqb (Get q "slowMethod") "" then _ else _) as [slow|e]; [|done].
  destruct (ranged (Get q "revHistory") 2 64 defaultRevHistory _) as [revs|e] eqn:Eh; [|done].
  apply ranged_bounds in Er; [|unfold defaultReplicas; lia]. apply ranged_bounds in Eh; [|unfold defaultRevHistory; lia].
  destruct (contexts u q _ _) as [[connections options]|e] eqn:Ec; [|done].
  destruct (client_urls connections) as [urls|e]; [|by destruct (ParseURL _)]. destruct (ParseURL (default "" (head connections))) as [first|e]; [|done].
  intros [= <-]. cbn. split; [done|]. split; [done|]. intros u' q' [= <-] Hq Hctx. rewrite Eq in Hq. injection Hq as <-.
  unfold contexts in Ec. rewrite Hctx in Ec. injection Ec as _ <-. unfold tls_options. split.
  - intros Hc Hk. rewrite (proj2 (String.eqb_neq _ _) Hc), (proj2 (String.eqb_neq _ _) Hk). cbn. by apply elem_of_cons; left.
  - intros Hca. rewrite (proj2 (String.eqb_neq _ _) Hca). apply elem_of_app. left. apply elem_of_app. right. by apply elem_of_cons; left.
Qed.

(** A number too large for 8 bits is not refused but replaced by the default. *)
Lemma nats_large_number_ignored : ranged "300" 2 64 defaultRevHistory "invalid revHistory, must be >= 2 and <= 64" = inl 10 /\
  ranged "100" 2 64 defaultRevHistory "invalid revHistory, must be >= 2 and <= 64" = inr (ErrOther "invalid revHistory, must be >= 2 and <= 64").
Proof using Type. by vm_compute. Qed.
End nats.

(** ** What the t4 settings guarantee *)
Section t4_safe.
Context (LoadX509KeyPair : string -> string -> string + err) (ReadFile : string -> string + err) (pem_certificates : string -> list string)
  (ParseQuery : string -> Values + err) (ParseDuration : string -> Z + err) (Sscanf_d : string -> Z + err)
  (SplitHostPort : string -> (string * string) + err) (Hostname : string + err) (NewS3Store : S3Config -> string + err).

(** A t4 node that starts is reachable and protected as asked: a node that
    listens for peers announces an address; with any of the TLS files given
    peers are verified on both sides against a set of authorities that is not
    empty, unless that is switched off; and a bucket is used only with one
    complete source of credentials. *)
Theorem t4_config_safe dsn s3 bind advertise tls cfg :
  parseConfig LoadX509KeyPair ReadFile pem_certificates ParseQuery ParseDuration Sscanf_d SplitHostPort Hostname NewS3Store dsn s3 bind advertise tls = inl cfg ->
  (PeerListenAddr cfg <> "" -> AdvertisePeerAddr cfg <> "") /\
  (PeerTLS cfg = None <-> CertFile tls = "" /\ KeyFile tls = "" /\ CAFile tls = "") /\
  (forall p, PeerTLS cfg = Some p -> peer_pool p <> [] /\
     (SkipVerify tls = false -> peer_ClientAuth p = RequireAndVerifyClientCert /\ peer_InsecureSkipVerify p = false)) /\
  (Bucket s3 <> "" -> (AccessKey s3 <> "" /\ SecretKey s3 <> "") \/ (AccessKey s3 = "" /\ SecretKey s3 = "" /\ SessionToken s3 = "" /\ Profile s3 <> "")).
Proof using Type.
  unfold parseConfig. destruct (match Cut dsn "?" with Some (a, b) => (a, b) | None => (dsn, "") end) as [dir query].
  destruct (ParseQuery query) as [q|e]; [|done].
  destruct (if String.eqb (Bucket s3) "" then _ else _) as [store|e] eqn:Es; [|done].
  destruct (peer_addresses _ _ _ _ _) as [[listen advertised]|e] eqn:Ep; [|done].
  destruct (setting ParseDuration _ _) as [ck|e]; [|done]. destruct (setting ParseDuration _ _) as [sg|e]; [|done].
  destruct (setting Sscanf_d _ _) as [rt|e]; [|done]. destruct (peerTLSCredentials _ _ _ tls) as [peer|e] eqn:Et; [|done].
  intros [= <-]. cbn. split; [|split; [|split]].
  - unfold peer_addresses in Ep. cbv zeta in Ep. revert Ep.
    generalize (if negb (String.eqb (Get q "service-name") "") && String.eqb bind "" then "0.0.0.0:3380" else bind). intros l Ep.
    destruct (if negb (String.eqb (Get q "service-name") "") && String.eqb advertise "" then _ else inl advertise) as [adv|e]; [|done].
    destruct (negb _ && _) eqn:E in Ep; [done|]. injection Ep as -> ->. apply andb_false_iff in E as [E%negb_false_iff%String.eqb_eq|E%String.eqb_neq]; [done|done].
  - unfold peerTLSCredentials in Et. destruct (String.eqb_spec (CertFile tls) ""), (String.eqb_spec (KeyFile tls) ""), (String.eqb_spec (CAFile tls) "");
      cbn in Et; simplify_eq; try (split; [done|naive_solver]); try naive_solver.
    repeat case_match; simplify_eq; naive_solver.
  - intros p ->. unfold peerTLSCredentials in Et. repeat (case_match; simplify_eq/=; try done).
    all: split; [done|]; by intros ->.
  - intros Hb. rewrite (proj2 (String.eqb_neq _ _) Hb) in Es. destruct (validateS3Config s3) as [e|] eqn:Ev; [done|].
    unfold validateS3Config in Ev. destruct (String.eqb_spec (AccessKey s3) ""), (String.eqb_spec (SecretKey s3) ""),
      (String.eqb_spec (SessionToken s3) ""), (String.eqb_spec (Profile s3) ""); cbn in Ev; try done; auto.
Qed.
End t4_safe.

(** ** Witnesses *)
Definition toy_url (s : string) : URL := MkURL "nats" None "h:4222" "h" "4222" "q".
Definition toy_query (s : string) : Values + err := inl [("revHistory", "5"); ("replicas", "3")].

Lemma nats_config_bounds_witness : exists cfg,
  parseConnection (fun s => inl (toy_url s)) toy_query (fun _ => inl 0) (fun _ => 4222) (fun _ => inr (ErrOther "")) true "nats://h:4222?q" (MkTLSFiles "" "" "ca.pem" false)
    = inl cfg /\ revHistory cfg = 5 /\ RootCAs "ca.pem" ∈ clientOptions cfg.
Proof.
  destruct (parseConnection (fun s => inl (toy_url s)) toy_query (fun _ => inl 0) (fun _ => 4222) (fun _ => inr (ErrOther "")) true "nats://h:4222?q"
    (MkTLSFiles "" "" "ca.pem" false)) as [cfg|e] eqn:E; [|vm_compute in E; discriminate].
  exists cfg. split; [reflexivity|]. split; [vm_compute in E; by injection E as <-|].
  destruct (nats_config_bounds _ _ _ _ _ _ _ _ _ E) as (_ & _ & Hf).
  destruct (Hf (toy_url "") [("revHistory", "5"); ("replicas", "3")] eq_refl eq_refl eq_refl) as [_ Hca]. apply Hca. discriminate.
Defined.

Lemma t4_config_safe_witness : exists cfg,
  parseConfig (fun _ _ => inl "pair") (fun _ => inl "pem") (fun _ => ["ca"]) (fun _ => inl [("service-name", "svc")]) (fun _ => inl 0) (fun _ => inl 0)
    (fun _ => inl ("0.0.0.0", "3380")) (inl "node-0") (fun _ => inl "store") "/data?service-name=svc" (MkS3 "" "" "" "" "") "" "" (MkTLSFiles "c" "k" "ca" false) = inl cfg /\
  AdvertisePeerAddr cfg = "node-0.svc:3380" /\ PeerTLS cfg <> None.
Proof.
  destruct (parseConfig (fun _ _ => inl "pair") (fun _ => inl "pem") (fun _ => ["ca"]) (fun _ => inl [("service-name", "svc")]) (fun _ => inl 0) (fun _ => inl 0)
    (fun _ => inl ("0.0.0.0", "3380")) (inl "node-0") (fun _ => inl "store") "/data?service-name=svc" (MkS3 "" "" "" "" "") "" "" (MkTLSFiles "c" "k" "ca" false))
    as [cfg|e] eqn:E; [|vm_compute in E; discriminate].
  exists cfg. split; [reflexivity|]. destruct (t4_config_safe _ _ _ _ _ _ _ _ _ _ _ _ _ _ _ E) as (_ & Htls & _).
  split; [vm_compute in E; by injection E as <-|]. intros Hn. destruct (proj1 Htls Hn) as [Hc _]. discriminate Hc.
Defined.
