(* ===== verification/Services.v ===== *)
(** * The services of the server (pkg/server/server.go, cluster.go, lease.go,
    maintenance.go, kv.go)

    Every method that is registered with the gRPC server, except the watch
    streams of [Watch]: a request is served by the handler of its method, or
    answered with the error of a method that is not supported. *)
From S2P Require Import Prelude Types GoStrings Prog OrderedMap Mvcc MvccSpec Memory MemoryProofs MemoryTheorems MemoryWatch Backend Server Config.

(** The bridge as [New] makes it; its backend is what its programs run over. *)
Record KVServerBridge := MkBridge { emulatedETCDVersion : string; scheme : string; notifyInterval : Z }.
Definition New (scheme : string) (notifyInterval : Z) (emulatedETCDVersion : string) : KVServerBridge :=
  MkBridge emulatedETCDVersion scheme notifyInterval.

(** The methods of the cluster, lease and maintenance services that are not
    supported, with the errors they answer. *)
Inductive cluster_method : Type := MemberAdd | MemberRemove | MemberUpdate | MemberPromote.
Inductive lease_method : Type := LeaseRevoke | LeaseKeepAlive | LeaseTimeToLive | LeaseLeases.
Inductive maintenance_method : Type := Alarm | Defragment | Hash | HashKV | Snapshot | MoveLeader | Downgrade.

Definition cluster_refusal (m : cluster_method) : string :=
  match m with
  | MemberAdd => "member add is not supported"
  | MemberRemove => "member remove is not supported"
  | MemberUpdate => "member update is not supported"
  | MemberPromote => "member promote is not supported"
  end.

Definition lease_refusal (m : lease_method) : string :=
  match m with
  | LeaseRevoke => "lease revoke is not supported"
  | LeaseKeepAlive => "lease keep alive is not supported"
  | LeaseTimeToLive => "lease time to live is not supported"
  | LeaseLeases => "lease leases is not supported"
  end.

Definition maintenance_refusal (m : maintenance_method) : string :=
  match m with
  | Alarm => "alarm is not supported"
  | Defragment => "defragment is not supported"
  | Hash => "hash is not supported"
  | HashKV => "hash kv is not supported"
  | Snapshot => "snapshot is not supported"
  | MoveLeader => "move leader is not supported"
  | Downgrade => "downgrade is not supported"
  end.

(** [authority] is the first value of the header of that name. *)
Inductive request : Type :=
  | RRange (r : RangeRequest) | RPut (r : PutRequest) | RDeleteRange (r : DeleteRangeRequest) | RTxn (r : TxnRequest) | RCompact (revision : Z)
  | RStatus | RLeaseGrant (TTL : Z) | RMemberList (authority : option string)
  | RCluster (m : cluster_method) | RLease (m : lease_method) | RMaintenance (m : maintenance_method).

(** A member has its URL as client and as peer URL. *)
Inductive response : Type :=
  | ARange (r : RangeResponse) | APut (r : PutResponse) | ADeleteRange (r : DeleteRangeResponse) | ATxn (r : TxnResponse) | ACompact (header : Z)
  | AStatus (DbSize : Z) (Version : string) | ALeaseGrant (ID TTL : Z) | AMemberList (name url : string).

Definition answer {A} (f : A -> response) (p : handler A) : handler response :=
  '(r, e) <-! p;; Ret (f <$> r, e).

(** The call a program stands before, with what is known of the state after it. *)
Ltac do_call H := match goal with |- context [let (_, _) := ?x in _] => first [destruct x as [[[? ?] ?] ?]|destruct x as [[? ?] ?]]; cbn in H; subst; cbn end.

Section serve.
Context (RegisterCustomResourceDefinition : string -> gerr) (b : KVServerBridge).

(** [MemberList]: one member. *)
Definition MemberList (authority : option string) : response := AMemberList "kine" (authorityURL (scheme b) authority).

(** The handlers of the bridge only log an error before they return it. *)
Definition serve (req : request) : handler response :=
  match req with
  | RRange r => answer ARange (Range r)
  | RPut r => answer APut (Put r)
  | RDeleteRange r => answer ADeleteRange (DeleteRange r)
  | RTxn r => answer ATxn (Txn RegisterCustomResourceDefinition r)
  | RCompact revision => answer ACompact (LimitedServer_Compact revision)
  | RStatus => answer (fun size => AStatus size (emulatedETCDVersion b)) Status
  | RLeaseGrant TTL => let (id, ttl) := LeaseGrant TTL in Ret (Some (ALeaseGrant id ttl), None)
  | RMemberList authority => Ret (Some (MemberList authority), None)
  | RCluster m => Ret (None, Some (ErrOther (cluster_refusal m)))
  | RLease m => Ret (None, Some (ErrOther (lease_refusal m)))
  | RMaintenance m => Ret (None, Some (ErrOther (maintenance_refusal m)))
  end.

(** The requests that may write. *)
Definition may_write (req : request) : bool :=
  match req with RPut _ | RTxn _ | RCompact _ => true | _ => false end.

(** Every other request leaves the store as it is: over any driver that keeps
    the promise of [BackendLaws], a range, a status, a deletion by range (which is
    refused), and every method of the lease, cluster and maintenance services. *)
Theorem services_read_only {S : Type} {sim : astate -> S -> Prop} `{BackendLaws S sim} (a : astate) (s : S) (req : request) :
  sim a s -> may_write req = false -> (run (serve req) s).2 = s.
Proof using Type.
  intros Hsim Hw. destruct (law_reads (sim:=sim) s) as (Hlist&Hcount&Hsize&_).
  assert (Hget : forall k r kb, (h_do (BGet k r kb) s).2 = s) by (intros; by rewrite (law_get a)).
  destruct req as [r|r|r|r|rv| |t|au|m|m|m]; try done.
  - unfold serve, answer. rewrite run_bind.
    assert (Hr : (run (Range r) s).2 = s); [|by destruct (run (Range r) s) as [[[[x|] e]|] s1]].
    unfold Range. repeat (match goal with |- context [if ?c then _ else _] => destruct c; [done|] end).
    rewrite run_bind. assert (Hl : (run (LimitedServer_Range r) s).2 = s).
    { unfold LimitedServer_Range. destruct (String.eqb (rngRangeEnd r) "") eqn:He.
      - unfold LimitedServer_get. destruct (rngLimit r >? 1); [done|]. cbn. specialize (Hget (redirect (rngKey r)) (rngRevision r) (rngKeysOnly r)).
        by do_call Hget.
      - unfold LimitedServer_list. rewrite He. destruct (rngCountOnly r).
        + cbn. match goal with |- context [h_do (BCount ?k ?e ?rv ?ls ?fs) s] => specialize (Hcount k e rv ls fs) end.
          by do_call Hcount.
        + cbn. match goal with |- context [h_do (BList ?k ?e ?l ?rv ?kb ?ls ?fs) s] => specialize (Hlist k e l rv kb ls fs) end.
          do_call Hlist. destruct (_ && _); [|done]. cbn.
          match goal with |- context [h_do (BCount ?k ?e ?rv ?ls ?fs) s] => specialize (Hcount k e rv ls fs) end.
          by do_call Hcount. }
    destruct (run (LimitedServer_Range r) s) as [[[x e]|] s1]; cbn in *; [|done]. by destruct e, x.
  - cbn. do_call Hsize. by destruct (is_err _).
Qed.
End serve.

(** ** Where clients are sent *)

(** A client that dialled the endpoint the server announced gets that endpoint
    back from the list of members. *)
Theorem member_list_is_endpoint (Listener : string) (tls : tls_files) (address port : string) (b : KVServerBridge) :
  scheme b = endpointScheme Listener tls -> HasPrefix (endpointScheme Listener tls) "unix" = false ->
  authorityURL (scheme b) (Some ("127.0.0.1:" +:+ port)) = endpointURL Listener tls address (Some port).
Proof. intros -> Hu. unfold authorityURL, endpointURL. rewrite Hu. reflexivity. Qed.
