(* ===== verification/Dialer.v ===== *)
(** * The caching dialer (pkg/dialer/dialer.go)

    How the MySQL and PostgreSQL drivers reach their server: names are looked
    up once in a while and their addresses tried one after another.  What the
    network answers to a call are parameters of that call. *)
From S2P Require Import Prelude GoStrings.

Definition TTL : Z := 15000000000.

Record cacheEntry := MkCache { c_host : string; c_addrs : list string; c_expires : Z }.

(** [Lookup] is a resolution that succeeded, with the time it was answered. *)
Inductive dial_action : Type :=
  | Lookup (host : string) (addrs : list string) (t : Z)
  | Dial (network address : string).

Record dialer := MkDialer { d_cache : option cacheEntry; d_trace : list dial_action }.

(** [errors.Join] of no error is nil. *)
Definition errors_Join (errs : list err) : gerr := match errs with [] => None | _ => Some (ErrJoin errs) end.

Section dial.
Context {Conn : Type} (SplitHostPort : string -> (string * string) + err) (ParseAddr : string -> bool) (JoinHostPort : string -> string -> string).

(** What one call meets: the resolver and the connections. *)
Record answers := MkAnswers { LookupHost : string -> list string + err; DialContext_ : string -> string -> Conn + err }.

(** The wrapped dialer. *)
Definition dial_one (ans : answers) (network address : string) : ST dialer (option Conn * gerr) := fun d =>
  (match DialContext_ ans network address with inl c => (Some c, None) | inr e => (None, Some e) end,
   MkDialer (d_cache d) (d_trace d ++ [Dial network address])).

Fixpoint dial_addrs (ans : answers) (network port : string) (addrs : list string) (errs : list err) : ST dialer (option Conn * gerr) :=
  match addrs with
  | [] => st_ret (None, errors_Join errs)
  | addr :: addrs =>
      r <- dial_one ans network (JoinHostPort addr port);;
      match r with
      | (_, Some e) => dial_addrs ans network port addrs (errs ++ [e])
      | _ => st_ret r
      end
  end.

(** The addresses to try: from the cache, or looked up and put there. *)
Definition resolve (ans : answers) (host : string) (now now' : Z) : ST dialer (list string + err) := fun d =>
  let miss :=
    match LookupHost ans host with
    | inr e => (inr e, d)
    | inl [] => (inr (ErrOther "LookupHost returned empty address list"), d)
    | inl addrs => (inl addrs, MkDialer (Some (MkCache host addrs (now' + TTL))) (d_trace d ++ [Lookup host addrs now']))
    end in
  match d_cache d with
  | None => miss
  | Some entry => if negb (String.eqb (c_host entry) host) || (now >? c_expires entry) then miss else (inl (c_addrs entry), d)
  end.

(** [DialContext]; [now] and [now'] are the two readings of the clock. *)
Definition DialContext (ans : answers) (network address : string) (now now' : Z) : ST dialer (option Conn * gerr) :=
  if negb (HasPrefix network "tcp") then dial_one ans network address
  else
    match SplitHostPort address with
    | inr e => st_ret (None, Some e)
    | inl (host, port) =>
        if ParseAddr host then dial_one ans network address
        else
          r <- resolve ans host now now';;
          match r with
          | inr e => st_ret (None, Some e)
          | inl addrs => dial_addrs ans network port addrs []
          end
    end.

(** The calls of a process, one after another. *)
Inductive dials : dialer -> Prop :=
  | d_init : dials (MkDialer None [])
  | d_call d ans network address now now' : dials d -> now <= now' -> dials (DialContext ans network address now now' d).2.

(** ** What is cached *)
(** The cached addresses are those of a resolution that is in the trace. *)
Definition cache_ok (d : dialer) : Prop :=
  forall e, d_cache d = Some e -> c_addrs e <> [] /\ Lookup (c_host e) (c_addrs e) (c_expires e - TTL) ∈ d_trace d.

Lemma dial_one_ok (ans : answers) (network address : string) (d : dialer) : cache_ok d -> cache_ok (dial_one ans network address d).2.
Proof using Type. intros Hd e He. destruct (Hd e He) as [? Hin]. split; [done|]. cbn. apply elem_of_app. by left. Qed.

(** The first address that answers, the addresses tried, and their errors. *)
Section addrs.
Variables (ans : answers) (network port : string).
Local Abbreviation conn a := (DialContext_ ans network (JoinHostPort a port)).

Fixpoint first_conn (addrs : list string) : option Conn :=
  match addrs with [] => None | a :: addrs => match conn a with inl c => Some c | inr _ => first_conn addrs end end.
Fixpoint tried (addrs : list string) : list string :=
  match addrs with [] => [] | a :: addrs => a :: match conn a with inl c => [] | inr _ => tried addrs end end.
Definition conn_errors (addrs : list string) : list err := omap (fun a => match conn a with inl _ => None | inr e => Some e end) addrs.

Lemma dial_addrs_spec (addrs : list string) : forall errs d,
  dial_addrs ans network port addrs errs d =
    (match first_conn addrs with Some c => (Some c, None) | None => (None, errors_Join (errs ++ conn_errors addrs)) end,
     MkDialer (d_cache d) (d_trace d ++ ((fun a => Dial network (JoinHostPort a port)) <$> tried addrs))).
Proof using Type.
  induction addrs as [|a addrs IH]; intros errs d; cbn; [by rewrite !app_nil_r; destruct d|].
  unfold st_bind, dial_one. cbn. destruct (conn a) as [c|e] eqn:E; cbn; [done|]. rewrite IH. cbn. rewrite <- !app_assoc. done.
Qed.

Lemma first_conn_spec (addrs : list string) : match first_conn addrs with
  | Some c => exists before a after, addrs = before ++ a :: after /\ conn a = inl c /\ forall b, b ∈ before -> exists e, conn b = inr e
  | None => forall b, b ∈ addrs -> exists e, conn b = inr e
  end.
Proof using Type.
  induction addrs as [|a addrs IH]; cbn; [by intros ? ?%elem_of_nil|]. destruct (conn a) as [c|e] eqn:E.
  - exists [], a, addrs. split; [done|]. split; [done|]. by intros ? ?%elem_of_nil.
  - destruct (first_conn addrs) as [c|].
    + destruct IH as (before&a'&after&->&Hc&Hb). exists (a :: before), a', after. split; [done|]. split; [done|].
      intros b [->|Hin]%elem_of_cons; eauto.
    + intros b [->|Hin]%elem_of_cons; eauto.
Qed.
End addrs.

Lemma resolve_spec (ans : answers) (host : string) (now now' : Z) (d : dialer) : cache_ok d -> now <= now' ->
  cache_ok (resolve ans host now now' d).2 /\
  match (resolve ans host now now' d).1 with
  | inl addrs => addrs <> [] /\ exists t, Lookup host addrs t ∈ d_trace (resolve ans host now now' d).2 /\ now <= t + TTL
  | inr _ => forall addrs, LookupHost ans host = inl addrs -> addrs = []
  end.
Proof using Type.
  intros Hd Hn.
  assert (Hmiss : let x := match LookupHost ans host with
      | inr e => (inr e, d)
      | inl [] => (inr (ErrOther "LookupHost returned empty address list"), d)
      | inl addrs => (inl addrs, MkDialer (Some (MkCache host addrs (now' + TTL))) (d_trace d ++ [Lookup host addrs now']))
      end in cache_ok x.2 /\ match x.1 with
      | inl addrs => addrs <> [] /\ exists t, Lookup host addrs t ∈ d_trace x.2 /\ now <= t + TTL
      | inr _ => forall addrs, LookupHost ans host = inl addrs -> addrs = []
      end).
  { destruct (LookupHost ans host) as [[|a addrs]|e]; cbn; [split; [done|]; by intros ? [= <-]| |by split].
    assert (Hin : forall l, Lookup host (a :: addrs) now' ∈ l ++ [Lookup host (a :: addrs) now']) by (intros l; apply elem_of_app; right; by apply list_elem_of_singleton).
    split; [|split; [done|]; exists now'; unfold TTL; split; [done|lia]]. intros e [= <-]. cbn. split; [done|]. by rewrite Z.add_simpl_r. }
  unfold resolve. destruct (d_cache d) as [entry|] eqn:Hc; [|exact Hmiss].
  destruct (String.eqb_spec (c_host entry) host) as [Hh|]; cbn; [|exact Hmiss]. destruct (Z.gtb_spec now (c_expires entry)); [exact Hmiss|]. cbn.
  split; [done|]. destruct (Hd _ Hc) as [Hne Hin]. split; [done|]. exists (c_expires entry - TTL). rewrite <- Hh. split; [done|lia].
Qed.

Lemma cache_ok_addrs (ans : answers) (network port : string) (addrs : list string) (errs : list err) (d : dialer) :
  cache_ok d -> cache_ok (dial_addrs ans network port addrs errs d).2.
Proof using Type.
  intros Hd. rewrite dial_addrs_spec. intros e He. destruct (Hd e He) as [? Hin]. split; [done|]. cbn. apply elem_of_app. by left.
Qed.

Lemma dials_ok (d : dialer) : dials d -> cache_ok d.
Proof using Type.
  induction 1 as [|d ans network address now now' _ IH Hn]; [done|]. unfold DialContext.
  destruct (negb (HasPrefix network "tcp")); [by apply dial_one_ok|]. destruct (SplitHostPort address) as [[host port]|e]; [|done].
  destruct (ParseAddr host); [by apply dial_one_ok|]. unfold st_bind. destruct (resolve_spec ans host now now' d IH Hn) as [Hok _].
  destruct (resolve ans host now now' d) as [[addrs|e] d']; [|done]. by apply cache_ok_addrs.
Qed.

(** C37. What a name is dialled with.  After any earlier calls, a call that
    returns a connection has it from an address that a resolution of this very
    name returned, at most fifteen seconds before the call, with every address
    before it tried and failed; a call that returns no connection returns an
    error, and either the name could not be resolved or every address of such a
    resolution failed. *)
Theorem dialer_outcome (d : dialer) (ans : answers) (network address host port : string) (now now' : Z) :
  dials d -> now <= now' -> HasPrefix network "tcp" = true -> SplitHostPort address = inl (host, port) -> ParseAddr host = false ->
  let x := DialContext ans network address now now' d in
  match x.1 with
  | (Some c, None) => exists addrs t before a after, Lookup host addrs t ∈ d_trace x.2 /\ now <= t + TTL /\
      addrs = before ++ a :: after /\ DialContext_ ans network (JoinHostPort a port) = inl c /\
      forall b, b ∈ before -> exists e, DialContext_ ans network (JoinHostPort b port) = inr e
  | (None, Some _) => (forall addrs, LookupHost ans host = inl addrs -> addrs = []) \/
      exists addrs t, Lookup host addrs t ∈ d_trace x.2 /\ now <= t + TTL /\ addrs <> [] /\
        forall b, b ∈ addrs -> exists e, DialContext_ ans network (JoinHostPort b port) = inr e
  | _ => False
  end.
Proof using Type.
  intros Hd%dials_ok Hn Ht Hs Hp. cbv zeta. unfold DialContext. rewrite Ht, Hs, Hp. cbn [negb]. unfold st_bind.
  destruct (resolve_spec ans host now now' d Hd Hn) as [_ Hr]. destruct (resolve ans host now now' d) as [[addrs|e] d']; [|by left].
  destruct Hr as (Hne&t&Hin&Hle). rewrite dial_addrs_spec. cbn [fst snd d_trace].
  pose proof (first_conn_spec ans network port addrs) as Hf.
  assert (Hin' : forall l, Lookup host addrs t ∈ d_trace d' ++ l) by (intros l; apply elem_of_app; by left).
  destruct (first_conn ans network port addrs) as [c|].
  - destruct Hf as (before&a&after&Heq&Hc&Hb). exists addrs, t, before, a, after. auto.
  - cbn [app]. destruct (conn_errors ans network port addrs) as [|e es] eqn:Ec; cbn.
    + destruct addrs as [|a addrs]; [done|]. destruct (Hf a) as [e He]; [left|]. unfold conn_errors in Ec. cbn in Ec. by rewrite He in Ec.
    + right. exists addrs, t. auto.
Qed.

(** Within the fifteen seconds a name that was resolved is not looked up again. *)
Lemma dialer_cached (d : dialer) (ans : answers) (network address host port : string) (addrs : list string) (t now now' : Z) :
  d_cache d = Some (MkCache host addrs (t + TTL)) -> now <= t + TTL -> HasPrefix network "tcp" = true ->
  SplitHostPort address = inl (host, port) -> ParseAddr host = false ->
  (DialContext ans network address now now' d).2 = MkDialer (d_cache d) (d_trace d ++ ((fun a => Dial network (JoinHostPort a port)) <$> tried ans network port addrs)).
Proof using Type.
  intros Hc Hn Ht Hs Hp. unfold DialContext. rewrite Ht, Hs, Hp. cbn [negb]. unfold st_bind, resolve. rewrite Hc. cbn.
  rewrite String.eqb_refl. destruct (Z.gtb_spec now (t + TTL)); [lia|]. cbn. rewrite dial_addrs_spec. cbn. by rewrite Hc.
Qed.
End dial.

(** ** At work: the first of two addresses does not answer *)
Definition toy_split (a : string) : (string * string) + err := inl ("db", "3306").
Definition toy_answers : answers (Conn:=string) :=
  MkAnswers (fun _ => inl ["10.0.0.1"; "10.0.0.2"]) (fun _ a => if String.eqb a "10.0.0.2:3306" then inl a else inr (ErrOther "refused")).
Definition toy_join (h p : string) : string := h +:+ ":" +:+ p.

Lemma dialer_outcome_witness : exists t, Lookup "db" ["10.0.0.1"; "10.0.0.2"] t ∈ d_trace (DialContext toy_split (fun _ => false) toy_join toy_answers "tcp" "db:3306" 5 7 (MkDialer None [])).2 /\ 5 <= t + TTL.
Proof.
  pose proof (dialer_outcome toy_split (fun _ => false) toy_join (MkDialer None []) toy_answers "tcp" "db:3306" "db" "3306" 5 7
    (d_init _ _ _) ltac:(lia) eq_refl eq_refl eq_refl) as H.
  destruct H as (addrs&t&before&a&after&Hin&Hle&_). exists t. split; [|exact Hle].
  vm_compute in Hin. vm_compute. destruct (proj1 (elem_of_cons _ _ _) Hin) as [He|Hin']; [injection He as <- <-; by left|].
  repeat (apply elem_of_cons in Hin' as [He|Hin']; [discriminate He|]). by apply elem_of_nil in Hin'.
Defined.
