(* ===== verification/Until.v ===== *)
(** * Periodic calls (pkg/util/wait.go)

    [UntilWithContext], which the front end reports the progress of watches
    with, as the times at which it calls its function; and the interval of those
    reports (server/watch.go). *)
From S2P Require Import Prelude.

Section until.
(** When the context is done, how long the i-th call takes, and the arguments. *)
Context (ctx_Done : Z -> bool) (took : nat -> Z) (interval : Z) (sliding : bool).

(** [Backoff]: when the timer set at [now] fires. *)
Definition Backoff (now : Z) : Z := now + interval.

(** The first [n] turns of the loop.  When the context ends while the timer is
    waited for, the select returns, or the test at the top of the loop if it
    took the timer all the same. *)
Fixpoint UntilWithContext (n i : nat) (now : Z) : list Z :=
  match n with
  | O => []
  | S n =>
      if ctx_Done now then []
      else
        let fin := now + took i in
        let fire := Backoff (if sliding then fin else now) in
        now :: UntilWithContext n (S i) (Z.max fin fire)
  end.

(** Consecutive calls. *)
Lemma until_next (n i : nat) (now t : Z) (l : list Z) : UntilWithContext n i now = now :: t :: l ->
  t = (if sliding then now + took i + Z.max 0 interval else now + Z.max (took i) interval).
Proof using Type.
  destruct n as [|n]; cbn; [done|]. destruct (ctx_Done now); [done|]. intros [= Hl].
  destruct n as [|n]; cbn in Hl; [done|]. destruct (ctx_Done (Z.max _ _)); [done|]. injection Hl as <- _. unfold Backoff. destruct sliding; lia.
Qed.

Lemma until_start (n i : nat) (now t : Z) (l : list Z) : UntilWithContext n i now = t :: l -> t = now /\ ctx_Done now = false.
Proof using Type. destruct n; cbn; [done|]. by destruct (ctx_Done now); [|intros [= -> _]]. Qed.

Lemma until_spaced (n : nat) : forall i now, (forall i, 0 <= took i) -> 0 <= interval ->
  Forall (fun t => now <= t /\ ctx_Done t = false) (UntilWithContext n i now) /\
  forall j, (j < length (UntilWithContext n i now))%nat -> now + interval * Z.of_nat j <= nth j (UntilWithContext n i now) 0.
Proof using Type.
  induction n as [|n IH]; intros i now Ht Hi; cbn; [split; [done|lia]|]. destruct (ctx_Done now) eqn:Hd; [split; [done|cbn; lia]|].
  set (next := Z.max _ _). assert (Hn : now + interval <= next) by (subst next; unfold Backoff; specialize (Ht i); destruct sliding; lia).
  destruct (IH (S i) next Ht Hi) as [H1 H2]. split.
  - constructor; [done|]. eapply Forall_impl; [exact H1|]. cbn. intros t [? ?]. split; [lia|done].
  - intros [|j] Hj; cbn; [lia|]. cbn in Hj. specialize (H2 j ltac:(lia)). lia.
Qed.

(** The function is never called when the context is done, and never more often
    than the interval allows: a span of time [T] from the start on sees at most
    one call more than the intervals that fit into it, however long the calls
    take; late calls are not made up for. *)
Theorem until_rate (n : nat) (now T : Z) : (forall i, 0 <= took i) -> 0 < interval -> 0 <= T ->
  Forall (fun t => ctx_Done t = false) (UntilWithContext n 0 now) /\
  Z.of_nat (length (filter (fun t => t <= now + T) (UntilWithContext n 0 now))) <= T / interval + 1.
Proof using Type.
  intros Ht Hi HT. destruct (until_spaced n 0 now Ht ltac:(lia)) as [H1 H2]. split.
  { eapply Forall_impl; [exact H1|]. by intros t [_ ?]. }
  set (l := UntilWithContext n 0 now) in *. clearbody l. clear H1.
  assert (Hgen : forall (l : list Z) k, (forall j, (j < length l)%nat -> now + interval * (Z.of_nat j + k) <= nth j l 0) -> 0 <= k ->
    Z.of_nat (length (filter (fun t => t <= now + T) l)) <= Z.max 0 (T / interval + 1 - k)).
  { clear H2 l. induction l as [|t l IH]; intros k Hj Hk; [cbn; lia|].
    assert (Hl : Z.of_nat (length (filter (fun t => t <= now + T) l)) <= Z.max 0 (T / interval + 1 - (k + 1))).
    { apply IH; [|lia]. intros j Hlt. specialize (Hj (S j) ltac:(cbn; lia)). cbn in Hj.
      replace (Z.of_nat j + (k + 1)) with (Z.of_nat (S j) + k) by lia. exact Hj. }
    rewrite filter_cons. destruct (decide (t <= now + T)) as [Hle|]; [|lia]. cbn [length].
    assert (Hk' : k <= T / interval); [|lia]. specialize (Hj 0%nat ltac:(cbn; lia)). cbn in Hj. apply Z.div_le_lower_bound; lia. }
  specialize (Hgen l 0). pose proof (Z.div_pos T interval HT Hi). etrans; [apply Hgen; [|lia]|lia].
  intros j Hj. rewrite Z.add_0_r. by apply H2.
Qed.
End until.

(** ** The interval of progress reports *)
(** [jitter] is what [rand.Int63n] returns, which panics unless its bound is
    positive. *)
Definition getProgressReportInterval (notifyInterval jitter : Z) : option Z :=
  if Z.quot notifyInterval 10 <=? 0 then None else Some (notifyInterval + jitter).

Lemma progress_interval (notifyInterval jitter : Z) : 0 <= jitter < Z.quot notifyInterval 10 ->
  exists i, getProgressReportInterval notifyInterval jitter = Some i /\ notifyInterval <= i < notifyInterval + notifyInterval / 10.
Proof.
  intros Hj. unfold getProgressReportInterval. rewrite (proj2 (Z.leb_gt _ _)) by lia. eexists. split; [done|].
  assert (Hn : 0 <= notifyInterval). { destruct (Z.le_gt_cases 0 notifyInterval); [done|]. assert (Z.quot notifyInterval 10 <= 0); [|lia].
    rewrite <- (Z.opp_involutive notifyInterval), Z.quot_opp_l by lia. pose proof (Z.quot_pos (- notifyInterval) 10). lia. }
  rewrite Z.quot_div_nonneg in Hj by lia. lia.
Qed.

(** An interval of less than ten nanoseconds, such as zero to switch the reports
    off, panics when the first watch stream is opened. *)
Lemma progress_interval_panics (notifyInterval jitter : Z) : notifyInterval < 10 -> getProgressReportInterval notifyInterval jitter = None.
Proof.
  intros Hn. unfold getProgressReportInterval. rewrite (proj2 (Z.leb_le _ _)); [done|].
  destruct (Z.le_gt_cases 0 notifyInterval); [rewrite Z.quot_small; lia|].
  rewrite <- (Z.opp_involutive notifyInterval), Z.quot_opp_l by lia. pose proof (Z.quot_pos (- notifyInterval) 10). lia.
Qed.

(** ** At work: a report every five seconds, of which the second takes twelve *)
Definition slow_second (i : nat) : Z := if (i =? 1)%nat then 12 else 1.
Example until_example : UntilWithContext (fun t => 30 <=? t) slow_second 5 false 9 0 0 = [0; 5; 17; 22; 27].
Proof. reflexivity. Qed.

Lemma until_rate_witness : Z.of_nat (length (filter (fun t => t <= 0 + 22) (UntilWithContext (fun t => 30 <=? t) slow_second 5 false 9 0 0))) <= 22 / 5 + 1.
Proof. apply (until_rate (fun t => 30 <=? t) slow_second 5 false 9 0 22); [|lia|lia]. intros i. unfold slow_second. by destruct (i =? 1)%nat. Defined.
