(* ===== verification/NatsNew.v ===== *)
(** * Opening the NATS driver (drivers/nats/new.go, drivers/nats/server/server.go)

    [newBackend] as the sequence of what it does to the embedded server and to
    the JetStream server it connects to: its three loops (the wait for the
    embedded server, the creation of the bucket, the setting for direct reads)
    run for the [n] turns they are given, [None] is one that has not ended.
    What the NATS libraries answer are parameters. *)
From S2P Require Import Prelude Types GoStrings Config.

Definition second : Z := 1000000000.
Definition millisecond : Z := 1000000.

(** What a server is configured with (of the library's options those the code sets). *)
Record server_options := MkOpts { o_Host : string; o_Port : Z; o_StoreDir : string; o_JetStream : bool; o_NoSigs : bool; o_DontListen : bool }.

Inductive connect_option : Type :=
  | ClientOption (o : nats_option) | Name (s : string) | MaxReconnects (n : Z) | InProcessServer | LogHandlers.

(** The configuration of the stream behind the bucket. *)
Record stream_config := MkStream { AllowDirect : bool; stream_rest : string }.
Definition allow (c : stream_config) : stream_config := MkStream true (stream_rest c).

Inductive nats_action : Type :=
  | NewServer (o : server_options)
  | StartServer
  | ShutdownAtDone                            (* the goroutine that stops the server with ctx *)
  | Sleep (ns : Z)
  | Connect (url : string) (options : list connect_option)
  | CreateKeyValue (bucket : string) (History Replicas : Z)
  | GetStream (name : string)
  | UpdateStream (name : string) (scfg : stream_config).

Record world := MkWorld { w_trace : list nats_action; w_stream : stream_config }.
Definition step (a : nats_action) : ST world unit := fun w => (tt, MkWorld (w_trace w ++ [a]) (w_stream w)).

Record nats_handle := MkHandle {
  nb_name : string; nb_bucket : string; nb_revHistory : Z;
  nb_compactInterval : Z; nb_compactMinRetain : Z; nb_threshold : Z
}.

(** [err == context.DeadlineExceeded], and [errors.Is]. *)
Definition eq_deadline (e : err) : bool := match e with ErrOther m => String.eqb m "context deadline exceeded" | _ => false end.
Fixpoint Is_deadline (e : err) : bool :=
  eq_deadline e || match e with ErrJoin es => existsb Is_deadline es | _ => false end.

(** ** Waiting for the embedded server *)
Inductive waited : Type := WaitReady (retries : nat) | WaitCancelled | WaitTimeout.

Section wait.
(** Whether [ctx] is done and the server ready at a time, which of two channels
    that can be read a [select] takes, and the time one turn takes. *)
Context (ctx_Done ready : Z -> bool) (pick : nat -> bool) (took : nat -> Z).

Fixpoint wait_ready (n retries : nat) (now : Z) : option waited :=
  match n with
  | O => None
  | S n =>
      match ctx_Done now, 60 * second <=? now with
      | true, true => Some (if pick retries then WaitCancelled else WaitTimeout)
      | true, false => Some WaitCancelled
      | false, true => Some WaitTimeout
      | false, false =>
          if ready now then Some (WaitReady retries)
          else wait_ready n (S retries) (now + took retries + 100 * millisecond)
      end
  end.
End wait.

Section open.
Context (ParseURL : string -> URL + err) (ParseQuery : string -> Values + err) (ParseDuration : string -> Z + err) (Atoi : string -> Z)
  (context_file : string -> string * (list nats_option -> list nats_option + err) + err) (Embedded : bool).

(** The embedded server: its configuration file, its constructor, its address;
    and the wait for it. *)
Context (ProcessConfigFile : string -> server_options + err) (NewServer_ : gerr) (ClientURL : string)
  (ctx_Done ready : Z -> bool) (pick : nat -> bool) (took : nat -> Z).

(** The JetStream server: the connection, what each attempt to create the
    bucket answers and whether that error is one of an unhealthy cluster, what
    each look at the stream and each change of it answers ([true] when a change
    that was answered by an error has been made all the same). *)
Context (Connect_ JetStream_ : gerr) (Create_ : nat -> gerr) (temporary : err -> bool) (Stream_ : nat -> gerr) (Update_ : nat -> gerr * bool).

(** ** The embedded server (server.go, [New]) *)
Definition server_opts (c : nats_config) : server_options + err :=
  match (if negb (String.eqb (serverConfig c) "") then ProcessConfigFile (serverConfig c)
         else inl (MkOpts "" 0 "" false false false)) with
  | inr e => inr (wrapped "failed to process NATS server config file" e)
  | inl opts =>
      inl (MkOpts (if negb (String.eqb (host c) "") then host c else o_Host opts)
             (if negb (port c =? 0) then port c else -1)
             (if negb (String.eqb (dataDir c) "") then dataDir c else o_StoreDir opts)
             true true (dontListen c))
  end.

(** [None] when [n] turns are not enough. *)
Definition start_server (c : nats_config) (n : nat) : ST world (option (string + err)) :=
  match server_opts c with
  | inr e => st_ret (Some (inr (wrapped "failed to create embedded NATS server" e)))
  | inl o =>
      _ <- step (NewServer o);;
      match NewServer_ with
      | Some e => st_ret (Some (inr (wrapped "failed to create embedded NATS server" e)))
      | None =>
          _ <- step StartServer;;
          _ <- step ShutdownAtDone;;
          _ <- step (Sleep (100 * millisecond));;
          st_ret (match wait_ready ctx_Done ready pick took n 0 0 with
                  | None => None
                  | Some WaitCancelled => Some (inr (ErrOther "context canceled"))
                  | Some WaitTimeout => Some (inr (ErrOther "timeout waiting for embedded NATS server to be ready"))
                  | Some (WaitReady _) => Some (inl ClientURL)
                  end)
      end
  end.

(** ** The bucket *)
Fixpoint create_bucket (c : nats_config) (n i : nat) : ST world (option gerr) :=
  match n with
  | O => st_ret None
  | S n =>
      _ <- step (CreateKeyValue (bucket c) (revHistory c) (replicas c));;
      match Create_ i with
      | None => st_ret (Some None)
      | Some e =>
          if eq_deadline e then create_bucket c n (S i)
          else if temporary e then _ <- step (Sleep second);; create_bucket c n (S i)
          else st_ret (Some (Some (wrapped "failed to initialize KV bucket" e)))
      end
  end.

Definition stream_name (c : nats_config) : string := "KV_" +:+ bucket c.

(** The server makes a change it answers without an error. *)
Definition update_stream (name : string) (scfg : stream_config) (i : nat) : ST world gerr := fun w =>
  let (e, applied) := Update_ i in
  (e, MkWorld (w_trace w ++ [UpdateStream name scfg]) (if applied || negb (is_err e) then scfg else w_stream w)).

Fixpoint ensureDirectGets (c : nats_config) (n i : nat) : ST world (option gerr) :=
  match n with
  | O => st_ret None
  | S n =>
      _ <- step (GetStream (stream_name c));;
      match Stream_ i with
      | Some e => if Is_deadline e then ensureDirectGets c n (S i)
                  else st_ret (Some (Some (wrapped "failed to get stream info" e)))
      | None =>
          w <- st_get;;
          let scfg := w_stream w in
          if AllowDirect scfg then st_ret (Some None)
          else
            e <- update_stream (stream_name c) (allow scfg) i;;
            match e with
            | Some e => if Is_deadline e then ensureDirectGets c n (S i)
                        else st_ret (Some (Some (wrapped "failed to update stream config" e)))
            | None => st_ret (Some None)
            end
      end
  end.

(** ** [newBackend] *)
Definition embedded (legacy : bool) (c : nats_config) : bool := negb legacy && Embedded && negb (noEmbed c).

Definition nopts (legacy : bool) (c : nats_config) : list connect_option :=
  (ClientOption <$> clientOptions c) ++ [Name ("kine using bucket: " +:+ bucket c); MaxReconnects (-1)] ++
  (if embedded legacy c && dontListen c then [InProcessServer] else []) ++ [LogHandlers].

Definition handle (legacy : bool) (c : nats_config) (compactInterval compactMinRetain : Z) : nats_handle :=
  MkHandle (if embedded legacy c then "embedded" else "nats") (bucket c) (revHistory c) compactInterval compactMinRetain (slowThreshold c).

Definition newBackend (connection : string) (tls : tls_files) (compactInterval compactMinRetain : Z) (legacy : bool) (n : nat)
    : ST world (option (nats_handle + err)) :=
  match parseConnection ParseURL ParseQuery ParseDuration Atoi context_file Embedded connection tls with
  | inr e => st_ret (Some (inr e))
  | inl c =>
      url <- (if embedded legacy c then start_server c n else st_ret (Some (inl (clientURL c))));;
      match url with
      | None => st_ret None
      | Some (inr e) => st_ret (Some (inr e))
      | Some (inl url) =>
          _ <- step (Connect url (nopts legacy c));;
          match Connect_, JetStream_ with
          | Some e, _ => st_ret (Some (inr (wrapped "failed to connect to NATS server" e)))
          | None, Some e => st_ret (Some (inr (wrapped "failed to get JetStream context" e)))
          | None, None =>
              r <- create_bucket c n 0;;
              match r with
              | None => st_ret None
              | Some (Some e) => st_ret (Some (inr e))
              | Some None =>
                  r <- ensureDirectGets c n 0;;
                  match r with
                  | None => st_ret None
                  | Some (Some e) => st_ret (Some (inr (wrapped "failed to enable direct gets" e)))
                  | Some None => st_ret (Some (inl (handle legacy c compactInterval compactMinRetain)))
                  end
              end
          end
      end
  end.

(** [New] and [NewLegacy], registered for [nats] and [jetstream]. *)
Definition NewNats (Endpoint : string) (tls : tls_files) (compactInterval compactMinRetain : Z) (n : nat) :=
  newBackend Endpoint tls compactInterval compactMinRetain false n.
Definition NewLegacy (Endpoint : string) (tls : tls_files) (compactInterval compactMinRetain : Z) (n : nat) :=
  newBackend (SchemeAndAddress Endpoint).2 tls compactInterval compactMinRetain true n.

(** ** The loops *)
Lemma wait_ready_run (m k : nat) (now : Z) : (forall i, 0 <= took i) -> Z.of_nat k * (100 * millisecond) <= now -> (k <= 600 < k + m)%nat ->
  exists r, (forall d, wait_ready ctx_Done ready pick took (m + d) k now = Some r) /\
  match r with
  | WaitReady k' => exists t, ready t = true /\ ctx_Done t = false /\ t < 60 * second
  | WaitCancelled => exists t, ctx_Done t = true
  | WaitTimeout => exists t, 60 * second <= t
  end.
Proof using Type.
  unfold millisecond. intros Ht. revert k now. induction m as [|m IH]; intros k now Hk Hm.
  - lia.
  - cbn [Nat.add wait_ready]. destruct (Z.leb_spec (60 * second) now) as [Hle|Hlt], (ctx_Done now) eqn:Hd.
    + destruct (pick k); (eexists; split; [reflexivity|by exists now]).
    + eexists. split; [reflexivity|by exists now].
    + eexists. split; [reflexivity|by exists now].
    + destruct (ready now) eqn:Hr; [eexists; split; [reflexivity|by exists now]|].
      specialize (Ht k). apply IH; unfold second, millisecond in *; lia.
Qed.

(** An attempt after which the bucket is tried again, and one after which the
    stream is looked at again. *)
Definition create_again (j : nat) : bool := match Create_ j with Some e => eq_deadline e || temporary e | None => false end.
Definition direct_again (j : nat) : bool :=
  match Stream_ j, (Update_ j).1 with
  | Some e, _ => Is_deadline e
  | None, Some e => Is_deadline e
  | None, None => false
  end.

Lemma create_bucket_outcome (c : nats_config) (n : nat) : forall i w,
  exists r l, create_bucket c n i w = (r, MkWorld (w_trace w ++ l) (w_stream w)) /\
  match r with
  | Some None => (exists j, Create_ j = None) /\ last l = Some (CreateKeyValue (bucket c) (revHistory c) (replicas c))
  | Some (Some _) => exists j e, Create_ j = Some e /\ create_again j = false
  | None => True
  end.
Proof using Type.
  induction n as [|n IH]; intros i w; [exists None, []; by rewrite app_nil_r; destruct w|].
  set (a := CreateKeyValue (bucket c) (revHistory c) (replicas c)).
  assert (Hrec : forall l0 w1, w1 = MkWorld (w_trace w ++ a :: l0) (w_stream w) -> exists r l,
    create_bucket c n (S i) w1 = (r, MkWorld (w_trace w ++ l) (w_stream w)) /\
    match r with
    | Some None => (exists j, Create_ j = None) /\ last l = Some a
    | Some (Some _) => exists j e, Create_ j = Some e /\ create_again j = false
    | None => True
    end).
  { intros l0 w1 ->. edestruct (IH (S i)) as (r&l&->&Hr). exists r, (a :: l0 ++ l). cbn. rewrite <- app_assoc. split; [done|].
    destruct r as [[e|]|]; [done| |done]. destruct Hr as [Hj Hl]. split; [done|]. by rewrite app_comm_cons, last_app, Hl. }
  cbn [create_bucket]. unfold st_bind, step. cbn. fold a. destruct (Create_ i) as [e|] eqn:He.
  - destruct (eq_deadline e) eqn:Hd; [by apply (Hrec [])|]. destruct (temporary e) eqn:Htmp.
    + cbn. apply (Hrec [Sleep second]). by rewrite <- app_assoc.
    + exists (Some (Some (wrapped "failed to initialize KV bucket" e))), [a]. split; [done|]. exists i, e. unfold create_again. by rewrite He, Hd, Htmp.
  - exists (Some None), [a]. eauto.
Qed.

Lemma create_bucket_ends (c : nats_config) (j : nat) : create_again j = false ->
  forall k i w, (j = i + k)%nat -> exists r w', forall d, create_bucket c (S k + d) i w = (Some r, w').
Proof using Type.
  intros Hj. induction k as [|k IH]; intros i w ->; cbn [Nat.add create_bucket]; unfold st_bind, step; cbn [fst snd].
  - rewrite Nat.add_0_r in Hj. unfold create_again in Hj. destruct (Create_ i) as [e|]; [|eauto].
    apply orb_false_iff in Hj as [-> ->]. eauto.
  - destruct (Create_ i) as [e|]; [|eauto]. destruct (eq_deadline e); [apply IH; lia|]. destruct (temporary e); [|eauto]. apply IH; lia.
Qed.

(** The stream only ever gets the setting for direct reads. *)
Lemma ensureDirectGets_outcome (c : nats_config) (n : nat) : forall i w,
  exists r w', ensureDirectGets c n i w = (r, w') /\
  (exists l, w_trace w' = w_trace w ++ l /\ forall a, a ∈ l -> exists s, a = GetStream (stream_name c) \/ a = UpdateStream (stream_name c) s) /\
  (w_stream w' = w_stream w \/ w_stream w' = allow (w_stream w)) /\
  (r = Some None -> AllowDirect (w_stream w') = true).
Proof using Type.
  induction n as [|n IH]; intros i w.
  { exists None, w. split; [done|]. split; [exists []; by rewrite app_nil_r; split; [|intros ? ?%elem_of_nil]|]. by split; [left|]. }
  cbn [ensureDirectGets]. unfold st_bind at 1, step at 1. cbn. set (w1 := MkWorld _ _).
  assert (Hl1 : forall a, a ∈ [GetStream (stream_name c)] -> exists s, a = GetStream (stream_name c) \/ a = UpdateStream (stream_name c) s).
  { intros a ->%list_elem_of_singleton. exists (w_stream w). by left. }
  assert (Hrec : forall w2 l2, w_trace w2 = w_trace w ++ l2 -> (forall a, a ∈ l2 -> exists s, a = GetStream (stream_name c) \/ a = UpdateStream (stream_name c) s) ->
    (w_stream w2 = w_stream w \/ w_stream w2 = allow (w_stream w)) -> exists r w',
    ensureDirectGets c n (S i) w2 = (r, w') /\
    (exists l, w_trace w' = w_trace w ++ l /\ forall a, a ∈ l -> exists s, a = GetStream (stream_name c) \/ a = UpdateStream (stream_name c) s) /\
    (w_stream w' = w_stream w \/ w_stream w' = allow (w_stream w)) /\ (r = Some None -> AllowDirect (w_stream w') = true)).
  { intros w2 l2 Ht Hl Hs. destruct (IH (S i) w2) as (r&w'&->&(l&Hl'&Ha)&Hs'&Hd). exists r, w'. split; [done|].
    split; [exists (l2 ++ l); rewrite Hl', Ht, <- app_assoc; split; [done|]; intros a [?|?]%elem_of_app; auto|]. split; [|done].
    destruct Hs as [Hs|Hs], Hs' as [Hs'|Hs']; rewrite Hs', ?Hs; auto. }
  destruct (Stream_ i) as [e|].
  - destruct (Is_deadline e); [apply (Hrec w1 [GetStream (stream_name c)]); auto|].
    eexists _, w1. split; [reflexivity|]. split; [by exists [GetStream (stream_name c)]|]. by split; [left|].
  - unfold st_bind at 1, st_get at 1. destruct (AllowDirect (w_stream w1)) eqn:Hd.
    + eexists _, w1. split; [reflexivity|]. split; [by exists [GetStream (stream_name c)]|]. by split; [left|].
    + unfold st_bind at 1, update_stream. destruct (Update_ i) as [e applied]. cbn.
      set (s2 := if _ : bool then allow (w_stream w) else w_stream w).
      set (w2 := MkWorld ((w_trace w ++ _) ++ _) s2).
      assert (Ht2 : w_trace w2 = w_trace w ++ [GetStream (stream_name c); UpdateStream (stream_name c) (allow (w_stream w))]) by (cbn; by rewrite <- app_assoc).
      assert (Hl2 : forall a, a ∈ [GetStream (stream_name c); UpdateStream (stream_name c) (allow (w_stream w))] ->
        exists s, a = GetStream (stream_name c) \/ a = UpdateStream (stream_name c) s).
      { intros a Ha. apply elem_of_cons in Ha as [Ha|Ha%list_elem_of_singleton]; subst a; exists (allow (w_stream w)); auto. }
      assert (Hs2 : w_stream w2 = w_stream w \/ w_stream w2 = allow (w_stream w)) by (cbn; subst s2; case_match; auto).
      destruct e as [e|]; [destruct (Is_deadline e); [by eapply Hrec|]|];
        (eexists _, w2; split; [reflexivity|]; split; [eauto|]; split; [done|]; try done).
      intros _. cbn. subst s2. by rewrite orb_true_r.
Qed.

Lemma ensureDirectGets_ends (c : nats_config) (j : nat) : direct_again j = false ->
  forall k i w, (j = i + k)%nat -> exists r w', forall d, ensureDirectGets c (S k + d) i w = (Some r, w').
Proof using Type.
  intros Hj. induction k as [|k IH]; intros i w ->; cbn [Nat.add ensureDirectGets]; unfold st_bind, step, st_get, update_stream; cbn [fst snd].
  - rewrite Nat.add_0_r in Hj. unfold direct_again in Hj. destruct (Stream_ i) as [e|]; [rewrite Hj; eauto|].
    destruct (AllowDirect _); [eauto|]. destruct (Update_ i) as [[e'|] applied]; cbn in Hj; [rewrite Hj|]; eauto.
  - destruct (Stream_ i) as [e|]; [destruct (Is_deadline e); [apply IH; lia|eauto]|]. case_match; [eauto|].
    destruct (Update_ i) as [[e'|] applied]; [destruct (Is_deadline e'); [apply IH; lia|]|]; eauto.
Qed.

(** ** Opening the driver *)
Local Abbreviation parsed dsn tls := (parseConnection ParseURL ParseQuery ParseDuration Atoi context_file Embedded dsn tls).

Lemma start_server_outcome (c : nats_config) (n : nat) (w : world) :
  exists r l, start_server c n w = (r, MkWorld (w_trace w ++ l) (w_stream w)) /\
  forall url, r = Some (inl url) -> url = ClientURL /\ NewServer_ = None /\ (exists t, ready t = true) /\
    exists o, server_opts c = inl o /\ l = [NewServer o; StartServer; ShutdownAtDone; Sleep (100 * millisecond)].
Proof using Type.
  unfold start_server. destruct (server_opts c) as [o|e]; [|exists (Some (inr (wrapped "failed to create embedded NATS server" e))), []; by rewrite app_nil_r; destruct w].
  destruct NewServer_ as [e|]; [by eexists _, [NewServer o]|]. eexists _, [NewServer o; StartServer; ShutdownAtDone; Sleep (100 * millisecond)].
  split; [unfold st_bind, step, st_ret; cbn; by rewrite <- !app_assoc|]. intros url Hr.
  destruct (wait_ready ctx_Done ready pick took n 0 0) as [[k| |]|] eqn:Hw; try done. injection Hr as <-. repeat (split; [done|]). split; [|eauto].
  clear -Hw. revert Hw. generalize 0%nat at 1, 0 as now. revert k. induction n as [|m IH]; intros k k0 now; cbn; [done|].
  destruct (ctx_Done now), (60 * second <=? now); [by destruct (pick k0)|done|done|]. destruct (ready now) eqn:Hr; [eauto|apply IH].
Qed.

(** C34. A driver that opens is set up as it was asked to.  The connection string
    was accepted; an embedded server was used exactly when there is one and
    neither the scheme nor the string forbids it, was ready, and is the one
    connected to; the last request for the bucket asked for the history and the
    replicas of the configuration, which are within the limits of JetStream, and
    the index will keep as many operations of a key; and the stream of the
    bucket answers direct reads, with the rest of its configuration as it was. *)
Theorem nats_open_outcome (dsn : string) (tls : tls_files) (interval retain : Z) (legacy : bool) (n : nat) (w w' : world) (h : nats_handle) :
  newBackend dsn tls interval retain legacy n w = (Some (inl h), w') ->
  exists c, parsed dsn tls = inl c /\ h = handle legacy c interval retain /\ 2 <= nb_revHistory h <= 64 /\ 1 <= replicas c <= 5 /\
  AllowDirect (w_stream w') = true /\ stream_rest (w_stream w') = stream_rest (w_stream w) /\
  exists start url creations gets, w_trace w' = w_trace w ++ start ++ [Connect url (nopts legacy c)] ++ creations ++ gets /\
    last creations = Some (CreateKeyValue (nb_bucket h) (nb_revHistory h) (replicas c)) /\
    (if embedded legacy c then url = ClientURL /\ (exists t, ready t = true) /\ exists o, server_opts c = inl o /\ NewServer o ∈ start
     else url = clientURL c /\ start = []).
Proof using Type.
  unfold newBackend. destruct (parsed dsn tls) as [c|e] eqn:Hc; [|done]. pose proof (nats_config_limits _ _ _ _ _ _ _ _ _ Hc) as (Hh&Hr).
  unfold st_bind at 1.
  assert (Hstart : exists r start, (if embedded legacy c then start_server c n else st_ret (Some (inl (clientURL c)))) w
      = (r, MkWorld (w_trace w ++ start) (w_stream w)) /\ forall url, r = Some (inl url) ->
      if embedded legacy c then url = ClientURL /\ (exists t, ready t = true) /\ exists o, server_opts c = inl o /\ NewServer o ∈ start
      else url = clientURL c /\ start = []).
  { destruct (embedded legacy c).
    - destruct (start_server_outcome c n w) as (r&l&->&Hurl). exists r, l. split; [done|]. intros url Hu.
      destruct (Hurl url Hu) as (?&?&?&o&?&->). repeat (split; [done|]). exists o. split; [done|left].
    - exists (Some (inl (clientURL c))), []. rewrite app_nil_r. split; [by destruct w|]. by intros url [= <-]. }
  destruct Hstart as (r&start&->&Hurl). destruct r as [[url|e]|]; [|done|done]. specialize (Hurl url eq_refl).
  unfold st_bind at 1, step at 1. destruct Connect_, JetStream_; try done. cbn [w_trace w_stream].
  unfold st_bind at 1. destruct (create_bucket_outcome c n 0 (MkWorld ((w_trace w ++ start) ++ [Connect url (nopts legacy c)]) (w_stream w)))
    as (rb&creations&->&Hb). destruct rb as [[e|]|]; [done| |done]. destruct Hb as [_ Hlast].
  unfold st_bind at 1. edestruct (ensureDirectGets_outcome c n 0) as (rd&w2&->&(gets&Ht&_)&Hs&Hd).
  destruct rd as [[e|]|]; [done| |done]. intros [= <- <-]. exists c. do 4 (split; [done|]). split; [by apply Hd|].
  split; [by destruct Hs as [->| ->]|]. exists start, url, creations, gets. rewrite Ht. cbn. rewrite <- !app_assoc. done.
Qed.

(** C35. Opening ends.  Every turn of the wait for the embedded server takes a
    tenth of a second, so after a minute it has ended; and once an attempt to
    create the bucket and one to set up direct reads are not answered by an error
    that is tried again, more turns change neither the result nor what is done. *)
Theorem nats_open_ends (dsn : string) (tls : tls_files) (interval retain : Z) (legacy : bool) (j1 j2 : nat) (w : world) :
  (forall i, 0 <= took i) -> create_again j1 = false -> direct_again j2 = false ->
  exists r w', forall n, (601 + j1 + j2 < n)%nat -> newBackend dsn tls interval retain legacy n w = (Some r, w').
Proof using Type.
  intros Ht H1 H2. unfold newBackend. destruct (parsed dsn tls) as [c|e]; [|eauto]. unfold st_bind at 1.
  assert (Hstart : exists r w1, forall n, (601 <= n)%nat -> (if embedded legacy c then start_server c n else st_ret (Some (inl (clientURL c)))) w = (Some r, w1)).
  { destruct (embedded legacy c); [|by eexists _, _]. unfold start_server. destruct (server_opts c) as [o|e]; [|by eexists _, _].
    destruct NewServer_ as [e|]; [by eexists _, _|]. destruct (wait_ready_run 601 0 0 Ht) as (r&Hr&_); [by unfold millisecond|lia|].
    unfold st_bind, step, st_ret. destruct r; (eexists _, _; intros n Hn; replace n with (601 + (n - 601))%nat by lia; by rewrite Hr). }
  destruct Hstart as (r&w1&Hstart). destruct r as [url|e].
  2:{ eexists _, w1. intros n Hn. rewrite Hstart by lia. reflexivity. }
  unfold st_bind at 1, step at 1. set (w2 := MkWorld (w_trace w1 ++ [Connect url (nopts legacy c)]) (w_stream w1)).
  destruct Connect_ as [e|]; [|destruct JetStream_ as [e|]]; [eexists _, w2; intros n Hn; rewrite Hstart by lia; reflexivity..|].
  destruct (create_bucket_ends c j1 H1 j1 0 w2 eq_refl) as (rb&w3&Hb). destruct (ensureDirectGets_ends c j2 H2 j2 0 w3 eq_refl) as (rd&w4&Hd).
  destruct rb as [e|]; [|destruct rd as [e|]]; (eexists _, _; intros n Hn; rewrite Hstart by lia; fold w2; unfold st_bind;
    replace n with (S j1 + (n - S j1))%nat at 1 by lia; rewrite Hb; [reflexivity || (replace n with (S j2 + (n - S j2))%nat by lia; rewrite Hd; reflexivity)]).
Qed.

(** Without a port in the connection string the embedded server listens on one
    of its own choice, whatever its configuration file says. *)
Lemma embedded_port_random (c : nats_config) (o : server_options) : port c = 0 -> server_opts c = inl o -> o_Port o = -1.
Proof using Type. intros Hp. unfold server_opts. rewrite Hp. by case_match; intros; simplify_eq. Qed.

(** The driver for [jetstream] passes its endpoint on without the scheme, and
    a server without the scheme [nats] is refused: an endpoint
    [jetstream://host:port] never opens. *)
Lemma legacy_scheme_refused (Endpoint : string) (tls : tls_files) (interval retain : Z) (n : nat) (w : world) (first : string) (u : URL) (q : Values) :
  head (Split (SchemeAndAddress Endpoint).2 ",") = Some first -> ParseURL first = inl u -> url_Scheme u <> "nats" ->
  ParseQuery (url_RawQuery u) = inl q -> Get q "contextFile" = "" ->
  exists e, NewLegacy Endpoint tls interval retain n w = (Some (inr e), w).
Proof using Type.
  intros Hf Hu Hs Hq Hc. unfold NewLegacy, newBackend.
  assert (He : exists e, parsed (SchemeAndAddress Endpoint).2 tls = inr e); [|destruct He as [e ->]; by exists e].
  unfold parseConnection. rewrite Hf. cbn [default from_option id]. rewrite Hu, Hq.
  destruct (ranged (Get q "replicas") 1 5 defaultReplicas _) as [reps|e]; [|by eexists].
  destruct (if String.eqb (Get q "slowMethod") "" then _ else _) as [slow|e]; [|by eexists].
  destruct (ranged (Get q "revHistory") 2 64 defaultRevHistory _) as [revs|e]; [|by eexists].
  unfold contexts. rewrite Hc. cbn [String.eqb].
  destruct (Split (SchemeAndAddress Endpoint).2 ",") as [|c l] eqn:Hl.
  - done.
  - injection Hf as ->. cbn. rewrite Hu, (proj2 (String.eqb_neq _ _) Hs). cbn. by eexists.
Qed.
End open.

(** ** At work: an embedded server that is ready after a second, a bucket that
    is created at the second attempt, and a change of the stream that is made
    but answered by a timeout *)
Definition deadline : err := ErrOther "context deadline exceeded".
Definition open_example (n : nat) : ST world (option (nats_handle + err)) :=
  newBackend (fun s => inl (toy_url s)) toy_query (fun _ => inl 0) (fun _ => 4222) (fun _ => inr (ErrOther "")) true
    (fun _ => inr (ErrOther "no such file")) None "nats://127.0.0.1:4222" (fun _ => false) (fun t => second <=? t) (fun _ => true) (fun _ => 0)
    None None (fun i => if (i =? 0)%nat then Some deadline else None) (fun _ => false) (fun _ => None) (fun i => if (i =? 0)%nat then (Some deadline, true) else (None, false))
    "nats://h:4222?q" (MkTLSFiles "" "" "" false) 0 1000 false n.
Definition fresh : world := MkWorld [] (MkStream false "max_age=0").

Lemma nats_open_outcome_witness : exists h w', open_example 20 fresh = (Some (inl h), w') /\ AllowDirect (w_stream w') = true /\ nb_revHistory h = 5.
Proof.
  destruct (open_example 20 fresh) as [[[h|e]|] w'] eqn:E; [|vm_compute in E; discriminate E..].
  exists h, w'. split; [reflexivity|].
  assert (Hd : AllowDirect (w_stream w') = true).
  { unfold open_example in E. apply nats_open_outcome in E as (c&_&_&_&_&Hd&_). exact Hd. }
  split; [exact Hd|]. vm_compute in E. injection E as <- _. reflexivity.
Defined.

Lemma nats_open_ends_witness : exists r w', open_example 700 fresh = (Some r, w').
Proof.
  destruct (nats_open_ends (fun s => inl (toy_url s)) toy_query (fun _ => inl 0) (fun _ => 4222) (fun _ => inr (ErrOther "")) true
    (fun _ => inr (ErrOther "no such file")) None "nats://127.0.0.1:4222" (fun _ => false) (fun t => second <=? t) (fun _ => true) (fun _ => 0)
    None None (fun i => if (i =? 0)%nat then Some deadline else None) (fun _ => false) (fun _ => None) (fun i => if (i =? 0)%nat then (Some deadline, true) else (None, false))
    "nats://h:4222?q" (MkTLSFiles "" "" "" false) 0 1000 false 1 1 fresh) as (r&w'&H).
  - intros i. lia.
  - vm_compute. reflexivity.
  - vm_compute. reflexivity.
  - exists r, w'. apply H. lia.
Defined.
