(* ===== verification/NatsLogger.v ===== *)
(** * The log adapter of the NATS driver (drivers/nats/logger.go)

    [BackendLogger] as a store of its own: the wrapped driver with the lines
    that have been logged.  [dur] is the time the n-th logged call took, the
    texts of the lines are their arguments. *)
From S2P Require Import Prelude Types Prog OrderedMap Mvcc MvccSpec Memory MemoryProofs MemoryTheorems MemoryWatch Backend.

Inductive level : Type := Warn | Trace.

(** What a line says of a call and its results, without the duration. *)
Inductive line : Type :=
  | GET (key : string) (revision revRet : Z) (kv : bool) (size : Z) (e : gerr)
  | CREATE (key : string) (size lease revRet : Z) (e : gerr)
  | DELETE (key : string) (revision revRet : Z) (kv deleted : bool) (e : gerr)
  | LIST (key end_ : string) (limit revision revRet kvs : Z) (e : gerr)
  | COUNT (key end_ : string) (revision revRet count : Z) (e : gerr)
  | UPDATE (key : string) (size revision lease revRet kvRev : Z) (updated : bool) (e : gerr).

Definition is_kv (kv : option KeyValue) : bool := match kv with Some _ => true | None => false end.
Definition str_size (s : string) : Z := Z.of_nat (String.length s).

(** What the deferred function of each method logs; the others log nothing. *)
Definition call_line {R} (o : bop R) : R -> option line :=
  match o in bop R return R -> option line with
  | BGet key revision _ => fun '(revRet, kvRet, errRet) =>
      Some (GET key revision revRet (is_kv kvRet) (match kvRet with Some kv => str_size (kvValue kv) | None => 0 end) errRet)
  | BCreate key value lease => fun '(revRet, errRet) => Some (CREATE key (str_size value) lease revRet errRet)
  | BDelete key revision => fun '(revRet, kvRet, deletedRet, errRet) => Some (DELETE key revision revRet (is_kv kvRet) deletedRet errRet)
  | BList key end_ limit revision _ _ _ => fun '(revRet, kvRet, errRet) =>
      Some (LIST key end_ limit revision revRet (Z.of_nat (length kvRet)) errRet)
  | BCount key end_ revision _ _ => fun '(revRet, count, e) => Some (COUNT key end_ revision revRet count e)
  | BUpdate key value revision lease => fun '(revRet, kvRet, updateRet, errRet) =>
      Some (UPDATE key (str_size value) revision lease revRet (match kvRet with Some kv => kvModRevision kv | None => 0 end) updateRet errRet)
  | BDbSize | BCurrentRevision | BCompact _ => fun _ => None
  end.

Section logger.
Context {S : Type} `{Handler bop S} (threshold : Z) (dur : nat -> Z).

Definition logMethod (d : Z) (l : line) : level * line := (if d >? threshold then Warn else Trace, l).

Definition logged : Type := S * list (level * line).

(** Every method calls the same method of the wrapped driver. *)
#[export] Instance BackendLogger : Handler bop logged := {
  h_do R o := fun '(s, log) =>
    let (r, s') := h_do o s in
    (r, (s', log ++ match call_line o r with Some l => [logMethod (dur (length log)) l] | None => [] end));
  h_room s := h_room (E:=bop) s.1
}.

(** Interference on the wrapped driver; other requests log too. *)
Definition logged_env (env : S -> S -> Prop) (s s' : logged) : Prop := env s.1 s'.1 /\ s.2 `prefix_of` s'.2.

Lemma logged_env_rtc (env : S -> S -> Prop) (s s' : logged) : rtc (logged_env env) s s' -> rtc env s.1 s'.1 /\ s.2 `prefix_of` s'.2.
Proof using Type.
  induction 1 as [s|s1 s2 s3 [H1 H2] _ [IH1 IH2]]; [done|]. split; [by eapply rtc_l|by trans s2.2].
Qed.

Lemma env_rtc_logged (env : S -> S -> Prop) (s s' : S) (log : list (level * line)) : rtc env s s' -> rtc (logged_env env) (s, log) (s', log).
Proof using Type. induction 1 as [s|s1 s2 s3 H1 _ IH]; [done|]. eapply rtc_l; [|exact IH]. by split. Qed.

(** C36. The log adapter is transparent: a handler run over it, between the
    requests of other clients, has exactly the executions it has over the
    wrapped driver, with the same results and the same effect on the store; the
    log only grows.  Whatever is proved of handlers over a driver therefore holds
    over the adapter around it. *)
Theorem logger_transparent {A} (env : S -> S -> Prop) (p : prog bop A) (s : S) (log : list (level * line)) (a : option A) (s' : S) :
  (exec_in env p s a s' <-> exists log', exec_in (logged_env env) p (s, log) a (s', log')) /\
  (forall log', exec_in (logged_env env) p (s, log) a (s', log') -> log `prefix_of` log').
Proof using Type.
  assert (Hfwd : forall log, exec_in env p s a s' -> exists log', exec_in (logged_env env) p (s, log) a (s', log')).
  { clear log. intros log Hex. revert log. induction Hex as [a s|s|R o k s s1 a s' Henv Hroom _ IH]; intros log.
    - exists log. constructor.
    - exists log. constructor.
    - destruct (h_do o s1) as [r s2] eqn:E. cbn [fst snd] in IH.
      destruct (IH (log ++ match call_line o r with Some l => [logMethod (dur (length log)) l] | None => [] end)) as [log' IH'].
      exists log'. eapply (exec_call _ _ _ _ _ (s1, log)); [by apply env_rtc_logged|done|]. cbn. rewrite E. exact IH'. }
  assert (Hbwd : forall x y, exec_in (logged_env env) p x a y -> exec_in env p x.1 a y.1 /\ x.2 `prefix_of` y.2).
  { clear. intros x y Hex. induction Hex as [a s|s|R o k s [s1 log1] a s' Henv Hroom _ [IH Hp]].
    - by split; [constructor|].
    - by split; [constructor|].
    - apply logged_env_rtc in Henv as [Henv Hpre]. cbn in IH, Hp, Henv, Hroom, Hpre. destruct (h_do o s1) as [r s2] eqn:E. cbn in IH, Hp.
      split; [eapply exec_call; [exact Henv|done|by rewrite E]|]. trans log1; [done|]. trans (log1 ++ match call_line o r with Some l => [logMethod (dur (length log1)) l] | None => [] end); [by eexists|done]. }
  split; [split; [apply Hfwd|intros [log' Hl]; apply (Hbwd _ _ Hl)]|]. intros log' Hl. apply (Hbwd _ _ Hl).
Qed.

(** A call logs at most one line, as a warning exactly when it was slow. *)
Lemma logger_line {R} (o : bop R) (s : S) (log : list (level * line)) : exists l,
  (h_do o (s, log)).2.2 = log ++ l /\ (length l <= 1)%nat /\ (forall x, x ∈ l -> x.1 = Warn <-> threshold < dur (length log)).
Proof using Type.
  cbn. destruct (h_do o s) as [r s2]. eexists. split; [reflexivity|]. destruct (call_line o r); [|split; [cbn; lia|by intros ? ?%elem_of_nil]].
  split; [done|]. intros x ->%list_elem_of_singleton. cbn. destruct (Z.gtb_spec (dur (length log)) threshold); split; (done || lia).
Qed.
End logger.
