(* ===== verification/Endpoint.v ===== *)
(** * The start of the server (pkg/endpoint/endpoint.go)

    [Listen] as the sequence of what it does to the process: every call whose
    outcome it does not decide is an answer (a section variable), every effect
    an action of the trace.  What hangs on the context of the backend (the
    goroutines that close databases and stop embedded servers) is released by
    [Cancel]. *)
From S2P Require Import Prelude Types GoStrings Config.

Inductive action : Type :=
  | NewBackend                                (* drivers.New *)
  | Cancel                                    (* bcancel *)
  | MustRegister                              (* the metrics *)
  | StopAtDone                                (* the goroutine that stops the gRPC server when ctx ends *)
  | StartBackend
  | StartConsumer (config : string)
  | RegisterProducer (config : string)
  | RegisterServices (scheme : string)
  | RemoveSocket (address : string)
  | Bind (network address : string)           (* a listener is open from here on *)
  | ChmodSocket (address : string)
  | Serve.

#[export] Instance action_eq_dec : EqDecision action.
Proof. solve_decision. Defined.

Abbreviation trace := (list action).

(** Closes [Serve ∉ l] for a list of other actions. *)
Ltac no_serve := clear; rewrite ?elem_of_app, ?elem_of_cons, ?elem_of_nil; intuition discriminate.

Record ETCDConfig := MkETCD { Endpoints : list string; TLSConfig : tls_files; LeaderElect : bool }.

Section listen.
(** The configuration. *)
Variables (Listener Endpoint : string) (ServerTLS BackendTLS : tls_files).
Variables (metricsRegisterer preconfigured : bool).
Variables (KAFKA_INGRESS KAFKA_ENGRESS : option string).

(** The answers: [drivers.New] (leader election, and whether there is a backend),
    the credentials of the gRPC server, the backend's [Start], the Kafka
    consumer and producer, the socket with its address, [Chmod]. *)
Variable NewDriver_ : (bool * bool) + err.
Variables (ServerConfig Start_ Consumer_ Producer_ : gerr).
Variable Listen_ : string + err.
Variable Chmod_ : gerr.
Variable port_of : string -> option string.

(** [createListener]: what [lc.Listen] returned, unless the deferred [Chmod]
    fails and replaces the error; a listener that is open then stays open. *)
Definition create_listener : ST trace (string + err) :=
  let '(network, address) := createListener Listener in
  _ <- (if String.eqb network "unix" then emit (RemoveSocket address) else st_ret tt);;
  ret <- (match Listen_ with
          | inl addr => _ <- emit (Bind network address);; st_ret (inl addr)
          | inr e => st_ret (inr e)
          end);;
  if String.eqb network "unix" then
    _ <- emit (ChmodSocket address);;
    st_ret (match Chmod_ with Some e => inr e | None => ret end)
  else st_ret ret.

Definition grpcServer : gerr :=
  if preconfigured then None
  else if server_tls ServerTLS then ServerConfig else None.

(** The body of [Listen], before its deferred function. *)
Definition listen_body : ST trace (ETCDConfig + err) :=
  _ <- emit NewBackend;;
  match NewDriver_ with
  | inr e =>
      st_ret (inr (wrapped ("failed to create driver for " +:+
                     (if negb (String.eqb Endpoint "") then "configured endpoint" else "default endpoint")) e))
  | inl (leaderElect, false) =>
      _ <- emit Cancel;;
      st_ret (inl (MkETCD (Split Endpoint ",") BackendTLS leaderElect))
  | inl (leaderElect, true) =>
      _ <- (if metricsRegisterer then emit MustRegister else st_ret tt);;
      match grpcServer with
      | Some e => st_ret (inr (wrapped "creating GRPC server" e))
      | None =>
          _ <- emit StopAtDone;;
          _ <- emit StartBackend;;
          match Start_ with
          | Some e => st_ret (inr (wrapped "starting kine backend" e))
          | None =>
              cerr <- (match KAFKA_INGRESS with
                       | Some c => _ <- emit (StartConsumer c);; st_ret Consumer_
                       | None => st_ret None
                       end);;
              match cerr with
              | Some e => st_ret (inr (wrapped "creating Kafka consumer" e))
              | None =>
                  perr <- (match KAFKA_ENGRESS with
                           | Some c => match Producer_ with
                                       | Some e => st_ret (Some e)
                                       | None => _ <- emit (RegisterProducer c);; st_ret None
                                       end
                           | None => st_ret None
                           end);;
                  match perr with
                  | Some e => st_ret (inr (wrapped "creating Kafka producer" e))
                  | None =>
                      _ <- emit (RegisterServices (endpointScheme Listener ServerTLS));;
                      l <- create_listener;;
                      match l with
                      | inr e => st_ret (inr (wrapped "creating listener" e))
                      | inl addr =>
                          _ <- emit Serve;;
                          st_ret (inl (MkETCD
                            [endpointURL Listener ServerTLS addr (port_of addr)]
                            (MkTLSFiles "" "" (CAFile ServerTLS) false) leaderElect))
                      end
                  end
              end
          end
      end
  end.

(** [Listen]: the deferred function cancels the backend's context on error. *)
Definition Listen : ST trace (ETCDConfig + err) :=
  r <- listen_body;;
  match r with
  | inr _ => _ <- emit Cancel;; st_ret r
  | inl _ => st_ret r
  end.

(** ** What every start does *)

(** The trace of a start that serves. *)
Definition socket_trace : trace :=
  let '(network, address) := createListener Listener in
  if String.eqb network "unix" then [RemoveSocket address; Bind network address; ChmodSocket address] else [Bind network address].
Definition serving_trace : trace :=
  [NewBackend] ++ (if metricsRegisterer then [MustRegister] else []) ++ [StopAtDone; StartBackend] ++
  (StartConsumer <$> option_list KAFKA_INGRESS) ++ (RegisterProducer <$> option_list KAFKA_ENGRESS) ++
  [RegisterServices (endpointScheme Listener ServerTLS)] ++ socket_trace ++ [Serve].

(** Nothing that a start with a backend asks for failed. *)
Definition nothing_failed (addr : string) : Prop :=
  (preconfigured = false -> server_tls ServerTLS = true -> ServerConfig = None) /\ Start_ = None /\
  (is_Some KAFKA_INGRESS -> Consumer_ = None) /\ (is_Some KAFKA_ENGRESS -> Producer_ = None) /\
  Listen_ = inl addr /\ ((createListener Listener).1 = "unix" -> Chmod_ = None).

Lemma grpcServer_ok : grpcServer = None <-> (preconfigured = false -> server_tls ServerTLS = true -> ServerConfig = None).
Proof using Type. clear. unfold grpcServer. destruct preconfigured, (server_tls ServerTLS); split; intros Hs; auto; done. Qed.

Lemma socket_no_serve : Serve ∉ socket_trace.
Proof using Type. unfold socket_trace. destruct (createListener Listener) as [n a]. destruct (String.eqb n "unix"); no_serve. Qed.

Lemma create_listener_run (tr : trace) : exists l,
  create_listener tr = (match (if String.eqb (createListener Listener).1 "unix" then Chmod_ else None), Listen_ with
                        | Some e, _ => inr e | None, r => r end, tr ++ l) /\
  (match Listen_ with inl _ => l = socket_trace | inr _ => Serve ∉ l end).
Proof using Type.
  unfold create_listener, socket_trace. destruct (createListener Listener) as [network address]. cbn [fst].
  destruct (String.eqb network "unix"); destruct Listen_ as [addr|e]; cbn; rewrite ?app_nil_r, <- ?app_assoc.
  - exists [RemoveSocket address; Bind network address; ChmodSocket address]. by destruct Chmod_.
  - exists [RemoveSocket address; ChmodSocket address]. split; [by destruct Chmod_|no_serve].
  - by exists [Bind network address].
  - exists []. split; [by rewrite app_nil_r|no_serve].
Qed.
#[local] Opaque create_listener.

(** Closes the claim that something failed, from what is known to have. *)
Ltac contradicted :=
  intros ? ? [= <- <-]; split; [done|]; intros ? (Hg'%grpcServer_ok & ? & Hc' & Hp' & ? & Hu');
  try congruence; first
    [ match goal with Hs : ?o = Some _, Hi : is_Some ?o -> _ |- _ => specialize (Hi (ex_intro _ _ Hs)); congruence end
    | destruct (String.eqb_spec (createListener Listener).1 "unix") as [Hun|]; [|done]; specialize (Hu' Hun); congruence ].
Ltac refused := eexists; split; [reflexivity|split; [no_serve|contradicted]].

(** C38. A start of the server ends in one of three ways.  It serves: then nothing
    failed (the backend, the credentials of the gRPC server where it has any, the
    start of the backend, the Kafka consumer and producer that are configured,
    the socket and, in the file system, its permissions), the backend was started
    before the socket was opened and the services registered before they are
    served, its context is not cancelled, and the address announced is that of
    the socket with the scheme of its credentials, of which only the authority is
    handed on.  There is no backend of its own: then its context is cancelled
    and the endpoints and credentials are those given.  Or it answers an error:
    then there was no backend to create or one of these did fail, nothing is
    served and the backend's context is cancelled last. *)
Theorem listen_outcome : match Listen [] with
  | (inl etcd, tr) =>
      (exists le addr, NewDriver_ = inl (le, true) /\ nothing_failed addr /\ tr = serving_trace /\
         etcd = MkETCD [endpointURL Listener ServerTLS addr (port_of addr)] (MkTLSFiles "" "" (CAFile ServerTLS) false) le)
      \/ (exists le, NewDriver_ = inl (le, false) /\ tr = [NewBackend; Cancel] /\
            etcd = MkETCD (Split Endpoint ",") BackendTLS le)
  | (inr e, tr) => exists tr', tr = tr' ++ [Cancel] /\ Serve ∉ tr' /\
      (forall le b, NewDriver_ = inl (le, b) -> b = true /\ (forall addr, ~ nothing_failed addr))
  end.
Proof using Type.
  unfold Listen, st_bind at 1, listen_body, serving_trace.
  destruct NewDriver_ as [[le [|]]|e] eqn:Hn; [|right; exists le; done|exists [NewBackend]; split; [done|split; [no_serve|done]]].
  destruct metricsRegisterer, grpcServer as [e|] eqn:Hg; try refused;
  (destruct Start_ as [e|] eqn:Hst; [refused|]);
  (destruct KAFKA_INGRESS as [c|] eqn:Hc; [destruct Consumer_ as [e|] eqn:Hce; [refused|]|]);
  (destruct KAFKA_ENGRESS as [c'|] eqn:Hp; [destruct Producer_ as [e|] eqn:Hpe; [refused|]|]).
  all: unfold emit, st_bind, st_ret; cbn [app].
  all: match goal with |- context [create_listener ?tr] => destruct (create_listener_run tr) as (l & -> & Hl) end.
  all: (assert (Hno : Serve ∉ l) by (destruct Listen_; [rewrite Hl; apply socket_no_serve|exact Hl])).
  all: destruct (if String.eqb (createListener Listener).1 "unix" then Chmod_ else None) as [e|] eqn:Hch;
    [|destruct Listen_ as [addr|e] eqn:Hli]; cbv beta iota.
  all: try (eexists; split; [reflexivity|]; split; [rewrite elem_of_app; intros [Hin|Hin]; [revert Hin; no_serve|done]|]; contradicted).
  all: left; exists le, addr; split; [done|]; split; [|split; [|done]; rewrite Hl, ?Hc, ?Hp; by rewrite <- ?app_assoc].
  all: unfold nothing_failed; rewrite <- grpcServer_ok, Hc, Hp; split_and!; try done; try (by intros []).
  all: intros Hu; by rewrite Hu in Hch.
Qed.
End listen.

(** ** A socket in the file system *)

(** The permissions of the socket are set in a deferred function whatever became
    of the socket.  When it could not be created, the error that is reported is
    that of [Chmod], about a file that does not exist; and when only [Chmod]
    fails, the start is refused with the listener left open. *)
Theorem socket_errors (Listener address : string) (ServerTLS BackendTLS : tls_files) (Endpoint_ : string)
  (le : bool) (l : string + err) (e : err) (port_of : string -> option string) :
  createListener Listener = ("unix", address) ->
  exists tr, Listen Listener Endpoint_ ServerTLS BackendTLS false true None None (inl (le, true)) None None None None l (Some e) port_of []
    = (inr (wrapped "creating listener" e), tr) /\ last tr = Some Cancel /\
  (Bind "unix" address ∈ tr <-> exists addr, l = inl addr).
Proof.
  intros Hl. unfold Listen, listen_body, create_listener, st_bind, emit, st_ret. cbn. rewrite Hl. cbn.
  destruct l as [addr|e']; cbn.
  - eexists. split; [reflexivity|]. split; [done|]. split; [by eexists|]. intros _. set_solver.
  - eexists. split; [reflexivity|]. split; [done|]. split; [|by intros [? ?]]. rewrite !elem_of_cons, elem_of_nil. intuition discriminate.
Qed.

Lemma socket_errors_witness : exists tr,
  Listen "unix:///run/kine.sock" "" (MkTLSFiles "" "" "" false) (MkTLSFiles "" "" "" false) false true None None
    (inl (false, true)) None None None None (inr (ErrOther "bind: permission denied")) (Some (ErrOther "chmod: no such file")) (fun _ => None) []
  = (inr (wrapped "creating listener" (ErrOther "chmod: no such file")), tr).
Proof.
  destruct (socket_errors "unix:///run/kine.sock" "/run/kine.sock" (MkTLSFiles "" "" "" false) (MkTLSFiles "" "" "" false) "" false
    (inr (ErrOther "bind: permission denied")) (ErrOther "chmod: no such file") (fun _ => None)) as (tr & H & _).
  - vm_compute. reflexivity.
  - exists tr. exact H.
Defined.
