(* ===== verification/SqlOpen.v ===== *)
(** * Opening a SQL database (drivers/generic/generic.go)

    Connecting with its attempts, the settings of the connection pool, the
    attempts of a statement, and the migration of the table of an older
    version.  What a ping or a statement returns at each attempt, and whether
    the context ends at a wait, are parameters. *)
From S2P Require Import Prelude Types GoStrings Sql.
Local Open Scope Z_scope.

(** ** Connecting *)
(** [openAndTest]: three pings; the first error ends it. *)
Fixpoint pings (ping : nat -> gerr) (n i : nat) : gerr :=
  match n with
  | O => None
  | S n => match ping i with Some e => Some e | None => pings ping n (S i) end
  end.
Definition openAndTest (ping : nat -> gerr) : gerr := pings ping 3 0.

(** How [OpenDB] ends: with the database of an attempt, with the error of the
    context, or dereferencing the database that no attempt has opened. *)
Inductive opened : Type := Opened (attempt : nat) | Cancelled | NilDB.

Section open.
(** The [j]-th ping of the [i]-th attempt; and whether the wait after it ends
    because the context is done. *)
Context (ping : nat -> nat -> gerr) (done : nat -> bool).

Fixpoint open_loop (n i : nat) : opened :=
  match n with
  | O => NilDB
  | S n =>
      match openAndTest (ping i) with
      | None => Opened i
      | Some _ => if done i then Cancelled else open_loop n (S i)
      end
  end.
Definition OpenDB : opened := open_loop 300 0.
End open.

(** ** The connection pool *)
Record ConnectionPoolConfig := MkPool { MaxIdle : Z; MaxOpen : Z; MaxLifetime : Z; MaxIdleTime : Z }.
Definition defaultMaxIdleConns : Z := 20.

Definition configureConnectionPooling (c : ConnectionPoolConfig) : ConnectionPoolConfig :=
  let maxIdle := if MaxIdle c <? 0 then 0 else if MaxIdle c =? 0 then defaultMaxIdleConns else MaxIdle c in
  MkPool maxIdle (MaxOpen c) (MaxLifetime c) (MaxIdleTime c).

(** ** Statements *)
(** [execute]: [n] tries from the [i]-th, with the result of the last. *)
Section execute.
Context {Result : Type} (Retry : option (err -> bool)) (exec : nat -> Result * gerr).

Fixpoint execute_loop (n i : nat) (last : Result * gerr) : Result * gerr :=
  match n with
  | O => last
  | S n =>
      let (result, e) := exec i in
      match e, Retry with
      | Some e', Some retry => if retry e' then execute_loop n (S i) (result, e) else (result, e)
      | _, _ => (result, e)
      end
  end.
Definition execute (none : Result) : Result * gerr := execute_loop 20 0 (none, None).
End execute.

(** ** Migration *)
(** The table of an older version. *)
Record kv_row := MkKvRow { kv_id : Z; kv_name : string; kv_value : string; kv_ttl : Z }.

Definition latest (kv : list kv_row) (r : kv_row) : bool :=
  forallb (fun r' => negb (String.eqb (kv_name r') (kv_name r)) || (kv_id r' <=? kv_id r)) kv.

Definition migrate_row (r : kv_row) (t : table) : table :=
  let id := Sql.seq t + 1 in
  MkTable (rows t ++ [MkRow id (kv_name r) true false 0 0 (if kv_ttl r >? 0 then 15 else 0) (kv_value r) ""]) id.

(** [None] where there is no such table: counting its rows fails. *)
Definition Migrate (key_value : option (list kv_row)) (t : table) : table :=
  match key_value with
  | None | Some [] => t
  | Some kv =>
      match rows t with
      | [] => foldl (fun t r => migrate_row r t) t (filter (fun r => latest kv r = true) kv)
      | _ => t
      end
  end.

(** ** How connecting ends *)
Section open_theorems.
Context (ping : nat -> nat -> gerr) (done : nat -> bool).
Notation test i := (openAndTest (ping i)).
Notation failed i := (test i <> None).

Lemma open_loop_outcome (n i : nat) :
  match open_loop ping done n i with
  | Opened a => (i <= a < i + n)%nat /\ test a = None /\ forall j, (i <= j < a)%nat -> failed j /\ done j = false
  | Cancelled => exists a, (i <= a < i + n)%nat /\ failed a /\ done a = true /\ forall j, (i <= j < a)%nat -> failed j /\ done j = false
  | NilDB => forall j, (i <= j < i + n)%nat -> failed j /\ done j = false
  end.
Proof.
  revert i. induction n as [|n IH]; intros i; cbn [open_loop]; [lia|].
  destruct (test i) as [e|] eqn:E; [|split; [lia|]; split; [done|lia]].
  destruct (done i) eqn:D.
  { exists i. split; [lia|]. rewrite E. split; [done|]. split; [done|lia]. }
  assert (Hi : forall j, j = i -> failed j /\ done j = false) by (intros j ->; by rewrite E).
  specialize (IH (S i)). destruct (open_loop ping done n (S i)) as [a| |].
  - destruct IH as (?&?&Hj). split; [lia|]. split; [done|]. intros j ?. destruct (decide (j = i)); [auto|apply Hj; lia].
  - destruct IH as (a&?&?&?&Hj). exists a. split; [lia|]. do 2 (split; [done|]).
    intros j ?. destruct (decide (j = i)); [auto|apply Hj; lia].
  - intros j ?. destruct (decide (j = i)); [auto|apply IH; lia].
Qed.

(** How [OpenDB] ends is decided by the first of 300 attempts that
    passes its three pings or is followed by the end of the context: the
    database of that attempt, or the error of the context.  When there is no
    such attempt it does not return the error of the database: it goes on
    with the database it does not have. *)
Theorem OpenDB_outcome :
  (OpenDB ping done = NilDB <-> forall i, (i < 300)%nat -> failed i /\ done i = false) /\
  (forall a, OpenDB ping done = Opened a <->
     (a < 300)%nat /\ test a = None /\ forall i, (i < a)%nat -> failed i /\ done i = false) /\
  (OpenDB ping done = Cancelled <->
     exists a, (a < 300)%nat /\ failed a /\ done a = true /\ forall i, (i < a)%nat -> failed i /\ done i = false).
Proof.
  pose proof (open_loop_outcome 300 0) as H. fold (OpenDB ping done) in H.
  assert (Hu : forall a a', (forall i, (i < a)%nat -> failed i /\ done i = false) -> test a' = None \/ done a' = true -> (a <= a')%nat).
  { intros a a' Ha Ha'. destruct (decide (a' < a)%nat) as [Hlt|]; [|lia]. destruct (Ha a' Hlt) as [Hf Hd].
    destruct Ha' as [E|E]; [by rewrite E in Hf|congruence]. }
  destruct (OpenDB ping done) as [a| |].
  - destruct H as (Hr&Ht&Hj).
    assert (Hb : forall i, (i < a)%nat -> failed i /\ done i = false) by (intros; apply Hj; lia).
    split; [|split].
    + split; [done|]. intros Hall. destruct (Hall a); [lia|]. by rewrite Ht in *.
    + intros a'. split; [intros [= <-]; split; [lia|done]|]. intros (?&Ht'&Hb').
      assert (a = a') as ->; [|done]. pose proof (Hu a a' Hb (or_introl Ht')). pose proof (Hu a' a Hb' (or_introl Ht)). lia.
    + split; [done|]. intros (a'&?&Hf&Hd&Hb'). pose proof (Hu a a' Hb (or_intror Hd)). pose proof (Hu a' a Hb' (or_introl Ht)).
      assert (a = a') as -> by lia. by rewrite Ht in Hf.
  - destruct H as (a&Hr&Hf&Hd&Hj).
    assert (Hb : forall i, (i < a)%nat -> failed i /\ done i = false) by (intros; apply Hj; lia).
    split; [|split].
    + split; [done|]. intros Hall. destruct (Hall a); [lia|]. congruence.
    + intros a'. split; [done|]. intros (?&Ht'&Hb'). pose proof (Hu a a' Hb (or_introl Ht')).
      pose proof (Hu a' a Hb' (or_intror Hd)). assert (a = a') as -> by lia. by rewrite Ht' in Hf.
    + split; [|done]. intros _. exists a. split; [lia|done].
  - split; [|split].
    + split; [|done]. intros _ i ?. apply H. lia.
    + intros a. split; [done|]. intros (?&Ht&_). destruct (H a); [lia|]. by rewrite Ht in *.
    + split; [done|]. intros (a&?&?&Hd&_). destruct (H a); [lia|]. congruence.
Qed.
End open_theorems.

(** ** How a statement ends *)
Section execute_theorem.
Context {Result : Type} (Retry : option (err -> bool)) (exec : nat -> Result * gerr) (none : Result).

Definition retried (i : nat) : bool :=
  match (exec i).2, Retry with Some e, Some retry => retry e | _, _ => false end.

Lemma execute_loop_outcome (n i : nat) (last : Result * gerr) : (0 < n)%nat ->
  exists j, (i <= j < i + n)%nat /\ execute_loop Retry exec n i last = exec j /\
            (forall k, (i <= k < j)%nat -> retried k = true) /\ (retried j = false \/ (j = i + n - 1)%nat).
Proof.
  revert i last. induction n as [|n IH]; intros i last Hn; [lia|]. cbn [execute_loop].
  assert (Hstep : (let (result, e) := exec i in
      match e, Retry with
      | Some e', Some retry => if retry e' then execute_loop Retry exec n (S i) (result, e) else (result, e)
      | _, _ => (result, e)
      end) = if retried i then execute_loop Retry exec n (S i) (exec i) else exec i).
  { unfold retried. destruct (exec i) as [r [e|]]; cbn; [destruct Retry as [f|]; [|done]; by destruct (f e)|done]. }
  rewrite Hstep. destruct (retried i) eqn:E.
  - destruct n as [|n]; [exists i; repeat split; try done; try lia; right; lia|].
    destruct (IH (S i) (exec i)) as (j&?&->&Hk&Hj); [lia|]. exists j. split; [lia|]. split; [done|]. split.
    + intros k ?. destruct (decide (k = i)) as [->|]; [done|apply Hk; lia].
    + destruct Hj as [?| ->]; [by left|right; lia].
  - exists i. split; [lia|]. split; [done|]. split; [lia|by left].
Qed.

(** The result of a statement is that of one of at most twenty tries:
    of the first that succeeds or fails with an error that is not retried, or
    of the twentieth.  No driver sets [Retry], so that there it is the first. *)
Theorem execute_outcome :
  exists i, (i < 20)%nat /\ execute Retry exec none = exec i /\ (forall k, (k < i)%nat -> retried k = true) /\
            (retried i = false \/ i = 19%nat) /\ (Retry = None -> i = 0%nat).
Proof.
  destruct (execute_loop_outcome 20 0 (none, None)) as (i&?&He&Hk&Hi); [lia|].
  exists i. split; [lia|]. split; [done|]. split; [intros; apply Hk; lia|]. split; [destruct Hi; [by left|right; lia]|].
  intros E. destruct i as [|i]; [done|]. specialize (Hk O ltac:(lia)). unfold retried in Hk. rewrite E in Hk. by destruct ((exec 0%nat).2).
Qed.
End execute_theorem.

(** ** What the migration leaves *)
Lemma migrate_rows (l : list kv_row) (t : table) :
  rows (foldl (fun t r => migrate_row r t) t l) =
  rows t ++ imap (fun i r => MkRow (Sql.seq t + 1 + Z.of_nat i) (kv_name r) true false 0 0 (if kv_ttl r >? 0 then 15 else 0) (kv_value r) "") l.
Proof.
  revert t. induction l as [|r l IH]; intros t; cbn [foldl imap]; [by rewrite app_nil_r|].
  rewrite IH. unfold migrate_row. cbn. rewrite <- app_assoc. cbn. do 2 f_equal; [f_equal; lia|].
  apply imap_ext. intros i x _. cbn. f_equal. lia.
Qed.

Lemma latest_unique (kv : list kv_row) (r r' : kv_row) : NoDup (kv_id <$> kv) -> r ∈ kv -> r' ∈ kv ->
  latest kv r = true -> latest kv r' = true -> kv_name r = kv_name r' -> r = r'.
Proof.
  intros Hn Hr Hr' H H' E. unfold latest in *. rewrite forallb_forall in H, H'.
  specialize (H r' (proj1 (list_elem_of_In _ _) Hr')). specialize (H' r (proj1 (list_elem_of_In _ _) Hr)).
  rewrite E, String.eqb_refl in *. cbn in *. assert (kv_id r = kv_id r') as Eid by lia.
  apply list_elem_of_lookup in Hr as [i Hi], Hr' as [j Hj].
  assert (i = j) as <-; [|congruence].
  eapply NoDup_lookup; [done|by rewrite list_lookup_fmap, Hi|by rewrite list_lookup_fmap, Hj, Eid].
Qed.

Lemma latest_exists (kv : list kv_row) (name : string) : name ∈ kv_name <$> kv ->
  exists r, r ∈ kv /\ kv_name r = name /\ latest kv r = true.
Proof.
  intros H.
  assert (exists r, r ∈ kv /\ kv_name r = name /\ forall r', r' ∈ kv -> kv_name r' = name -> kv_id r' <= kv_id r) as (r&Hr&Hn&Hm).
  { induction kv as [|x kv IH]; [by apply list_elem_of_In in H|]. cbn in H.
    destruct (decide (name ∈ kv_name <$> kv)) as [Hin|Hout].
    - destruct (IH Hin) as (r&Hr&Hn&Hm). destruct (decide (kv_name x = name /\ kv_id r <= kv_id x)) as [[Hx Hle]|Hx].
      + exists x. split; [by left|]. split; [done|]. intros r' [->|Hr']%elem_of_cons E; [lia|]. specialize (Hm r' Hr' E). lia.
      + exists r. split; [by right|]. split; [done|]. intros r' [->|Hr']%elem_of_cons ?; [|by apply Hm].
        destruct (decide (kv_id r <= kv_id x)); [tauto|lia].
    - apply elem_of_cons in H as [->|H]; [|done]. exists x. split; [by left|]. split; [done|].
      intros r' [->|Hr']%elem_of_cons E; [lia|]. exfalso. apply Hout. rewrite <- E. by apply list_elem_of_fmap_2. }
  exists r. split; [done|]. split; [done|]. unfold latest. apply forallb_forall. intros r' Hr'%list_elem_of_In.
  destruct (String.eqb_spec (kv_name r') (kv_name r)) as [E|]; [|done]. cbn. apply Z.leb_le, Hm; [done|congruence].
Qed.

(** Migration into an empty table: every name of the old table gets
    exactly one row, a creation with the value of its row with the highest id
    and a lease exactly if that had a time to live; the ids are fresh; and a
    second migration, at the next start, does nothing. *)
Theorem migrate_latest (kv : list kv_row) (t : table) (empty : rows t = []) (ids : NoDup (kv_id <$> kv)) :
  let t' := Migrate (Some kv) t in
  NoDup (r_name <$> rows t') /\
  (forall name value lease, (exists r, r ∈ rows t' /\ r_name r = name /\ r_value r = value /\ r_lease r = lease) <->
     exists r, r ∈ kv /\ kv_name r = name /\ kv_value r = value /\ lease = (if kv_ttl r >? 0 then 15 else 0) /\
               forall r', r' ∈ kv -> kv_name r' = name -> kv_id r' <= kv_id r) /\
  (forall name, name ∈ kv_name <$> kv -> name ∈ r_name <$> rows t') /\
  Forall (fun r => r_created r = true /\ r_deleted r = false /\ Sql.seq t < r_id r) (rows t') /\
  Migrate (Some kv) t' = t'.
Proof.
  cbn zeta. set (l := filter (fun r => latest kv r = true) kv).
  assert (Hrows : rows (Migrate (Some kv) t) =
    imap (fun i r => MkRow (Sql.seq t + 1 + Z.of_nat i) (kv_name r) true false 0 0 (if kv_ttl r >? 0 then 15 else 0) (kv_value r) "") l).
  { unfold Migrate. destruct kv as [|x kv]; [done|]. rewrite empty. fold l. rewrite migrate_rows, empty. done. }
  assert (Hl : forall r, r ∈ l <-> latest kv r = true /\ r ∈ kv) by (intros x; unfold l; by rewrite list_elem_of_filter).
  assert (Hnames : r_name <$> rows (Migrate (Some kv) t) = kv_name <$> l).
  { rewrite Hrows, fmap_imap. apply list_eq. intros i. rewrite list_lookup_imap, list_lookup_fmap. by destruct (l !! i). }
  assert (Hin : forall r, r ∈ rows (Migrate (Some kv) t) <->
    exists i x, l !! i = Some x /\ r = MkRow (Sql.seq t + 1 + Z.of_nat i) (kv_name x) true false 0 0 (if kv_ttl x >? 0 then 15 else 0) (kv_value x) "").
  { intros r. rewrite Hrows. split.
    - intros (i&x&->&Hi)%elem_of_lookup_imap_1. eauto.
    - intros (i&x&Hi&->). apply list_elem_of_lookup. exists i. by rewrite list_lookup_imap, Hi. }
  split; [|split; [|split; [|split]]].
  - rewrite Hnames. apply NoDup_fmap_2_strong.
    + intros x y Hx%Hl Hy%Hl E. destruct Hx, Hy. by apply (latest_unique kv).
    + apply NoDup_filter. by apply NoDup_fmap_1 in ids.
  - intros name value lease. split.
    + intros (r&(i&x&Hi&->)%Hin&<-&<-&<-). cbn. apply list_elem_of_lookup_2, Hl in Hi as [Hlat Hx].
      exists x. repeat split; try done. intros r' Hr' E. unfold latest in Hlat. rewrite forallb_forall in Hlat.
      specialize (Hlat r' (proj1 (list_elem_of_In _ _) Hr')). rewrite E, String.eqb_refl in Hlat. cbn in Hlat. lia.
    + intros (r&Hr&<-&<-&->&Hm). assert (r ∈ l) as [i Hi]%list_elem_of_lookup.
      { apply Hl. split; [|done]. apply forallb_forall. intros r' Hr'%list_elem_of_In.
        destruct (String.eqb_spec (kv_name r') (kv_name r)) as [E|]; [|done]. cbn. by apply Z.leb_le, Hm. }
      eexists. split; [apply Hin; eauto|done].
  - intros name H. rewrite Hnames. destruct (latest_exists kv name H) as (r&Hr&<-&Hlat). by apply list_elem_of_fmap_2, Hl.
  - apply Forall_forall. intros r (i&x&_&->)%Hin. cbn. repeat split; lia.
  - destruct kv as [|x kv]; [done|]. unfold Migrate at 1. destruct (rows (Migrate (Some (x :: kv)) t)) as [|r rs] eqn:E; [|done].
    destruct (latest_exists (x :: kv) (kv_name x) ltac:(by left)) as (r&Hr&_&Hlat).
    assert (r ∈ l) as Hrl by by apply Hl. destruct l; [by apply not_elem_of_nil in Hrl|done].
Qed.

Definition old_rows : list kv_row := [MkKvRow 1 "/a" "1" 0; MkKvRow 2 "/b" "x" 60; MkKvRow 3 "/a" "2" 0].

Lemma migrate_latest_witness :
  rows (Migrate (Some old_rows) (MkTable [] 0)) = [MkRow 1 "/b" true false 0 0 15 "x" ""; MkRow 2 "/a" true false 0 0 0 "2" ""] /\
  NoDup (r_name <$> rows (Migrate (Some old_rows) (MkTable [] 0))).
Proof.
  split; [reflexivity|]. apply (migrate_latest old_rows (MkTable [] 0)); [reflexivity|].
  apply (bool_decide_eq_true_1 (NoDup _)). reflexivity.
Defined.
