(* ===== verification/App.v ===== *)
(** * The command line (pkg/app/app.go)

    The table of flags with what they default to and where they are stored,
    the settings that come of it, and [run].  The library for command lines
    gives every flag one value (from the arguments, else from an environment
    variable, else the flag's default) and stores it in the flag's destination:
    [values] is what it chose, a parameter. *)
From S2P Require Import Prelude Types GoStrings Prog Sql SqlLog SqlPoll Config Endpoint SqlOpen.

(** ** The flags *)
Inductive value : Type :=
  | VString (s : string)
  | VBool (b : bool)
  | VInt (n : Z)
  | VDuration (ns : Z).

#[export] Instance value_eq_dec : EqDecision value.
Proof. solve_decision. Defined.

Record flag := MkFlag { f_name : string; f_value : value; f_destination : string; f_env : list string }.

Definition server_flags : list flag := [
  MkFlag "listen-address" (VString "0.0.0.0:2379") "config.Listener" ["KINE_LISTEN_ADDRESS"];
  MkFlag "endpoint" (VString "") "config.Endpoint" ["KINE_ENDPOINT"];
  MkFlag "kubernetes-api-endpoint" (VString "") "config.KubernetesAPIEndpoint" ["KINE_KUBERNETES_API_ENDPOINT"];
  MkFlag "kubernetes-api-validation-pool-size" (VInt 10) "config.KubernetesAPIValidationPoolSize" ["KINE_KUBERNETES_API_VALIDATION_POOL_SIZE"];
  MkFlag "ca-file" (VString "") "config.BackendTLSConfig.CAFile" ["KINE_CA_FILE"];
  MkFlag "cert-file" (VString "") "config.BackendTLSConfig.CertFile" ["KINE_CERT_FILE"];
  MkFlag "key-file" (VString "") "config.BackendTLSConfig.KeyFile" ["KINE_KEY_FILE"];
  MkFlag "skip-verify" (VBool false) "config.BackendTLSConfig.SkipVerify" ["KINE_SKIP_VERIFY"];
  MkFlag "log-format" (VString "plain") "config.LogFormat" ["KINE_LOG_FORMAT"];
  MkFlag "metrics-bind-address" (VString ":8080") "metricsConfig.ServerAddress" ["KINE_METRICS_BIND_ADDRESS"];
  MkFlag "server-cert-file" (VString "") "config.ServerTLSConfig.CertFile" ["KINE_SERVER_CERT_FILE"];
  MkFlag "server-key-file" (VString "") "config.ServerTLSConfig.KeyFile" ["KINE_SERVER_KEY_FILE"];
  MkFlag "trusted-ca-file" (VString "") "config.ServerTLSConfig.TrustedCAFile" ["KINE_TRUSTED_CA_FILE"];
  MkFlag "datastore-max-idle-connections" (VInt 20) "config.ConnectionPoolConfig.MaxIdle" ["KINE_DATASTORE_MAX_IDLE_CONNECTIONS"];
  MkFlag "datastore-max-open-connections" (VInt 0) "config.ConnectionPoolConfig.MaxOpen" ["KINE_DATASTORE_MAX_OPEN_CONNECTIONS"];
  MkFlag "datastore-connection-max-lifetime" (VDuration 0) "config.ConnectionPoolConfig.MaxLifetime" ["KINE_DATASTORE_CONNECTION_MAX_LIFETIME"];
  MkFlag "datastore-connection-max-idle-time" (VDuration 120000000000) "config.ConnectionPoolConfig.MaxIdleTime" ["KINE_DATASTORE_CONNECTION_MAX_IDLE_TIME"];
  MkFlag "slow-sql-threshold" (VDuration 1000000000) "metrics.SlowSQLThreshold" ["KINE_SLOW_SQL_THRESHOLD"];
  MkFlag "slow-sql-warning-threshold" (VDuration 5000000000) "metrics.SlowSQLWarningThreshold" ["KINE_SLOW_SQL_WARNING_THRESHOLD"];
  MkFlag "metrics-enable-profiling" (VBool false) "metricsConfig.EnableProfiling" ["KINE_METRICS_ENABLE_PROFILING"];
  MkFlag "metrics-ignore-tls-config" (VBool false) "metricsIgnoreTLSConfig" ["KINE_METRICS_IGNORE_TLS_CONFIG"]
].

Definition store_flags : list flag := [
  MkFlag "watch-progress-notify-interval" (VDuration 5000000000) "config.NotifyInterval" ["KINE_WATCH_PROGRESS_NOTIFY_INTERVAL"];
  MkFlag "emulated-etcd-version" (VString "3.6.11") "config.EmulatedETCDVersion" ["KINE_EMULATED_ETCD_VERSION"];
  MkFlag "compact-interval" (VDuration 0) "config.CompactInterval" ["KINE_COMPACT_INTERVAL"];
  MkFlag "compact-interval-jitter" (VInt 0) "config.CompactIntervalJitter" ["KINE_COMPACT_INTERVAL_JITTER"];
  MkFlag "compact-timeout" (VDuration 5000000000) "config.CompactTimeout" ["KINE_COMPACT_TIMEOUT"];
  MkFlag "compact-min-retain" (VInt 1000) "config.CompactMinRetain" ["KINE_COMPACT_MIN_RETAIN"];
  MkFlag "compact-batch-size" (VInt 1000) "config.CompactBatchSize" ["KINE_COMPACT_BATCH_SIZE"];
  MkFlag "poll-batch-size" (VInt 500) "config.PollBatchSize" ["KINE_POLL_BATCH_SIZE"];
  MkFlag "peer-bind-address" (VString "") "config.PeerConfig.BindAddress" ["KINE_PEER_BIND_ADDRESS"];
  MkFlag "peer-advertise-address" (VString "") "config.PeerConfig.AdvertiseAddress" ["KINE_PEER_ADVERTISE_ADDRESS"];
  MkFlag "s3-bucket" (VString "") "config.S3Config.Bucket" ["KINE_S3_BUCKET"];
  MkFlag "s3-folder" (VString "") "config.S3Config.Folder" ["KINE_S3_FOLDER"];
  MkFlag "s3-endpoint" (VString "") "config.S3Config.Endpoint" ["KINE_S3_ENDPOINT"];
  MkFlag "s3-region" (VString "") "config.S3Config.Region" ["AWS_REGION"; "AWS_DEFAULT_REGION"];
  MkFlag "s3-access-key" (VString "") "config.S3Config.AccessKey" ["AWS_ACCESS_KEY_ID"];
  MkFlag "s3-secret-key" (VString "") "config.S3Config.SecretKey" ["AWS_SECRET_ACCESS_KEY"];
  MkFlag "s3-session-token" (VString "") "config.S3Config.SessionToken" ["AWS_SESSION_TOKEN"];
  MkFlag "s3-profile" (VString "") "config.S3Config.Profile" ["AWS_PROFILE"];
  MkFlag "s3-ca-bundle" (VString "") "config.S3Config.CABundle" ["AWS_CA_BUNDLE"];
  MkFlag "debug" (VBool false) "" ["KINE_DEBUG"]
].

Definition Flags : list flag := server_flags ++ store_flags.

(** The variables of the package, by name. *)
Definition settings : Type := list (string * value).
Definition var (cfg : settings) (name : string) : value :=
  match list_find (fun p => p.1 = name) cfg with Some (_, (_, v)) => v | None => VString "" end.
Definition str (cfg : settings) (name : string) : string := match var cfg name with VString s => s | _ => "" end.
Definition int (cfg : settings) (name : string) : Z := match var cfg name with VInt n | VDuration n => n | _ => 0 end.
Definition flag_on (cfg : settings) (name : string) : bool := match var cfg name with VBool b => b | _ => false end.

(** The package's variables once the command line is read. *)
Definition New (values : flag -> value) : settings := (fun f => (f_destination f, values f)) <$> Flags.

(** ** TLS settings (tls/config.go) *)
Record TLSInfo := MkTLSInfo { ti_cert : string; ti_key : string; ti_ca : string; ti_skip : bool }.

(** What the library is asked for: no encryption at all without a file. *)
Definition ClientConfig (c : tls_files) : option TLSInfo :=
  if String.eqb (CertFile c) "" && String.eqb (KeyFile c) "" && String.eqb (CAFile c) "" then None
  else Some (MkTLSInfo (CertFile c) (KeyFile c) (CAFile c) (SkipVerify c)).

Definition ServerConfig (c : tls_files) (trustedCA : string) : option TLSInfo :=
  if String.eqb (CertFile c) "" && String.eqb (KeyFile c) "" then None
  else Some (MkTLSInfo (CertFile c) (KeyFile c) trustedCA false).

(** ** The configuration of the endpoint *)
Definition BackendTLSConfig (cfg : settings) : tls_files :=
  MkTLSFiles (str cfg "config.BackendTLSConfig.CertFile") (str cfg "config.BackendTLSConfig.KeyFile")
    (str cfg "config.BackendTLSConfig.CAFile") (flag_on cfg "config.BackendTLSConfig.SkipVerify").
Definition ServerTLSConfig (cfg : settings) : tls_files :=
  MkTLSFiles (str cfg "config.ServerTLSConfig.CertFile") (str cfg "config.ServerTLSConfig.KeyFile") "" false.
Definition PoolConfig (cfg : settings) : ConnectionPoolConfig :=
  MkPool (int cfg "config.ConnectionPoolConfig.MaxIdle") (int cfg "config.ConnectionPoolConfig.MaxOpen")
    (int cfg "config.ConnectionPoolConfig.MaxLifetime") (int cfg "config.ConnectionPoolConfig.MaxIdleTime").

(** ** [run] *)
Inductive emition : Type :=
  | Logging (json debug : bool)
  | SignalContext
  | RegisterCoreCollectors
  | CallListen (metricsTLS : tls_files)
  | ServeMetrics
  | WaitGroupWait.

(** [listen] is the error of [endpoint.Listen], [ctx_Err] that of the signal
    context once everything has ended. *)
Definition run (positional : nat) (cfg : settings) (debug : bool) (listen ctx_Err : gerr) : ST (list emition) gerr :=
  if negb (positional =? 0)%nat then st_ret (Some (ErrOther "kine does not accept positional arguments, only flags"))
  else
    let format := str cfg "config.LogFormat" in
    if negb (String.eqb format "plain" || String.eqb format "json") then
      st_ret (Some (ErrOther ("invalid log format: " +:+ format)))
    else
      _ <- emit (Logging (String.eqb format "json") debug);;
      _ <- emit SignalContext;;
      let metricsTLS := if flag_on cfg "metricsIgnoreTLSConfig" then MkTLSFiles "" "" "" false else ServerTLSConfig cfg in
      _ <- emit RegisterCoreCollectors;;
      _ <- emit (CallListen metricsTLS);;
      match listen with
      | Some e => st_ret (Some e)
      | None =>
          _ <- emit ServeMetrics;;
          _ <- emit WaitGroupWait;;
          st_ret ctx_Err
      end.

(** ** What the command line does *)
(** No two flags share a name, an environment variable or a destination. *)
Lemma flags_distinct : NoDup (f_name <$> Flags) /\ NoDup (f_destination <$> Flags) /\ NoDup (Flags ≫= f_env).
Proof. split_and!; apply (bool_decide_unpack _); vm_compute; exact I. Qed.

(** Every flag has a variable of its own: it holds what was chosen for that
    flag, whatever the other flags are set to. *)
Theorem one_flag (values : flag -> value) (f : flag) : f ∈ Flags -> var (New values) (f_destination f) = values f.
Proof.
  intros Hf. unfold var. destruct (list_find (fun p : string * value => p.1 = f_destination f) (New values)) as [[i [d v]]|] eqn:E.
  - apply list_find_Some in E as (Hi&Hd&_). cbn in Hd. unfold New in Hi. apply list_lookup_fmap_Some in Hi as (g&[= -> ->]&Hg).
    apply list_elem_of_lookup in Hf as [j Hj]. assert (i = j) as ->; [|congruence]. destruct flags_distinct as (_&Hn&_).
    eapply NoDup_lookup; [exact Hn|rewrite list_lookup_fmap, Hg; reflexivity|]. by rewrite list_lookup_fmap, Hj, Hd.
  - apply list_find_None in E. rewrite Forall_forall in E. destruct (E (f_destination f, values f)); [|done].
    apply list_elem_of_fmap. by exists f.
Qed.

Lemma one_flag_witness : var (New (fun f => if String.eqb (f_name f) "compact-interval" then VDuration 300000000000 else f_value f)) "config.CompactInterval" = VDuration 300000000000.
Proof.
  apply (one_flag (fun f => if String.eqb (f_name f) "compact-interval" then VDuration 300000000000 else f_value f)
    (MkFlag "compact-interval" (VDuration 0) "config.CompactInterval" ["KINE_COMPACT_INTERVAL"])).
  apply list_elem_of_In. cbn. auto 30.
Defined.

(** The defaults fit the components they are for: the server listens on a TCP
    port without encryption and says so, compaction is left to the client, the
    poller and a manual compaction get sizes that are accepted, and the pool
    keeps twenty idle connections. *)
Theorem default_config_fits : let cfg := New f_value in
  createListener (str cfg "config.Listener") = ("tcp", "0.0.0.0:2379") /\
  (forall addr port, endpointURL (str cfg "config.Listener") (ServerTLSConfig cfg) addr (Some port) = "http://127.0.0.1:" +:+ port) /\
  ClientConfig (BackendTLSConfig cfg) = None /\
  (forall t n currentRev jitter, CurrentRevSQL t = Some n -> exists s,
     startWatch (int cfg "config.CompactInterval") (int cfg "config.CompactIntervalJitter") jitter t currentRev = Started NoCompactor s) /\
  minCompactBatchSize <= int cfg "config.CompactBatchSize" /\ 0 < int cfg "config.CompactMinRetain" <= maxInt64 /\
  0 < int cfg "config.PollBatchSize" /\
  configureConnectionPooling (PoolConfig cfg) = MkPool 20 0 0 120000000000 /\
  (run 0 cfg false None None []).1 = None.
Proof.
  split; [vm_compute; reflexivity|]. split; [intros addr port; reflexivity|]. split; [vm_compute; reflexivity|].
  split; [|vm_compute; repeat split; discriminate].
  intros t n cur jitter Hn. unfold startWatch, Sql.CurrentRevision. rewrite Hn. eexists. reflexivity.
Qed.

(** [skip-verify] alone changes nothing: without a file there is no TLS
    configuration to carry it. *)
Theorem skip_verify_alone (skip : bool) : ClientConfig (MkTLSFiles "" "" "" skip) = None.
Proof. reflexivity. Qed.
