(* ===== verification/Process.v ===== *)
(** * The process around the server (pkg/signals, pkg/metrics)

    The goroutine that waits for signals as a step relation, what the metrics
    server serves, and what is recorded of a statement. *)
From S2P Require Import Prelude Types GoStrings Config Endpoint SqlOpen SqlPoll App.

(** ** Signals (signal.go) *)
(** [shutdownHandler] holds two signals; [g_point] is where the goroutine is:
    waiting for the first, for the second, or after [os.Exit]. *)
Inductive gpoint : Type := First | Second | Exited.
Record sig_state := MkSig { handlers : nat; shutdownHandler : option nat; g_point : gpoint; sig_Done : bool }.

Definition sig_init : sig_state := MkSig 0 None First false.

(** [SetupSignalContext]: the second call panics. *)
Definition SetupSignalContext (s : sig_state) : option sig_state :=
  match handlers s with
  | O => Some (MkSig 1 (Some 0%nat) First false)
  | S _ => None
  end.

(** A send that does not block; the same of the runtime when a signal arrives. *)
Definition RequestShutdown (s : sig_state) : bool * sig_state :=
  match shutdownHandler s with
  | Some n => if (n <? 2)%nat then (true, MkSig (handlers s) (Some (S n)) (g_point s) (sig_Done s)) else (false, s)
  | None => (false, s)
  end.

Definition receive (s : sig_state) : sig_state :=
  match shutdownHandler s, g_point s with
  | Some (S n), First => MkSig (handlers s) (Some n) Second true
  | Some (S n), Second => MkSig (handlers s) (Some n) Exited true
  | _, _ => s
  end.

(** The steps of the process, counting the signals that were accepted. *)
Inductive sig_steps : sig_state -> nat -> Prop :=
  | sig_start : sig_steps sig_init 0
  | sig_setup s s' n : sig_steps s n -> SetupSignalContext s = Some s' -> sig_steps s' n
  | sig_send s n : sig_steps s n -> sig_steps (RequestShutdown s).2 (if (RequestShutdown s).1 then S n else n)
  | sig_receive s n : sig_steps s n -> sig_steps (receive s) n.

Definition taken (p : gpoint) : nat := match p with First => 0 | Second => 1 | Exited => 2 end.

(** The signals accepted are those taken and those that wait.  So the context
    ends with the first signal and the process with the second, neither without
    one; while the process runs a signal is refused only when nobody has set up
    the handler or two wait, and one that is accepted is acted on. *)
Theorem signals_counted (s : sig_state) (n : nat) : sig_steps s n ->
  n = (taken (g_point s) + default 0 (shutdownHandler s))%nat /\
  (sig_Done s = true <-> g_point s <> First) /\
  (sig_Done s = true -> (1 <= n)%nat) /\ (g_point s = Exited -> (2 <= n)%nat) /\
  ((RequestShutdown s).1 = false <-> shutdownHandler s = None \/ shutdownHandler s = Some 2%nat) /\
  ((1 <= n)%nat -> g_point s = First -> sig_Done (receive s) = true).
Proof.
  intros Hs.
  assert (Hinv : n = (taken (g_point s) + default 0 (shutdownHandler s))%nat /\ (sig_Done s = true <-> g_point s <> First) /\
    (default 0 (shutdownHandler s) <= 2)%nat /\ (shutdownHandler s = None -> n = 0%nat) /\ (handlers s = 0%nat -> shutdownHandler s = None /\ g_point s = First)).
  { induction Hs as [|s s' n _ IH Hset|s n _ IH|s n _ IH].
    - cbn. repeat split; try done; lia.
    - unfold SetupSignalContext in Hset. destruct (handlers s); [|done]. injection Hset as <-. cbn.
      destruct IH as (_&_&_&Hn&Hh). destruct (Hh eq_refl) as [Hnone _]. specialize (Hn Hnone). repeat split; try done; lia.
    - unfold RequestShutdown. destruct (shutdownHandler s) as [k|] eqn:Hk; [|cbn; rewrite Hk; exact IH].
      destruct (Nat.ltb_spec k 2); cbn; [|rewrite Hk; exact IH]. destruct IH as (Hn&Hd&Hle&_&Hh). cbn in *.
      split; [lia|]. split; [done|]. split; [lia|]. split; [done|]. intros H0. by destruct (Hh H0).
    - unfold receive. destruct (shutdownHandler s) as [[|k]|] eqn:Hk; [rewrite Hk; exact IH| |rewrite Hk; exact IH].
      destruct (g_point s) eqn:Hg; [| |rewrite Hk, Hg; exact IH]; destruct IH as (Hn&Hd&Hle&_&Hh); cbn in *;
        (split; [lia|]; split; [done|]; split; [lia|]; split; [done|]; intros H0; by destruct (Hh H0)). }
  destruct Hinv as (Hn&Hd&Hle&Hnone&_). split; [done|]. split; [done|]. repeat split.
  - intros Hdone. apply Hd in Hdone. destruct (g_point s); cbn in Hn; [done|lia..].
  - intros Hp. rewrite Hp in Hn. cbn in Hn. lia.
  - unfold RequestShutdown. destruct (shutdownHandler s) as [k|]; [|by left]. destruct (Nat.ltb_spec k 2); [done|]. intros _. right. cbn in Hle. f_equal. lia.
  - unfold RequestShutdown. by intros [-> | ->].
  - intros H1 Hp. unfold receive. rewrite Hp in *. cbn in Hn. destruct (shutdownHandler s) as [[|k]|]; cbn in *; [lia|done|lia].
Qed.

(** ** The metrics server (server.go) *)
Record metrics_config := MkMetrics { ServerAddress : string; metrics_cert : string; metrics_key : string; EnableProfiling : bool }.
Definition defaultBindAddress : string := ":8080".
Definition metricsPath : string := "/metrics".

(** Where [Serve] listens, whether with TLS, and the paths of its handlers;
    [None] when it does not. *)
Definition Serve (c : metrics_config) : option (string * bool * list string) :=
  let addr := if String.eqb (ServerAddress c) "" then defaultBindAddress else ServerAddress c in
  if String.eqb addr "0" then None
  else
    let tls := negb (String.eqb (metrics_cert c) "") && negb (String.eqb (metrics_key c) "") in
    Some (addr, tls, metricsPath ::
      if EnableProfiling c then ["/debug/pprof/"; "/debug/pprof/cmdline"; "/debug/pprof/profile"; "/debug/pprof/symbol"; "/debug/pprof/trace"] else []).

(** What [run] serves metrics with. *)
Definition metrics_of (cfg : settings) : metrics_config :=
  let tls := if flag_on cfg "metricsIgnoreTLSConfig" then MkTLSFiles "" "" "" false else ServerTLSConfig cfg in
  MkMetrics (str cfg "metricsConfig.ServerAddress") (CertFile tls) (KeyFile tls) (flag_on cfg "metricsConfig.EnableProfiling").

(** Metrics are encrypted exactly when the server is, unless that is switched
    off; profiles are served only on demand; and the address 0 switches the
    server off. *)
Theorem metrics_follow_server (cfg : settings) : let addr := str cfg "metricsConfig.ServerAddress" in
  (Serve (metrics_of cfg) = None <-> addr = "0") /\
  forall a tls paths, Serve (metrics_of cfg) = Some (a, tls, paths) ->
    tls = server_tls (ServerTLSConfig cfg) && negb (flag_on cfg "metricsIgnoreTLSConfig") /\
    (("/debug/pprof/" ∈ paths) <-> flag_on cfg "metricsConfig.EnableProfiling" = true) /\ a = (if String.eqb addr "" then ":8080" else addr).
Proof.
  intros addr. unfold Serve, metrics_of. cbn. fold addr.
  destruct (String.eqb_spec addr "") as [Ha|Ha]; cbn.
  - split; [split; [done|]; rewrite Ha; done|]. intros a tls paths [= <- <- <-]. split; [|split; [|done]].
    + destruct (flag_on cfg "metricsIgnoreTLSConfig"); cbn; [by rewrite andb_false_r|by rewrite andb_true_r].
    + destruct (flag_on _ _); rewrite ?elem_of_cons, ?elem_of_nil; split; intros; intuition (congruence || done).
  - destruct (String.eqb_spec addr "0") as [H0|H0]; [done|]. split; [done|]. intros a tls paths [= <- <- <-]. split; [|split; [|done]].
    + destruct (flag_on cfg "metricsIgnoreTLSConfig"); cbn; [by rewrite andb_false_r|by rewrite andb_true_r].
    + destruct (flag_on _ _); rewrite ?elem_of_cons, ?elem_of_nil; split; intros; intuition (congruence || done).
Qed.

(** ** Statements (metrics.go) *)
(** What [ObserveSQL] records: the counters, and the line it logs. *)
Inductive sql_line : Type := SlowInfo | SlowWarn.
Record observation := MkObs { counted : bool; slow : option sql_line; with_retries : bool }.

Definition ObserveSQL (SlowSQLThreshold SlowSQLWarningThreshold : Z) (name : string) (duration : Z) (retries : nat) : observation :=
  if String.eqb name "" then MkObs false None false
  else
    if (SlowSQLThreshold >? 0) && (duration >=? SlowSQLThreshold) then
      MkObs true (Some (if duration <? SlowSQLWarningThreshold then SlowInfo else SlowWarn)) (0 <? retries)%nat
    else MkObs true None false.

(** Every named statement is counted; it is logged when it is slow, as a warning
    from the second threshold on, and not at all with a threshold of zero: then
    no warning is logged either. *)
Lemma observe_outcome (slow_at warn_at : Z) (name : string) (duration : Z) (retries : nat) : name <> "" ->
  let o := ObserveSQL slow_at warn_at name duration retries in
  counted o = true /\ (slow o = Some SlowWarn <-> 0 < slow_at /\ slow_at <= duration /\ warn_at <= duration) /\
  (slow o = Some SlowInfo <-> 0 < slow_at <= duration /\ duration < warn_at).
Proof.
  intros Hn. unfold ObserveSQL. rewrite (proj2 (String.eqb_neq _ _) Hn). cbv zeta.
  destruct (Z.gtb_spec slow_at 0), (Z.geb_spec duration slow_at); cbn; try (split; [done|split; (split; [done|lia])]).
  destruct (Z.ltb_spec duration warn_at); (split; [done|split; split; try done; lia]).
Qed.
