(* ===== verification/Drivers.v ===== *)
(** * The drivers of the program (pkg/endpoint/init.go and the constructors of
    drivers/sqlite, drivers/mysql and drivers/pgsql)

    Which schemes the program serves, and each SQL driver's [New] from the data
    source name to a backend: the configuration, the creation of the database,
    the connection, the schema and the migration of an older table, in the order
    of the code and ending where it ends.  What the database libraries and the
    server answer are parameters, as in the files that model the single parts. *)
From S2P Require Import Prelude Types GoStrings Objects Config Sql SqlOpen SqlSetup SqlSetupProofs SqlConfig Endpoint SqlPoll App.
From stdpp Require Import gmap strings.
Local Open Scope Z_scope.

(** ** The schemes *)
Inductive constructor : Type := SqliteNew | SqliteNewWithLitestream | MysqlNew | PgsqlNew.

#[export] Instance constructor_eq_dec : EqDecision constructor.
Proof. solve_decision. Defined.

(** The [init] functions of the packages that init.go imports. *)
Definition linked_drivers : driver_registry :=
  SetDefault "sqlite" (Register "litestream" SqliteNewWithLitestream (Register "sqlite" SqliteNew
    (Register "postgresql" PgsqlNew (Register "postgres" PgsqlNew (Register "mysql" MysqlNew (MkDrivers ∅ "")))))).

(** ** The databases of a server *)
Definition ErrBadDB : err := ErrOther "1049".
Definition is_bad_db (e : err) : bool := match e with ErrOther n => String.eqb n "1049" | _ => false end.

Section databases.
(** Whether the server can be reached, how the query for the database ends,
    and whether it refuses to create one. *)
Variables (reach select_err deny : gerr).

(** A connection that names a database: there has to be one. *)
Definition connect (name : string) (dbs : gset string) : gerr :=
  match reach with
  | Some e => Some e
  | None => if String.eqb name "" || bool_decide (name ∈ dbs) then None else Some ErrBadDB
  end.

Definition create_database (conn name : string) (dbs : gset string) : gerr * gset string :=
  match connect conn dbs, deny with
  | Some e, _ => (Some e, dbs)
  | None, Some e => (Some e, dbs)
  | None, None => (None, {[name]} ∪ dbs)
  end.

(** The result of the query: an error leaves [exists] false. *)
Definition db_exists (conn name : string) (dbs : gset string) : bool :=
  match connect conn dbs, select_err with None, None => bool_decide (name ∈ dbs) | _, _ => false end.

(** mysql.go, [createDBIfNotExist]; [NewConnector_] is that of the second connector. *)
Definition Mysql_createDBIfNotExist (NewConnector_ : gerr) (dbName : string) (dbs : gset string) : gerr * gset string :=
  if db_exists dbName dbName dbs then (None, dbs)
  else
    match create_database dbName dbName dbs with
    | (None, dbs) => (None, dbs)
    | (Some e, dbs) =>
        if negb (is_bad_db e) then (Some e, dbs)
        else match NewConnector_ with
             | Some e => (Some e, dbs)
             | None => create_database "" dbName dbs
             end
    end.

(** pgsql.go, [createDBIfNotExist]: over the database postgres, and whatever
    goes wrong is only logged. *)
Definition Pgsql_createDBIfNotExist (Database : string) (dbs : gset string) : gset string :=
  match connect "postgres" dbs with
  | Some _ => dbs
  | None => if db_exists "postgres" Database dbs then dbs else (create_database "postgres" Database dbs).2
  end.

Lemma create_database_spec (conn name : string) (dbs : gset string) :
  match create_database conn name dbs with
  | (None, dbs') => dbs' = {[name]} ∪ dbs /\ connect conn dbs = None /\ deny = None
  | (Some e, dbs') => dbs' = dbs /\ (connect conn dbs = Some e \/ deny = Some e)
  end.
Proof using Type. unfold create_database. destruct (connect conn dbs), deny; auto. Qed.

(** Nothing but the database of the configuration is created, and when no
    error is returned it is there. *)
Lemma mysql_createDB_outcome (NewConnector_ : gerr) (name : string) (dbs : gset string) :
  match Mysql_createDBIfNotExist NewConnector_ name dbs with
  | (None, dbs') => dbs' = {[name]} ∪ dbs
  | (Some e, dbs') => dbs' = dbs
  end.
Proof using Type.
  unfold Mysql_createDBIfNotExist, db_exists. pose proof (create_database_spec name name dbs) as H1. pose proof (create_database_spec "" name dbs) as H2.
  assert (Hin : name ∈ dbs -> dbs = {[name]} ∪ dbs) by set_solver.
  destruct (connect name dbs), select_err; cbn; try destruct (decide (name ∈ dbs)) as [Hd|Hd].
  all: try (rewrite bool_decide_true by done; auto; fail). all: try rewrite bool_decide_false by done.
  all: destruct (create_database name name dbs) as [[e'|] d1]; [destruct H1 as [-> _]; destruct (negb _); [done|]; destruct NewConnector_; [done|]|by destruct H1].
  all: destruct (create_database "" name dbs) as [[e''|] d2]; by destruct H2.
Qed.

(** It does succeed, also where connecting to the missing database is refused. *)
Lemma mysql_createDB_succeeds (name : string) (dbs : gset string) : reach = None -> deny = None ->
  Mysql_createDBIfNotExist None name dbs = (None, {[name]} ∪ dbs).
Proof using Type.
  intros Hr Hd. pose proof (mysql_createDB_outcome None name dbs) as Ho.
  assert (Hn : (Mysql_createDBIfNotExist None name dbs).1 = None).
  { unfold Mysql_createDBIfNotExist. destruct (db_exists _ _ _); [done|]. unfold create_database, connect. rewrite Hr, Hd.
    destruct (String.eqb name "" || bool_decide (name ∈ dbs)); done. }
  destruct (Mysql_createDBIfNotExist None name dbs) as [[e|] d]; [done|]. by rewrite Ho.
Qed.

Lemma pgsql_createDB_outcome (name : string) (dbs : gset string) :
  let dbs' := Pgsql_createDBIfNotExist name dbs in
  (dbs' = dbs \/ dbs' = {[name]} ∪ dbs) /\ (reach = None -> "postgres" ∈ dbs -> deny = None -> name ∈ dbs').
Proof using Type.
  cbv zeta. unfold Pgsql_createDBIfNotExist. pose proof (create_database_spec "postgres" name dbs) as Hc. unfold db_exists.
  destruct (connect "postgres" dbs) as [e|] eqn:Ec.
  - split; [by left|]. intros Hr Hp _. unfold connect in Ec. rewrite Hr in Ec. cbn in Ec. by rewrite bool_decide_true in Ec.
  - destruct select_err as [e|]; [|destruct (bool_decide_reflect (name ∈ dbs)); [split; [by left|done]|]].
    all: destruct (create_database "postgres" name dbs) as [[e'|] d]; cbn.
    all: destruct Hc as [-> Hc]; (split; [auto|intros Hr Hp Hd]); first [by set_solver | destruct Hc as [Hc|Hc]; congruence].
Qed.
End databases.

(** ** The constructors *)
(** How a constructor ends: with an error, by dereferencing the database that
    was never opened, or with a backend, of which it says whether Kubernetes
    components should elect leaders, and whether it has the transaction wrapper. *)
Inductive result : Type := Failed (e : err) | Panics | Built (leaderElect transactions : bool).

(** The server's databases, and of the driver's own the catalog, the table of
    an older version and the table kine. *)
Record sqlworld := MkSqlWorld { databases : gset string; cat : catalog; key_value : option (list kv_row); kine : table }.
Definition with_databases (dbs : gset string) (w : sqlworld) : sqlworld := MkSqlWorld dbs (cat w) (key_value w) (kine w).

Section constructors.
(** The pings of [OpenDB] and the end of its context; the server's dialect; the
    variable [KINE_SCHEMA_MIGRATION]; reaching the server for its databases. *)
Context (ping : nat -> nat -> gerr) (done : nat -> bool) (d : dbms) (env : string) (reach select_err deny : gerr).

(** From the connector on. *)
Definition open_and_set_up (leaderElect transactions : bool) (what : option string) (setup : catalog -> gerr * catalog) : ST sqlworld result := fun w =>
  match OpenDB ping done with
  | NilDB => (Panics, w)
  | Cancelled => (Failed (ErrOther "context canceled"), w)
  | Opened _ =>
      let (e, c) := setup (cat w) in
      match e with
      | Some e => (Failed (match what with Some what => wrapped what e | None => e end), MkSqlWorld (databases w) c (key_value w) (kine w))
      | None => (Built leaderElect transactions, MkSqlWorld (databases w) c (key_value w) (Migrate (key_value w) (kine w)))
      end
  end.

(** sqlite.go, [NewVariant], for [New] and [NewWithLitestream]. *)
Definition Sqlite_New (ParseQuery : string -> UrlValues + err) (Encode : UrlValues -> string) (MkdirAll newConnector_ : gerr)
    (driverName DataSourceName : string) : ST sqlworld result :=
  match (if String.eqb DataSourceName "" then MkdirAll else None) with
  | Some e => st_ret (Failed e)
  | None =>
      let v := SqlConfig.Sqlite.NewVariant ParseQuery Encode driverName DataSourceName in
      match newConnector_ with
      | Some e => st_ret (Failed e)
      | None =>
          open_and_set_up false false (Some "setup db")
            (SqlSetup.Sqlite.setup d (SqlConfig.Sqlite.noCompactCheckpoint v) (SqlConfig.Sqlite.noAutoCheckpoint v)
               (SqlConfig.Sqlite.noStartupVacuum v) (SqlConfig.Sqlite.separateHistory v))
      end
  end.

(** mysql.go, [New]; the TLS library may refuse the files. *)
Definition Mysql_New (ParseDSN : string -> SqlConfig.Mysql.config + err) (tls_err RegisterTLSConfig NewConnector_ NewConnector2_ : gerr)
    (BackendTLSConfig : tls_files) (DataSourceName : string) : ST sqlworld result := fun w =>
  let tls := ClientConfig BackendTLSConfig in
  match (if bool_decide (is_Some tls) then tls_err else None) with
  | Some e => (Failed e, w)
  | None =>
      match SqlConfig.Mysql.prepareConfig ParseDSN RegisterTLSConfig DataSourceName (bool_decide (is_Some tls)), NewConnector_ with
      | inr e, _ => (Failed e, w)
      | _, Some e => (Failed e, w)
      | inl (config, separateHistory), None =>
          let (e, dbs) := Mysql_createDBIfNotExist reach select_err deny NewConnector2_ (SqlConfig.Mysql.DBName config) (databases w) in
          let w := with_databases dbs w in
          match e with
          | Some e => (Failed e, w)
          | None => open_and_set_up true true None (SqlSetup.Mysql.setup d env separateHistory) w
          end
      end
  end.

(** pgsql.go, [New]; [ParseConfig] is the library's, of which the name of the
    database is used, and [version] what the server calls itself. *)
Definition Pgsql_New (ParseURL : string -> SqlConfig.Pgsql.url + err) (ParseQuery : string -> UrlValues + err) (Encode : UrlValues -> string)
    (ParseConfig : SqlConfig.Pgsql.url -> string + err) (version : string + err)
    (BackendTLSConfig : tls_files) (DataSourceName : string) : ST sqlworld result := fun w =>
  match SqlConfig.Pgsql.prepareConfig ParseURL ParseQuery Encode DataSourceName BackendTLSConfig with
  | inr e => (Failed e, w)
  | inl (u, separateHistory) =>
      match ParseConfig u with
      | inr e => (Failed e, w)
      | inl Database =>
          open_and_set_up true true None (SqlSetup.Pgsql.setup d version env separateHistory)
            (with_databases (Pgsql_createDBIfNotExist reach select_err deny Database (databases w)) w)
      end
  end.
End constructors.

(** ** What a start leaves behind *)

(** A migration is made once. *)
Lemma migrate_again (kv : option (list kv_row)) (t : table) : Migrate kv (Migrate kv t) = Migrate kv t.
Proof.
  destruct kv as [[|x kv]|]; [done| |done]. unfold Migrate at 2 3. destruct (rows t) as [|r rs] eqn:Ht.
  - set (l := filter (fun r => latest (x :: kv) r = true) (x :: kv)). unfold Migrate.
    destruct (rows (foldl (fun t r => migrate_row r t) t l)) as [|r rs] eqn:E; [|done].
    apply (f_equal length) in E. rewrite migrate_rows, Ht, length_app, length_imap in E. cbn [length] in E.
    destruct (latest_exists (x :: kv) (kv_name x) ltac:(by left)) as (r&Hr&_&Hlat).
    assert (Hl : r ∈ l) by (by apply list_elem_of_filter). clearbody l. destruct l as [|y l]; [by apply not_elem_of_nil in Hl|done].
  - unfold Migrate. by rewrite Ht.
Qed.

Section start.
Context (ping : nat -> nat -> gerr) (done : nat -> bool) (d : dbms).
Context (knows : knows_index_ifne d = true) (others_run : forall text, other d text = None).
Variables (env : string) (reach select_err deny : gerr).

(** One of the attempts to connect passes its pings. *)
Hypothesis connects : exists i, OpenDB ping done = Opened i.

Lemma set_up_start (le tx : bool) (what : option string) (setup : catalog -> gerr * catalog) (w : sqlworld) (c' : catalog) :
  setup (cat w) = (None, c') ->
  open_and_set_up ping done le tx what setup w = (Built le tx, MkSqlWorld (databases w) c' (key_value w) (Migrate (key_value w) (kine w))).
Proof using connects. intros Hs. unfold open_and_set_up. destruct connects as [i ->]. by rewrite Hs. Qed.

(** C28. A start of the PostgreSQL driver ends with a backend, for leader
    election and behind the transaction wrapper, if its settings are accepted;
    the server can be connected to, knows the conditional creation of indexes
    and refuses none of the statements that are not about tables, indexes and
    triggers (such as the creation of an extension); and what the database has
    under the names of the schema are tables with at least its columns and the
    same indexes.  The schema is then complete, deletions are archived exactly
    if the data source name asks for it, the rows of an older table have been
    migrated, no database but its own has been created; and a second start
    changes nothing. *)
Theorem pgsql_start (ParseURL : string -> SqlConfig.Pgsql.url + err) (ParseQuery : string -> UrlValues + err) (Encode : UrlValues -> string)
  (ParseConfig : SqlConfig.Pgsql.url -> string + err) (version : string + err) (tls : tls_files) (dsn : string)
  (u : SqlConfig.Pgsql.url) (sep : bool) (db : string) (w : sqlworld) :
  SqlConfig.Pgsql.prepareConfig ParseURL ParseQuery Encode dsn tls = inl (u, sep) -> ParseConfig u = inl db ->
  Forall (compatible (cat w)) (SqlSetup.Pgsql.schema ++ SqlSetup.Pgsql.historySchema) ->
  let start := Pgsql_New ping done d env reach select_err deny ParseURL ParseQuery Encode ParseConfig version tls dsn in
  exists w', start w = (Built true true, w') /\ start w' = (Built true true, w') /\
    Forall (satisfied (cat w')) (SqlSetup.Pgsql.schema ++ if sep then SqlSetup.Pgsql.historySchema else []) /\
    (trigger ∈ cat_triggers (cat w') <-> sep = true) /\ kine w' = Migrate (key_value w) (kine w) /\
    (databases w' = databases w \/ databases w' = {[db]} ∪ databases w).
Proof using connects knows others_run.
  intros Hp Hc Hcompat start. destruct (pgsql_setup_complete d knows others_run version env sep (cat w) Hcompat) as (c'&H1&H2&Hs&Ht).
  destruct (pgsql_createDB_outcome reach select_err deny db (databases w)) as [Hdb _]. cbv zeta in Hdb.
  set (create := Pgsql_createDBIfNotExist reach select_err deny db) in *.
  assert (Hstart : forall w0, start w0 = open_and_set_up ping done true true None (SqlSetup.Pgsql.setup d version env sep) (with_databases (create (databases w0)) w0)).
  { intros w0. subst start. unfold Pgsql_New. by rewrite Hp, Hc. }
  eexists. rewrite Hstart. split; [by apply set_up_start|]. rewrite Hstart. cbn [databases cat key_value kine with_databases].
  assert (Hagain : create (create (databases w)) = create (databases w)).
  { destruct Hdb as [Hdb|Hdb]; [by rewrite !Hdb|]. destruct (pgsql_createDB_outcome reach select_err deny db (create (databases w))) as [[?|Hdb'] _]; [done|].
    fold create in Hdb'. rewrite Hdb', Hdb. set_solver. }
  rewrite Hagain. split; [|by auto]. erewrite set_up_start; [|exact H2]. cbn. by rewrite migrate_again.
Qed.

(** The same for SQLite, without a server to have databases, leader election or
    transactions. *)
Theorem sqlite_start (ParseQuery : string -> UrlValues + err) (Encode : UrlValues -> string) (driverName dsn : string) (w : sqlworld) :
  Forall (compatible (cat w)) (SqlSetup.Sqlite.schema ++ SqlSetup.Sqlite.historySchema) ->
  let sep := SqlConfig.Sqlite.separateHistory (SqlConfig.Sqlite.NewVariant ParseQuery Encode driverName dsn) in
  let start := Sqlite_New ping done d ParseQuery Encode None None driverName dsn in
  exists w', start w = (Built false false, w') /\ start w' = (Built false false, w') /\
    Forall (satisfied (cat w')) (SqlSetup.Sqlite.schema ++ if sep then SqlSetup.Sqlite.historySchema else []) /\
    (trigger ∈ cat_triggers (cat w') <-> sep = true) /\ kine w' = Migrate (key_value w) (kine w) /\ databases w' = databases w.
Proof using connects knows others_run.
  intros Hcompat sep start. set (v := SqlConfig.Sqlite.NewVariant ParseQuery Encode driverName dsn) in *.
  destruct (sqlite_setup_complete d knows others_run (SqlConfig.Sqlite.noCompactCheckpoint v) (SqlConfig.Sqlite.noAutoCheckpoint v)
    (SqlConfig.Sqlite.noStartupVacuum v) sep (cat w) Hcompat) as (c'&H1&H2&Hs&Ht).
  assert (Hstart : forall w0, start w0 = open_and_set_up ping done false false (Some "setup db")
    (SqlSetup.Sqlite.setup d (SqlConfig.Sqlite.noCompactCheckpoint v) (SqlConfig.Sqlite.noAutoCheckpoint v) (SqlConfig.Sqlite.noStartupVacuum v) sep) w0).
  { intros w0. subst start. unfold Sqlite_New. by destruct (String.eqb dsn ""). }
  eexists. rewrite Hstart. split; [by apply set_up_start|]. rewrite Hstart. cbn [databases cat key_value kine with_databases].
  split; [|by auto]. erewrite set_up_start; [|exact H2]. cbn. by rewrite migrate_again.
Qed.

(** And for MySQL, under the conditions its set-up needs. *)
Theorem mysql_start (ParseDSN : string -> SqlConfig.Mysql.config + err) (tls : tls_files) (dsn : string)
  (config : SqlConfig.Mysql.config) (sep : bool) (w : sqlworld) :
  reach = None -> deny = None -> SqlSetup.lookup d = None -> schemaVersion env <= 1 ->
  SqlConfig.Mysql.prepareConfig ParseDSN None dsn (bool_decide (is_Some (ClientConfig tls))) = inl (config, sep) ->
  Forall (compatible (cat w)) (SqlSetup.Mysql.schema ++ SqlSetup.Mysql.historySchema) -> cat_tables (cat w) !! "kine" = None ->
  let start := Mysql_New ping done d env reach select_err deny ParseDSN None None None None tls dsn in
  exists w', start w = (Built true true, w') /\ start w' = (Built true true, w') /\
    Forall (satisfied (cat w')) (SqlSetup.Mysql.schema ++ if sep then SqlSetup.Mysql.historySchema else []) /\
    (trigger ∈ cat_triggers (cat w') <-> sep = true) /\ kine w' = Migrate (key_value w) (kine w) /\
    databases w' = {[SqlConfig.Mysql.DBName config]} ∪ databases w.
Proof using connects knows others_run.
  intros Hr Hd Hl Hv Hp Hcompat Hfresh start.
  destruct (mysql_setup_complete d knows others_run env sep (cat w) Hl Hv Hcompat Hfresh) as (c'&H1&H2&Hs&Ht).
  assert (Hstart : forall w0, start w0 = open_and_set_up ping done true true None (SqlSetup.Mysql.setup d env sep)
    (with_databases ({[SqlConfig.Mysql.DBName config]} ∪ databases w0) w0)).
  { intros w0. subst start. unfold Mysql_New. rewrite Hp, mysql_createDB_succeeds by done. by destruct (bool_decide _). }
  eexists. rewrite Hstart. split; [by apply set_up_start|]. rewrite Hstart. cbn [databases cat key_value kine with_databases].
  split; [|by auto]. erewrite set_up_start; [|exact H2]. cbn. rewrite migrate_again. by replace ({[SqlConfig.Mysql.DBName config]} ∪ ({[SqlConfig.Mysql.DBName config]} ∪ databases w))
    with ({[SqlConfig.Mysql.DBName config]} ∪ databases w) by set_solver.
Qed.
End start.

(** ** The schemes that are served *)

Definition served : list (string * constructor) :=
  [("sqlite", SqliteNew); ("litestream", SqliteNewWithLitestream); ("mysql", MysqlNew); ("postgres", PgsqlNew); ("postgresql", PgsqlNew)].

(** The program serves five schemes and the empty endpoint: every other scheme,
    those of the drivers that are not linked in among them, is an unknown
    driver. *)
Theorem linked_schemes (endpoint scheme dsn : string) : Cut endpoint "://" = Some (scheme, dsn) ->
  NewDriver endpoint linked_drivers =
    match list_find (fun p => p.1 = scheme) served with
    | Some (_, (_, c)) => inl (c, Some (scheme, dsn))
    | None => inr (ErrOther "unknown driver")
    end /\
  NewDriver "" linked_drivers = inl (SqliteNew, None).
Proof.
  intros Hc. split; [|reflexivity]. unfold NewDriver. destruct (String.eqb_spec endpoint "") as [->|_]; [done|].
  unfold validateDSNuri, SchemeAndAddress. rewrite Hc. unfold GetDriver. cbn [linked_drivers SetDefault Register driverRegistry].
  cbn [list_find served fst].
  destruct (decide ("litestream" = scheme)) as [<-|H1]; [reflexivity|]. rewrite lookup_insert_ne by done.
  destruct (decide ("sqlite" = scheme)) as [<-|H2]; [reflexivity|]. rewrite lookup_insert_ne by done.
  destruct (decide ("postgresql" = scheme)) as [<-|H3]; [reflexivity|]. rewrite lookup_insert_ne by done.
  destruct (decide ("postgres" = scheme)) as [<-|H4]; [reflexivity|]. rewrite lookup_insert_ne by done.
  destruct (decide ("mysql" = scheme)) as [<-|H5]; [reflexivity|]. rewrite lookup_insert_ne by done. by rewrite lookup_empty.
Qed.

(** ** At work *)
Definition toy_pg_url : SqlConfig.Pgsql.url := SqlConfig.Pgsql.MkUrl "/kubernetes" "" "host".
Definition old_world : sqlworld := MkSqlWorld {["postgres"]} no_catalog (Some [MkKvRow 1 "/a" "1" 0]) (MkTable [] 0).

Lemma pgsql_start_witness : exists w',
  Pgsql_New (fun _ _ => None) (fun _ => false) (toy_dbms true) "" None None None (fun _ => inl toy_pg_url) (fun _ => inl ∅) (fun _ => "")
    (fun _ => inl "kubernetes") (inl "PostgreSQL 17") (MkTLSFiles "" "" "" false) "" old_world = (Built true true, w') /\
  r_name <$> rows (kine w') = ["/a"].
Proof.
  destruct (pgsql_start (fun _ _ => None) (fun _ => false) (toy_dbms true) eq_refl (fun _ => eq_refl) "" None None None
    (ex_intro _ 0%nat eq_refl) (fun _ => inl toy_pg_url) (fun _ => inl ∅) (fun _ => "") (fun _ => inl "kubernetes") (inl "PostgreSQL 17")
    (MkTLSFiles "" "" "" false) "" (SqlConfig.Pgsql.MkUrl "/kubernetes" "" "host") false "kubernetes" old_world) as (w'&H&_&_&_&Hk&_).
  - reflexivity.
  - reflexivity.
  - apply no_catalog_compatible.
  - exists w'. split; [exact H|]. rewrite Hk. reflexivity.
Defined.
