(* ===== verification/Query.v ===== *)
(** * The text of the SQL statements (pkg/query/query.go, drivers/generic/generic.go)

    Named queries: white space, the numbering of parameters, and the
    statements of the dialect as [OpenDB] puts them together, with the number
    of arguments each method passes.  Line breaks in the source text are
    written as blanks here, which is what [Strip] makes of them. *)
From S2P Require Import StreamConfig Prelude Types GoStrings Objects Selectors.
From Stdlib Require Import Ascii.
Local Open Scope Z_scope.

(** ** Named queries *)
(** The class of [whitespace]: line feed, tab, blank. *)
Definition is_ws (c : ascii) : bool := (Ascii.eqb c " " || Ascii.eqb c "009" || Ascii.eqb c "010")%char.

(** A run of them becomes one blank; [in_run] says that one was just written. *)
Fixpoint squeeze (in_run : bool) (s : string) : string :=
  match s with
  | "" => ""
  | String c s => if is_ws c then (if in_run then squeeze true s else String " " (squeeze true s)) else String c (squeeze false s)
  end.
Definition Strip (s : string) : string := TrimSpace (squeeze false s).

Record Named := MkNamed { Name : string; Query : string }.

(** Every [?] becomes [param], followed by its number if they are numbered. *)
Fixpoint replace_params (param : string) (numbered : bool) (n : Z) (query : string) : string :=
  match query with
  | "" => ""
  | String c s =>
      if Ascii.eqb c "?"%char then
        (if numbered then param +:+ FormatInt (n + 1) else param) +:+ replace_params param numbered (n + 1) s
      else String c (replace_params param numbered n s)
  end.

Definition New (query param : string) (numbered : bool) (name : string) : Named :=
  let query := if negb (String.eqb param "?") || numbered then replace_params param numbered 0 query else query in
  MkNamed name (Strip query).

(** [text] is the result of the format. *)
Definition Appendf (q : Named) (text : string) : Named := MkNamed (Name q) (Query q +:+ " " +:+ text).

Definition String_ (q : Named) : string :=
  if String.eqb (Name q) "" then Query q else Query q +:+ " /* " +:+ Name q +:+ " */".

(** ** [fmt.Sprintf] with texts *)
Definition extra (args : list string) : string :=
  match args with [] => "" | _ => "%!(EXTRA " +:+ GoStrings.Join ((fun a => "string=" +:+ a) <$> args) ", " +:+ ")" end.

Fixpoint Sprintf (format : string) (args : list string) : string :=
  match format with
  | "" => extra args
  | String c f =>
      if negb (Ascii.eqb c "%"%char) then String c (Sprintf f args)
      else
        match f with
        | "" => "%!(NOVERB)" +:+ extra args
        | String v f =>
            if Ascii.eqb v "%"%char then String "%" (Sprintf f args)
            else
              match args with
              | [] => "%!" +:+ String v "(MISSING)" +:+ Sprintf f []
              | a :: args =>
                  (if Ascii.eqb v "s"%char then a else "%!" +:+ String v "(string=" +:+ a +:+ ")") +:+ Sprintf f args
              end
        end
  end.

(** ** The statements *)
Definition Columns : string := "id, name, created, deleted, create_revision, prev_revision, lease".
Definition WithVal : string := Columns +:+ ", value".
Definition WithOldVal : string := WithVal +:+ ", old_value".
Definition ListFmt : string :=
  " SELECT current_rev, compact_rev, %s FROM (%s) AS current, (%s) AS compact, kine INNER JOIN (%s) AS mkv USING (id) WHERE (deleted = 0 OR ?) %%%%s ORDER BY name ASC ".
Definition CurrentRevSQL : string := "SELECT MAX(id) AS current_rev FROM kine".
Definition CompactRevSQL : string := "SELECT MAX(prev_revision) AS compact_rev FROM kine WHERE name = 'compact_rev_key'".
Definition BetweenNameSQL : string := "SELECT MAX(id) AS id FROM kine WHERE name >= ? AND name < ? %s GROUP BY name".
Definition EqualsNameSQL : string := "SELECT MAX(id) AS id FROM kine WHERE name = ? %s".

Definition listSQL : string := Sprintf ListFmt [Columns; CurrentRevSQL; CompactRevSQL; BetweenNameSQL].
Definition listValSQL : string := Sprintf ListFmt [WithVal; CurrentRevSQL; CompactRevSQL; BetweenNameSQL].
Definition getSQL : string := Sprintf ListFmt [Columns; CurrentRevSQL; CompactRevSQL; EqualsNameSQL].
Definition getValSQL : string := Sprintf ListFmt [WithVal; CurrentRevSQL; CompactRevSQL; EqualsNameSQL].

Definition single (columns : string) : string :=
  Sprintf "SELECT current_rev, compact_rev, %s FROM (%s) AS current, (%s) AS compact, kine WHERE id = (%s) AND (deleted = 0 OR ?)"
    [columns; CurrentRevSQL; CompactRevSQL; Sprintf EqualsNameSQL [""]].
Definition after (where_ : string) : string :=
  Sprintf ("SELECT current_rev, compact_rev, %s FROM (%s) AS current, (%s) AS compact, kine WHERE " +:+ where_ +:+ "id > ? ORDER BY id ASC")
    [WithOldVal; CurrentRevSQL; CompactRevSQL].
Definition insert (returning : string) : string :=
  "INSERT INTO kine(name, uid, created, deleted, create_revision, prev_revision, lease, value, old_value) SELECT ?, ?, ?, ?, ?, ?, ?, ?, (SELECT value FROM kine WHERE id = ?) AS old_value" +:+ returning.

(** The statements whose text takes selectors. *)
Inductive listing : Type := ListCurrent | ListCurrentVal | ListRevisionStart | ListRevisionStartVal | GetRevisionAfter | GetRevisionAfterVal | CountCurrent | CountRevision.

Definition listing_text (l : listing) : string :=
  match l with
  | ListCurrent => Sprintf listSQL [""]
  | ListCurrentVal => Sprintf listValSQL [""]
  | ListRevisionStart => Sprintf getSQL ["AND id <= ?"]
  | ListRevisionStartVal => Sprintf getValSQL ["AND id <= ?"]
  | GetRevisionAfter => Sprintf listSQL ["AND id <= ?"]
  | GetRevisionAfterVal => Sprintf listValSQL ["AND id <= ?"]
  | CountCurrent =>
      Sprintf "SELECT (%s), COUNT(id) FROM kine INNER JOIN (%s) AS mkv USING (id) WHERE (deleted = 0 OR ?) %%s"
        [CurrentRevSQL; Sprintf BetweenNameSQL [""]]
  | CountRevision =>
      Sprintf "SELECT (%s), (%s), COUNT(id) FROM kine INNER JOIN (%s) AS mkv USING (id) WHERE (deleted = 0 OR ?) %%s"
        [CurrentRevSQL; CompactRevSQL; Sprintf BetweenNameSQL ["AND id <= ?"]]
  end.

Definition listing_name (l : listing) : string :=
  match l with
  | ListCurrent => "ListCurrent" | ListCurrentVal => "ListCurrentVal"
  | ListRevisionStart => "ListRevisionStart" | ListRevisionStartVal => "ListRevisionStartVal"
  | GetRevisionAfter => "GetRevisionAfter" | GetRevisionAfterVal => "GetRevisionAfterVal"
  | CountCurrent => "CountCurrent" | CountRevision => "CountRevision"
  end.

(** The arguments the method passes, before those of selectors. *)
Definition listing_args (l : listing) : nat :=
  match l with
  | ListCurrent | ListCurrentVal | CountCurrent | ListRevisionStart | ListRevisionStartVal => 3
  | GetRevisionAfter | GetRevisionAfterVal | CountRevision => 4
  end%nat.

(** What is sent to the database: the text with the selectors, and a limit. *)
Definition listing_query (param : string) (numbered : bool) (l : listing) (selectors : string) (limit : Z) : Named :=
  let sql := MkNamed "" (Sprintf (String_ (New (listing_text l) param numbered (listing_name l))) [selectors]) in
  if limit >? 0 then Appendf sql ("LIMIT " +:+ FormatInt limit) else sql.

(** The others: text, name, and the number of arguments passed. *)
Definition statements : list (string * string * nat) := [
  ("INSERT INTO kine_labels(kine_id, kine_name, name, value) values(?, ?, ?, ?)", "InsertLabel", 4%nat);
  ("INSERT INTO kine_fields(kine_id, kine_name, value) values(?, ?, ?)", "InsertFields", 3%nat);
  ("INSERT INTO kine_owners(kine_id, owner, block_owner_deletion) values(?, ?, ?)", "InsertOwner", 3%nat);
  ("SELECT s.id, s.name, s.uid, s.create_revision, s.value, COALESCE(s.block_owner_deletion, 0) FROM ( SELECT MAX(k.id) AS id, k.name, k.uid, k.create_revision, k.value, k.deleted, ko.block_owner_deletion FROM kine_owners AS ko INNER JOIN kine AS k ON k.id = ko.kine_id WHERE ko.owner = ? GROUP BY k.name HAVING k.deleted = 0 ) AS s", "GetOwned", 1%nat);
  ("SELECT id, name, deleted, create_revision, value FROM kine WHERE uid = ? ORDER BY id DESC LIMIT 1", "GetUID", 1%nat);
  (CurrentRevSQL, "CurrentRev", 0%nat);
  (CompactRevSQL, "CompactRev", 0%nat);
  (single Columns, "GetSingle", 2%nat);
  (single WithVal, "GetSingleVal", 2%nat);
  (after "name >= ? AND name < ? AND ", "AfterOldVal", 3%nat);
  (after "", "AfterAllOldVal", 1%nat);
  (after "name = ? AND ", "AfterSingleOldVal", 2%nat);
  ("DELETE FROM kine WHERE id = ?", "Delete", 1%nat);
  ("UPDATE kine SET prev_revision = ? WHERE name = 'compact_rev_key'", "UpdateCompact", 1%nat);
  (insert "", "InsertLastInsertID", 9%nat);
  (insert " RETURNING id", "Insert", 9%nat);
  ("INSERT INTO kine(id, name, uid, created, deleted, create_revision, prev_revision, lease, value, old_value) VALUES(?, ?, ?, ?, ?, ?, ?, ?, ?, ?)", "Fill", 10%nat);
  ("DELETE FROM kine AS kv WHERE kv.id IN ( SELECT kp.prev_revision AS id FROM kine AS kp WHERE kp.name != 'compact_rev_key' AND kp.prev_revision != 0 AND kp.id <= ? UNION SELECT kd.id AS id FROM kine AS kd WHERE kd.deleted != 0 AND kd.id <= ?)", "Compact", 2%nat)
].

(** ** Every parameter has its argument *)
(** The numbering of named queries is that of the selectors. *)
Lemma replace_params_numbered (query : string) (n : Z) : replace_params "$" true n query = replaceParamsToNumbers query n.
Proof.
  revert n. induction query as [|c s IH]; intros n; [done|]. cbn [replace_params replaceParamsToNumbers].
  destruct (Ascii.eqb c "?"%char); rewrite IH; [|done]. by rewrite string_app_assoc.
Qed.

Lemma Sprintf_plain (post : string) : no_char "%"%char post = true -> Sprintf post [] = post.
Proof.
  induction post as [|c s IH]; [done|]. cbn [no_char Sprintf]. intros [Hc Hs]%andb_prop.
  rewrite Ascii.eqb_sym in Hc. rewrite Hc. by rewrite IH.
Qed.

(** A text with a single verb. *)
Lemma Sprintf_split (pre post arg : string) : no_char "%"%char pre = true -> no_char "%"%char post = true ->
  Sprintf (pre +:+ "%s" +:+ post) [arg] = pre +:+ arg +:+ post.
Proof.
  induction pre as [|c s IH]; intros Hpre Hpost.
  - change ("" +:+ "%s" +:+ post) with (String "%" (String "s" post)). cbn. by rewrite Sprintf_plain.
  - cbn [no_char] in Hpre. apply andb_prop in Hpre as [Hc Hs].
    change (String c s +:+ "%s" +:+ post) with (String c (s +:+ "%s" +:+ post)). cbn [Sprintf].
    rewrite Ascii.eqb_sym in Hc. rewrite Hc, IH by done. done.
Qed.

(** The parts of a statement around its selectors. *)
Definition parts (param : string) (numbered : bool) (l : listing) : string * string :=
  default ("", "") (Cut (String_ (New (listing_text l) param numbered (listing_name l))) "%s").

Lemma listing_parts (l : listing) :
  let '(pre, post) := parts "?" false l in
  String_ (New (listing_text l) "?" false (listing_name l)) = pre +:+ "%s" +:+ post /\
  String_ (New (listing_text l) "$" true (listing_name l)) = replaceParamsToNumbers pre 0 +:+ "%s" +:+ post /\
  no_char "%"%char pre = true /\ no_char "%"%char (replaceParamsToNumbers pre 0) = true /\ no_char "%"%char post = true /\
  qmarks pre = listing_args l /\ qmarks post = O.
Proof. destruct l; vm_compute; repeat split. Qed.

Lemma number_plain (s : string) (n : Z) : qmarks s = O -> replaceParamsToNumbers s n = s.
Proof.
  revert n. induction s as [|c s IH]; intros n; [done|]. cbn [qmarks replaceParamsToNumbers].
  destruct (Ascii.eqb c "?"%char); [lia|]. intros H. by rewrite IH.
Qed.

Lemma qmarks_no_char (s : string) : no_char "?"%char s = true -> qmarks s = O.
Proof.
  induction s as [|c s IH]; [done|]. cbn [no_char qmarks]. intros [Hc%negb_true_iff Hs]%andb_prop.
  rewrite Ascii.eqb_sym in Hc. by rewrite Hc, IH.
Qed.

(** The text of a limit. *)
Definition limit_text (limit : Z) : string := if limit >? 0 then " LIMIT " +:+ FormatInt limit else "".

Lemma limit_text_plain (limit : Z) : int64_ok limit -> qmarks (limit_text limit) = O.
Proof.
  intros H. unfold limit_text. destruct (limit >? 0); [|done]. rewrite qmarks_app. cbn.
  apply qmarks_no_char, FormatInt_no_char; done.
Qed.

Lemma listing_query_text (param : string) (numbered : bool) (l : listing) (selectors : string) (limit : Z) :
  Query (listing_query param numbered l selectors limit) =
  Sprintf (String_ (New (listing_text l) param numbered (listing_name l))) [selectors] +:+ limit_text limit.
Proof. unfold listing_query, limit_text. destruct (limit >? 0); [done|]. by rewrite string_app_nil_r. Qed.

(** C27. The text of the listing and counting statements with any selectors
    and any limit: it has as many parameters as the method passes arguments
    and the selectors add, and the text for PostgreSQL, whose selectors are
    numbered on from those arguments, is the same text with all its
    parameters numbered from one in the order of the arguments. *)
Theorem listing_query_params (l : listing) (raw : string) (limit : Z) (ok : int64_ok limit) :
  let sent := Query (listing_query "?" false l raw limit) in
  qmarks sent = (listing_args l + qmarks raw)%nat /\
  Query (listing_query "$" true l (replaceParamsToNumbers raw (Z.of_nat (listing_args l))) limit) = replaceParamsToNumbers sent 0.
Proof.
  pose proof (listing_parts l) as H. destruct (parts "?" false l) as [pre post].
  destruct H as (E&E'&Hpre&Hpre'&Hpost&Hq&Hq'). cbn zeta. rewrite !listing_query_text, E, E', !Sprintf_split by done. split.
  - rewrite !qmarks_app, Hq, Hq', (limit_text_plain limit ok). lia.
  - rewrite !number_app, Hq, (number_plain post), (number_plain (limit_text limit)) by (done || by apply limit_text_plain).
    done.
Qed.

(** Every other statement has as many parameters as its method passes
    arguments, and its text for PostgreSQL is the same with the parameters
    numbered from one. *)
Theorem statements_arity :
  Forall (fun '(text, name, n) =>
    let sent := Query (New text "?" false name) in
    qmarks sent = n /\ Query (New text "$" true name) = replaceParamsToNumbers sent 0) statements.
Proof. unfold statements. repeat (apply Forall_cons; split; [vm_compute; split; reflexivity|]). apply Forall_nil. done. Qed.

Lemma listing_query_params_witness :
  qmarks (Query (listing_query "?" false GetRevisionAfterVal " AND id IN (SELECT ?)" 10)) = 5%nat.
Proof. apply (listing_query_params GetRevisionAfterVal " AND id IN (SELECT ?)" 10). vm_compute. split; discriminate. Defined.
